(* ===== verification/_CoqProject ===== *)
-Q . S2P
Prelude.v
Float64.v
Strconv.v
Shred.v
AlterKey.v
Udp.v
UdpBatch.v
Stats.v
Histogram.v
Counters.v
Json.v
Config.v
Fluentd.v
Redact.v
Logger.v
Registrar.v
Sniffer.v
NetListen.v
Discovery.v
Monitor.v
Firedancer.v
Gateway.v
Loops.v
CommandLine.v
System.v
Program.v
StatsRun.v
