(* ===== verification/Prelude.v ===== *)
(** * solana-gateway: verification library

    The program runs beside a Solana validator.  It registers with a relay (the optimized
    feed relay, OFR), receives shreds - pieces of blocks in UDP datagrams - from it, and
    forwards them to the validator; and it captures the shreds the validator receives and
    sends, and forwards those to the relay.  All receive paths share a cache of shred keys,
    so that no shred is forwarded twice or sent back.  This library models its Go code and
    proves what its parts promise to each other.

    ** Parts of the program and files of the library

    - [Shred] ([pkg/solana/shred.go]): the two shred parsers, the variant byte, the size
      rules, the 64-bit deduplication key and the sampling predicate.
    - [AlterKey] ([pkg/cache/alterkey.go]): the deduplication cache, two Go maps in a store
      whose references are swapped by the cleanup; its specification (a cache of epochs), a
      simulation between the two, and the interface [DedupCache]/[DedupCacheLaws] against
      which the receive paths are proved.
    - [Udp] ([pkg/udp/udp.go]): socket addresses and their conversions, descriptors, and the
      port allocator [FDSet.NextFD].
    - [UdpBatch] ([pkg/udp/udp_batch.go], [packet.go]): connections that read and write batches,
      the pool of batches, binding a port of a range, and another form of addresses.
    - [Stats] ([pkg/ofr/stats.go], [success_counter.go]): the counters of shreds by source, the
      flush, the report table, the keyed counter.
    - [Histogram] ([pkg/ofr/histogram.go], and the options of [stats.go]): histograms filled by
      a goroutine, and the flush with them; the third-party histogram is the class [Hdr] with
      the laws [HdrLaws].
    - [Counters]: the goroutines that print the keyed and the success counter, beside those
      that count.
    - [Fluentd] ([pkg/ofr/fluentd.go]): the records posted to fluentD, and their JSON.
    - [Config] ([pkg/config/gateway.go]): the configuration, written for the relay and read.
    - [CommandLine] ([bxgateway/cmd/gateway/main.go]): the flags, the port range, and [run], which
      builds and starts the gateway from all parts; [Redact] is its redaction of the header.
    - [Logger] ([pkg/logger/logger.go]): the logger's construction and its two implementations.
    - [Registrar] ([bxgateway/internal/gateway/registrar.go]): the request to the relay and the
      classification of failures.
    - [Sniffer] ([pkg/packet/sniffer.go]): the capture loop of one port.
    - [NetListen] ([bxgateway/internal/netlisten/netlisten.go], [pkg/packet/handle_d.go]):
      the set of captured ports, and the handlers of [Recv].
    - [Discovery] ([bxgateway/internal/netutil/udp_l.go]): the ports of captured frames, an
      input of the listener; [Monitor] joins it with the listener's monitor.
    - [Firedancer] ([bxgateway/internal/firedancer/firedancer-sniffer.go]): the receiver that
      replaces the listener beside a Firedancer validator.
    - [Gateway] ([bxgateway/internal/gateway/gateway.go]): registration, start-up, the receive
      loop, the two broadcast loops, the alive messages and the re-registration loop.
    - [Loops]: the endless loops around the iterations of [Gateway], [NetListen] and
      [Firedancer], with their counters and how they end.
    - [System]: the receive and send loops together, over one cache.
    - [Program]: the executions of what [run] starts; it joins [CommandLine] and [System].
    - [StatsRun]: these executions with the goroutines of the statistics and the separate
      steps of their flush in between.
    - [Strconv] and [Json] are the parts of Go's standard library these files use: decimal
      numbers, splitting and joining; UTF-8, JSON documents, their writer and reader.
      [Float64] is the part of [float64] that the sniffer uses: conversion, division and
      comparison, rounded as in IEEE 754 by the Standard Library's specification, and exact
      conditions for comparing quotients of integers below 2^53.

    Names are those of the source, with a prefix where two packages use the same one
    ([GwOption], [NLShred]); [T_Method] is the method [Method] of [T].  One Definition or
    Fixpoint stands for one function or for one iteration of an endless loop; the comment
    at its head says which.

    ** Conventions

    - A call that can fail or panic has the type [outcome]: [Ok], [Err] with a constructor per
      error, or [Panic] with its reason.  The text of messages is not modelled.
    - Effects are explicit: an operation takes the state and gives the new one.  What the
      outside decides - system calls, captures, the relay's answers, name resolution, map
      iteration order, the clock - are arguments.  Where an order matters, a component has
      a type of events and theorems quantify over all sequences of them.
    - Integers are [Z] with the truncation of the Go type written out ([u8] .. [i64]); the
      counters that only reports and log lines show, and lengths, are left without it, since
      they wrap only after 2^63 steps.
      Slices are lists; a [1228]byte array is a list with [is_array1228].
    - Buffered channels are bounded lists; the program only sends without blocking.
    - Loops that Go runs until a condition holds have fuel, and a theorem shows that it is
      enough: [NextFD] visits at most [max - min + 1] ports ([fd_fuel] is one more, and
      [NextFD_first_free] gives its result); [format_uint64] has 20 digits, which hold
      every [uint64]; [Start] is bounded by [registerRetryCount]; the JSON reader has
      [json_fuel], and [parse_fuel_enough] shows that more changes no answer.

    ** What the theorems show

    - The whole program: [program_sends] says of everything that the goroutines of a started
      gateway ever write where it comes from - shreds for the node from the address that the
      relay gave in the latest registration - and where it goes; [program_delivers] that a
      fresh shred of the relay reaches the validator, if its channel has room, and is lost
      otherwise; [program_panics] gives the exact conditions under which an iteration panics,
      among them an answer of the relay with an address that is not IPv4;
      [program_registers] follows the registration from the command
      line to what the relay reads, and back to the address.
    - End to end: [relay_to_node], [node_to_relay], [recv_packet_forwards], [fd_forwards] say
      exactly which input leads to which datagrams on which sockets; [no_duplicate_forward]
      that over every interleaving a key is forwarded once per two cache cleanups;
      [node_stream] and [relay_stream] that over every interleaving the queued shreds are
      written in order, exactly once, with none lost but those that meet a full channel or a
      gateway that is not registered; [foreign_datagrams_ignored] that other sources change
      nothing.
    - Start-up: [run_returns] (the causes of a panic: a port range without a dash, or an
      address that resolves to none of IPv4), [run_wiring] (what the started gateway is made
      of), [port_range_spec], [default_configuration]; [request_hides_header], [Marshal_public]
      and [redact_hides] that the relay does not see the authorization header in the
      configuration, and [redact_leaks] when it does; [Unmarshal_Marshal] that a configuration
      survives the transport.
    - Batches: [packets_isolated] - for callers that free a batch once - and [Read_delivers] on the pool, [ListenUDPInRange_spec],
      [batch_sockets_leak], [double_free_shares].
    - Parsing: acceptance of [ParseShredPartial] as a predicate on bytes, absence of panics,
      agreement of the two parsers, a wire round trip, what the deduplication key identifies,
      soundness of the sniffer's prefilter.
    - Cache: refinement of the epoch specification and the length of the window.
    - Registration: classification of failures, the attempts of [Start], the address after
      [Register], and the watchdog: when the gateway may panic for missing traffic
      ([watchdog_patience]), a race in which it panics too early ([watchdog_race]), and what
      an undisturbed iteration does with every answer ([reRegister_tick_steps]).
    - Captures: what a sniffer delivers ([tolerant_sniffer_complete]), when it stops
      ([strict_sniffer_stops_iff], for fewer than 2^53 frames), how the listener gives up and
      re-opens ports, which ports a scan finds and adds ([scan_ports], [monitor_captures]),
      that no handler panics while a sniffer is left ([Recv_never_panics]), and what happens
      when none is ([all_sniffers_gone]).
    - Loops: the health lines of the two receive loops ([receive_loop_health], [recv_health]),
      the counters of the Firedancer receiver ([fd_counts]).
    - Sockets: the port allocator finds the first free port of its cyclic scan or closes the
      socket ([NextFD_first_free]); comparisons and conversions of addresses.
    - Statistics: [program_statistics], where each shred that arrives at the program ends up
      in the reports, and [flush_torn], that a report is not a snapshot;
      conservation of counts through record, run and flush, also of histograms
      ([hist_conserves]) and of the counters that print themselves ([keyed_counter_lines],
      [success_counter_conserves]); the report table; what is posted to fluentD
      ([flush_posts_spec], [stats_posts_spec]).

    Theorems that state a defect ([ParseShred_panics_iff], [NextFD_port_zero],
    [SockAddrFromNetUDPAddr_spec], [stopped_outgoing_never_reopened], [firedancer_report],
    [watchdog_race], [redact_leaks], [batch_sockets_leak], [double_free_shares], [recv_health],
    [all_sniffers_gone], [flush_torn]) describe the code as it is.

    ** Not modelled

    The generated protocol-buffer code, the text of log lines, the pprof server, what [run] does
    after the interrupt, and the search of the C shred monitor for the next shred (what it
    writes for the one it found is [shred_info_at]).  The libraries for the command line, logging,
    RPC, captures, fluentD and histograms are arguments or classes, and so is the rendering of
    times and addresses.  [processShred] is one step of the
    interleaving although it reads the relay's address twice and without the lock;
    [relay_address_reads] shows that this loses no behaviour as long as each read is whole.
    The ratios in the reports and log lines are rationals where the code has [float64].

    ** Plan

    Next: the ticks of the listener and of the re-registration loop with their clocks in the
    executions of [System]; the parts of a receive iteration - recording, cache, channel - as
    steps of their own. *)

From stdpp Require Export base gmap sets list strings countable option.
From Stdlib Require Export ZArith Lia.
From Stdlib Require Export Strings.Byte.

#[global] Set Default Goal Selector "!".

Declare Scope go_scope.
Delimit Scope go_scope with go.
Open Scope Z_scope.

Create HintDb go discriminated.
Create Rewrite HintDb go.

(** ** Results of Go calls

    A Go function [f(..) (T, error)] either returns a value, returns an error,
    or panics at run time (slice bounds, nil dereference, division by zero, a
    failed type assertion, or an explicit [panic]).  The three outcomes are kept
    apart, so that "never panics" is a statement about the model. *)

Inductive panic_reason :=
  | IndexOutOfRange
  | SliceConversion
  | NilDereference
  | DivideByZero
  | BadTypeAssertion
  | InvalidNetipAddr
  | ExplicitPanic.

Inductive outcome (E A : Type) :=
  | Ok (a : A)
  | Err (e : E)
  | Panic (p : panic_reason).
Arguments Ok {E A} a.
Arguments Err {E A} e.
Arguments Panic {E A} p.

#[global] Instance outcome_ret {E} : MRet (outcome E) := fun _ a => Ok a.
#[global] Instance outcome_bind {E} : MBind (outcome E) := fun _ _ f m =>
  match m with Ok a => f a | Err e => Err e | Panic p => Panic p end.

(** [if err != nil { return .., wrap(err) }] *)
Definition map_err {E E' A} (f : E -> E') (m : outcome E A) : outcome E' A :=
  match m with Ok a => Ok a | Err e => Err (f e) | Panic p => Panic p end.

(** The guard [if b { return .., e }]. *)
Definition fail_if {E} (b : bool) (e : E) : outcome E unit :=
  if b then Err e else Ok tt.

(** Results of code outside the repository: a value or an error, never a panic. *)
Definition of_sum {E A} (r : E + A) : outcome E A :=
  match r with inl e => Err e | inr a => Ok a end.

Definition of_err {E} (r : option E) : outcome E unit :=
  match r with Some e => Err e | None => Ok tt end.

(** The error of a call whose value is not used. *)
Definition error_of {E A} (m : outcome E A) : option E :=
  match m with Err e => Some e | _ => None end.

Definition is_Ok {E A} (m : outcome E A) : bool :=
  match m with Ok _ => true | _ => false end.

Definition panics {E A} (m : outcome E A) : bool :=
  match m with Panic _ => true | _ => false end.

Section outcome_lemmas.
Context {E A B : Type}.
Implicit Types (m : outcome E A) (f : A -> outcome E B).

Lemma bind_Ok f a : (Ok a ≫= f) = f a.
Proof. reflexivity. Qed.

Lemma bind_Err f e : (Err e ≫= f) = Err e.
Proof. reflexivity. Qed.

Lemma bind_Panic f p : (Panic p ≫= f) = Panic p.
Proof. reflexivity. Qed.

Lemma bind_Ok_inv f m b : (m ≫= f) = Ok b <-> exists a, m = Ok a /\ f a = Ok b.
Proof. destruct m; cbn; (split; [intros; simplify_eq; eauto | intros (? & ? & ?); by simplify_eq]). Qed.

Lemma bind_panics_inv f m : panics (m ≫= f) = true -> panics m = true \/ exists a, m = Ok a /\ panics (f a) = true.
Proof. destruct m; cbn; eauto. Qed.

Lemma bind_not_panics f m :
  panics m = false -> (forall a, m = Ok a -> panics (f a) = false) ->
  panics (m ≫= f) = false.
Proof. destruct m; cbn; intros; eauto. Qed.

Lemma map_err_Ok_inv {E'} (g : E -> E') m a : map_err g m = Ok a <-> m = Ok a.
Proof. destruct m; cbn; split; intros; by simplify_eq. Qed.

Lemma map_err_panics {E'} (g : E -> E') m : panics (map_err g m) = panics m.
Proof. by destruct m. Qed.
End outcome_lemmas.

Lemma fail_if_Ok_inv {E} b (e : E) u : fail_if b e = Ok u <-> b = false.
Proof. destruct b, u; cbn; split; intros; by simplify_eq. Qed.

Lemma fail_if_panics {E} b (e : E) : panics (fail_if b e) = false.
Proof. by destruct b. Qed.

Lemma of_sum_panics {E A} (r : E + A) : panics (of_sum r) = false.
Proof. by destruct r. Qed.

Lemma of_err_panics {E} (r : option E) : panics (of_err r) = false.
Proof. by destruct r. Qed.

#[export] Hint Rewrite @bind_Ok @bind_Err @bind_Panic @map_err_panics @fail_if_panics : go.
#[export] Hint Resolve bind_not_panics fail_if_panics of_sum_panics of_err_panics : go.

(** Invert every [Ok]-valued bind, guard and error wrapper among the hypotheses. *)
Ltac invert_outcome :=
  repeat match goal with
  | H : (_ ≫= _) = Ok _ |- _ => apply bind_Ok_inv in H as (? & ? & ?)
  | H : fail_if _ _ = Ok _ |- _ => apply fail_if_Ok_inv in H
  | H : map_err _ _ = Ok _ |- _ => apply map_err_Ok_inv in H
  | H : Ok _ = Ok _ |- _ => injection H as H
  | H : Err _ = Ok _ |- _ => discriminate H
  | H : Panic _ = Ok _ |- _ => discriminate H
  end.

(** Split on the tests of a goal or hypothesis, one at a time. *)
Ltac case_if :=
  match goal with
  | |- context [if ?b then _ else _] => destruct b eqn:?
  | H : context [if ?b then _ else _] |- _ => destruct b eqn:?
  end.

(** ** Machine integers

    A [w]-bit unsigned value is a [Z] in [0, 2^w); arithmetic that can leave the
    range is followed by the truncation the Go type performs. *)

Definition wrap (w x : Z) : Z := x mod 2 ^ w.
Abbreviation u8 := (wrap 8).
Abbreviation u16 := (wrap 16).
Abbreviation u32 := (wrap 32).
Abbreviation u64 := (wrap 64).

(** Linear arithmetic with division and remainder by constants. *)
Ltac dm_lia := Z.div_mod_to_equations; lia.

(** Conversion to a [w]-bit signed integer. *)
Definition swrap (w x : Z) : Z := (x + 2 ^ (w - 1)) mod 2 ^ w - 2 ^ (w - 1).
Abbreviation i32 := (swrap 32).
Abbreviation i64 := (swrap 64).

Lemma wrap_small w x : 0 <= x < 2 ^ w -> wrap w x = x.
Proof. apply Z.mod_small. Qed.

Lemma wrap_bound w x : 0 <= w -> 0 <= wrap w x < 2 ^ w.
Proof. intros. apply Z.mod_pos_bound. lia. Qed.

Lemma swrap_small w x : 0 < w -> - 2 ^ (w - 1) <= x < 2 ^ (w - 1) -> swrap w x = x.
Proof.
  intros Hw Hx. unfold swrap.
  assert (2 ^ w = 2 * 2 ^ (w - 1)).
  { rewrite <- Z.pow_succ_r by lia. f_equal; lia. }
  rewrite Z.mod_small; lia.
Qed.

Lemma swrap_bound w x : 0 < w -> - 2 ^ (w - 1) <= swrap w x < 2 ^ (w - 1).
Proof.
  intros Hw. unfold swrap.
  assert (2 ^ w = 2 * 2 ^ (w - 1)).
  { rewrite <- Z.pow_succ_r by lia. f_equal; lia. }
  pose proof (Z.mod_pos_bound (x + 2 ^ (w - 1)) (2 ^ w)). lia.
Qed.
#[export] Hint Resolve wrap_bound swrap_bound : go.

(** ** Bytes and byte slices *)

#[global] Instance byte_eq_decision : EqDecision byte := Byte.byte_eq_dec.
#[global] Instance byte_countable : Countable byte :=
  inj_countable Byte.to_N Byte.of_N Byte.of_to_N.

(** The numeric value of a byte ([uint64(b)] and the like). *)
Definition bz (b : byte) : Z := Z.of_N (Byte.to_N b).

(** The conversion [byte(z)]. *)
Definition zb (z : Z) : byte :=
  match Byte.of_N (Z.to_N (u8 z)) with Some b => b | None => Byte.x00 end.

Lemma bz_bound b : 0 <= bz b < 256.
Proof. unfold bz. pose proof (Byte.to_N_bounded b). lia. Qed.

Lemma bz_zb z : bz (zb z) = u8 z.
Proof.
  unfold bz, zb, wrap. pose proof (Z.mod_pos_bound z (2 ^ 8) eq_refl).
  destruct (Byte.of_N _) as [b|] eqn:Hb.
  - apply Byte.to_of_N in Hb. rewrite Hb. lia.
  - apply Byte.of_N_None_iff in Hb. lia.
Qed.

Lemma zb_bz b : zb (bz b) = b.
Proof.
  unfold zb, bz. pose proof (Byte.to_N_bounded b).
  rewrite wrap_small by lia. by rewrite N2Z.id, Byte.of_to_N.
Qed.

Lemma bz_inj b1 b2 : bz b1 = bz b2 -> b1 = b2.
Proof. intros H. by rewrite <- (zb_bz b1), <- (zb_bz b2), H. Qed.
#[export] Hint Resolve bz_bound : go.

(** [len(s)] *)
Definition zlen {A} (s : list A) : Z := Z.of_nat (length s).

(** [s[i]] *)
Definition go_index {E A} (s : list A) (i : Z) : outcome E A :=
  if (0 <=? i) && (i <? zlen s) then
    match s !! Z.to_nat i with Some a => Ok a | None => Panic IndexOutOfRange end
  else Panic IndexOutOfRange.

(** [s[lo:hi]] of a slice whose capacity is its length, or of an array. *)
Definition go_slice {E A} (s : list A) (lo hi : Z) : outcome E (list A) :=
  if (0 <=? lo) && (lo <=? hi) && (hi <=? zlen s)
  then Ok (take (Z.to_nat (hi - lo)) (drop (Z.to_nat lo) s))
  else Panic IndexOutOfRange.

(** [copy(dst, src)]: the new contents of [dst]; [min] of the lengths is copied. *)
Definition go_copy {A} (dst src : list A) : list A :=
  take (length dst) src ++ drop (length src) dst.

(** The part of [s] a reader of [n] bytes at offset [off] sees. *)
Definition sub {A} (s : list A) (off n : Z) : list A :=
  take (Z.to_nat n) (drop (Z.to_nat off) s).

Lemma go_slice_sub {E A} (s : list A) lo hi :
  0 <= lo <= hi -> hi <= zlen s -> go_slice (E:=E) s lo hi = Ok (sub s lo (hi - lo)).
Proof.
  intros. unfold go_slice, sub.
  rewrite !(proj2 (Z.leb_le _ _)) by lia. done.
Qed.

Lemma go_index_lookup {E A} (s : list A) i a :
  0 <= i -> s !! Z.to_nat i = Some a -> go_index (E:=E) s i = Ok a.
Proof.
  intros Hi Hs. unfold go_index, zlen.
  pose proof (lookup_lt_Some _ _ _ Hs) as Hlt.
  rewrite (proj2 (Z.leb_le _ _)), (proj2 (Z.ltb_lt _ _)) by lia.
  cbn. by rewrite Hs.
Qed.

Lemma go_index_lt {E A} (s : list A) i :
  0 <= i < zlen s -> exists a, s !! Z.to_nat i = Some a /\ go_index (E:=E) s i = Ok a.
Proof.
  intros Hi. destruct (lookup_lt_is_Some_2 s (Z.to_nat i)) as [a Ha].
  { unfold zlen in Hi. lia. }
  exists a. split; [done|]. apply go_index_lookup; [lia|done].
Qed.

Lemma go_index_panics {E A} (s : list A) i :
  panics (go_index (E:=E) s i) = negb ((0 <=? i) && (i <? zlen s)).
Proof.
  unfold go_index. destruct (_ && _) eqn:Hi; [|done]. cbn.
  apply andb_prop in Hi as [Hlo Hhi].
  apply Z.leb_le in Hlo. apply Z.ltb_lt in Hhi.
  destruct (go_index_lt (E:=E) s i) as (a & -> & _); [lia|done].
Qed.

Lemma length_sub {A} (s : list A) off n :
  0 <= off -> 0 <= n -> off + n <= zlen s -> zlen (sub s off n) = n.
Proof. intros. unfold sub, zlen in *. rewrite length_take, length_drop. lia. Qed.

(** The middle part of a concatenation is where the preceding parts end. *)
Lemma sub_app_mid {A} (s a b c : list A) off n :
  s = a ++ b ++ c -> zlen a = off -> zlen b = n -> sub s off n = b.
Proof.
  intros -> <- <-. unfold sub, zlen. rewrite !Nat2Z.id, drop_app_length. apply take_app_length.
Qed.

(** Reading a prefix is not affected by what follows it. *)
Lemma sub_app_l {A} (s t : list A) off n :
  0 <= off -> 0 <= n -> off + n <= zlen s -> sub (s ++ t) off n = sub s off n.
Proof.
  intros. unfold sub, zlen in *. rewrite drop_app_le by lia.
  rewrite take_app_le; [done|]. rewrite length_drop. lia.
Qed.

Lemma length_go_copy {A} (dst src : list A) : length (go_copy dst src) = length dst.
Proof. unfold go_copy. rewrite length_app, length_take, length_drop. lia. Qed.

Lemma take_go_copy {A} (dst src : list A) :
  (length src <= length dst)%nat -> take (length src) (go_copy dst src) = src.
Proof.
  intros. unfold go_copy. rewrite (take_ge src) by lia. by rewrite take_app_length.
Qed.

(** ** Little-endian integers ([encoding/binary]) *)

(** [uint64(b[0]) | uint64(b[1])<<8 | ...] *)
Fixpoint le_decode (bs : list byte) : Z :=
  match bs with
  | [] => 0
  | b :: bs => Z.lor (bz b) (Z.shiftl (le_decode bs) 8)
  end.

Fixpoint le_encode (n : nat) (z : Z) : list byte :=
  match n with
  | O => []
  | S n => zb z :: le_encode n (Z.shiftr z 8)
  end.

(** [binary.LittleEndian.UintN(b)]: reads the first [n] bytes, panics on fewer. *)
Definition le_uint {E} (n : nat) (bs : list byte) : outcome E Z :=
  if (length bs <? n)%nat then Panic IndexOutOfRange else Ok (le_decode (take n bs)).

Abbreviation LittleEndian_Uint16 := (le_uint 2).
Abbreviation LittleEndian_Uint32 := (le_uint 4).
Abbreviation LittleEndian_Uint64 := (le_uint 8).

Lemma testbit_above n a i : 0 <= a < 2 ^ n -> 0 <= n <= i -> Z.testbit a i = false.
Proof.
  intros Ha Hi. rewrite <- (Z.mod_small a (2 ^ n)) by done.
  apply Z.mod_pow2_bits_high. lia.
Qed.

Lemma lor_shiftl_add a b n :
  0 <= n -> 0 <= a < 2 ^ n -> Z.lor a (Z.shiftl b n) = a + b * 2 ^ n.
Proof.
  intros Hn Ha. rewrite <- Z.shiftl_mul_pow2 by done.
  assert (Z.land a (Z.shiftl b n) = 0) as Hland.
  { apply Z.bits_inj'; intros i Hi. rewrite Z.land_spec, Z.bits_0.
    destruct (Z.lt_ge_cases i n).
    - rewrite Z.shiftl_spec_low by done. apply andb_false_r.
    - by rewrite (testbit_above n) by lia. }
  rewrite <- Z.lxor_lor by done. by rewrite <- Z.add_nocarry_lxor.
Qed.

Lemma le_decode_cons b bs : le_decode (b :: bs) = bz b + le_decode bs * 256.
Proof. cbn [le_decode]. apply (lor_shiftl_add _ _ 8); [lia|apply bz_bound]. Qed.

Lemma le_decode_bound bs : 0 <= le_decode bs < 2 ^ (8 * zlen bs).
Proof.
  induction bs as [|b bs IH]; [change (0 <= 0 < 1); lia|].
  rewrite le_decode_cons. pose proof (bz_bound b).
  replace (8 * zlen (b :: bs)) with (8 + 8 * zlen bs) by (unfold zlen; cbn; lia).
  rewrite Z.pow_add_r by (unfold zlen; lia). lia.
Qed.

Lemma length_le_encode n z : length (le_encode n z) = n.
Proof. revert z. induction n; intros; cbn; [done|]. by rewrite IHn. Qed.

Lemma le_decode_encode n z : le_decode (le_encode n z) = z mod 2 ^ (8 * Z.of_nat n).
Proof.
  revert z. induction n as [|n IH]; intros z; [cbn; by rewrite Z.mod_1_r|].
  cbn [le_encode]. rewrite le_decode_cons, IH, bz_zb. unfold wrap.
  rewrite Z.shiftr_div_pow2 by lia.
  replace (8 * Z.of_nat (S n)) with (8 + 8 * Z.of_nat n) by lia.
  rewrite Z.pow_add_r, Z.rem_mul_r by lia.
  change (2 ^ 8) with 256. lia.
Qed.

Lemma le_decode_encode_small n z :
  0 <= z < 2 ^ (8 * Z.of_nat n) -> le_decode (le_encode n z) = z.
Proof. intros. rewrite le_decode_encode. by apply Z.mod_small. Qed.

Lemma le_uint_Ok {E} n bs :
  length bs = n -> le_uint (E:=E) n bs = Ok (le_decode bs).
Proof.
  intros <-. unfold le_uint. rewrite Nat.ltb_irrefl, firstn_all. done.
Qed.

(** ** Lists *)

(** Filtering by a boolean test respects permutations. *)
#[export] Instance bool_filter_perm {A} (f : A -> bool) :
  Proper ((≡ₚ) ==> (≡ₚ)) (List.filter f).
Proof.
  induction 1; cbn; repeat case_if; try done; [by constructor|by constructor|by etransitivity].
Qed.

(** ** Buffered channels

    The program only ever sends with [select { case ch <- v: default: }], which
    drops the value when the buffer is full. *)

Record channel (A : Type) := Chan { chan_cap : Z; chan_buf : list A }.
Arguments Chan {A} _ _.
Arguments chan_cap {A} _.
Arguments chan_buf {A} _.

Definition make_chan {A} (cap : Z) : channel A := Chan cap [].

Definition try_send {A} (c : channel A) (x : A) : bool * channel A :=
  if zlen (chan_buf c) <? chan_cap c
  then (true, Chan (chan_cap c) (chan_buf c ++ [x]))
  else (false, c).

(** One iteration of [for x := range ch] (the oldest value is received). *)
Definition chan_recv {A} (c : channel A) : option (A * channel A) :=
  match chan_buf c with
  | [] => None
  | x :: l => Some (x, Chan (chan_cap c) l)
  end.

Definition chan_wf {A} (c : channel A) : Prop := zlen (chan_buf c) <= chan_cap c.

Lemma try_send_wf {A} (c : channel A) x : chan_wf c -> chan_wf (try_send c x).2.
Proof.
  unfold chan_wf, try_send. case_if; cbn; [|done].
  intros _. unfold zlen in *. rewrite length_app. cbn. lia.
Qed.

Lemma try_send_buf {A} (c : channel A) x :
  chan_buf (try_send c x).2 = if (try_send c x).1 then chan_buf c ++ [x] else chan_buf c.
Proof. unfold try_send. by case_if. Qed.

Lemma try_send_cap {A} (c : channel A) x : chan_cap (try_send c x).2 = chan_cap c.
Proof. unfold try_send. by case_if. Qed.

Lemma try_send_room {A} (c : channel A) x :
  (try_send c x).1 = (zlen (chan_buf c) <? chan_cap c).
Proof. unfold try_send. by case_if. Qed.
#[export] Hint Resolve try_send_wf : go.
#[export] Hint Rewrite @try_send_buf @try_send_cap : go.
