(* ===== verification/Float64.v ===== *)
(** * float64 ([float64(a) / float64(b)], and its comparison)

    Conversions of integers, division and comparison are those of the standard library's
    [SpecFloat], at the 53 bits of precision and the exponents of binary64.  The main lemma
    is about the quotient of two integers: it is the nearest number with 53 digits, which
    decides a comparison with a constant. *)

From Stdlib Require Import SpecFloat.
From S2P Require Import Prelude.
Open Scope Z_scope.

Definition prec64 : Z := 53.
Definition emax64 : Z := 1024.

(** [float64(z)] *)
Definition to_float64 (z : Z) : spec_float := binary_normalize prec64 emax64 z 0 false.

(** [x / y], [x < y] *)
Definition float64_div (x y : spec_float) : spec_float := SFdiv prec64 emax64 x y.
Definition float64_lt (x y : spec_float) : bool := SFltb x y.

(** * Properties *)

(** ** Digits *)

Lemma digits2_pos_bounds p : 2 ^ (Z.pos (digits2_pos p) - 1) <= Z.pos p < 2 ^ Z.pos (digits2_pos p).
Proof.
  induction p as [p IH|p IH|]; cbn [digits2_pos]; [| |done];
    rewrite Pos2Z.inj_succ; replace (Z.succ (Z.pos (digits2_pos p)) - 1) with (Z.succ (Z.pos (digits2_pos p) - 1)) by lia;
    rewrite !Z.pow_succ_r by lia; lia.
Qed.

(** The number of digits is determined by the bounds. *)
Lemma digits2_unique m d : 0 < d -> 2 ^ (d - 1) <= m < 2 ^ d -> Zdigits2 m = d.
Proof.
  intros Hd [H1 H2]. pose proof (Z.pow_pos_nonneg 2 (d - 1)).
  destruct m as [|p|p]; [lia| |lia]. cbn [Zdigits2].
  pose proof (digits2_pos_bounds p) as [B1 B2]. set (e := Z.pos (digits2_pos p)) in *.
  destruct (Z.lt_trichotomy e d) as [Hlt|[He|Hlt]]; [|done|].
  - pose proof (Z.pow_le_mono_r 2 e (d - 1) ltac:(lia) ltac:(lia)). lia.
  - pose proof (Z.pow_le_mono_r 2 d (e - 1) ltac:(lia) ltac:(lia)). lia.
Qed.

(** In the range of normal numbers the exponent is that of a 53-digit mantissa. *)
Lemma fexp64 e : -1000 <= e -> fexp prec64 emax64 e = e - 53.
Proof. unfold fexp, emin, prec64, emax64. lia. Qed.

(** ** Rounding *)

(** A mantissa with 53 digits is left alone. *)
Lemma round_aux_exact m e :
  -1000 <= e <= 900 -> 2 ^ 52 <= Z.pos m < 2 ^ 53 ->
  binary_round_aux prec64 emax64 false (Z.pos m) e loc_Exact = S754_finite false m e.
Proof.
  intros He Hm. unfold binary_round_aux.
  assert (shr_fexp prec64 emax64 (Z.pos m) e loc_Exact = (Build_shr_record (Z.pos m) false false, e)) as Hs.
  { unfold shr_fexp. rewrite (digits2_unique _ 53), fexp64 by lia.
    replace (53 + e - 53 - e) with 0 by lia. done. }
  rewrite Hs. cbn [shr_m loc_of_shr_record round_nearest_even]. rewrite Hs. cbn [shr_m].
  unfold emax64, prec64. by rewrite (proj2 (Z.leb_le _ _)) by lia.
Qed.

(** [n / d] within half a unit of [m * 2 ^ e], in integers ([e] is negative). *)
Definition near (n d m e : Z) : Prop := 2 * Z.abs (n * 2 ^ (- e) - m * d) <= d.

(** Where [r] lies among [0 .. d]: the position of a remainder. *)
Definition loc_ok (d r : Z) (l : location) : Prop :=
  match l with
  | loc_Exact => r = 0
  | loc_Inexact Lt => 0 < r /\ 2 * r < d
  | loc_Inexact Eq => 2 * r = d
  | loc_Inexact Gt => d < 2 * r < 2 * d
  end.

Lemma new_location_ok d r : 0 < d -> 0 <= r < d -> loc_ok d r (new_location d r).
Proof.
  intros Hd Hr. unfold new_location, new_location_even, new_location_odd, loc_ok.
  destruct (Z.even d) eqn:He; destruct (Z.eqb_spec r 0); try done.
  - destruct (Z.compare_spec (2 * r) d); lia.
  - assert (2 * r <> d) by (intros <-; by rewrite Z.even_mul in He).
    destruct (Z.compare_spec (2 * r + 1) d) as [| |]; lia.
Qed.

(** Rounding to the nearest integer, from the quotient and the place of the remainder. *)
Lemma round_near d q r l :
  0 < d -> loc_ok d r l -> 2 * Z.abs (q * d + r - round_nearest_even q l * d) <= d.
Proof.
  intros Hd Hl. unfold round_nearest_even.
  destruct l as [|[]]; cbn in Hl; [lia| |lia|lia]. destruct (Z.even q); lia.
Qed.

Lemma round_range q l : q <= round_nearest_even q l <= q + 1.
Proof. unfold round_nearest_even. destruct l as [|[]]; try lia. destruct (Z.even q); lia. Qed.

(** One shift to the right keeps the place of the remainder. *)
Lemma shr_1_ok d q r l :
  0 < q -> 0 < d -> loc_ok d r l ->
  exists q' r' l', shr_1 (shr_record_of_loc q l) = shr_record_of_loc q' l'
    /\ loc_ok (2 * d) r' l' /\ q' * (2 * d) + r' = q * d + r /\ q' = q / 2.
Proof.
  intros Hq Hd Hl. exists (q / 2), ((q mod 2) * d + r),
    (if Z.even q then match l with loc_Exact => loc_Exact | _ => loc_Inexact Lt end
     else match l with loc_Exact => loc_Inexact Eq | _ => loc_Inexact Gt end).
  pose proof (Z.div_mod q 2). assert (q mod 2 = if Z.even q then 0 else 1) as Hm.
  { rewrite Zmod_even. done. }
  split; [|split; [|split; [lia|done]]].
  - destruct q as [|p|p]; [lia| |lia]. destruct p as [p|p|]; cbn [Z.even].
    + replace (Z.pos p~1 / 2) with (Z.pos p) by (rewrite Pos2Z.inj_xI; dm_lia). by destruct l as [|[]].
    + replace (Z.pos p~0 / 2) with (Z.pos p) by (rewrite Pos2Z.inj_xO; dm_lia). by destruct l as [|[]].
    + by destruct l as [|[]].
  - rewrite Hm. destruct (Z.even q), l as [|[]]; cbn in *; lia.
Qed.

Lemma loc_of_record q l : shr_m (shr_record_of_loc q l) = q /\ loc_of_shr_record (shr_record_of_loc q l) = l.
Proof. by destruct l as [|[]]. Qed.

(** The second half of [binary_round_aux], after the first alignment. *)
Definition finish64 (mrs : shr_record) (e : Z) : spec_float :=
  let '(mrs, e) := shr_fexp prec64 emax64 (round_nearest_even (shr_m mrs) (loc_of_shr_record mrs)) e loc_Exact in
  match shr_m mrs with
  | Z0 => S754_zero false
  | Z.pos m => if Z.leb e (emax64 - prec64) then S754_finite false m e else S754_infinity false
  | _ => S754_nan
  end.

Lemma finish64_near d q r l e :
  0 < d -> 2 ^ 52 <= q < 2 ^ 53 -> loc_ok d r l -> -900 <= e <= 900 ->
  exists m E, finish64 (shr_record_of_loc q l) e = S754_finite false m E
    /\ 2 ^ 52 <= Z.pos m < 2 ^ 53 /\ e <= E <= e + 1
    /\ 2 * Z.abs (q * d + r - Z.pos m * 2 ^ (E - e) * d) <= 2 ^ (E - e) * d.
Proof.
  intros Hd Hq Hl He. unfold finish64. destruct (loc_of_record q l) as [-> ->].
  pose proof (round_near d q r l Hd Hl) as Hn. pose proof (round_range q l) as Hr.
  set (q1 := round_nearest_even q l) in *. unfold shr_fexp.
  assert (q1 < 2 ^ 53 \/ q1 = 2 ^ 53) as [Hq1| ->] by lia.
  - rewrite (digits2_unique q1 53), fexp64 by lia. replace (53 + e - 53 - e) with 0 by lia. cbn [shr shr_m shr_record_of_loc].
    destruct q1 as [|m|m]; [lia| |lia]. rewrite (proj2 (Z.leb_le _ _)) by (unfold emax64, prec64; lia).
    exists m, e. split_and!; try lia; [done|]. rewrite Z.sub_diag. change (2 ^ 0) with 1. lia.
  - rewrite (digits2_unique (2 ^ 53) 54), fexp64 by lia. replace (54 + e - 53 - e) with 1 by lia.
    cbn [shr SpecFloat.iter_pos]. change (shr_1 (shr_record_of_loc (2 ^ 53) loc_Exact)) with (Build_shr_record (2 ^ 52) false false).
    cbn [shr_m]. rewrite (proj2 (Z.leb_le _ _)) by (unfold emax64, prec64; lia).
    change (2 ^ 52) with (Z.pos 4503599627370496). cbv iota.
    exists 4503599627370496%positive, (e + 1). split_and!; try lia; [done|].
    replace (e + 1 - e) with 1 by lia. change (2 ^ 1) with 2. lia.
Qed.

Lemma round_aux_near d q r l e :
  0 < d -> 2 ^ 52 <= q < 2 ^ 54 -> loc_ok d r l -> -800 <= e <= 800 ->
  exists m E, binary_round_aux prec64 emax64 false q e l = S754_finite false m E
    /\ 2 ^ 52 <= Z.pos m < 2 ^ 53 /\ e <= E <= e + 2
    /\ 2 * Z.abs (q * d + r - Z.pos m * 2 ^ (E - e) * d) <= 2 ^ (E - e) * d.
Proof.
  intros Hd Hq Hl He.
  assert (binary_round_aux prec64 emax64 false q e l
          = let '(mrs, e) := shr_fexp prec64 emax64 q e l in finish64 mrs e) as -> by reflexivity.
  unfold shr_fexp. assert (q < 2 ^ 53 \/ 2 ^ 53 <= q) as [Hlt|Hge] by lia.
  - rewrite (digits2_unique q 53), fexp64 by lia. replace (53 + e - 53 - e) with 0 by lia. cbn [shr].
    destruct (finish64_near d q r l e) as (m & E & ? & ? & ? & ?); [done|lia|done|lia|].
    exists m, E. split_and!; (done || lia).
  - rewrite (digits2_unique q 54), fexp64 by lia. replace (54 + e - 53 - e) with 1 by lia. cbn [shr SpecFloat.iter_pos].
    destruct (shr_1_ok d q r l) as (q' & r' & l' & -> & Hl' & Hsum & Hq'); [lia|done|done|].
    destruct (finish64_near (2 * d) q' r' l' (e + 1)) as (m & E & Hf & ? & ? & Hn);
      [lia|rewrite Hq'; dm_lia|done|lia|].
    exists m, E. split_and!; try (done || lia).
    replace (E - e) with (Z.succ (E - (e + 1))) by lia. rewrite Z.pow_succ_r by lia. lia.
Qed.

(** ** Conversion and division of integers *)

Definition is_float64 (z : Z) (m : positive) (e : Z) : Prop :=
  2 ^ 52 <= Z.pos m < 2 ^ 53 /\ -52 <= e <= 0 /\ Z.pos m = z * 2 ^ (- e).

Lemma shl_align_pos p e k : 0 <= k -> shl_align p e (e - k) = (Z.to_pos (Z.pos p * 2 ^ k), e - k).
Proof.
  intros Hk. unfold shl_align. replace (e - k - e) with (- k) by lia.
  destruct k as [|k|k]; [change (- 0) with 0; change (2 ^ 0) with 1; by rewrite Z.mul_1_r, Z.sub_0_r| |lia]. cbn [Z.opp]. f_equal.
  rewrite <- Z.shiftl_mul_pow2 by lia.
  change (Z.shiftl (Z.pos p) (Z.pos k)) with (Pos.iter (Z.mul 2) (Z.pos p) k).
  by rewrite <- (Pos.iter_swap_gen _ _ Z.pos xO (Z.mul 2)).
Qed.

Lemma to_float64_exact z :
  0 < z < 2 ^ 53 -> exists m e, to_float64 z = S754_finite false m e /\ is_float64 z m e.
Proof.
  intros Hz. destruct z as [|p|p]; [lia| |lia]. unfold to_float64, binary_normalize, binary_round.
  pose proof (digits2_pos_bounds p) as Hb. set (n := Z.pos (digits2_pos p)) in *.
  assert (n <= 53) as Hn.
  { destruct (Z.le_gt_cases n 53); [done|]. pose proof (Z.pow_le_mono_r 2 53 (n - 1) ltac:(lia) ltac:(lia)). lia. }
  assert (1 <= n) as Hn1 by (unfold n; lia). rewrite fexp64 by lia.
  replace (n + 0 - 53) with (0 - (53 - n)) by lia. rewrite shl_align_pos by lia.
  assert (2 ^ 52 <= Z.pos p * 2 ^ (53 - n) < 2 ^ 53) as Hm.
  { replace (2 ^ 52) with (2 ^ (n - 1) * 2 ^ (53 - n)) by (rewrite <- Z.pow_add_r by lia; f_equal; lia).
    replace (2 ^ 53) with (2 ^ n * 2 ^ (53 - n)) by (rewrite <- Z.pow_add_r by lia; f_equal; lia).
    pose proof (Z.pow_pos_nonneg 2 (53 - n) ltac:(lia) ltac:(lia)). nia. }
  rewrite round_aux_exact by (rewrite ?Z2Pos.id by lia; lia).
  eexists _, _. split; [done|]. unfold is_float64. rewrite Z2Pos.id by lia.
  split_and!; try lia. f_equal. f_equal. lia.
Qed.

(** The quotient of two integers is the nearest number of 53 digits. *)
Lemma float64_ratio a b :
  0 < a < 2 ^ 53 -> 0 < b < 2 ^ 53 ->
  exists m e, float64_div (to_float64 a) (to_float64 b) = S754_finite false m e
    /\ 2 ^ 52 <= Z.pos m < 2 ^ 53 /\ -200 <= e <= 1
    /\ 2 * Z.abs (a * 2 ^ 200 - Z.pos m * 2 ^ (200 + e) * b) <= 2 ^ (200 + e) * b.
Proof.
  intros Ha Hb. destruct (to_float64_exact a Ha) as (m1 & e1 & -> & Hm1 & He1 & E1).
  destruct (to_float64_exact b Hb) as (m2 & e2 & -> & Hm2 & He2 & E2).
  unfold float64_div, SFdiv, SFdiv_core_binary. cbn [xorb].
  rewrite (digits2_unique (Z.pos m1) 53), (digits2_unique (Z.pos m2) 53), fexp64 by lia.
  replace (Z.min (53 + e1 - (53 + e2) - 53) (e1 - e2)) with (e1 - e2 - 53) by lia.
  replace (e1 - e2 - (e1 - e2 - 53)) with 53 by lia. rewrite Z.shiftl_mul_pow2 by lia.
  pose proof (Z_div_mod (Z.pos m1 * 2 ^ 53) (Z.pos m2) ltac:(lia)) as Hdm.
  destruct (Z.div_eucl _ _) as [q r]. destruct Hdm as [Hq Hr].
  destruct (round_aux_near (Z.pos m2) q r (new_location (Z.pos m2) r) (e1 - e2 - 53))
    as (m & e & Hf & Hm & He & Hn); [lia|nia|by apply new_location_ok|lia|].
  exists m, e. split; [exact Hf|]. split; [done|]. split; [lia|].
  rewrite (Z.mul_comm q), <- Hq, E1, E2 in Hn.
  set (k := 147 + e1). assert (0 < 2 ^ k) as Hk by (unfold k; lia).
  assert (a * 2 ^ 200 = a * 2 ^ (- e1) * 2 ^ 53 * 2 ^ k) as ->.
  { rewrite <- !Z.mul_assoc, <- !Z.pow_add_r by (unfold k; lia). do 2 f_equal. unfold k. lia. }
  assert (2 ^ (200 + e) * b = 2 ^ (e - (e1 - e2 - 53)) * (b * 2 ^ (- e2)) * 2 ^ k) as Hb'.
  { rewrite (Z.mul_comm b), Z.mul_assoc, (Z.mul_comm _ b), (Z.mul_comm _ b), <- Z.mul_assoc, <- !Z.pow_add_r
      by (unfold k; lia). do 2 f_equal. unfold k. lia. }
  rewrite <- (Z.mul_assoc (Z.pos m)), Hb'. set (x := a * 2 ^ (- e1) * 2 ^ 53) in *.
  set (y := 2 ^ (e - (e1 - e2 - 53)) * (b * 2 ^ (- e2))) in *.
  rewrite <- (Z.mul_assoc (Z.pos m)) in Hn. fold y in Hn.
  replace (x * 2 ^ k - Z.pos m * (y * 2 ^ k)) with ((x - Z.pos m * y) * 2 ^ k) by lia.
  rewrite Z.abs_mul, (Z.abs_eq (2 ^ k)) by lia. nia.
Qed.

(** Comparing such a quotient with a constant of 53 digits below one. *)
Lemma float64_ratio_lt a b (t : positive) (et : Z) :
  0 < a < 2 ^ 53 -> 0 < b < 2 ^ 53 -> 2 ^ 52 <= Z.pos t < 2 ^ 53 -> -199 <= et <= -53 ->
  exists m e, 2 * Z.abs (a * 2 ^ 200 - Z.pos m * 2 ^ (200 + e) * b) <= 2 ^ (200 + e) * b
    /\ 2 ^ 52 <= Z.pos m < 2 ^ 53 /\ -200 <= e <= 1
    /\ float64_lt (float64_div (to_float64 a) (to_float64 b)) (S754_finite false t et)
       = (e <? et) || (e =? et) && (Z.pos m <? Z.pos t).
Proof.
  intros Ha Hb Ht Het. destruct (float64_ratio a b Ha Hb) as (m & e & -> & Hm & He & Hn).
  exists m, e. split_and!; try (done || lia). unfold float64_lt, SFltb, SFcompare.
  destruct (Z.compare_spec e et) as [->|Hlt|Hgt].
  - rewrite Z.ltb_irrefl, Z.eqb_refl. cbn [orb andb]. change (Pos.compare_cont Eq m t) with (m ?= t)%positive.
    unfold Z.ltb. change (Z.pos m ?= Z.pos t) with (m ?= t)%positive. by destruct (m ?= t)%positive.
  - by rewrite (proj2 (Z.ltb_lt e et)).
  - rewrite (proj2 (Z.ltb_ge e et)), (proj2 (Z.eqb_neq e et)) by lia. done.
Qed.

(** The constant [0.01]. *)
Definition hundredth : spec_float := S754_finite false 5764607523034235 (-59).

(** Below 2^53 the comparison with [0.01] is that of the exact ratio, also where the
    quotient is rounded. *)
Lemma float64_hundredth a b :
  0 <= a < 2 ^ 53 -> 0 < b < 2 ^ 53 ->
  float64_lt (float64_div (to_float64 a) (to_float64 b)) hundredth = (100 * a <? b).
Proof.
  intros Ha Hb. destruct (Z.eq_dec a 0) as [->|].
  { destruct (to_float64_exact b Hb) as (m & e & -> & _). rewrite (proj2 (Z.ltb_lt _ _)) by lia. done. }
  unfold hundredth.
  destruct (float64_ratio_lt a b 5764607523034235 (-59)) as (m & e & Hn & Hm & He & ->); [lia..|].
  destruct (Z.lt_trichotomy e (-59)) as [Hlt|[->|Hgt]].
  - rewrite (proj2 (Z.ltb_lt e _)) by lia. cbn [orb]. symmetry. apply Z.ltb_lt.
    assert (2 ^ (200 + e) <= 2 ^ 140) by (apply Z.pow_le_mono_r; lia).
    assert (0 < 2 ^ (200 + e)) by (apply Z.pow_pos_nonneg; lia). nia.
  - change (-59 <? -59) with false. change (-59 =? -59) with true. cbn [orb andb].
    change (2 ^ (200 + -59)) with (2 ^ 141) in Hn.
    destruct (Z.ltb_spec (Z.pos m) 5764607523034235), (Z.ltb_spec (100 * a) b); try done; exfalso; nia.
  - rewrite (proj2 (Z.ltb_ge e _)), (proj2 (Z.eqb_neq e _)) by lia. cbn [orb andb]. symmetry. apply Z.ltb_ge.
    assert (2 ^ 142 <= 2 ^ (200 + e)) by (apply Z.pow_le_mono_r; lia). nia.
Qed.

(** The constant is the nearest number to a hundredth. *)
Example hundredth_nearest : float64_div (to_float64 1) (to_float64 100) = hundredth.
Proof. vm_compute. reflexivity. Qed.
