(* ===== verification/Strconv.v ===== *)
(** * Numbers and strings as text ([strconv], [strings])

    The functions of the Go standard library with which the program prints and parses
    numbers and takes strings apart, on the bytes of a string. *)

From S2P Require Import Prelude.

(** The bytes of a string. *)
Abbreviation bytes_of := String.list_byte_of_string.

(** ** Printing *)

(** [strconv.AppendUint(buf, z, 10)]: most significant digit first. *)
Fixpoint digits (fuel : nat) (z : Z) (acc : list byte) : list byte :=
  match fuel with
  | O => acc
  | S fuel =>
      let acc := zb (48 + z mod 10) :: acc in
      if z <? 10 then acc else digits fuel (z / 10) acc
  end.

(** A [uint64] has at most 20 decimal digits. *)
Definition format_uint64 (z : Z) : list byte := digits 20 z [].

(** [strconv.AppendInt(buf, z, 10)] *)
Definition format_int64 (z : Z) : list byte :=
  if z <? 0 then "-"%byte :: format_uint64 (- z) else format_uint64 z.

(** ** Parsing *)

Inductive num_error := ErrNumSyntax | ErrNumRange.

#[export] Instance num_error_eq_dec : EqDecision num_error.
Proof. solve_decision. Defined.

Definition is_digit (b : byte) : bool := (48 <=? bz b) && (bz b <=? 57).

(** The loop of [strconv.ParseUint(s, 10, 64)]. *)
Fixpoint parse_digits (s : list byte) (n : Z) : outcome num_error Z :=
  match s with
  | [] => Ok n
  | c :: s =>
      if negb (is_digit c) then Err ErrNumSyntax
      else
        let n1 := n * 10 + (bz c - 48) in
        if 2 ^ 64 <=? n1 then Err ErrNumRange else parse_digits s n1
  end.

Definition ParseUint (s : list byte) : outcome num_error Z :=
  match s with [] => Err ErrNumSyntax | _ => parse_digits s 0 end.

(** [strconv.ParseInt(s, 10, 64)], which is [strconv.Atoi] where an [int] has 64 bits. *)
Definition ParseInt (s : list byte) : outcome num_error Z :=
  let '(neg, s') := match s with
    | "+"%byte :: s' => (false, s')
    | "-"%byte :: s' => (true, s')
    | _ => (false, s)
    end in
  un ← ParseUint s';
  if negb neg && (2 ^ 63 <=? un) then Err ErrNumRange
  else if neg && (2 ^ 63 <? un) then Err ErrNumRange
  else Ok (if neg then - un else un).

Abbreviation Atoi := ParseInt.

(** ** Strings *)

(** [strings.Split(s, sep)] for a separator of one byte: never empty. *)
Fixpoint Split (sep : byte) (s : list byte) : list (list byte) :=
  match s with
  | [] => [[]]
  | c :: s =>
      if Byte.eqb c sep then [] :: Split sep s
      else match Split sep s with
           | w :: ws => (c :: w) :: ws
           | [] => [[c]]
           end
  end.

(** [strings.Join(elems, sep)] *)
Fixpoint Join (sep : list byte) (elems : list (list byte)) : list byte :=
  match elems with
  | [] => []
  | [w] => w
  | w :: ws => w ++ sep ++ Join sep ws
  end.

(** [strings.HasPrefix(s, prefix)] *)
Fixpoint HasPrefix (prefix s : list byte) : bool :=
  match prefix, s with
  | [], _ => true
  | _, [] => false
  | p :: prefix, c :: s => Byte.eqb p c && HasPrefix prefix s
  end.

(** [strings.ReplaceAll(s, old, new)] for a non-empty [old]: occurrences from the left, not
    overlapping.  [skip] is the rest of the occurrence just replaced. *)
Fixpoint replace_loop (old new : list byte) (skip : nat) (s : list byte) : list byte :=
  match s with
  | [] => []
  | c :: s' =>
      match skip with
      | S skip => replace_loop old new skip s'
      | O => if HasPrefix old s then new ++ replace_loop old new (length old - 1) s'
             else c :: replace_loop old new 0 s'
      end
  end.

Definition ReplaceAll (old new s : list byte) : list byte := replace_loop old new 0 s.

(** * Properties *)

Lemma byte_eqb_spec (a b : byte) : reflect (a = b) (Byte.eqb a b).
Proof.
  destruct (Byte.eqb a b) eqn:H; constructor.
  - by apply Byte.byte_dec_bl.
  - intros ->. by rewrite Byte.byte_dec_lb in H.
Qed.

Lemma byte_eqb_refl (a : byte) : Byte.eqb a a = true.
Proof. by apply Byte.byte_dec_lb. Qed.

(** ** Printing and parsing numbers *)

Definition undigit (v : Z) (d : byte) : Z := v * 10 + (bz d - 48).

Lemma digit_byte z : 0 <= z < 10 -> bz (zb (48 + z)) = 48 + z.
Proof. intros. rewrite bz_zb, wrap_small; lia. Qed.

Lemma undigits_digits fuel z acc :
  0 <= z < 10 ^ Z.of_nat fuel -> fold_left undigit (digits fuel z acc) 0 = fold_left undigit acc z.
Proof.
  revert z acc. induction fuel as [|fuel IH]; intros z acc Hz; [cbn in *; f_equal; lia|].
  rewrite Nat2Z.inj_succ, Z.pow_succ_r in Hz by lia. cbn [digits].
  pose proof (Z.div_mod z 10 ltac:(lia)). pose proof (Z.mod_pos_bound z 10 ltac:(lia)).
  assert (forall v, undigit v (zb (48 + z mod 10)) = v * 10 + z mod 10) as Hd.
  { intros v. unfold undigit. rewrite digit_byte; lia. }
  destruct (Z.ltb_spec z 10).
  - cbn [fold_left]. rewrite Hd. f_equal. rewrite Z.mod_small; lia.
  - rewrite IH by lia. cbn [fold_left]. rewrite Hd. f_equal. lia.
Qed.

Lemma format_uint64_inj z1 z2 :
  0 <= z1 < 2 ^ 64 -> 0 <= z2 < 2 ^ 64 -> format_uint64 z1 = format_uint64 z2 -> z1 = z2.
Proof.
  intros H1 H2 Heq. unfold format_uint64 in Heq.
  pose proof (undigits_digits 20 z1 [] ltac:(cbn; lia)) as E1.
  pose proof (undigits_digits 20 z2 [] ltac:(cbn; lia)) as E2.
  rewrite Heq in E1. cbn [fold_left] in *. congruence.
Qed.

Lemma digits_are_digits fuel z acc :
  0 <= z -> Forall (fun b => is_digit b = true) acc ->
  Forall (fun b => is_digit b = true) (digits fuel z acc).
Proof.
  revert z acc. induction fuel as [|fuel IH]; intros z acc Hz Hacc; cbn; [done|].
  assert (Forall (fun b => is_digit b = true) (zb (48 + z mod 10) :: acc)).
  { constructor; [|done]. unfold is_digit. rewrite digit_byte; dm_lia. }
  case_if; [done|]. apply IH; [dm_lia|done].
Qed.

Lemma format_uint64_digits z : 0 <= z -> Forall (fun b => is_digit b = true) (format_uint64 z).
Proof. intros. by apply digits_are_digits. Qed.

(** No leading zero: a number starts with a digit other than 0 unless it is 0. *)
Lemma digits_head fuel z acc :
  0 < z < 10 ^ Z.of_nat fuel ->
  exists b l, digits fuel z acc = b :: l /\ 49 <= bz b <= 57.
Proof.
  revert z acc. induction fuel as [|fuel IH]; intros z acc Hz; [change (10 ^ Z.of_nat 0) with 1 in Hz; lia|].
  rewrite Nat2Z.inj_succ, Z.pow_succ_r in Hz by lia. cbn [digits].
  destruct (Z.ltb_spec z 10).
  - eexists _, _. split; [done|]. rewrite Z.mod_small, digit_byte by lia. lia.
  - apply IH. dm_lia.
Qed.

Lemma format_uint64_head z :
  0 < z < 2 ^ 64 -> exists b l, format_uint64 z = b :: l /\ 49 <= bz b <= 57.
Proof. intros. apply digits_head. cbn. lia. Qed.

Lemma fold_undigit_mono s v w :
  Forall (fun b => is_digit b = true) s -> 0 <= v <= w -> v <= fold_left undigit s w.
Proof.
  revert w. induction s as [|c s IH]; intros w Hs Hv; cbn; [lia|].
  apply list.Forall_cons in Hs as [Hc Hs]. apply IH; [done|].
  unfold undigit, is_digit in *. lia.
Qed.

Lemma parse_digits_fold s n :
  0 <= n -> Forall (fun b => is_digit b = true) s -> fold_left undigit s n < 2 ^ 64 ->
  parse_digits s n = Ok (fold_left undigit s n).
Proof.
  revert n. induction s as [|c s IH]; intros n Hn Hs Hlt; [done|].
  apply list.Forall_cons in Hs as [Hc Hs]. cbn [parse_digits fold_left] in *. rewrite Hc. cbn [negb].
  fold (undigit n c). assert (0 <= undigit n c) by (unfold undigit, is_digit in *; lia).
  pose proof (fold_undigit_mono s (undigit n c) (undigit n c) Hs ltac:(lia)).
  rewrite (proj2 (Z.leb_gt _ _)) by lia. apply IH; [lia|done|done].
Qed.

Lemma format_uint64_nonempty z : 0 <= z < 2 ^ 64 -> format_uint64 z <> [].
Proof.
  intros Hz. destruct (Z.eq_dec z 0) as [->|]; [done|].
  destruct (format_uint64_head z) as (b & l & -> & _); [lia|done].
Qed.

Lemma ParseUint_format z : 0 <= z < 2 ^ 64 -> ParseUint (format_uint64 z) = Ok z.
Proof.
  intros Hz. unfold ParseUint.
  pose proof (undigits_digits 20 z [] ltac:(cbn; lia)) as Hu. fold (format_uint64 z) in Hu.
  destruct (format_uint64 z) as [|b l] eqn:Hf; [by apply format_uint64_nonempty in Hf|].
  rewrite <- Hf in *. rewrite parse_digits_fold; [by rewrite Hu|lia| |rewrite Hu; cbn; lia].
  apply format_uint64_digits. lia.
Qed.

(** A digit is not a sign. *)
Lemma ParseInt_unsigned s : Forall (fun b => is_digit b = true) s ->
  ParseInt s = (un ← ParseUint s; if 2 ^ 63 <=? un then Err ErrNumRange else Ok un).
Proof.
  intros Hs. unfold ParseInt.
  assert ((match s with "+"%byte :: s' => (false, s') | "-"%byte :: s' => (true, s')
           | _ => (false, s) end) = (false, s)) as ->.
  { destruct Hs as [|c s Hc Hs]; [done|]. by destruct c. }
  cbn [negb andb]. destruct (ParseUint s); [|done|done]. cbn. by case_if.
Qed.

Lemma ParseInt_format z : - 2 ^ 63 <= z < 2 ^ 63 -> ParseInt (format_int64 z) = Ok z.
Proof.
  intros Hz. unfold format_int64. destruct (Z.ltb_spec z 0).
  - unfold ParseInt. rewrite ParseUint_format by lia. cbn [mbind outcome_bind negb andb].
    rewrite (proj2 (Z.ltb_ge _ _)) by lia. f_equal. lia.
  - rewrite ParseInt_unsigned by (apply format_uint64_digits; lia).
    rewrite ParseUint_format by lia. cbn [mbind outcome_bind].
    by rewrite (proj2 (Z.leb_gt _ _)) by lia.
Qed.
#[export] Hint Rewrite ParseUint_format ParseInt_format using lia : go.

(** What [ParseUint] and [ParseInt] accept is in range. *)
Lemma parse_digits_range s n z : 0 <= n < 2 ^ 64 -> parse_digits s n = Ok z -> 0 <= z < 2 ^ 64.
Proof.
  revert n. induction s as [|c s IH]; intros n Hn; cbn; [by intros [= <-]|].
  destruct (is_digit c) eqn:Hc; cbn; [|done]. case_if; [done|].
  apply IH. unfold is_digit in Hc. lia.
Qed.

Lemma ParseUint_range s z : ParseUint s = Ok z -> 0 <= z < 2 ^ 64.
Proof. unfold ParseUint. destruct s; [done|]. apply parse_digits_range. lia. Qed.

Lemma ParseInt_range s z : ParseInt s = Ok z -> - 2 ^ 63 <= z < 2 ^ 63.
Proof.
  unfold ParseInt. destruct (match s with "+"%byte :: s' => _ | _ => _ end) as [neg s'].
  intros (un & Hun%ParseUint_range & H)%bind_Ok_inv.
  destruct neg; cbn [negb andb] in H; case_if; try done; injection H as <-; lia.
Qed.

Lemma parse_digits_no_panic s n : panics (parse_digits s n) = false.
Proof. revert n. induction s; intros n; cbn; [done|]. repeat case_if; done || apply IHs. Qed.

Lemma ParseInt_no_panic s : panics (ParseInt s) = false.
Proof.
  unfold ParseInt. destruct (match s with "+"%byte :: s' => _ | _ => _ end) as [neg s'].
  apply bind_not_panics; [|intros; by repeat case_if].
  unfold ParseUint. destruct s'; [done|]. apply parse_digits_no_panic.
Qed.
#[export] Hint Resolve ParseInt_no_panic : go.

(** ** Split and prefixes *)

Lemma Split_absent sep s : sep ∉ s -> Split sep s = [s].
Proof.
  induction s as [|c s IH]; intros Hs; [done|]. apply not_elem_of_cons in Hs as [Hc Hs].
  cbn. destruct (byte_eqb_spec c sep) as [->|]; [done|]. by rewrite IH.
Qed.

Lemma Split_app sep a s : sep ∉ a -> Split sep (a ++ sep :: s) = a :: Split sep s.
Proof.
  induction a as [|c a IH]; intros Ha; cbn.
  - by rewrite byte_eqb_refl.
  - apply not_elem_of_cons in Ha as [Hc Ha].
    destruct (byte_eqb_spec c sep) as [->|]; [done|]. by rewrite IH.
Qed.

(** Either the separator is absent or there is a first one. *)
Lemma Split_cases sep s :
  (sep ∉ s /\ Split sep s = [s])
  \/ exists a t, s = a ++ sep :: t /\ sep ∉ a /\ Split sep s = a :: Split sep t.
Proof.
  destruct (decide (sep ∈ s)) as [Hin|]; [right|left; by rewrite Split_absent].
  apply list_elem_of_split_l in Hin as (a & t & -> & Ha).
  exists a, t. by rewrite Split_app.
Qed.

Lemma Split_nonempty sep s : Split sep s <> [].
Proof. by destruct (Split_cases sep s) as [[_ ->]|(a & t & _ & _ & ->)]. Qed.

Lemma HasPrefix_spec p s : HasPrefix p s = true <-> exists t, s = p ++ t.
Proof.
  revert s. induction p as [|b p IH]; intros s; cbn; [split; eauto|].
  destruct s as [|c s]; [split; [done|by intros [t ?]]|].
  destruct (byte_eqb_spec b c) as [->|Hne]; cbn.
  - rewrite IH. split; intros [t H]; exists t; [by rewrite H|by simplify_eq].
  - split; [done|]. intros [t H]. by simplify_eq.
Qed.

Lemma HasPrefix_app p t : HasPrefix p (p ++ t) = true.
Proof. apply HasPrefix_spec. eauto. Qed.

Lemma replace_skip old new k s : replace_loop old new k s = replace_loop old new 0 (drop k s).
Proof.
  revert k. induction s as [|c s IH]; intros k; [by destruct k|].
  destruct k as [|k]; [done|]. cbn. apply IH.
Qed.

(** Replacement of the first occurrence. *)
Lemma replace_here old new t :
  old <> [] -> ReplaceAll old new (old ++ t) = new ++ ReplaceAll old new t.
Proof.
  intros Hold. unfold ReplaceAll. destruct old as [|b old]; [done|].
  cbn [app replace_loop]. change (b :: old ++ t) with ((b :: old) ++ t).
  rewrite HasPrefix_app. f_equal. rewrite replace_skip. cbn [length].
  by rewrite Nat.sub_1_r, Nat.pred_succ, drop_app_length.
Qed.

(** A part in which the text does not start is kept. *)
Lemma replace_keep old new a t :
  (forall i, (i < length a)%nat -> HasPrefix old (drop i (a ++ t)) = false) ->
  ReplaceAll old new (a ++ t) = a ++ ReplaceAll old new t.
Proof.
  unfold ReplaceAll. induction a as [|c a IH]; intros Ha; [done|].
  pose proof (Ha 0%nat ltac:(cbn; lia)) as H0. cbn [drop app] in H0.
  cbn [app replace_loop]. rewrite H0. f_equal. apply IH.
  intros i Hi. apply (Ha (S i)). cbn. lia.
Qed.
