(* ===== verification/Shred.v ===== *)
(** * Shreds: parsing, validation and keys ([pkg/solana/shred.go])

    The variant byte, the two parsers ([ParseShred] on a byte slice,
    [ParseShredPartial] on the 1228-byte array the packet readers fill), the size
    checks, the 64-bit deduplication key and the sampling predicate.  Slices and
    arrays are [list byte]; an array [[1228]byte] is a list satisfying
    [is_array1228].  Lengths and [int]s are [Z]. *)

From S2P Require Import Prelude.

(** ** Constants *)

Definition UDPShredSize : Z := 1228.

Definition sizeOfCommonShredHeader : Z := 83.
Definition sizeOfSignature : Z := 64.
Definition sizeOfParent : Z := 85.
Definition sizeOfShredVariant : Z := 1.
Definition sizeOfShredSlot : Z := 8.
Definition sizeOfShredIndex : Z := 4.
Definition sizeOfVersion : Z := 2.
Definition sizeOfFecSet : Z := 4.
Definition sizeOfu16 : Z := 2.
Definition sizeOfLegacyDataShredPayload : Z := 1228.
Definition sizeOfLegacyCodeShredPayload : Z := sizeOfLegacyDataShredPayload.
Definition sizeOfMerkleCodeShredHeaders : Z := 89.
Definition sizeOfMerkleCodeShredPayload : Z := 1228.
Definition sizeOfMerkleDataShredPayload : Z :=
  sizeOfMerkleCodeShredPayload - sizeOfMerkleCodeShredHeaders + sizeOfSignature.

Definition LegacyCode : Z := Z.shiftl 5 4.
Definition LegacyData : Z := Z.shiftl 10 4.
Definition MerkleCode : Z := Z.shiftl 4 4.
Definition MerkleCodeChained : Z := Z.shiftl 6 4.
Definition MerkleCodeResigned : Z := Z.shiftl 7 4.
Definition MerkleData : Z := Z.shiftl 8 4.
Definition MerkleDataChained : Z := Z.shiftl 9 4.
Definition MerkleDataResigned : Z := Z.shiftl 11 4.

Definition shredMask : Z := Z.shiftl 3 6.
Definition shredCodeCmp : Z := Z.shiftl 1 6.
Definition shredDataCmp : Z := Z.shiftl 2 6.

Definition maxDataShredsPerSlot : Z := 32768.

(** [AliveMsg = []byte("alive")] *)
Definition AliveMsg : list byte := String.list_byte_of_string "alive".

(** ** Errors *)

Inductive shred_error :=
  | ErrShredTooSmall
  | ErrShredTooBig
  | ErrSizeTooSmall (n : Z)                  (* "shred size too small: %d" *)
  | ErrUnknownVariant (b : byte)             (* "unknown shred variant: %08b" *)
  | ErrParseVariant (e : shred_error)        (* "parse shred variant byte: %w" *)
  | ErrIllegalLegacySize (got : Z)
  | ErrIllegalMerkleSize (got : Z)
  | ErrUnknownVariantByte (v : Z)            (* "unknown shred variant: %d" *)
  | ErrIndexTooBig (index : Z)
  | ErrSlotBelowParentOffset (slot parentOffset : Z)
  | ErrSlotBelowParent (slot parent : Z).

#[global] Instance shred_error_eq_dec : EqDecision shred_error.
Proof. solve_decision. Defined.

(** ** The variant byte *)

Record ShredVariantByte := mkShredVariantByte {
  Variant : Z;
  VariantString : string;
  ProofSize : Z;
  Chained : bool;
  Resigned : bool
}.

#[global] Instance ShredVariantByte_eq_dec : EqDecision ShredVariantByte.
Proof. solve_decision. Defined.

Definition ShredVariantByte_String (s : ShredVariantByte) : string := VariantString s.

Definition IsCode (s : ShredVariantByte) : bool :=
  Z.land (Variant s) shredMask =? shredCodeCmp.

Definition IsData (s : ShredVariantByte) : bool :=
  Z.land (Variant s) shredMask =? shredDataCmp.

Definition ParseShredVariant (b : byte) : outcome shred_error ShredVariantByte :=
  let variant := Z.land (bz b) 240 in
  let proofSize := Z.land (bz b) 15 in
  if variant =? LegacyCode then Ok (mkShredVariantByte variant "LegacyCode" 0 false false)
  else if variant =? LegacyData then Ok (mkShredVariantByte variant "LegacyData" 0 false false)
  else if variant =? MerkleCode then Ok (mkShredVariantByte variant "MerkleCode" proofSize false false)
  else if variant =? MerkleCodeChained then Ok (mkShredVariantByte variant "MerkleCodeChained" proofSize true false)
  else if variant =? MerkleCodeResigned then Ok (mkShredVariantByte variant "MerkleCodeResigned" proofSize true true)
  else if variant =? MerkleData then Ok (mkShredVariantByte variant "MerkleData" proofSize false false)
  else if variant =? MerkleDataChained then Ok (mkShredVariantByte variant "MerkleDataChained" proofSize true false)
  else if variant =? MerkleDataResigned then Ok (mkShredVariantByte variant "MerkleDataResigned" proofSize true true)
  else Err (ErrUnknownVariant b).

(** ** Size checks *)

Definition validateShredSize (sz : Z) (shredVariant : ShredVariantByte) : outcome shred_error unit :=
  let v := Variant shredVariant in
  if (v =? LegacyCode) || (v =? LegacyData) then
    fail_if (negb (sz =? sizeOfLegacyCodeShredPayload)) (ErrIllegalLegacySize sz)
  else if (v =? MerkleCode) || (v =? MerkleData) || (v =? MerkleDataChained)
       || (v =? MerkleDataResigned) || (v =? MerkleCodeResigned) || (v =? MerkleCodeChained) then
    fail_if ((sz <? sizeOfMerkleDataShredPayload) || (sizeOfLegacyCodeShredPayload <? sz))
      (ErrIllegalMerkleSize sz)
  else Err (ErrUnknownVariantByte v).

Definition ValidateShredSizeSimple (size : Z) : outcome shred_error unit :=
  if sizeOfLegacyCodeShredPayload <? size then Err ErrShredTooBig
  else if size <? sizeOfMerkleDataShredPayload then Err ErrShredTooSmall
  else Ok tt.

(** ** Shreds *)

Record Shred := mkShred {
  sh_Raw : list byte;
  sh_DataSize : Z;
  sh_Signature : string;
  sh_Variant : ShredVariantByte;
  sh_Slot : Z;
  sh_Index : Z;
  sh_FecSet : Z;
  CodingShredNumDataShreds : Z;
  CodingShredNumCodeShreds : Z;
  CodingShredPosition : Z
}.

Record PartialShred := mkPartialShred {
  Raw : list byte;
  DataSize : Z;
  PVariant : ShredVariantByte;
  Slot : Z;
  Index : Z
}.

#[global] Instance PartialShred_eq_dec : EqDecision PartialShred.
Proof. solve_decision. Defined.

(** [base64.StdEncoding.EncodeToString] *)
Definition base64_alphabet : list byte :=
  String.list_byte_of_string "ABCDEFGHIJKLMNOPQRSTUVWXYZabcdefghijklmnopqrstuvwxyz0123456789+/".

Definition base64_digit (z : Z) : byte := default Byte.x00 (base64_alphabet !! Z.to_nat (z mod 64)).

Fixpoint base64_encode (bs : list byte) : list byte :=
  match bs with
  | [] => []
  | [a] =>
      let v := Z.shiftl (bz a) 16 in
      [base64_digit (Z.shiftr v 18); base64_digit (Z.shiftr v 12); zb 61; zb 61]
  | [a; b] =>
      let v := Z.lor (Z.shiftl (bz a) 16) (Z.shiftl (bz b) 8) in
      [base64_digit (Z.shiftr v 18); base64_digit (Z.shiftr v 12); base64_digit (Z.shiftr v 6); zb 61]
  | a :: b :: c :: bs =>
      let v := Z.lor (Z.lor (Z.shiftl (bz a) 16) (Z.shiftl (bz b) 8)) (bz c) in
      base64_digit (Z.shiftr v 18) :: base64_digit (Z.shiftr v 12)
        :: base64_digit (Z.shiftr v 6) :: base64_digit v :: base64_encode bs
  end.

(** The three [uint16]s of a coding shred header (zero for a data shred). *)
Definition parseCodingHeader (s : list byte) (shredVariant : ShredVariantByte)
    : outcome shred_error (Z * Z * Z) :=
  if IsCode shredVariant then
    numDataShredsBin ← go_slice s sizeOfCommonShredHeader (sizeOfCommonShredHeader + sizeOfu16);
    codingShredNumDataShreds ← LittleEndian_Uint16 numDataShredsBin;
    numCodeShredsBin ← go_slice s (sizeOfCommonShredHeader + sizeOfu16) (sizeOfCommonShredHeader + sizeOfu16 * 2);
    codingShredNumCodeShreds ← LittleEndian_Uint16 numCodeShredsBin;
    positionBin ← go_slice s (sizeOfCommonShredHeader + sizeOfu16 * 2) (sizeOfCommonShredHeader + sizeOfu16 * 3);
    codingShredPosition ← LittleEndian_Uint16 positionBin;
    Ok (codingShredNumDataShreds, codingShredNumCodeShreds, codingShredPosition)
  else Ok (0, 0, 0).

Definition ParseShred (s : list byte) : outcome shred_error Shred :=
  _ ← fail_if (zlen s <? sizeOfSignature) (ErrSizeTooSmall (zlen s));
  b ← go_index s sizeOfSignature;
  shredVariant ← map_err ErrParseVariant (ParseShredVariant b);
  _ ← validateShredSize (zlen s) shredVariant;
  signatureBin ← go_slice s 0 sizeOfSignature;
  let signature := String.string_of_list_byte (base64_encode signatureBin) in
  coding ← parseCodingHeader s shredVariant;
  slotBin ← go_slice s (sizeOfSignature + sizeOfShredVariant)
    (sizeOfSignature + sizeOfShredVariant + sizeOfShredSlot);
  slot ← LittleEndian_Uint64 slotBin;
  indexBin ← go_slice s (sizeOfSignature + sizeOfShredVariant + sizeOfShredSlot)
    (sizeOfSignature + sizeOfShredVariant + sizeOfShredSlot + sizeOfShredIndex);
  index ← LittleEndian_Uint32 indexBin;
  fecSetBin ← go_slice s
    (sizeOfSignature + sizeOfShredVariant + sizeOfShredSlot + sizeOfShredIndex + sizeOfVersion)
    (sizeOfSignature + sizeOfShredVariant + sizeOfShredSlot + sizeOfShredIndex + sizeOfVersion + sizeOfFecSet);
  fecSet ← LittleEndian_Uint32 fecSetBin;
  Ok {| sh_Raw := s; sh_DataSize := zlen s; sh_Signature := signature;
        sh_Variant := shredVariant; sh_Slot := slot; sh_Index := index; sh_FecSet := fecSet;
        CodingShredNumDataShreds := coding.1.1;
        CodingShredNumCodeShreds := coding.1.2;
        CodingShredPosition := coding.2 |}.

(** The check of a data shred against its parent slot. *)
Definition checkParent (s : list byte) (shredVariant : ShredVariantByte) (slot : Z)
    : outcome shred_error unit :=
  if IsData shredVariant then
    parentBin ← go_slice s sizeOfCommonShredHeader sizeOfParent;
    parentOffset ← LittleEndian_Uint16 parentBin;
    _ ← fail_if (slot <? parentOffset) (ErrSlotBelowParentOffset slot parentOffset);
    let actualParentSlot := u64 (slot - parentOffset) in
    fail_if (slot <? actualParentSlot) (ErrSlotBelowParent slot actualParentSlot)
  else Ok tt.

Definition ParseShredPartial (s : list byte) (size : Z) : outcome shred_error PartialShred :=
  _ ← fail_if (size <? sizeOfParent) (ErrSizeTooSmall (zlen s));
  b ← go_index s sizeOfSignature;
  shredVariant ← ParseShredVariant b;
  _ ← validateShredSize size shredVariant;
  indexBin ← go_slice s (sizeOfSignature + sizeOfShredVariant + sizeOfShredSlot)
    (sizeOfSignature + sizeOfShredVariant + sizeOfShredSlot + sizeOfShredIndex);
  index ← LittleEndian_Uint32 indexBin;
  _ ← fail_if (maxDataShredsPerSlot <? index) (ErrIndexTooBig index);
  slotBin ← go_slice s (sizeOfSignature + sizeOfShredVariant)
    (sizeOfSignature + sizeOfShredVariant + sizeOfShredSlot);
  slot ← LittleEndian_Uint64 slotBin;
  _ ← checkParent s shredVariant slot;
  Ok {| Raw := s; DataSize := size; PVariant := shredVariant; Slot := slot; Index := index |}.

(** [(slot << 28) | (uint64(index) << 8) | uint64(variant.Variant)] on [uint64]s *)
Definition ShredKey (slot index : Z) (variant : ShredVariantByte) : Z :=
  Z.lor (Z.lor (u64 (Z.shiftl slot 28)) (u64 (Z.shiftl index 8))) (Variant variant).

Definition ShouldSample (shred : PartialShred) : bool :=
  (Slot shred mod 75 =? 0) && (Index shred =? 100).

(** * Properties *)

(** The size of [[1228]byte]. *)
Definition is_array1228 (s : list byte) : Prop := zlen s = UDPShredSize.

(** ** Fields of a shred as functions of its bytes *)

Definition variant_byte (s : list byte) : byte := default Byte.x00 (s !! 64%nat).
Definition slot_field (s : list byte) : Z := le_decode (sub s 65 8).
Definition index_field (s : list byte) : Z := le_decode (sub s 73 4).
Definition fec_field (s : list byte) : Z := le_decode (sub s 79 4).
Definition parent_offset_field (s : list byte) : Z := le_decode (sub s 83 2).

Definition is_legacy (v : ShredVariantByte) : bool :=
  (Variant v =? LegacyCode) || (Variant v =? LegacyData).

(** The sizes a shred of variant [v] may have. *)
Definition size_ok (v : ShredVariantByte) (size : Z) : bool :=
  if is_legacy v then size =? 1228 else (1203 <=? size) && (size <=? 1228).

(** What a well-formed variant is: the invariant of [ParseShredVariant]. *)
Definition variant_wf (v : ShredVariantByte) : Prop :=
  0 <= Variant v < 256 /\ Variant v mod 16 = 0 /\ 0 <= ProofSize v < 16
  /\ IsData v = negb (IsCode v)
  /\ (Resigned v = true -> Chained v = true)
  /\ (is_legacy v = true -> ProofSize v = 0 /\ Chained v = false).

(** ** Variant lemmas *)

Lemma ParseShredVariant_panics b : panics (ParseShredVariant b) = false.
Proof. unfold ParseShredVariant. by repeat case_if. Qed.

Lemma ParseShredVariant_accepts b :
  is_Ok (ParseShredVariant b) = (4 <=? Z.shiftr (bz b) 4) && (Z.shiftr (bz b) 4 <=? 11).
Proof. by destruct b. Qed.

Lemma ParseShredVariant_wf b v : ParseShredVariant b = Ok v -> variant_wf v.
Proof.
  destruct b; intros H; vm_compute in H; try discriminate H; injection H as <-;
    vm_compute; repeat split; intros; done.
Qed.

(** The variant is the high half of the byte, the proof size (when Merkle) the low half. *)
Lemma ParseShredVariant_bits b v :
  ParseShredVariant b = Ok v ->
  Variant v = Z.land (bz b) 240
  /\ ProofSize v = (if is_legacy v then 0 else Z.land (bz b) 15)
  /\ VariantString v <> "".
Proof.
  destruct b; intros H; vm_compute in H; try discriminate H; injection H as <-;
    vm_compute; repeat split; done.
Qed.

Lemma validateShredSize_panics sz v : panics (validateShredSize sz v) = false.
Proof. unfold validateShredSize. repeat case_if; auto with go. Qed.

Lemma ParseShredVariant_cases b v :
  ParseShredVariant b = Ok v ->
  In (Variant v) [LegacyCode; LegacyData; MerkleCode; MerkleCodeChained; MerkleCodeResigned;
    MerkleData; MerkleDataChained; MerkleDataResigned].
Proof.
  unfold ParseShredVariant. cbn [In].
  repeat (case_if; [intros [= <-]; cbn [Variant]; match goal with H : (_ =? _) = true |- _ => apply Z.eqb_eq in H as -> end; auto 10|]).
  discriminate.
Qed.

Lemma validateShredSize_eq b v sz :
  ParseShredVariant b = Ok v ->
  validateShredSize sz v = fail_if (negb (size_ok v sz))
    (if is_legacy v then ErrIllegalLegacySize sz else ErrIllegalMerkleSize sz).
Proof.
  intros Hb%ParseShredVariant_cases. unfold validateShredSize, size_ok, is_legacy.
  change sizeOfMerkleDataShredPayload with 1203. change sizeOfLegacyCodeShredPayload with 1228.
  rewrite (Z.leb_antisym sz 1203), (Z.leb_antisym 1228 sz).
  destruct (sz =? 1228), (sz <? 1203), (1228 <? sz);
    repeat (destruct Hb as [<-|Hb]; [reflexivity|]); destruct Hb.
Qed.

Lemma validateShredSize_Ok b v sz u :
  ParseShredVariant b = Ok v -> validateShredSize sz v = Ok u <-> size_ok v sz = true.
Proof.
  intros Hb. rewrite (validateShredSize_eq b v sz Hb), fail_if_Ok_inv. by rewrite negb_false_iff.
Qed.

Lemma size_ok_range v sz : size_ok v sz = true -> 1203 <= sz <= 1228.
Proof. unfold size_ok. case_if; lia. Qed.

Lemma ValidateShredSizeSimple_Ok size u :
  ValidateShredSizeSimple size = Ok u <-> 1203 <= size <= 1228.
Proof.
  unfold ValidateShredSizeSimple.
  change sizeOfLegacyCodeShredPayload with 1228. change sizeOfMerkleDataShredPayload with 1203.
  destruct u. destruct (Z.ltb_spec 1228 size), (Z.ltb_spec size 1203);
    (split; intros; try done; lia).
Qed.

(** ** Reading fields *)

(** Arithmetic on the layout constants. *)
Ltac size_lia :=
  unfold sizeOfMerkleDataShredPayload, sizeOfMerkleCodeShredPayload, sizeOfMerkleCodeShredHeaders,
    sizeOfLegacyCodeShredPayload, sizeOfLegacyDataShredPayload, sizeOfu16, sizeOfFecSet,
    sizeOfVersion, sizeOfShredIndex, sizeOfShredSlot, sizeOfShredVariant, sizeOfParent,
    sizeOfSignature, sizeOfCommonShredHeader, maxDataShredsPerSlot, UDPShredSize in *; lia.

Lemma read_field {E A} (s : list byte) lo hi n (k : Z -> outcome E A) :
  0 <= lo -> hi = lo + Z.of_nat n -> hi <= zlen s ->
  (bin ← go_slice s lo hi; x ← le_uint n bin; k x) = k (le_decode (sub s lo (Z.of_nat n))).
Proof.
  intros Hlo -> Hhi. rewrite go_slice_sub by lia. rewrite bind_Ok.
  replace (lo + Z.of_nat n - lo) with (Z.of_nat n) by lia.
  rewrite le_uint_Ok; [done|].
  pose proof (length_sub s lo (Z.of_nat n)). unfold zlen in *. lia.
Qed.

Lemma read_variant {E A} (s : list byte) (k : byte -> outcome E A) :
  64 < zlen s -> (b ← go_index s sizeOfSignature; k b) = k (variant_byte s).
Proof.
  intros Hs. destruct (go_index_lt (E:=E) s sizeOfSignature) as (b & Hb & ->).
  { change sizeOfSignature with 64. lia. }
  unfold variant_byte. change 64%nat with (Z.to_nat sizeOfSignature). by rewrite Hb.
Qed.

(** Reads one field of [s] in the goal: [s] is known to be long enough. *)
Ltac read_step := rewrite read_field by size_lia.

Lemma field_bound (s : list byte) off n :
  0 <= n -> 0 <= le_decode (sub s off n) < 2 ^ (8 * n).
Proof.
  intros Hn. pose proof (le_decode_bound (sub s off n)) as Hb.
  assert (zlen (sub s off n) <= n) by (unfold zlen, sub; rewrite length_take; lia).
  assert (2 ^ (8 * zlen (sub s off n)) <= 2 ^ (8 * n)) by (apply Z.pow_le_mono_r; lia). lia.
Qed.

Lemma slot_field_bound s : 0 <= slot_field s < 2 ^ 64.
Proof. apply (field_bound s 65 8). lia. Qed.

Lemma index_field_bound s : 0 <= index_field s < 2 ^ 32.
Proof. apply (field_bound s 73 4). lia. Qed.

Lemma parent_offset_field_bound s : 0 <= parent_offset_field s < 2 ^ 16.
Proof. apply (field_bound s 83 2). lia. Qed.
#[export] Hint Resolve slot_field_bound index_field_bound parent_offset_field_bound : go.

(** The second parent check of the code can never fail: [uint64] subtraction of an
    offset that is at most the slot does not wrap. *)
Lemma checkParent_eq s v :
  85 <= zlen s ->
  checkParent s v (slot_field s) =
    fail_if (IsData v && (slot_field s <? parent_offset_field s))
      (ErrSlotBelowParentOffset (slot_field s) (parent_offset_field s)).
Proof.
  intros Hs. unfold checkParent. destruct (IsData v); [|done].
  read_step.
  change (le_decode (sub s _ _)) with (parent_offset_field s).
  pose proof (slot_field_bound s). pose proof (parent_offset_field_bound s).
  destruct (Z.ltb_spec (slot_field s) (parent_offset_field s)); [done|].
  cbn [fail_if andb]. rewrite bind_Ok, wrap_small by lia.
  by rewrite (proj2 (Z.ltb_ge _ _)) by lia.
Qed.

(** ** [ParseShredPartial] *)

(** The parser with its slice arithmetic resolved. *)
Lemma ParseShredPartial_eq s size :
  is_array1228 s ->
  ParseShredPartial s size =
    (_ ← fail_if (size <? 85) (ErrSizeTooSmall 1228);
     v ← ParseShredVariant (variant_byte s);
     _ ← validateShredSize size v;
     _ ← fail_if (32768 <? index_field s) (ErrIndexTooBig (index_field s));
     _ ← fail_if (IsData v && (slot_field s <? parent_offset_field s))
           (ErrSlotBelowParentOffset (slot_field s) (parent_offset_field s));
     Ok {| Raw := s; DataSize := size; PVariant := v; Slot := slot_field s; Index := index_field s |}).
Proof.
  intros Hs. unfold is_array1228 in Hs. unfold ParseShredPartial.
  rewrite Hs. change sizeOfParent with 85. change UDPShredSize with 1228.
  destruct (size <? 85); [done|]. cbn [fail_if]. rewrite !bind_Ok.
  rewrite read_variant by size_lia.
  destruct (ParseShredVariant (variant_byte s)) as [v| |]; [|done..]. rewrite !bind_Ok.
  destruct (validateShredSize size v); [|done..]. rewrite !bind_Ok.
  read_step. change (le_decode (sub s _ _)) with (index_field s).
  change maxDataShredsPerSlot with 32768.
  destruct (32768 <? index_field s); [done|]. cbn [fail_if]. rewrite !bind_Ok.
  read_step. change (le_decode (sub s _ _)) with (slot_field s).
  by rewrite checkParent_eq by size_lia.
Qed.

(** What [ParseShredPartial] accepts, and what it returns. *)
Definition partial_accepts (s : list byte) (size : Z) (v : ShredVariantByte) : Prop :=
  ParseShredVariant (variant_byte s) = Ok v
  /\ size_ok v size = true
  /\ index_field s <= 32768
  /\ (IsData v = true -> parent_offset_field s <= slot_field s).

Lemma ParseShredPartial_Ok s size p :
  is_array1228 s ->
  ParseShredPartial s size = Ok p <->
  exists v, partial_accepts s size v
    /\ p = {| Raw := s; DataSize := size; PVariant := v;
              Slot := slot_field s; Index := index_field s |}.
Proof.
  intros Hs. rewrite (ParseShredPartial_eq s size Hs). unfold partial_accepts. split.
  - intros H. invert_outcome. subst. eexists. split; [|reflexivity].
    match goal with H : validateShredSize _ _ = Ok _, Hv : ParseShredVariant _ = Ok _ |- _ =>
      apply (validateShredSize_Ok _ _ _ _ Hv) in H end.
    rewrite ?Z.ltb_ge in *. repeat split; [done..|].
    match goal with H : _ && _ = false |- _ => apply andb_false_iff in H as [H|H] end;
      [congruence|by intros _; apply Z.ltb_ge].
  - intros (v & (Hv & Hsize & Hidx & Hpar) & ->).
    pose proof (size_ok_range _ _ Hsize). rewrite Hv.
    rewrite (proj2 (Z.ltb_ge size 85)), (proj2 (Z.ltb_ge 32768 _)) by lia.
    cbn [fail_if]. rewrite !bind_Ok, (validateShredSize_eq _ _ _ Hv), Hsize.
    destruct (IsData v); [|done]. by rewrite (proj2 (Z.ltb_ge _ _)) by auto.
Qed.

Lemma ParseShredPartial_panics s size :
  is_array1228 s -> panics (ParseShredPartial s size) = false.
Proof.
  intros Hs. rewrite (ParseShredPartial_eq s size Hs).
  repeat (apply bind_not_panics; [|intros ? _]);
    auto using ParseShredVariant_panics, validateShredSize_panics, fail_if_panics.
Qed.

(** ** [ParseShred] *)

(** The three coding-header fields of a code shred. *)
Definition coding_fields (s : list byte) (v : ShredVariantByte) : Z * Z * Z :=
  if IsCode v then (le_decode (sub s 83 2), le_decode (sub s 85 2), le_decode (sub s 87 2))
  else (0, 0, 0).

Lemma parseCodingHeader_eq s v :
  89 <= zlen s -> parseCodingHeader s v = Ok (coding_fields s v).
Proof.
  intros Hs. unfold parseCodingHeader, coding_fields. destruct (IsCode v); [|done].
  do 3 read_step. done.
Qed.

(** The shred [ParseShred] returns on bytes it accepts. *)
Definition full_shred (s : list byte) (v : ShredVariantByte) : Shred :=
  {| sh_Raw := s; sh_DataSize := zlen s;
     sh_Signature := String.string_of_list_byte (base64_encode (sub s 0 64));
     sh_Variant := v; sh_Slot := slot_field s; sh_Index := index_field s; sh_FecSet := fec_field s;
     CodingShredNumDataShreds := (coding_fields s v).1.1;
     CodingShredNumCodeShreds := (coding_fields s v).1.2;
     CodingShredPosition := (coding_fields s v).2 |}.

Lemma ParseShred_eq s :
  64 < zlen s ->
  ParseShred s =
    (v ← map_err ErrParseVariant (ParseShredVariant (variant_byte s));
     _ ← validateShredSize (zlen s) v;
     Ok (full_shred s v)).
Proof.
  intros Hs. unfold ParseShred.
  change (zlen s <? sizeOfSignature) with (zlen s <? 64).
  rewrite (proj2 (Z.ltb_ge _ _)) by lia. cbn [fail_if]. rewrite bind_Ok.
  rewrite read_variant by done.
  destruct (ParseShredVariant (variant_byte s)) as [v| |] eqn:Hv; [|done..].
  cbn [map_err]. rewrite !bind_Ok.
  destruct (validateShredSize (zlen s) v) as [u| |] eqn:Hu; [|done..]. rewrite !bind_Ok.
  apply (validateShredSize_Ok _ _ _ _ Hv), size_ok_range in Hu.
  rewrite (go_slice_sub s 0 sizeOfSignature) by size_lia. rewrite bind_Ok.
  rewrite parseCodingHeader_eq by lia. rewrite bind_Ok.
  do 3 read_step. done.
Qed.

Lemma ParseShred_Ok s sh :
  ParseShred s = Ok sh <->
  exists v, ParseShredVariant (variant_byte s) = Ok v /\ size_ok v (zlen s) = true
    /\ sh = full_shred s v.
Proof.
  destruct (Z.lt_ge_cases 64 (zlen s)) as [Hs|Hs].
  - rewrite (ParseShred_eq s Hs). split.
    + intros H. invert_outcome. subst. eexists. split_and!; [done| |done].
      by eapply validateShredSize_Ok.
    + intros (v & Hv & Hsize & ->). rewrite Hv. cbn [map_err]. rewrite bind_Ok.
      by rewrite (validateShredSize_eq _ _ _ Hv), Hsize.
  - split.
    + intros H. unfold ParseShred in H. invert_outcome.
      match goal with H : go_index s _ = Ok _ |- _ =>
        apply (f_equal panics) in H; rewrite go_index_panics in H; cbn [panics] in H end.
      rewrite negb_false_iff, andb_true_iff, Z.ltb_lt in *. size_lia.
    + intros (v & _ & Hsize%size_ok_range & _). lia.
Qed.

(** ** The deduplication key *)

Lemma ShredKey_eq slot index v :
  0 <= index < 2 ^ 20 -> 0 <= Variant v < 2 ^ 8 ->
  ShredKey slot index v = (slot mod 2 ^ 36) * 2 ^ 28 + index * 2 ^ 8 + Variant v.
Proof.
  intros Hi Hv. unfold ShredKey, wrap.
  rewrite !Z.shiftl_mul_pow2 by lia.
  rewrite (Z.mod_small (index * 2 ^ 8)) by lia.
  change (2 ^ 64) with (2 ^ 36 * 2 ^ 28). rewrite Z.mul_mod_distr_r by lia.
  rewrite <- (Z.shiftl_mul_pow2 (slot mod 2 ^ 36) 28) by lia.
  rewrite (Z.lor_comm (Z.shiftl _ _)), lor_shiftl_add by lia.
  rewrite Z.lor_comm.
  replace (index * 2 ^ 8 + slot mod 2 ^ 36 * 2 ^ 28)
    with (Z.shiftl (index + slot mod 2 ^ 36 * 2 ^ 20) 8) by (rewrite Z.shiftl_mul_pow2; lia).
  rewrite lor_shiftl_add, Z.shiftl_mul_pow2 by lia. lia.
Qed.

Lemma ShredKey_eq_iff slot1 index1 v1 slot2 index2 v2 :
  0 <= index1 < 2 ^ 20 -> 0 <= index2 < 2 ^ 20 ->
  0 <= Variant v1 < 2 ^ 8 -> 0 <= Variant v2 < 2 ^ 8 ->
  ShredKey slot1 index1 v1 = ShredKey slot2 index2 v2 <->
  slot1 mod 2 ^ 36 = slot2 mod 2 ^ 36 /\ index1 = index2 /\ Variant v1 = Variant v2.
Proof.
  intros. rewrite !ShredKey_eq by done.
  pose proof (Z.mod_pos_bound slot1 (2 ^ 36) eq_refl).
  pose proof (Z.mod_pos_bound slot2 (2 ^ 36) eq_refl).
  split; [|by intros (-> & -> & ->)]. lia.
Qed.

Lemma ParseShredPartial_bounds s size p :
  is_array1228 s -> ParseShredPartial s size = Ok p ->
  0 <= Slot p < 2 ^ 64 /\ 0 <= Index p <= 32768 /\ variant_wf (PVariant p)
  /\ 1203 <= DataSize p <= 1228 /\ Raw p = s /\ DataSize p = size.
Proof.
  intros Hs (v & (Hv & Hsize & Hidx & _) & ->)%ParseShredPartial_Ok; [|done].
  pose proof (slot_field_bound s). pose proof (index_field_bound s).
  apply size_ok_range in Hsize. apply ParseShredVariant_wf in Hv. cbn. split_and!; done || lia.
Qed.

(** ** The wire layout

    The layout the offsets of the parsers stand for: a 64-byte signature, the
    variant byte, and little-endian slot, index, version and FEC set index,
    followed by the part specific to data or code shreds. *)

Record wire_shred := mkWireShred {
  w_sig : list byte;
  w_variant : byte;
  w_slot : Z;
  w_index : Z;
  w_version : Z;
  w_fec : Z;
  w_body : list byte
}.

Definition wire_bytes (w : wire_shred) : list byte :=
  w_sig w ++ [w_variant w] ++ le_encode 8 (w_slot w) ++ le_encode 4 (w_index w)
    ++ le_encode 2 (w_version w) ++ le_encode 4 (w_fec w) ++ w_body w.

Record wire_wf (w : wire_shred) : Prop := {
  wf_sig : zlen (w_sig w) = 64;
  wf_slot : 0 <= w_slot w < 2 ^ 64;
  wf_index : 0 <= w_index w < 2 ^ 32;
  wf_fec : 0 <= w_fec w < 2 ^ 32
}.

Section wire.
Context (w : wire_shred) (Hw : wire_wf w).

Lemma zlen_wire : zlen (wire_bytes w) = 83 + zlen (w_body w).
Proof using Hw.
  pose proof (wf_sig w Hw). unfold wire_bytes, zlen in *.
  rewrite !length_app, !length_le_encode. cbn [length]. lia.
Qed.

Lemma wire_variant : variant_byte (wire_bytes w) = w_variant w.
Proof using Hw.
  pose proof (wf_sig w Hw). unfold variant_byte, wire_bytes, zlen in *.
  rewrite lookup_app_r by lia. by replace (64 - length (w_sig w))%nat with 0%nat by lia.
Qed.

Lemma wire_sig : sub (wire_bytes w) 0 64 = w_sig w.
Proof using Hw. by eapply (sub_app_mid _ []); [| |apply (wf_sig w Hw)]. Qed.

(** The [n]-byte integer after [a] in the layout. *)
Lemma wire_field a n z c off :
  wire_bytes w = a ++ le_encode n z ++ c -> zlen a = off -> 0 <= z < 2 ^ (8 * Z.of_nat n) ->
  le_decode (sub (wire_bytes w) off (Z.of_nat n)) = z.
Proof.
  intros Hb Ha Hz. rewrite (sub_app_mid _ a (le_encode n z) c) by
    (done || by unfold zlen; rewrite length_le_encode).
  by apply le_decode_encode_small.
Qed.

Lemma wire_slot : slot_field (wire_bytes w) = w_slot w.
Proof using Hw.
  pose proof (wf_sig w Hw).
  eapply (wire_field (w_sig w ++ [w_variant w]) 8); [|unfold zlen in *|apply (wf_slot w Hw)].
  - unfold wire_bytes. by rewrite <- app_assoc.
  - rewrite length_app. cbn. lia.
Qed.

Lemma wire_index : index_field (wire_bytes w) = w_index w.
Proof using Hw.
  pose proof (wf_sig w Hw).
  eapply (wire_field (w_sig w ++ [w_variant w] ++ le_encode 8 (w_slot w)) 4);
    [|unfold zlen in *|apply (wf_index w Hw)].
  - unfold wire_bytes. by rewrite <- !app_assoc.
  - rewrite !length_app, length_le_encode. cbn. lia.
Qed.

Lemma wire_fec : fec_field (wire_bytes w) = w_fec w.
Proof using Hw.
  pose proof (wf_sig w Hw).
  eapply (wire_field (w_sig w ++ [w_variant w] ++ le_encode 8 (w_slot w)
    ++ le_encode 4 (w_index w) ++ le_encode 2 (w_version w)) 4);
    [|unfold zlen in *|apply (wf_fec w Hw)].
  - unfold wire_bytes. by rewrite <- !app_assoc.
  - rewrite !length_app, !length_le_encode. cbn. lia.
Qed.
End wire.

(** ** Agreement of the two parsers *)

(** [toFixedArray1228]: a datagram in a zeroed [[1228]byte]. *)
Definition fixed_array (s : list byte) : list byte :=
  go_copy (replicate (Z.to_nat UDPShredSize) Byte.x00) s.

Lemma fixed_array_1228 s : is_array1228 (fixed_array s).
Proof. unfold is_array1228, zlen, fixed_array. by rewrite length_go_copy, length_replicate. Qed.

Lemma fixed_array_app s :
  zlen s <= 1228 -> exists t, fixed_array s = s ++ t.
Proof.
  intros Hs. unfold fixed_array, go_copy, zlen in *. rewrite length_replicate.
  rewrite take_ge by (change UDPShredSize with 1228; lia). eauto.
Qed.

Section extend.
Context (s t : list byte).

Lemma variant_byte_app : 64 < zlen s -> variant_byte (s ++ t) = variant_byte s.
Proof. intros. unfold variant_byte, zlen in *. by rewrite lookup_app_l by lia. Qed.

Lemma slot_field_app : 73 <= zlen s -> slot_field (s ++ t) = slot_field s.
Proof. intros. unfold slot_field. by rewrite sub_app_l by lia. Qed.

Lemma index_field_app : 77 <= zlen s -> index_field (s ++ t) = index_field s.
Proof. intros. unfold index_field. by rewrite sub_app_l by lia. Qed.

Lemma parent_offset_field_app : 85 <= zlen s -> parent_offset_field (s ++ t) = parent_offset_field s.
Proof. intros. unfold parent_offset_field. by rewrite sub_app_l by lia. Qed.
End extend.

(** The full parser accepts at least what the partial parser accepts. *)
Lemma ParseShred_of_partial s v :
  zlen s <= 1228 -> partial_accepts (fixed_array s) (zlen s) v ->
  ParseShred s = Ok (full_shred s v).
Proof.
  intros Hs (Hv & Hsize & _). pose proof (size_ok_range _ _ Hsize).
  destruct (fixed_array_app s Hs) as [t Ht]. rewrite Ht, variant_byte_app in Hv by lia.
  apply ParseShred_Ok. eauto.
Qed.

Lemma ParseShredPartial_of_full s v :
  ParseShred s = Ok (full_shred s v) ->
  ParseShredPartial (fixed_array s) (zlen s) =
    (_ ← fail_if (32768 <? index_field s) (ErrIndexTooBig (index_field s));
     _ ← fail_if (IsData v && (slot_field s <? parent_offset_field s))
           (ErrSlotBelowParentOffset (slot_field s) (parent_offset_field s));
     Ok {| Raw := fixed_array s; DataSize := zlen s; PVariant := v;
           Slot := slot_field s; Index := index_field s |}).
Proof.
  intros (v' & Hv & Hsize & Heq)%ParseShred_Ok.
  assert (v' = v) as -> by (apply (f_equal sh_Variant) in Heq; by cbn in Heq).
  pose proof (size_ok_range _ _ Hsize).
  rewrite (ParseShredPartial_eq _ _ (fixed_array_1228 s)).
  destruct (fixed_array_app s) as [t Ht]; [lia|].
  rewrite (proj2 (Z.ltb_ge (zlen s) 85)) by lia. cbn [fail_if]. rewrite bind_Ok.
  rewrite Ht, variant_byte_app, slot_field_app, index_field_app, parent_offset_field_app by lia.
  by rewrite Hv, !bind_Ok, (validateShredSize_eq _ _ _ Hv), Hsize.
Qed.

(** A sample shred used by the witnesses below: a chained Merkle data shred of slot
    413783688, index 100, whose parent is one slot back. *)
Definition sample_wire : wire_shred :=
  mkWireShred (replicate 64 Byte.x07) Byte.x96 413783688 100 50093 96
    (le_encode 2 1 ++ replicate 1143 Byte.x00).
Definition sample_shred : list byte := wire_bytes sample_wire.
Definition sample_variant : ShredVariantByte :=
  mkShredVariantByte MerkleDataChained "MerkleDataChained" 6 true false.

Lemma sample_wire_wf : wire_wf sample_wire.
Proof. constructor; vm_compute; by split. Qed.

(** ** Theorems *)

(** [ParseShredPartial] returns a shred or an error on every 1228-byte buffer and
    every claimed length: none of its slice expressions can go out of range, so no
    datagram can crash the receive loops that call it. *)
Theorem ParseShredPartial_never_panics (s : list byte) (size : Z) :
  is_array1228 s -> panics (ParseShredPartial s size) = false.
Proof. apply ParseShredPartial_panics. Qed.

Lemma ParseShredPartial_never_panics_witness :
  is_array1228 sample_shred /\ panics (ParseShredPartial sample_shred 1203) = false.
Proof.
  assert (is_array1228 sample_shred) as H by (vm_compute; reflexivity).
  split; [exact H|]. exact (ParseShredPartial_never_panics _ _ H).
Defined.

(** C10: [ParseShredPartial] accepts exactly the buffers whose variant nibble is known,
    whose length is legal for that variant, whose index is at most 32768 and, for data
    shreds, whose parent offset does not exceed the slot; and the shred it returns
    carries the little-endian slot and index at offsets 65 and 73. *)
Theorem ParseShredPartial_accepts_iff (s : list byte) (size : Z) (p : PartialShred) :
  is_array1228 s ->
  ParseShredPartial s size = Ok p <->
  exists v, partial_accepts s size v
    /\ p = {| Raw := s; DataSize := size; PVariant := v;
              Slot := slot_field s; Index := index_field s |}.
Proof. apply ParseShredPartial_Ok. Qed.

Lemma ParseShredPartial_accepts_iff_witness :
  is_array1228 sample_shred /\
  exists v, partial_accepts sample_shred 1203 v /\ slot_field sample_shred = 413783688.
Proof.
  assert (is_array1228 sample_shred) as H by (vm_compute; reflexivity).
  split; [exact H|].
  destruct (proj1 (ParseShredPartial_accepts_iff sample_shred 1203
    (mkPartialShred sample_shred 1203 sample_variant 413783688 100) H))
    as (v & Hv & _); [vm_compute; reflexivity|].
  exists v. split; [exact Hv|vm_compute; reflexivity].
Defined.

(** The sniffer's cheap size filter [ValidateShredSizeSimple] never discards a payload
    that the parser would have accepted, and what it rejects is reported as too small or
    too big on the correct side. *)
Theorem prefilter_sound (s : list byte) (size : Z) :
  is_array1228 s ->
  (is_Ok (ParseShredPartial s size) = true -> ValidateShredSizeSimple size = Ok tt)
  /\ (ValidateShredSizeSimple size = Err ErrShredTooSmall <-> size < 1203)
  /\ (ValidateShredSizeSimple size = Err ErrShredTooBig <-> 1228 < size).
Proof.
  intros Hs. split_and!.
  - destruct (ParseShredPartial s size) as [p| |] eqn:Hp; [|done..]. intros _.
    apply ParseShredPartial_bounds in Hp as (_ & _ & _ & Hsz & _ & <-); [|done].
    by apply ValidateShredSizeSimple_Ok.
  - unfold ValidateShredSizeSimple. repeat case_if; split; intros; done || size_lia.
  - unfold ValidateShredSizeSimple. repeat case_if; split; intros; done || size_lia.
Qed.

Lemma prefilter_sound_witness :
  is_array1228 sample_shred /\ ValidateShredSizeSimple 1203 = Ok tt.
Proof.
  assert (is_array1228 sample_shred) as H by (vm_compute; reflexivity).
  split; [exact H|]. apply (prefilter_sound sample_shred 1203 H). vm_compute. reflexivity.
Defined.

(** [ParseShred] panics on exactly one length, 64: the guard [len(s) < sizeOfSignature]
    lets a 64-byte slice through and [s[sizeOfSignature]] is then out of range. *)
Theorem ParseShred_panics_iff (s : list byte) :
  panics (ParseShred s) = true <-> zlen s = 64.
Proof.
  destruct (Z.lt_trichotomy (zlen s) 64) as [H|[H|H]].
  - split; [|lia]. unfold ParseShred. change sizeOfSignature with 64.
    by rewrite (proj2 (Z.ltb_lt _ _)).
  - split; [done|]. intros _. unfold ParseShred. change sizeOfSignature with 64. rewrite H.
    unfold go_index. by rewrite H.
  - split; [|lia]. rewrite (ParseShred_eq s H).
    destruct (ParseShredVariant (variant_byte s)) as [v| |] eqn:Hv; [|done|].
    + cbn [map_err]. rewrite bind_Ok, (validateShredSize_eq _ _ _ Hv). by destruct (size_ok _ _).
    + pose proof (ParseShredVariant_panics (variant_byte s)) as Hp. by rewrite Hv in Hp.
Qed.

(** C34: the two parsers agree.  On a datagram of at most 1228 bytes copied into a zeroed
    array, [ParseShredPartial] succeeds exactly when [ParseShred] succeeds on the
    datagram itself and its two extra checks (index bound, parent slot) pass, and both
    then report the same variant, slot, index and size. *)
Theorem parsers_agree (s : list byte) (p : PartialShred) :
  zlen s <= 1228 ->
  ParseShredPartial (fixed_array s) (zlen s) = Ok p <->
  exists sh, ParseShred s = Ok sh
    /\ sh_Index sh <= 32768
    /\ (IsData (sh_Variant sh) = true -> parent_offset_field s <= sh_Slot sh)
    /\ p = {| Raw := fixed_array s; DataSize := sh_DataSize sh; PVariant := sh_Variant sh;
              Slot := sh_Slot sh; Index := sh_Index sh |}.
Proof.
  intros Hs. split.
  - intros Hp. assert (exists v, ParseShred s = Ok (full_shred s v)) as [v Hv].
    { apply ParseShredPartial_Ok in Hp as (v & Hv & _); [|apply fixed_array_1228].
      eexists. by apply (ParseShred_of_partial s v). }
    rewrite (ParseShredPartial_of_full _ _ Hv) in Hp. invert_outcome. subst.
    eexists. split; [exact Hv|]. cbn. split_and!; [lia| |done].
    intros Hd. rewrite Hd in *. cbn [andb] in *. lia.
  - intros (sh & Hsh & Hidx & Hpar & ->).
    pose proof Hsh as (v & _ & _ & ->)%ParseShred_Ok.
    cbn [full_shred sh_Index sh_Slot sh_Variant sh_DataSize] in *.
    rewrite (ParseShredPartial_of_full _ _ Hsh).
    rewrite (proj2 (Z.ltb_ge 32768 _)) by exact Hidx. destruct (IsData v); [|done].
    by rewrite (proj2 (Z.ltb_ge _ _)) by auto.
Qed.

Lemma parsers_agree_witness :
  zlen sample_shred <= 1228 /\ exists sh, ParseShred sample_shred = Ok sh /\ sh_Index sh <= 32768.
Proof.
  assert (zlen sample_shred <= 1228) as H by (vm_compute; discriminate).
  split; [exact H|].
  destruct (proj1 (parsers_agree sample_shred
    (mkPartialShred (fixed_array sample_shred) 1228 sample_variant 413783688 100) H))
    as (sh & Hsh & Hi & _); [vm_compute; reflexivity|].
  exists sh. split; [exact Hsh|exact Hi].
Defined.

(** C35: round trip.  Parsing the wire layout of a shred gives back its variant, slot,
    index and FEC set index, and the base64 of its signature, whatever follows the
    common header. *)
Theorem wire_roundtrip (w : wire_shred) (v : ShredVariantByte) :
  wire_wf w -> ParseShredVariant (w_variant w) = Ok v ->
  size_ok v (83 + zlen (w_body w)) = true ->
  exists sh, ParseShred (wire_bytes w) = Ok sh
    /\ sh_Variant sh = v /\ sh_Slot sh = w_slot w /\ sh_Index sh = w_index w
    /\ sh_FecSet sh = w_fec w /\ sh_Raw sh = wire_bytes w
    /\ sh_Signature sh = String.string_of_list_byte (base64_encode (w_sig w)).
Proof.
  intros Hw Hv Hsize. exists (full_shred (wire_bytes w) v). split_and!; cbn.
  - apply ParseShred_Ok. exists v. by rewrite wire_variant, zlen_wire.
  - done.
  - by apply wire_slot.
  - by apply wire_index.
  - by apply wire_fec.
  - done.
  - by rewrite wire_sig.
Qed.

Lemma wire_roundtrip_witness :
  wire_wf sample_wire /\ exists sh, ParseShred (wire_bytes sample_wire) = Ok sh /\ sh_Slot sh = 413783688.
Proof.
  split; [exact sample_wire_wf|].
  destruct (wire_roundtrip sample_wire sample_variant sample_wire_wf) as (sh & Hsh & _ & Hslot & _);
    [vm_compute; reflexivity..|].
  exists sh. split; [exact Hsh|exact Hslot].
Defined.

(** C12: the deduplication key identifies a shred.  For shreds accepted by the parser the
    keys are equal exactly when index and variant nibble are equal and the slots are
    equal modulo 2^36; so keys are unique up to the 36-bit slot limit the code states. *)
Theorem ShredKey_identifies (s1 s2 : list byte) (n1 n2 : Z) (p1 p2 : PartialShred) :
  is_array1228 s1 -> is_array1228 s2 ->
  ParseShredPartial s1 n1 = Ok p1 -> ParseShredPartial s2 n2 = Ok p2 ->
  ShredKey (Slot p1) (Index p1) (PVariant p1) = ShredKey (Slot p2) (Index p2) (PVariant p2) <->
  Slot p1 mod 2 ^ 36 = Slot p2 mod 2 ^ 36 /\ Index p1 = Index p2
  /\ Variant (PVariant p1) = Variant (PVariant p2).
Proof.
  intros Hs1 Hs2 (_ & Hi1 & [Hv1 _] & _)%ParseShredPartial_bounds
    (_ & Hi2 & [Hv2 _] & _)%ParseShredPartial_bounds; [|done..].
  apply ShredKey_eq_iff; lia.
Qed.

Lemma ShredKey_identifies_witness :
  is_array1228 sample_shred /\
  ShredKey 413783688 100 sample_variant = ShredKey 413783688 100 sample_variant.
Proof.
  assert (is_array1228 sample_shred) as H by (vm_compute; reflexivity).
  split; [exact H|].
  refine (proj2 (ShredKey_identifies sample_shred sample_shred 1228 1228
    (mkPartialShred sample_shred 1228 sample_variant 413783688 100)
    (mkPartialShred sample_shred 1228 sample_variant 413783688 100) H H _ _) _);
    [vm_compute; reflexivity..|]. split_and!; reflexivity.
Defined.

(** The variant byte.  A byte is rejected exactly when its high nibble is none of the
    eight known variants; an accepted one is a data shred or a code shred but never
    both, its proof size fits in 4 bits and is zero for legacy shreds, and resigned
    implies chained. *)
Theorem ParseShredVariant_classifies (b : byte) :
  (is_Ok (ParseShredVariant b) = true <->
     4 <= Z.shiftr (bz b) 4 <= 11)
  /\ forall v, ParseShredVariant b = Ok v ->
     variant_wf v /\ Variant v = Z.land (bz b) 240
     /\ ProofSize v = (if is_legacy v then 0 else Z.land (bz b) 15).
Proof.
  split.
  - rewrite ParseShredVariant_accepts, andb_true_iff. lia.
  - intros v Hv. split; [by apply (ParseShredVariant_wf b)|].
    apply ParseShredVariant_bits in Hv as (? & ? & _). done.
Qed.
