(* ===== verification/AlterKey.v ===== *)
(** * The two-phase key cache ([pkg/cache/alterkey.go])

    [AlterKey] remembers 64-bit keys in two Go maps, [current] and [altered]; the
    cleanup goroutine empties [altered] in place and swaps the two references.
    The maps are objects in a store, so the reuse of the emptied map and the swap of
    references are modelled as they are; that the two references never alias is an
    invariant.  The specification is a cache of epochs: a key inserted in epoch [e]
    is known until the end of epoch [e + 1].

    The interface [DedupCache] is what the packet handlers rely on. *)

From S2P Require Import Prelude.

(** ** Interface *)

Class DedupCache (C : Type) := {
  cache_ok : C -> Prop;
  cache_seen : Z -> C -> Prop;
  cache_Set : Z -> C -> bool * C;
  cache_cleanup : C -> C
}.

Class DedupCacheLaws (C : Type) `{DedupCache C} : Prop := {
  cache_Set_ok k c : cache_ok c -> cache_ok (cache_Set k c).2;
  cache_cleanup_ok c : cache_ok c -> cache_ok (cache_cleanup c);
  cache_Set_fresh k c : (cache_Set k c).1 = true <-> ~ cache_seen k c;
  cache_Set_dup k c : (cache_Set k c).1 = false -> (cache_Set k c).2 = c;
  cache_Set_seen k k' c : cache_seen k' (cache_Set k c).2 <-> k' = k \/ cache_seen k' c;
  cache_cleanup_seen k c : cache_seen k (cache_cleanup c) -> cache_seen k c;
  (** a key inserted since the last cleanup survives the next one *)
  cache_Set_survives k c :
    cache_ok c -> (cache_Set k c).1 = true -> cache_seen k (cache_cleanup (cache_Set k c).2)
}.

Section laws.
Context {C : Type} `{DedupCacheLaws C}.

Lemma cache_Set_dup_iff k c : (cache_Set k c).1 = false <-> cache_seen k c.
Proof.
  pose proof (cache_Set_fresh k c) as Hf. pose proof (cache_Set_seen k k c) as Hs.
  pose proof (cache_Set_dup k c) as Hd.
  destruct (cache_Set k c) as [[] c'] eqn:E; cbn in *.
  - split; [done|]. intros Hk. by destruct (proj1 Hf).
  - split; [|done]. intros _. rewrite <- (Hd eq_refl). apply Hs. by left.
Qed.

Lemma cache_Set_seen_self k c : cache_seen k (cache_Set k c).2.
Proof. apply cache_Set_seen. by left. Qed.

Lemma cache_Set_mono k k' c : cache_seen k' c -> cache_seen k' (cache_Set k c).2.
Proof. intros. apply cache_Set_seen. by right. Qed.
End laws.
#[export] Hint Resolve cache_Set_ok cache_cleanup_ok cache_Set_seen_self cache_Set_mono : go.

(** ** The implementation *)

(** [current] and [altered] are references to map objects of [store]. *)
Record AlterKey := mkAlterKey {
  store : gmap nat (gset Z);
  current : nat;
  altered : nat
}.

Definition map_at (c : AlterKey) (l : nat) : gset Z := default ∅ (store c !! l).

Definition NewAlterKey : AlterKey :=
  {| store := {[ 0%nat := ∅; 1%nat := ∅ ]}; current := 0; altered := 1 |}.

(** [(c *AlterKey) Set(key uint64) bool], under the mutex. *)
Definition AlterKey_Set (key : Z) (c : AlterKey) : bool * AlterKey :=
  if decide (key ∈ map_at c (current c)) then (false, c)
  else if decide (key ∈ map_at c (altered c)) then (false, c)
  else (true, {| store := <[current c := {[key]} ∪ map_at c (current c)]> (store c);
                 current := current c; altered := altered c |}).

(** One iteration of [cleanup]: [clear(c.altered); c.altered, c.current = c.current, c.altered]. *)
Definition AlterKey_cleanup (c : AlterKey) : AlterKey :=
  {| store := <[altered c := ∅]> (store c); current := altered c; altered := current c |}.

(** The references are distinct, and no key is in both maps. *)
Definition AlterKey_ok (c : AlterKey) : Prop :=
  current c <> altered c /\ map_at c (current c) ## map_at c (altered c).

Definition AlterKey_seen (k : Z) (c : AlterKey) : Prop :=
  k ∈ map_at c (current c) \/ k ∈ map_at c (altered c).

Lemma map_at_insert c l s cur alt l' :
  map_at {| store := <[l := s]> (store c); current := cur; altered := alt |} l'
  = if decide (l = l') then s else map_at c l'.
Proof. unfold map_at. cbn. rewrite lookup_insert. by case_decide. Qed.

Lemma AlterKey_Set_cases k c :
  (AlterKey_seen k c /\ AlterKey_Set k c = (false, c))
  \/ (~ AlterKey_seen k c /\ AlterKey_Set k c =
       (true, {| store := <[current c := {[k]} ∪ map_at c (current c)]> (store c);
                 current := current c; altered := altered c |})).
Proof. unfold AlterKey_Set, AlterKey_seen. repeat case_decide; tauto. Qed.

Lemma AlterKey_new_ok : AlterKey_ok NewAlterKey.
Proof. split; [done|]. cbn. set_solver. Qed.

Lemma AlterKey_cleanup_current c : AlterKey_ok c ->
  map_at (AlterKey_cleanup c) (current (AlterKey_cleanup c)) = ∅.
Proof. intros. unfold AlterKey_cleanup at 1. rewrite map_at_insert. by rewrite decide_True. Qed.

Lemma AlterKey_cleanup_altered c : AlterKey_ok c ->
  map_at (AlterKey_cleanup c) (altered (AlterKey_cleanup c)) = map_at c (current c).
Proof.
  intros [Hne _]. unfold AlterKey_cleanup at 1. rewrite map_at_insert.
  by rewrite decide_False by (cbn; congruence).
Qed.

#[export] Instance AlterKey_cache : DedupCache AlterKey := {|
  cache_ok := AlterKey_ok;
  cache_seen := AlterKey_seen;
  cache_Set := AlterKey_Set;
  cache_cleanup := AlterKey_cleanup
|}.

Lemma AlterKey_Set_ok k c : AlterKey_ok c -> AlterKey_ok (AlterKey_Set k c).2.
Proof.
  intros [Hne Hd]. destruct (AlterKey_Set_cases k c) as [[_ ->]|[Hk ->]]; [done|].
  split; [done|]. unfold AlterKey_seen in Hk. cbn. rewrite !map_at_insert.
  rewrite decide_True, decide_False by done. set_solver.
Qed.

Lemma AlterKey_cleanup_ok c : AlterKey_ok c -> AlterKey_ok (AlterKey_cleanup c).
Proof.
  intros Hc. split; [cbn; destruct Hc; congruence|].
  rewrite AlterKey_cleanup_current by done. set_solver.
Qed.

#[export] Instance AlterKey_laws : DedupCacheLaws AlterKey.
Proof.
  split; cbn; intros.
  - by apply AlterKey_Set_ok.
  - by apply AlterKey_cleanup_ok.
  - destruct (AlterKey_Set_cases k c) as [[? ->]|[? ->]]; cbn; naive_solver.
  - destruct (AlterKey_Set_cases k c) as [[? E]|[? E]]; rewrite E in *; done.
  - destruct (AlterKey_Set_cases k c) as [[? ->]|[? ->]]; cbn; [naive_solver|].
    unfold AlterKey_seen in *. cbn. rewrite !map_at_insert, decide_True by done.
    case_decide as He; [rewrite <- He in *|]; set_solver.
  - unfold AlterKey_seen, AlterKey_cleanup in *. cbn [current altered] in *.
    rewrite !map_at_insert in *. repeat case_decide; set_solver.
  - right. rewrite AlterKey_cleanup_altered by by apply AlterKey_Set_ok.
    destruct (AlterKey_Set_cases k c) as [[? E]|[? E]]; rewrite E in *; [done|].
    cbn. rewrite map_at_insert, decide_True by done. set_solver.
Qed.

(** ** Traces of operations *)

Inductive cache_op := OSet (k : Z) | OCleanup.

#[export] Instance cache_op_eq_dec : EqDecision cache_op.
Proof. solve_decision. Defined.

Definition is_cleanup (o : cache_op) : bool :=
  match o with OCleanup => true | OSet _ => false end.

(** The number of cleanups in a trace. *)
Definition cleanups (ops : list cache_op) : nat := length (List.filter is_cleanup ops).

Section traces.
Context {C : Type} `{DedupCache C}.

(** The answer of an operation ([cleanup] has none) and the cache after it. *)
Definition op_step (o : cache_op) (c : C) : list bool * C :=
  match o with
  | OSet k => let (r, c') := cache_Set k c in ([r], c')
  | OCleanup => ([], cache_cleanup c)
  end.

Fixpoint run_ops (ops : list cache_op) (c : C) : list bool * C :=
  match ops with
  | [] => ([], c)
  | o :: ops =>
      let (r, c) := op_step o c in
      let (rs, c) := run_ops ops c in (r ++ rs, c)
  end.

Definition exec_ops (ops : list cache_op) (c : C) : C := (run_ops ops c).2.

Lemma exec_ops_cons o ops c : exec_ops (o :: ops) c = exec_ops ops (op_step o c).2.
Proof. unfold exec_ops. cbn. destruct (op_step o c) as [r c']. cbn. by destruct (run_ops ops c'). Qed.

Lemma exec_ops_app ops1 ops2 c : exec_ops (ops1 ++ ops2) c = exec_ops ops2 (exec_ops ops1 c).
Proof. revert c. induction ops1 as [|o ops1 IH]; intros c; [done|]. cbn [app]. by rewrite !exec_ops_cons, IH. Qed.
End traces.

(** ** Specification: a cache of epochs *)

Record epochs := mkEpochs { epoch : nat; born : gmap Z nat }.

(** A key is live during its epoch of insertion and the following one. *)
Definition live (k : Z) (e : epochs) : bool :=
  match born e !! k with Some b => (epoch e <=? S b)%nat | None => false end.

Definition epochs_Set (k : Z) (e : epochs) : bool * epochs :=
  if live k e then (false, e)
  else (true, {| epoch := epoch e; born := <[k := epoch e]> (born e) |}).

Definition epochs_cleanup (e : epochs) : epochs := {| epoch := S (epoch e); born := born e |}.

Definition epochs_ok (e : epochs) : Prop := forall k b, born e !! k = Some b -> (b <= epoch e)%nat.

#[export] Instance epochs_cache : DedupCache epochs := {|
  cache_ok := epochs_ok;
  cache_seen k e := live k e = true;
  cache_Set := epochs_Set;
  cache_cleanup := epochs_cleanup
|}.

Definition new_epochs : epochs := {| epoch := 0; born := ∅ |}.

Lemma live_true k e : live k e = true <-> exists b, born e !! k = Some b /\ (epoch e <= S b)%nat.
Proof.
  unfold live. destruct (born e !! k) as [b|].
  - rewrite Nat.leb_le. split; [eauto|]. intros (? & [= <-] & ?). done.
  - split; [done|]. by intros (? & ? & _).
Qed.

#[export] Instance epochs_laws : DedupCacheLaws epochs.
Proof.
  split; cbn; intros.
  - unfold epochs_Set, epochs_ok in *. case_if; cbn; [eauto|]. intros k' b'.
    rewrite lookup_insert. case_decide; [intros [= <-]; lia|eauto].
  - intros k' b' Hb. cbn in *. apply H in Hb. lia.
  - unfold epochs_Set. case_if; cbn; naive_solver.
  - unfold epochs_Set in *. by case_if.
  - unfold epochs_Set. case_if; cbn; [naive_solver|]. rewrite !live_true. cbn.
    rewrite lookup_insert. case_decide; [subst; naive_solver lia|naive_solver].
  - rewrite live_true in *. cbn in *. destruct H as (b & ? & ?). exists b. split; [done|lia].
  - unfold epochs_Set in *. case_if; [done|]. rewrite live_true. cbn.
    exists (epoch c). by rewrite lookup_insert_eq.
Qed.

(** ** Refinement *)

(** [current] holds the keys of this epoch, [altered] those of the previous one. *)
Record alterkey_rel (c : AlterKey) (e : epochs) : Prop := {
  rel_ok : AlterKey_ok c;
  rel_epochs_ok : epochs_ok e;
  rel_current k : k ∈ map_at c (current c) <-> born e !! k = Some (epoch e);
  rel_altered k : k ∈ map_at c (altered c) <-> exists b, born e !! k = Some b /\ epoch e = S b
}.

Lemma alterkey_rel_seen c e k : alterkey_rel c e -> AlterKey_seen k c <-> live k e = true.
Proof.
  intros [_ Hok Hcur Halt]. unfold AlterKey_seen. rewrite Hcur, Halt, live_true. split.
  - intros [?|(b & ? & ?)]; eexists; (split; [done|lia]).
  - intros (b & Hb & ?). specialize (Hok _ _ Hb).
    destruct (decide (epoch e = b)) as [->|]; [by left|]. right. exists b. split; [done|lia].
Qed.

Lemma alterkey_rel_new : alterkey_rel NewAlterKey new_epochs.
Proof.
  split; [apply AlterKey_new_ok|by intros k b| |]; intros k; cbn; rewrite lookup_empty;
    (split; [set_solver|naive_solver]).
Qed.

Lemma alterkey_rel_Set c e k :
  alterkey_rel c e ->
  (AlterKey_Set k c).1 = (epochs_Set k e).1
  /\ alterkey_rel (AlterKey_Set k c).2 (epochs_Set k e).2.
Proof.
  intros Hrel. pose proof (alterkey_rel_seen c e k Hrel) as Hseen. unfold epochs_Set.
  pose proof (cache_Set_ok k e (rel_epochs_ok _ _ Hrel)) as Hok. cbn in Hok. unfold epochs_Set in Hok.
  pose proof (AlterKey_Set_ok k c (rel_ok _ _ Hrel)) as HokC.
  destruct (AlterKey_Set_cases k c) as [[Hk E]|[Hk E]]; rewrite E in *; cbn in HokC.
  { by rewrite (proj1 Hseen Hk). }
  destruct (live k e) eqn:Hl; [tauto|]. cbn in *. split; [done|].
  destruct Hrel as [[Hne Hdis] Hb Hcur Halt]. split; cbn; [done|done| |]; intros k';
    rewrite map_at_insert, lookup_insert.
  - rewrite decide_True by done. case_decide; subst; [set_solver|]. rewrite <- Hcur. set_solver.
  - rewrite decide_False by done. rewrite Halt. case_decide as Hkk; [subst k'|done].
    split; [|intros (b & [= <-] & ?); lia].
    intros (b & ? & ?). exfalso. apply Hk. right. apply Halt. eauto.
Qed.

Lemma alterkey_rel_cleanup c e :
  alterkey_rel c e -> alterkey_rel (AlterKey_cleanup c) (epochs_cleanup e).
Proof.
  intros [Hc He Hcur Halt]. split.
  - by apply AlterKey_cleanup_ok.
  - exact (cache_cleanup_ok e He).
  - intros k. rewrite AlterKey_cleanup_current by done. cbn. split; [set_solver|].
    intros Hb%He. lia.
  - intros k. rewrite AlterKey_cleanup_altered by done. cbn. rewrite Hcur.
    split; [eauto|]. intros (b & ? & [= ->]). done.
Qed.

Lemma alterkey_rel_step o c e :
  alterkey_rel c e ->
  (op_step o c).1 = (op_step o e).1 /\ alterkey_rel (op_step o c).2 (op_step o e).2.
Proof.
  intros Hrel. destruct o as [k|]; cbn.
  - destruct (alterkey_rel_Set c e k Hrel) as [Hr Hs].
    destruct (AlterKey_Set k c), (epochs_Set k e). cbn in *. by rewrite Hr.
  - split; [done|]. by apply alterkey_rel_cleanup.
Qed.

Lemma alterkey_rel_run ops c e :
  alterkey_rel c e ->
  (run_ops ops c).1 = (run_ops ops e).1 /\ alterkey_rel (exec_ops ops c) (exec_ops ops e).
Proof.
  revert c e. induction ops as [|o ops IH]; intros c e Hrel; [done|].
  destruct (alterkey_rel_step o c e Hrel) as [Hr Hs].
  rewrite !exec_ops_cons. destruct (IH _ _ Hs) as [Hrs He]. split; [|done].
  cbn. destruct (op_step o c) as [r c'], (op_step o e) as [r' e']. cbn in *.
  destruct (run_ops ops c'), (run_ops ops e'). cbn in *. by rewrite Hr, Hrs.
Qed.

(** ** How long a key is remembered *)

Lemma cleanups_cons o ops : cleanups (o :: ops) = ((if is_cleanup o then 1 else 0) + cleanups ops)%nat.
Proof. unfold cleanups. by destruct o. Qed.

Lemma cleanups_app a b : cleanups (a ++ b) = (cleanups a + cleanups b)%nat.
Proof. unfold cleanups. by rewrite List.filter_app, length_app. Qed.

Lemma epoch_exec ops e : epoch (exec_ops ops e) = (epoch e + cleanups ops)%nat.
Proof.
  revert e. induction ops as [|o ops IH]; intros e; [cbn; lia|].
  rewrite exec_ops_cons, IH, cleanups_cons. destruct o; cbn.
  - unfold epochs_Set. case_if; cbn; lia.
  - lia.
Qed.

(** While a key is live, setting it again does not renew it. *)
Lemma born_keep ops e k b :
  born e !! k = Some b -> (epoch e + cleanups ops <= S b)%nat ->
  born (exec_ops ops e) !! k = Some b.
Proof.
  revert e. induction ops as [|o ops IH]; intros e Hb Hn; [done|].
  rewrite cleanups_cons in Hn. rewrite exec_ops_cons. destruct o as [k'|]; cbn in *.
  - apply IH; unfold epochs_Set; case_if; cbn; [done| |lia|lia].
    rewrite lookup_insert_ne; [done|]. intros ->.
    assert (live k e = true) by (apply live_true; exists b; split; [done|lia]). congruence.
  - apply IH; cbn; [done|lia].
Qed.

(** A key that is not set again keeps its epoch of insertion. *)
Lemma born_unset ops e k :
  OSet k ∉ ops -> born (exec_ops ops e) !! k = born e !! k.
Proof.
  revert e. induction ops as [|o ops IH]; intros e Hk; [done|].
  apply not_elem_of_cons in Hk as [Hne Hk]. rewrite exec_ops_cons, IH by done.
  destruct o as [k'|]; cbn; [|done]. unfold epochs_Set. case_if; cbn; [done|].
  rewrite lookup_insert_ne; [done|]. congruence.
Qed.

(** Every cache state reached from [NewAlterKey] implements an epoch cache. *)
Lemma reachable_rel ops : exists e, alterkey_rel (exec_ops ops NewAlterKey) e.
Proof. eexists. apply (alterkey_rel_run ops), alterkey_rel_new. Qed.

(** After [Set k] has succeeded, the specification knows [k] as born in this epoch. *)
Lemma Set_true_born c e k :
  alterkey_rel c e -> (AlterKey_Set k c).1 = true ->
  exists e', alterkey_rel (AlterKey_Set k c).2 e' /\ born e' !! k = Some (epoch e').
Proof.
  intros Hrel Hset. destruct (alterkey_rel_Set c e k Hrel) as [Hr Hs].
  eexists. split; [exact Hs|]. rewrite Hr in Hset. unfold epochs_Set in *.
  case_if; [done|]. cbn. apply lookup_insert_eq.
Qed.

Lemma Set_live c e k : alterkey_rel c e -> (AlterKey_Set k c).1 = negb (live k e).
Proof.
  intros Hrel. destruct (alterkey_rel_Set c e k Hrel) as [-> _].
  unfold epochs_Set. by case_if.
Qed.

(** Within one cleanup of its insertion a key is refused. *)
Lemma Set_refused c e k ops :
  alterkey_rel c e -> (AlterKey_Set k c).1 = true -> (cleanups ops <= 1)%nat ->
  (AlterKey_Set k (exec_ops ops (AlterKey_Set k c).2)).1 = false.
Proof.
  intros Hrel Hset Hn. destruct (Set_true_born _ _ _ Hrel Hset) as (e1 & Hrel1 & Hborn).
  destruct (alterkey_rel_run ops _ _ Hrel1) as [_ Hrel2].
  rewrite (Set_live _ _ k Hrel2), negb_false_iff, live_true.
  exists (epoch e1). split; [apply born_keep; [done|lia]|]. rewrite epoch_exec. lia.
Qed.

(** ** Theorems *)

(** C11: refinement.  Over every sequence of [Set]s and cleanups the double-buffered
    cache, with its map objects reused and their references swapped, gives the same
    answers as the epoch specification, in which a key is known during its epoch of
    insertion and the next one. *)
Theorem AlterKey_refines_epochs (ops : list cache_op) :
  (run_ops ops NewAlterKey).1 = (run_ops ops new_epochs).1
  /\ forall k, AlterKey_seen k (exec_ops ops NewAlterKey) <-> live k (exec_ops ops new_epochs) = true.
Proof.
  destruct (alterkey_rel_run ops _ _ alterkey_rel_new) as [Hr Hs].
  split; [done|]. intros k. by apply alterkey_rel_seen.
Qed.

(** The deduplication window.  In any reachable cache, once [Set k] has returned
    true, [Set k] returns false as long as at most one cleanup has run; and it returns
    true again once two cleanups have run, no matter how many duplicates of [k]
    arrived while it was remembered: duplicates do not renew a key. *)
Theorem AlterKey_window (ops0 ops1 ops2 : list cache_op) (k : Z) :
  let c := exec_ops ops0 NewAlterKey in
  (AlterKey_Set k c).1 = true -> (cleanups ops1 <= 1)%nat ->
  let c' := exec_ops ops1 (AlterKey_Set k c).2 in
  (AlterKey_Set k c').1 = false
  /\ ((2 <= cleanups (ops1 ++ ops2))%nat -> OSet k ∉ ops2 ->
      (AlterKey_Set k (exec_ops ops2 c')).1 = true).
Proof.
  intros c Hset Hn c'. destruct (reachable_rel ops0) as [e Hrel].
  destruct (Set_true_born _ _ _ Hrel Hset) as (e1 & Hrel1 & Hborn).
  destruct (alterkey_rel_run ops1 _ _ Hrel1) as [_ Hrel2].
  destruct (alterkey_rel_run ops2 _ _ Hrel2) as [_ Hrel3].
  assert (born (exec_ops ops1 e1) !! k = Some (epoch e1)) as Hb by (apply born_keep; [done|lia]).
  unfold c', c. rewrite (Set_live _ _ k Hrel2), (Set_live _ _ k Hrel3), negb_false_iff, negb_true_iff.
  split.
  - apply live_true. eexists. split; [exact Hb|]. rewrite epoch_exec. lia.
  - rewrite cleanups_app. intros H2 Hk. apply not_true_iff_false. rewrite live_true.
    rewrite born_unset, Hb by done. intros (b & [= <-] & ?). rewrite !epoch_exec in *. lia.
Qed.

Lemma AlterKey_window_witness :
  (AlterKey_Set 7 (exec_ops [OSet 7; OCleanup; OSet 7; OCleanup] NewAlterKey)).1 = true.
Proof.
  refine (proj2 (AlterKey_window [] [OCleanup; OSet 7] [OCleanup] 7 _ _) _ _).
  - vm_compute. reflexivity.
  - vm_compute. repeat constructor.
  - vm_compute. repeat constructor.
  - apply not_elem_of_cons. split; [discriminate|apply not_elem_of_nil].
Defined.
