(* ===== verification/Udp.v ===== *)
(** * Socket addresses, descriptors and the port allocator ([pkg/udp/udp.go])

    [Sockaddr] is Go's [syscall.Sockaddr] interface ([None] is nil), [NetipAddr] is
    [netip.Addr], a [net.IP] is a byte list ([[]] is nil).  System calls are inputs of
    the definitions: a socket operation takes the result the kernel gave. *)

From S2P Require Import Prelude.

(** ** Addresses of the Go standard library *)

Inductive Sockaddr :=
  | SockaddrInet4 (Port : Z) (Addr : list byte)
  | SockaddrInet6 (Port ZoneId : Z) (Addr : list byte)
  | SockaddrOther (family : Z).

#[export] Instance Sockaddr_eq_dec : EqDecision Sockaddr.
Proof. solve_decision. Defined.

Inductive NetipAddr :=
  | ZeroAddr
  | Addr4 (a : list byte)
  | Addr6 (a : list byte) (zone : string).

#[export] Instance NetipAddr_eq_dec : EqDecision NetipAddr.
Proof. solve_decision. Defined.

#[export] Instance NetipAddr_countable : Countable NetipAddr.
Proof.
  refine (inj_countable'
    (fun a => match a with
              | ZeroAddr => inl (inl tt)
              | Addr4 a => inl (inr a)
              | Addr6 a z => inr (a, z)
              end)
    (fun x : (unit + list byte) + (list byte * string) => match x with
              | inl (inl _) => ZeroAddr
              | inl (inr a) => Addr4 a
              | inr (a, z) => Addr6 a z
              end) _).
  by intros [].
Defined.

Definition AddrFrom4 (a : list byte) : NetipAddr := Addr4 a.
Definition AddrFrom16 (a : list byte) : NetipAddr := Addr6 a "".

(** [netip.AddrFromSlice] *)
Definition AddrFromSlice (s : list byte) : NetipAddr * bool :=
  if (length s =? 4)%nat then (Addr4 s, true)
  else if (length s =? 16)%nat then (Addr6 s "", true)
  else (ZeroAddr, false).

(** [Addr.IsUnspecified]; the zero [Addr] is not an unspecified address. *)
Definition IsUnspecified (a : NetipAddr) : bool :=
  bool_decide (a = Addr4 (replicate 4 Byte.x00)) || bool_decide (a = Addr6 (replicate 16 Byte.x00) "").

(** The prefix [::ffff:0:0/96] of an IPv4-mapped IPv6 address. *)
Definition v4InV6Prefix : list byte := replicate 10 Byte.x00 ++ [Byte.xff; Byte.xff].

(** [net.IP.To4] and [net.IP.To16] *)
Definition To4 (ip : list byte) : option (list byte) :=
  if (length ip =? 4)%nat then Some ip
  else if (length ip =? 16)%nat && bool_decide (take 12 ip = v4InV6Prefix) then Some (drop 12 ip)
  else None.

Definition To16 (ip : list byte) : option (list byte) :=
  if (length ip =? 4)%nat then Some (v4InV6Prefix ++ ip)
  else if (length ip =? 16)%nat then Some ip
  else None.

(** [Addr.As4]: panics unless the address is IPv4 or IPv4-mapped. *)
Definition As4 {E} (a : NetipAddr) : outcome E (list byte) :=
  match a with
  | Addr4 a => Ok a
  | Addr6 a _ => match To4 a with Some v4 => Ok v4 | None => Panic InvalidNetipAddr end
  | ZeroAddr => Panic InvalidNetipAddr
  end.

(** [net.UDPAddr] (its zone is not used by the program). *)
Record UDPAddr := mkUDPAddr { UIP : list byte; UPort : Z }.

(** [netip.AddrPort] *)
Record AddrPort := mkAddrPort { ap_Addr : NetipAddr; ap_Port : Z }.

(** ** [udp.Addr] *)

Record Addr := mkAddr { SockAddr : option Sockaddr; NetAddr : NetipAddr }.

#[export] Instance Addr_eq_dec : EqDecision Addr.
Proof. solve_decision. Defined.

Definition zeroAddr : Addr := {| SockAddr := None; NetAddr := ZeroAddr |}.

(** [a == Addr{}]: a non-nil interface never equals the nil one. *)
Definition IsZero (a : Addr) : bool := bool_decide (a = zeroAddr).

Inductive udp_error :=
  | ErrRecvmsg (errno : Z)
  | ErrSendmsg (errno : Z)
  | ErrUnknownAddressFormat
  | ErrSocket (errno : Z)
  | ErrSetsockopt (errno : Z)
  | ErrBind (errno : Z)
  | ErrNoAvailablePorts (min max : Z)
  | ErrResolve (msg : string)
  | ErrInvalidIP (ip : list byte).

#[export] Instance udp_error_eq_dec : EqDecision udp_error.
Proof. solve_decision. Defined.

Definition NewAddr (sa : option Sockaddr) : outcome udp_error Addr :=
  match sa with
  | Some (SockaddrInet4 _ a) => Ok {| SockAddr := sa; NetAddr := AddrFrom4 a |}
  | Some (SockaddrInet6 _ _ a) => Ok {| SockAddr := sa; NetAddr := AddrFrom16 a |}
  | _ => Err ErrUnknownAddressFormat
  end.

Definition SockaddrPort (sa : option Sockaddr) : Z :=
  match sa with
  | None => 0
  | Some (SockaddrInet4 p _) => p
  | Some (SockaddrInet6 p _ _) => p
  | Some (SockaddrOther _) => 0
  end.

Definition EqualSockaddrs (a1 a2 : option Sockaddr) : bool :=
  match a1, a2 with
  | None, _ => false
  | _, None => false
  | Some (SockaddrInet4 p1 x1), Some s2 =>
      match s2 with
      | SockaddrInet4 p2 x2 => bool_decide (x1 = x2) && (p1 =? p2)
      | _ => false
      end
  | Some (SockaddrInet6 p1 _ x1), Some s2 =>
      match s2 with
      | SockaddrInet6 p2 _ x2 => bool_decide (x1 = x2) && (p1 =? p2)
      | _ => false
      end
  | Some (SockaddrOther _), Some _ => false
  end.

Definition EqualSockaddrsIPs (a1 a2 : option Sockaddr) : bool :=
  match a1, a2 with
  | None, _ => false
  | _, None => false
  | Some (SockaddrInet4 _ x1), Some s2 =>
      match s2 with
      | SockaddrInet4 _ x2 => bool_decide (x1 = x2)
      | _ => false
      end
  | Some (SockaddrInet6 _ _ x1), Some s2 =>
      match s2 with
      | SockaddrInet6 _ _ x2 => bool_decide (x1 = x2)
      | _ => false
      end
  | Some (SockaddrOther _), Some _ => false
  end.

(** The array literal [[4]byte{ip[0], ip[1], ip[2], ip[3]}]. *)
Definition first4 {E} (ip : list byte) : outcome E (list byte) :=
  b0 ← go_index ip 0;
  b1 ← go_index ip 1;
  b2 ← go_index ip 2;
  b3 ← go_index ip 3;
  Ok [b0; b1; b2; b3].

Definition SockAddrFromNetUDPAddr (addr : UDPAddr) : outcome udp_error Sockaddr :=
  let ip := default [] (To4 (UIP addr)) in
  a ← first4 ip;
  Ok (SockaddrInet4 (UPort addr) a).

Definition SockAddrFromNetipAddrPort (addr : AddrPort) : outcome udp_error Sockaddr :=
  ip ← As4 (ap_Addr addr);
  a ← first4 ip;
  Ok (SockaddrInet4 (ap_Port addr) a).

Definition UDPAddrFromSockAddr (sa : option Sockaddr) : UDPAddr :=
  match sa with
  | Some (SockaddrInet4 p a) => {| UIP := a; UPort := p |}
  | Some (SockaddrInet6 p _ a) => {| UIP := a; UPort := p |}
  | _ => {| UIP := []; UPort := 0 |}
  end.

(** [SockAddrFromUDPString]: [resolve] is [net.ResolveUDPAddr "udp"]. *)
Definition SockAddrFromUDPString (resolve : string -> outcome udp_error UDPAddr) (addr : string)
    : outcome udp_error Sockaddr :=
  udpAddr ← resolve addr;
  SockAddrFromNetUDPAddr udpAddr.

(** [SockaddrString]: [addr_String] is [netip.Addr.String], [itoa] prints an [int]. *)
Definition SockaddrString (addr_String : NetipAddr -> string) (itoa : Z -> string)
    (sa : option Sockaddr) : string :=
  match sa with
  | None => ""
  | Some (SockaddrInet4 p a) => (addr_String (AddrFrom4 a) +:+ ":" +:+ itoa p)%string
  | Some (SockaddrInet6 p _ a) => (addr_String (AddrFrom16 a) +:+ ":" +:+ itoa p)%string
  | Some (SockaddrOther _) => ""
  end.

(** ** Descriptors *)

(** [FDConn]; [open] is the atomic flag. *)
Record FDConn := mkFDConn { fd : Z; Port : Z; open : bool }.

Definition IsOpen (c : FDConn) : bool := open c.

(** [Close]: clears the flag and closes the descriptor (returned as the one closed). *)
Definition Close (c : FDConn) : FDConn * Z := (mkFDConn (fd c) (Port c) false, fd c).

(** What [recvmsg] gives: an error, or a datagram and its source. *)
Inductive recv_result :=
  | RecvErr (errno : Z)
  | RecvMsg (data : list byte) (from : option Sockaddr).

(** [UnsafeReadFrom(b)]: the buffer afterwards, the number of bytes read, the source.
    The kernel truncates a datagram to the buffer. *)
Definition UnsafeReadFrom (b : list byte) (r : recv_result)
    : outcome udp_error (list byte * Z * Addr) :=
  match r with
  | RecvErr errno => Err (ErrRecvmsg errno)
  | RecvMsg data from =>
      addr ← NewAddr from;
      Ok (go_copy b data, Z.min (zlen b) (zlen data), addr)
  end.

(** A datagram handed to [sendmsg]. *)
Record send := mkSend { s_fd : Z; s_data : list byte; s_to : option Sockaddr }.

(** [UnsafeWrite]: [sendmsg] is the kernel's answer, [None] on success. *)
Definition UnsafeWrite (sendmsg : send -> option Z) (c : FDConn) (b : list byte) (to : option Sockaddr)
    : outcome udp_error unit :=
  match sendmsg (mkSend (fd c) b to) with
  | None => Ok tt
  | Some errno => Err (ErrSendmsg errno)
  end.

(** [Server(port)] on the results of its three system calls ([None] of an [option Z]
    is success): the listening descriptor or the error, and the descriptors closed. *)
Definition Server (socket : Z + Z) (setsockopt bind : option Z) (port : Z)
    : outcome udp_error FDConn * list Z :=
  match socket with
  | inl errno => (Err (ErrSocket errno), [])
  | inr fd =>
      match setsockopt with
      | Some errno => (Err (ErrSetsockopt errno), [fd])
      | None =>
          match bind with
          | Some errno => (Err (ErrBind errno), [fd])
          | None => (Ok (mkFDConn fd port true), [])
          end
      end
  end.

(** ** The port allocator *)

Record FDSet := mkFDSet { fs_min : Z; fs_max : Z; fs_current : Z }.

Definition NewFDSet (min max : Z) : FDSet := {| fs_min := min; fs_max := max; fs_current := min |}.

(** [if port == f.max { f.current = f.min } else { f.current += 1 }] *)
Definition advance (f : FDSet) : FDSet :=
  {| fs_min := fs_min f; fs_max := fs_max f;
     fs_current := if fs_current f =? fs_max f then fs_min f else fs_current f + 1 |}.

(** The loop of [NextFD].  [bind_ok p] tells whether the kernel lets the (unbound) socket
    bind port [p]; [bound] tells whether the socket is bound already, in which case
    [bind] fails.  The result is the bound port or the error, and the new [FDSet];
    [None] means the fuel ran out. *)
Fixpoint NextFD_loop (bind_ok : Z -> bool) (startPort : Z) (fuel : nat) (i : Z) (bound : bool)
    (f : FDSet) : option (outcome udp_error Z * FDSet) :=
  match fuel with
  | O => None
  | S fuel =>
      let port := fs_current f in
      if negb (i =? 0) && (startPort =? port) then
        Some (Err (ErrNoAvailablePorts (fs_min f) (fs_max f)), f)
      else
        let ok := negb bound && bind_ok port in
        let boundPort := if ok then port else 0 in
        let f := advance f in
        if negb (boundPort =? 0) then Some (Ok boundPort, f)
        else NextFD_loop bind_ok startPort fuel (i + 1) (bound || ok) f
  end.

Definition fd_fuel (f : FDSet) : nat := Z.to_nat (fs_max f - fs_min f + 2).

(** [NextFD()]: the connection or the error, the new [FDSet] and the descriptors closed. *)
Definition NextFD (socket : Z + Z) (setsockopt : option Z) (bind_ok : Z -> bool) (f : FDSet)
    : option (outcome udp_error FDConn * FDSet * list Z) :=
  match socket with
  | inl errno => Some (Err (ErrSocket errno), f, [])
  | inr fd =>
      match setsockopt with
      | Some errno => Some (Err (ErrSetsockopt errno), f, [fd])
      | None =>
          match NextFD_loop bind_ok (fs_current f) (fd_fuel f) 0 false f with
          | None => None
          | Some (Ok port, f') => Some (Ok (mkFDConn fd port true), f', [])
          | Some (Err e, f') => Some (Err e, f', [fd])
          | Some (Panic p, f') => Some (Panic p, f', [])
          end
      end
  end.

(** * Properties *)

(** ** The port scan *)

Definition fs_ok (f : FDSet) : Prop := fs_min f <= fs_current f <= fs_max f.

Definition fs_size (f : FDSet) : Z := fs_max f - fs_min f + 1.

(** The [k]-th port of the cyclic scan that starts at [fs_current f]. *)
Definition cyc (f : FDSet) (k : Z) : Z :=
  fs_min f + (fs_current f - fs_min f + k) mod fs_size f.

Definition at_port (f : FDSet) (p : Z) : FDSet :=
  {| fs_min := fs_min f; fs_max := fs_max f; fs_current := p |}.

Section scan.
Context (f : FDSet) (Hf : fs_ok f).

Lemma fs_size_pos : 0 < fs_size f.
Proof using Hf. unfold fs_size, fs_ok in *. lia. Qed.

Lemma cyc_range k : fs_min f <= cyc f k <= fs_max f.
Proof using Hf.
  pose proof fs_size_pos. unfold cyc.
  pose proof (Z.mod_pos_bound (fs_current f - fs_min f + k) (fs_size f)).
  unfold fs_size in *. lia.
Qed.

Lemma cyc_0 : cyc f 0 = fs_current f.
Proof using Hf. unfold cyc, fs_size, fs_ok in *. rewrite Z.mod_small; lia. Qed.

Lemma cyc_full : cyc f (fs_size f) = fs_current f.
Proof using Hf.
  pose proof fs_size_pos. unfold cyc.
  rewrite <- (Z.mul_1_l (fs_size f)) at 1. rewrite Z.mod_add by lia.
  rewrite Z.mod_small; unfold fs_size, fs_ok in *; lia.
Qed.

(** Before the scan is complete it does not return to its start. *)
Lemma cyc_not_start k : 0 < k < fs_size f -> cyc f k <> fs_current f.
Proof using Hf.
  intros Hk Heq. unfold cyc in Heq. set (a := fs_current f - fs_min f) in *.
  assert ((a + k) mod fs_size f = a) as Ha by lia.
  assert (0 <= a < fs_size f) by (unfold a, fs_size, fs_ok in *; lia).
  pose proof (Z.div_mod (a + k) (fs_size f) ltac:(lia)). rewrite Ha in *.
  assert (k = fs_size f * ((a + k) / fs_size f)) by lia.
  destruct (Z.lt_trichotomy ((a + k) / fs_size f) 0) as [?|[?|?]]; nia.
Qed.

(** Every port of the range is visited. *)
Lemma cyc_onto p : fs_min f <= p <= fs_max f -> exists k, 0 <= k < fs_size f /\ p = cyc f k.
Proof using Hf.
  intros Hp. pose proof fs_size_pos. exists ((p - fs_current f) mod fs_size f).
  split; [by apply Z.mod_pos_bound|]. unfold cyc.
  rewrite Z.add_mod_idemp_r by lia.
  replace (fs_current f - fs_min f + (p - fs_current f)) with (p - fs_min f) by lia.
  rewrite Z.mod_small; unfold fs_size in *; lia.
Qed.

Lemma advance_cyc k : advance (at_port f (cyc f k)) = at_port f (cyc f (k + 1)).
Proof using Hf.
  pose proof fs_size_pos. unfold advance, at_port. cbn [fs_min fs_max fs_current]. f_equal.
  pose proof (Z.mod_pos_bound (fs_current f - fs_min f + k) (fs_size f) ltac:(lia)).
  unfold cyc. rewrite Z.add_assoc.
  rewrite (Z.add_mod (fs_current f - fs_min f + k) 1) by lia.
  assert (fs_max f = fs_min f + fs_size f - 1) as -> by (unfold fs_size; lia).
  generalize dependent ((fs_current f - fs_min f + k) mod fs_size f). intros m Hm.
  destruct (Z.eqb_spec (fs_min f + m) (fs_min f + fs_size f - 1)).
  - assert (m = fs_size f - 1) as -> by lia.
    destruct (decide (fs_size f = 1)) as [->|]; [rewrite !Z.mod_1_r; lia|].
    rewrite (Z.mod_small 1) by lia.
    replace (fs_size f - 1 + 1) with (fs_size f) by lia. rewrite Z.mod_same; lia.
  - rewrite (Z.mod_small 1), Z.mod_small by lia. lia.
Qed.

Lemma at_port_ok k : fs_ok (at_port f (cyc f k)).
Proof using Hf. apply cyc_range. Qed.

(** The [k]-th port of the scan is the first that the kernel accepts. *)
Definition first_accepted (bind_ok : Z -> bool) (k : Z) : Prop :=
  0 <= k < fs_size f /\ bind_ok (cyc f k) = true /\ forall j, 0 <= j < k -> bind_ok (cyc f j) = false.

(** The outcome of a scan.  Port 0 is taken for "not bound". *)
Definition scan_result (bind_ok : Z -> bool) (r : outcome udp_error Z) (f' : FDSet) : Prop :=
  match r with
  | Ok p => exists k, first_accepted bind_ok k /\ p = cyc f k /\ p <> 0 /\ f' = at_port f (cyc f (k + 1))
  | Err e => e = ErrNoAvailablePorts (fs_min f) (fs_max f) /\ f' = f
      /\ forall k, first_accepted bind_ok k -> cyc f k = 0
  | Panic _ => False
  end.

(** Once the socket is bound the scan can only run to its end. *)
Lemma NextFD_loop_bound bind_ok fuel k :
  0 < k <= fs_size f -> fs_size f - k < Z.of_nat fuel ->
  NextFD_loop bind_ok (fs_current f) fuel k true (at_port f (cyc f k))
  = Some (Err (ErrNoAvailablePorts (fs_min f) (fs_max f)), f).
Proof using Hf.
  revert k. induction fuel as [|fuel IH]; intros k Hk Hfuel; [lia|].
  cbn [NextFD_loop]. rewrite advance_cyc. cbn [at_port fs_current fs_min fs_max negb andb orb].
  rewrite (proj2 (Z.eqb_neq k 0)) by lia. cbn [negb andb].
  destruct (Z.eqb_spec (fs_current f) (cyc f k)) as [Heq|Hne].
  - rewrite <- Heq. by destruct f.
  - change (0 =? 0) with true. cbn [negb]. apply IH; [|lia].
    assert (k <> fs_size f) by (intros ->; by rewrite cyc_full in Hne). lia.
Qed.

Lemma NextFD_loop_spec bind_ok fuel k :
  0 <= k <= fs_size f -> fs_size f - k < Z.of_nat fuel ->
  (forall j, 0 <= j < k -> bind_ok (cyc f j) = false) ->
  exists r f', NextFD_loop bind_ok (fs_current f) fuel k false (at_port f (cyc f k)) = Some (r, f')
    /\ scan_result bind_ok r f'.
Proof using Hf.
  revert k. induction fuel as [|fuel IH]; intros k Hk Hfuel Hno; [lia|].
  pose proof fs_size_pos. cbn [NextFD_loop]. rewrite advance_cyc. cbn [at_port fs_current fs_min fs_max].
  destruct (negb (k =? 0) && (fs_current f =? cyc f k)) eqn:Hback.
  { apply andb_prop in Hback as [Hk0%negb_true_iff%Z.eqb_neq Heq%Z.eqb_eq].
    assert (k = fs_size f) as -> by (destruct (decide (k = fs_size f)); [done|]; destruct (cyc_not_start k); [lia|done]).
    do 2 eexists. split; [done|]. split_and!; [done|rewrite cyc_full; by destruct f|].
    intros k (Hk' & Ht & _). by rewrite Hno in Ht. }
  assert (k < fs_size f).
  { destruct (decide (k = fs_size f)) as [->|]; [|lia]. rewrite cyc_full, Z.eqb_refl, andb_true_r in Hback.
    apply negb_false_iff, Z.eqb_eq in Hback. lia. }
  cbn [negb andb orb]. destruct (bind_ok (cyc f k)) eqn:Hb.
  - destruct (Z.eqb_spec (cyc f k) 0) as [Hz|Hz]; cbn [negb].
    + rewrite NextFD_loop_bound by lia. do 2 eexists. split; [done|]. split_and!; [done..|].
      intros k' (Hk' & Ht & Hno'). destruct (Z.lt_trichotomy k' k) as [?|[->|?]]; [|done|].
      * by rewrite Hno in Ht by lia.
      * by rewrite Hno' in Hb by lia.
    + do 2 eexists. split; [done|]. exists k. unfold first_accepted. split_and!; done || lia.
  - change (0 =? 0) with true. cbn [negb]. apply IH; [lia|lia|].
    intros j Hj. destruct (decide (j = k)) as [->|]; [done|]. apply Hno. lia.
Qed.

(** The first accepted port exists if any is accepted. *)
Lemma first_accepted_or_none bind_ok :
  (forall p, fs_min f <= p <= fs_max f -> bind_ok p = false) \/ exists k, first_accepted bind_ok k.
Proof using Hf.
  pose proof fs_size_pos.
  assert (forall n : nat, Z.of_nat n <= fs_size f ->
    (forall j, 0 <= j < Z.of_nat n -> bind_ok (cyc f j) = false) \/ exists k, first_accepted bind_ok k) as Hn.
  { induction n as [|n IH]; intros Hle; [left; lia|]. destruct IH as [Hno|?]; [lia| |by right].
    destruct (bind_ok (cyc f (Z.of_nat n))) eqn:Hb; [right; exists (Z.of_nat n); split_and!; done || lia|left].
    intros j Hj. destruct (decide (j = Z.of_nat n)) as [->|]; [done|]. apply Hno. lia. }
  destruct (Hn (Z.to_nat (fs_size f))) as [Hno|?]; [lia| |by right].
  left. intros p (j & Hj & ->)%cyc_onto. apply Hno. lia.
Qed.

(** Whatever the range, the scan returns, somewhere in the cycle. *)
Lemma NextFD_loop_total bind_ok fuel k bound :
  0 <= k <= fs_size f -> fs_size f - k < Z.of_nat fuel ->
  exists r j, NextFD_loop bind_ok (fs_current f) fuel k bound (at_port f (cyc f k)) = Some (r, at_port f (cyc f j))
    /\ match r with Ok p => fs_min f <= p <= fs_max f | Err _ => True | Panic _ => False end.
Proof using Hf.
  revert k bound. induction fuel as [|fuel IH]; intros k bound Hk Hfuel; [lia|].
  pose proof fs_size_pos. cbn [NextFD_loop]. rewrite advance_cyc. cbn [at_port fs_current fs_min fs_max].
  destruct (negb (k =? 0) && (fs_current f =? cyc f k)) eqn:Hback; [by eexists _, _|].
  assert (k <> fs_size f).
  { intros ->. rewrite cyc_full, Z.eqb_refl, andb_true_r in Hback.
    apply negb_false_iff, Z.eqb_eq in Hback. lia. }
  case_if; [|apply IH; lia]. eexists _, _. split; [done|]. pose proof (cyc_range k).
  destruct (negb bound && bind_ok (cyc f k)); [done|by rewrite Z.eqb_refl in *].
Qed.
End scan.

Lemma NextFD_total socket setsockopt bind_ok f :
  fs_ok f ->
  exists r f' closed, NextFD socket setsockopt bind_ok f = Some (r, f', closed) /\ fs_ok f'
    /\ fs_min f' = fs_min f /\ fs_max f' = fs_max f
    /\ match r with Ok c => fs_min f <= Port c <= fs_max f | Err _ => True | Panic _ => False end.
Proof.
  intros Hf. unfold NextFD. destruct socket as [errno|fd]; [eexists _, _, _; by split_and!|].
  destruct setsockopt as [errno|]; [eexists _, _, _; by split_and!|].
  pose proof (fs_size_pos f Hf).
  destruct (NextFD_loop_total f Hf bind_ok (fd_fuel f) 0 false) as (r & j & Hrun & Hr);
    [lia|unfold fd_fuel, fs_size in *; lia|].
  rewrite cyc_0 in Hrun by done.
  replace (at_port f (fs_current f)) with f in Hrun by by destruct f.
  rewrite Hrun. pose proof (at_port_ok f Hf j).
  destruct r; [| |done]; eexists _, _, _; by split_and!.
Qed.

(** ** Address lemmas *)

(** The array lengths of the [syscall] and [netip] types. *)
Definition sockaddr_wf (sa : Sockaddr) : Prop :=
  match sa with
  | SockaddrInet4 _ a => length a = 4%nat
  | SockaddrInet6 _ _ a => length a = 16%nat
  | SockaddrOther _ => True
  end.

Lemma IsZero_iff a : IsZero a = true <-> a = zeroAddr.
Proof. unfold IsZero. apply bool_decide_eq_true. Qed.

Lemma NewAddr_nonzero sa a : NewAddr sa = Ok a -> IsZero a = false.
Proof. intros H. apply bool_decide_eq_false. by destruct sa as [[]|]; simplify_eq/=. Qed.

Lemma NewAddr_SockAddr sa a : NewAddr sa = Ok a -> SockAddr a = sa.
Proof. by destruct sa as [[]|]; cbn; intros [= <-]. Qed.

Lemma first4_eq {E} ip :
  first4 (E:=E) ip = if decide (4 <= length ip)%nat then Ok (take 4 ip) else Panic IndexOutOfRange.
Proof.
  unfold first4. destruct ip as [|a [|b [|c [|d ip]]]]; try done.
  rewrite decide_True by (cbn; lia).
  rewrite (go_index_lookup _ 0 a), (go_index_lookup _ 1 b), (go_index_lookup _ 2 c),
    (go_index_lookup _ 3 d) by done. done.
Qed.

Lemma To4_length ip a : To4 ip = Some a -> length a = 4%nat.
Proof.
  unfold To4. destruct (Nat.eqb_spec (length ip) 4); [intros [= <-]; done|].
  case_if; [|done]. intros [= <-]. rewrite length_drop.
  apply andb_prop in Heqb as [Hl _]. apply Nat.eqb_eq in Hl. lia.
Qed.

Lemma SockAddrFromNetUDPAddr_eq addr :
  SockAddrFromNetUDPAddr addr =
    match To4 (UIP addr) with
    | Some a => Ok (SockaddrInet4 (UPort addr) a)
    | None => Panic IndexOutOfRange
    end.
Proof.
  unfold SockAddrFromNetUDPAddr. rewrite first4_eq.
  destruct (To4 (UIP addr)) as [a|] eqn:Ha; cbn [default from_option id]; [|done].
  apply To4_length in Ha. rewrite decide_True, take_ge by lia. done.
Qed.

(** Name resolution returns an address or an error. *)
Definition resolver_returns (resolve : string -> outcome udp_error UDPAddr) : Prop :=
  forall s, panics (resolve s) = false.

(** It gives an address without an IPv4 form: an IPv6 address, or none for a missing host. *)
Definition not_ipv4 (resolve : string -> outcome udp_error UDPAddr) (s : string) : Prop :=
  exists a, resolve s = Ok a /\ To4 (UIP a) = None.

Lemma SockAddrFromNetUDPAddr_panics a : panics (SockAddrFromNetUDPAddr a) = true <-> To4 (UIP a) = None.
Proof. rewrite SockAddrFromNetUDPAddr_eq. by destruct (To4 (UIP a)). Qed.

Lemma SockAddrFromUDPString_panics resolve s :
  resolver_returns resolve -> panics (SockAddrFromUDPString resolve s) = true <-> not_ipv4 resolve s.
Proof.
  intros Hrv. specialize (Hrv s). unfold SockAddrFromUDPString, not_ipv4.
  destruct (resolve s) as [a|e|p]; [|split; [done|by intros (? & ? & _)]|done].
  rewrite bind_Ok, SockAddrFromNetUDPAddr_panics. naive_solver.
Qed.

(** ** Theorems *)

(** C13: the port allocator.  Let the socket be created and configured, and the current port
    lie in the range; [NextFD] returns.  If it gives a connection, this is the socket, open, on the first port that the kernel accepts in cyclic order from the
    current one; nothing is closed, and the allocator has moved on to the port after it.  If
    it fails, the socket is closed and the allocator as it was, and either the kernel refused
    every port of the range or the first one it accepted was port 0, which the code takes
    for "not bound". *)
Theorem NextFD_first_free (f : FDSet) (fd : Z) (bind_ok : Z -> bool) :
  fs_ok f ->
  exists r f' closed, NextFD (inr fd) None bind_ok f = Some (r, f', closed) /\ fs_ok f'
    /\ match r with
       | Ok c => exists k, first_accepted f bind_ok k /\ c = mkFDConn fd (cyc f k) true /\ Port c <> 0
           /\ closed = [] /\ f' = at_port f (cyc f (k + 1))
       | Err e => e = ErrNoAvailablePorts (fs_min f) (fs_max f) /\ closed = [fd] /\ f' = f
           /\ ((forall p, fs_min f <= p <= fs_max f -> bind_ok p = false)
               \/ exists k, first_accepted f bind_ok k /\ cyc f k = 0)
       | Panic _ => False
       end.
Proof.
  intros Hf. pose proof (fs_size_pos f Hf). unfold NextFD.
  destruct (NextFD_loop_spec f Hf bind_ok (fd_fuel f) 0) as (r & f' & Hrun & Hr);
    [lia|unfold fd_fuel, fs_size in *; lia|lia|].
  rewrite cyc_0 in Hrun by done.
  replace (at_port f (fs_current f)) with f in Hrun by by destruct f.
  rewrite Hrun. destruct r as [p|e|]; cbn in Hr; [| |done].
  - destruct Hr as (k & Hk & -> & Hz & ->). do 3 eexists. split; [done|].
    split; [by apply at_port_ok|]. exists k. by split_and!.
  - destruct Hr as (-> & -> & Hfirst). do 3 eexists. split; [done|]. split_and!; [done..|].
    destruct (first_accepted_or_none f Hf bind_ok) as [Hno|[k Hk]]; [by left|right].
    exists k. split; [done|]. by apply Hfirst.
Qed.

Lemma NextFD_first_free_witness :
  fs_ok (NewFDSet 18889 19888) /\
  exists r f' closed, NextFD (inr 3) None (fun p => p =? 18890) (NewFDSet 18889 19888) = Some (r, f', closed).
Proof.
  assert (fs_ok (NewFDSet 18889 19888)) as H by (split; discriminate).
  split; [exact H|].
  destruct (NextFD_first_free (NewFDSet 18889 19888) 3 (fun p => p =? 18890) H)
    as (r & f' & closed & Hrun & _).
  exists r, f', closed. exact Hrun.
Defined.

(** Port 0 defeats the allocator.  A range that starts at 0 is accepted by the
    program; when the kernel grants port 0 (an ephemeral port) the loop takes the bound
    port 0 for "not bound", every further [bind] of the same socket fails, and [NextFD]
    reports that no port is available although every port may be free. *)
Theorem NextFD_port_zero (max fd : Z) (bind_ok : Z -> bool) :
  0 < max -> bind_ok 0 = true ->
  NextFD (inr fd) None bind_ok (NewFDSet 0 max)
  = Some (Err (ErrNoAvailablePorts 0 max), NewFDSet 0 max, [fd]).
Proof.
  intros Hmax H0. set (f := NewFDSet 0 max).
  assert (fs_ok f) as Hf by (unfold fs_ok; cbn; lia).
  assert (advance f = at_port f (cyc f 1)) as Hadv.
  { pose proof (advance_cyc f Hf 0) as H. by rewrite cyc_0 in H. }
  unfold NextFD. replace (fd_fuel f) with (S (Z.to_nat (max + 1)))
    by (unfold fd_fuel; cbn [f NewFDSet fs_max fs_min]; lia).
  cbn [NextFD_loop]. rewrite Hadv. change (fs_current f) with 0. rewrite H0.
  cbn [negb andb orb]. change (0 =? 0) with true. cbn [negb andb].
  change (NextFD_loop bind_ok 0) with (NextFD_loop bind_ok (fs_current f)).
  rewrite (NextFD_loop_bound f Hf); [done| |]; unfold fs_size; cbn; lia.
Qed.

Lemma NextFD_port_zero_witness :
  NextFD (inr 3) None (fun _ => true) (NewFDSet 0 9)
  = Some (Err (ErrNoAvailablePorts 0 9), NewFDSet 0 9, [3]).
Proof. apply (NextFD_port_zero 9 3 (fun _ => true)); reflexivity. Defined.

(** No descriptor is leaked.  Whatever system call fails, [Server] and [NextFD]
    either return the socket they opened in an open connection or close it. *)
Theorem sockets_not_leaked (fd : Z) (setsockopt bind : option Z) (port : Z)
    (bind_ok : Z -> bool) (f : FDSet) :
  (match Server (inr fd) setsockopt bind port with
   | (Ok c, closed) => Udp.fd c = fd /\ IsOpen c = true /\ Port c = port /\ closed = []
   | (_, closed) => closed = [fd]
   end)
  /\ (fs_ok f ->
      exists r f' closed, NextFD (inr fd) setsockopt bind_ok f = Some (r, f', closed)
      /\ match r with
         | Ok c => Udp.fd c = fd /\ IsOpen c = true /\ closed = []
         | _ => closed = [fd]
         end).
Proof.
  split; [by destruct setsockopt, bind|]. intros Hf. pose proof (fs_size_pos f Hf).
  unfold NextFD. destruct setsockopt as [errno|]; [by do 3 eexists|].
  destruct (NextFD_loop_spec f Hf bind_ok (fd_fuel f) 0) as (r & f' & Hrun & Hr);
    [lia|unfold fd_fuel, fs_size in *; lia|lia|].
  rewrite cyc_0 in Hrun by done.
  replace (at_port f (fs_current f)) with f in Hrun by by destruct f.
  rewrite Hrun. destruct r; [| |done]; do 3 eexists; (split; [done|]); by split_and?.
Qed.

Lemma sockets_not_leaked_witness :
  fs_ok (NewFDSet 1 2) /\ exists r f' closed, NextFD (inr 7) (Some 5) (fun _ => true) (NewFDSet 1 2) = Some (r, f', closed).
Proof.
  assert (fs_ok (NewFDSet 1 2)) as H by (split; discriminate). split; [exact H|].
  destruct (proj2 (sockets_not_leaked 7 (Some 5) None 1 (fun _ => true) (NewFDSet 1 2)) H)
    as (r & f' & c & Hr & _).
  exists r, f', c. exact Hr.
Defined.

(** The two ways the program compares peers agree.  [EqualSockaddrsIPs] holds exactly
    when [NewAddr] gives both addresses the same comparable IP, and [EqualSockaddrs]
    holds exactly when in addition the ports are equal. *)
Theorem sockaddr_comparison (s1 s2 : option Sockaddr) :
  (EqualSockaddrsIPs s1 s2 = true <->
     exists a1 a2, NewAddr s1 = Ok a1 /\ NewAddr s2 = Ok a2 /\ NetAddr a1 = NetAddr a2)
  /\ (EqualSockaddrs s1 s2 = true <->
     EqualSockaddrsIPs s1 s2 = true /\ SockaddrPort s1 = SockaddrPort s2).
Proof.
  split.
  - destruct s1 as [[]|], s2 as [[]|]; cbn; rewrite ?bool_decide_eq_true;
      (split; [intros; simplify_eq; eauto 10|intros (? & ? & ? & ? & ?); by simplify_eq/=]).
  - destruct s1 as [[]|], s2 as [[]|]; cbn;
      rewrite ?andb_true_iff, ?Z.eqb_eq; (split; [by intros; try discriminate|intros [? ?]; done]).
Qed.

(** Only IPv4 destinations can be converted.  [SockAddrFromNetUDPAddr] panics exactly
    when the resolved IP has no IPv4 form (an IPv6 literal, or a missing host); otherwise
    it keeps the port and the IPv4 address, and converting back yields the same
    socket address. *)
Theorem SockAddrFromNetUDPAddr_spec (addr : UDPAddr) :
  (panics (SockAddrFromNetUDPAddr addr) = true <-> To4 (UIP addr) = None)
  /\ (forall a, To4 (UIP addr) = Some a ->
      SockAddrFromNetUDPAddr addr = Ok (SockaddrInet4 (UPort addr) a)
      /\ SockAddrFromNetUDPAddr (UDPAddrFromSockAddr (Some (SockaddrInet4 (UPort addr) a)))
         = Ok (SockaddrInet4 (UPort addr) a)).
Proof.
  rewrite SockAddrFromNetUDPAddr_eq. split.
  - by destruct (To4 (UIP addr)).
  - intros a Ha. rewrite Ha. split; [done|]. rewrite SockAddrFromNetUDPAddr_eq. cbn.
    unfold To4. by rewrite (To4_length _ _ Ha).
Qed.

Lemma SockAddrFromNetUDPAddr_spec_witness :
  SockAddrFromNetUDPAddr (mkUDPAddr [Byte.x7f; Byte.x00; Byte.x00; Byte.x01] 8001)
  = Ok (SockaddrInet4 8001 [Byte.x7f; Byte.x00; Byte.x00; Byte.x01]).
Proof.
  apply (proj2 (SockAddrFromNetUDPAddr_spec (mkUDPAddr [Byte.x7f; Byte.x00; Byte.x00; Byte.x01] 8001))).
  reflexivity.
Defined.
