(* ===== verification/UdpBatch.v ===== *)
(** * Batch UDP connections ([pkg/udp/udp_batch.go], [pkg/udp/packet.go])

    A [Conn] reads up to [batchSize] datagrams with one system call into a [Packets] object
    that comes from a [sync.Pool] and goes back with [Free].  The objects live in a heap and
    the pool holds references to them, so that an object that is freed twice is in the pool
    twice.  Which object the pool hands out (or whether it makes a new one) is an input, like
    the results of the system calls. *)

From S2P Require Import Prelude Shred Udp.

Definition batchSize : nat := 100.
Definition SO_REUSEPORT : Z := 15.
Definition SO_INCOMING_CPU : Z := 49.

(** ** Opening sockets *)

(** An error of [net.ListenUDP]: a [*net.OpError] with the text of its cause, or another. *)
Inductive listen_error := OpError (cause : string) | OtherError (msg : string).

#[export] Instance listen_error_eq_dec : EqDecision listen_error.
Proof. solve_decision. Defined.

Inductive batch_error :=
  | ErrInvalidRange (startPort endPort : Z)
  | ErrBinding (port : Z) (e : listen_error)
  | ErrNoFreePort (startPort endPort : Z)
  | ErrCreateListener (e : listen_error)
  | ErrCreateClient (e : listen_error)
  | ErrSetReadBuffer (errno : Z)
  | ErrSetWriteBuffer (errno : Z)
  | ErrReadBatch (errno : Z)
  | ErrInvalidNetIP (ip : list byte).

#[export] Instance batch_error_eq_dec : EqDecision batch_error.
Proof. solve_decision. Defined.

(** [errors.As(err, &opErr) && opErr.Err.Error() != "bind: address already in use"] *)
Definition bails_out (e : listen_error) : bool :=
  match e with
  | OpError cause => negb (bool_decide (cause = "bind: address already in use"%string))
  | OtherError _ => false
  end.

(** The loop of [ListenUDPInRange]; [listen p] is the result of [net.ListenUDP] on port [p]. *)
Fixpoint listen_loop (listen : Z -> listen_error + Z) (startPort endPort : Z) (ports : list Z)
    : outcome batch_error (Z * Z) :=
  match ports with
  | [] => Err (ErrNoFreePort startPort endPort)
  | p :: ports =>
      match listen p with
      | inr fd => Ok (fd, p)
      | inl e => if bails_out e then Err (ErrBinding p e) else listen_loop listen startPort endPort ports
      end
  end.

(** The socket and its port. *)
Definition ListenUDPInRange (listen : Z -> listen_error + Z) (startPort endPort : Z)
    : outcome batch_error (Z * Z) :=
  if (startPort <? 1) || (65535 <? endPort) || (endPort <? startPort)
  then Err (ErrInvalidRange startPort endPort)
  else listen_loop listen startPort endPort (seqZ startPort (endPort - startPort + 1)).

(** [Conn], as far as it matters: its socket. *)
Record Conn := mkConn { conn : Z }.

(** [SetReadBuffer] and [SetWriteBuffer]: the connection or the error. *)
Definition set_buffers (setRead setWrite : option Z) (fd : Z) : outcome batch_error Conn :=
  match setRead with
  | Some errno => Err (ErrSetReadBuffer errno)
  | None =>
      match setWrite with
      | Some errno => Err (ErrSetWriteBuffer errno)
      | None => Ok (mkConn fd)
      end
  end.

(** The socket options that the [Control] function of the [ListenConfig] sets before the bind,
    and its error: [setsockopt] gives the error of an option, [control] the one of
    [c.Control]. *)
Definition reuse_control (control : option listen_error) (setsockopt : Z -> Z -> option listen_error)
    (cpuCore : Z) : option listen_error * list (Z * Z) :=
  match control with
  | Some e => (Some e, [])
  | None =>
      match setsockopt SO_REUSEPORT 1 with
      | Some e => (Some e, [(SO_REUSEPORT, 1)])
      | None => (None, (SO_REUSEPORT, 1) :: if 0 <=? cpuCore then [(SO_INCOMING_CPU, cpuCore)] else [])
      end
  end.

(** What the operating system answers to the creation of a server. *)
Record server_calls := mkServerCalls {
  sc_control : option listen_error;
  sc_setsockopt : Z -> Z -> option listen_error;
  sc_listen : listen_error + Z;                   (* the socket *)
  sc_setRead : option Z;
  sc_setWrite : option Z
}.

(** [newServerInternal]: the connection or the error, and the sockets that are open. *)
Definition newServerInternal (sc : server_calls) (cpuCore : Z) (reusePort : bool)
    : outcome batch_error Conn * list Z :=
  match
    (if reusePort then
       match (reuse_control (sc_control sc) (sc_setsockopt sc) cpuCore).1 with
       | Some e => Err (ErrCreateListener e)
       | None => map_err ErrCreateListener (of_sum (sc_listen sc))
       end
     else map_err ErrCreateClient (of_sum (sc_listen sc)))
  with
  | Err e => (Err e, [])
  | Panic p => (Panic p, [])
  | Ok fd => (set_buffers (sc_setRead sc) (sc_setWrite sc) fd, [fd])
  end.

Definition NewServer (sc : server_calls) : outcome batch_error Conn * list Z :=
  newServerInternal sc (-1) false.

Definition NewServerWithReusePort (sc : server_calls) (cpuCore : Z) : outcome batch_error Conn * list Z :=
  newServerInternal sc cpuCore true.

Definition NewClient (listen : Z -> listen_error + Z) (setRead setWrite : option Z) (startPort endPort : Z)
    : outcome batch_error Conn * list Z :=
  match ListenUDPInRange listen startPort endPort with
  | Err e => (Err e, [])
  | Panic p => (Panic p, [])
  | Ok (fd, _) => (set_buffers setRead setWrite fd, [fd])
  end.

(** ** Addresses *)

Definition udpAddrToNetip (udpAddr : UDPAddr) : outcome batch_error NetipAddr :=
  match To4 (UIP udpAddr) with
  | Some v4 => Ok (AddrFrom4 (go_copy (replicate 4 Byte.x00) v4))
  | None =>
      match To16 (UIP udpAddr) with
      | Some v6 => Ok (AddrFrom16 (go_copy (replicate 16 Byte.x00) v6))
      | None => Err (ErrInvalidNetIP (UIP udpAddr))
      end
  end.

(** [udp.UDPAddr]: an address in both forms. *)
Record BatchAddr := mkBatchAddr { ba_UDPAddr : UDPAddr; ba_NetipAddr : NetipAddr }.

Definition NewUDPAddr (addr : UDPAddr) : outcome batch_error BatchAddr :=
  netIPAddr ← udpAddrToNetip addr;
  Ok (mkBatchAddr addr netIPAddr).

(** ** Packets *)

(** [ipv4.Message]: its one buffer, the number of bytes received and the sender. *)
Record Message := mkMessage { Buffer : list byte; N : Z; mAddr : option UDPAddr }.

(** [Packet] *)
Record Packet := mkPacket { Data : list byte; pAddr : UDPAddr; Len : Z }.

(** [Packets]: the slots of the backing array, and how many of them the slice shows. *)
Record Packets := mkPackets { slots : list Message; shown : nat }.

(** [p.msgs] *)
Definition msgs (p : Packets) : list Message := take (shown p) (slots p).

Definition newMessage : Message :=
  {| Buffer := replicate (Z.to_nat UDPShredSize) Byte.x00; N := 0; mAddr := None |}.

(** [readBatchPool.New] *)
Definition newPackets : Packets := {| slots := replicate batchSize newMessage; shown := batchSize |}.

Definition Packets_Len (p : Packets) : Z := zlen (msgs p).

(** The packet of a message: a slice shorter than the array, or an address that is not a
    [*net.UDPAddr], panics. *)
Definition packet_of {E} (m : Message) : outcome E Packet :=
  if zlen (Buffer m) <? UDPShredSize then Panic SliceConversion
  else match mAddr m with
       | None => Panic BadTypeAssertion
       | Some a => Ok (mkPacket (take (Z.to_nat UDPShredSize) (Buffer m)) a (N m))
       end.

Definition At {E} (p : Packets) (i : Z) : outcome E Packet :=
  m ← go_index (msgs p) i; packet_of m.

(** [ForEach]: the packets on which the function is called, in order, and whether a panic
    ended the loop. *)
Fixpoint ForEach_loop (ms : list Message) : list Packet * option panic_reason :=
  match ms with
  | [] => ([], None)
  | m :: ms =>
      match packet_of (E:=unit) m with
      | Ok pkt => let (l, p) := ForEach_loop ms in (pkt :: l, p)
      | Err _ => ([], None)
      | Panic p => ([], Some p)
      end
  end.

Definition ForEach (p : Packets) : list Packet * option panic_reason := ForEach_loop (msgs p).

(** ** The pool *)

(** The objects, the references in the pool, and the next object. *)
Record pool_state := mkPool {
  heap : gmap nat Packets;
  pool : list nat;
  nextPackets : nat
}.

Definition emptyPool : pool_state := {| heap := ∅; pool := []; nextPackets := 0 |}.

(** [readBatchPool.Get()]: the reference at place [choice] of the pool, or a new object. *)
Definition pool_Get (choice : option nat) (st : pool_state) : nat * pool_state :=
  match choice with
  | Some k =>
      match pool st !! k with
      | Some id => (id, mkPool (heap st) (take k (pool st) ++ drop (S k) (pool st)) (nextPackets st))
      | None => (nextPackets st,
                 mkPool (<[nextPackets st := newPackets]> (heap st)) (pool st) (S (nextPackets st)))
      end
  | None => (nextPackets st,
             mkPool (<[nextPackets st := newPackets]> (heap st)) (pool st) (S (nextPackets st)))
  end.

Definition pool_Put (id : nat) (st : pool_state) : pool_state :=
  mkPool (heap st) (id :: pool st) (nextPackets st).

(** [(p *Packets) Free()] *)
Definition Free (id : nat) (st : pool_state) : pool_state := pool_Put id st.

(** What [ReadBatch] meets: an error, or the datagrams that wait at the socket and their
    senders, of which it takes at most one for each message it is given. *)
Inductive batch_result :=
  | BatchErr (errno : Z)
  | BatchOk (waiting : list (list byte * UDPAddr)).

(** The kernel writes a datagram over the beginning of the buffer, and truncates it. *)
Definition fill (m : Message) (d : list byte * UDPAddr) : Message :=
  {| Buffer := go_copy (Buffer m) d.1; N := Z.min (zlen (Buffer m)) (zlen d.1); mAddr := Some d.2 |}.

Fixpoint fill_slots (ms : list Message) (ds : list (list byte * UDPAddr)) : list Message :=
  match ms, ds with
  | m :: ms, d :: ds => fill m d :: fill_slots ms ds
  | _, _ => ms
  end.

(** [Read()]: the object or the error, and the pool. *)
Definition Read (choice : option nat) (r : batch_result) (st : pool_state)
    : outcome batch_error nat * pool_state :=
  let (id, st) := pool_Get choice st in
  let p := default newPackets (heap st !! id) in
  let p := {| slots := slots p; shown := length (slots p) |} in
  match r with
  | BatchErr errno =>
      (Err (ErrReadBatch errno), pool_Put id (mkPool (<[id := p]> (heap st)) (pool st) (nextPackets st)))
  | BatchOk ds =>
      let ds := take (shown p) ds in
      let p := {| slots := fill_slots (slots p) ds; shown := length ds |} in
      (Ok id, mkPool (<[id := p]> (heap st)) (pool st) (nextPackets st))
  end.

(** [(c *Conn) Write(msgs)]: [WriteBatch] gives the number of messages it sent and its error;
    the number is dropped.  The result is the error, and the messages sent. *)
Definition Conn_Write {A} (writeBatch : Z * option Z) (messages : list A) : outcome Z unit * list A :=
  (of_err writeBatch.2, take (Z.to_nat writeBatch.1) messages).

(** * Properties *)

(** ** Ports *)

(** The scan of [ports]: the first port that can be bound, all before it being in use, or the
    first other failure. *)
Lemma listen_loop_spec listen a b ports :
  match listen_loop listen a b ports with
  | Ok (fd, p) => exists l1 l2, ports = l1 ++ p :: l2 /\ listen p = inr fd
      /\ Forall (fun q => exists e, listen q = inl e /\ bails_out e = false) l1
  | Err (ErrBinding p e) => exists l1 l2, ports = l1 ++ p :: l2 /\ listen p = inl e /\ bails_out e = true
      /\ Forall (fun q => exists e, listen q = inl e /\ bails_out e = false) l1
  | Err e => e = ErrNoFreePort a b
      /\ Forall (fun q => exists e, listen q = inl e /\ bails_out e = false) ports
  | Panic _ => False
  end.
Proof.
  induction ports as [|p ports IH]; [done|]. cbn [listen_loop].
  destruct (listen p) as [e|fd] eqn:Hp; [|by exists [], ports].
  destruct (bails_out e) eqn:Hb; [by exists [], ports|].
  assert (exists e, listen p = inl e /\ bails_out e = false) as Hin by eauto.
  destruct (listen_loop listen a b ports) as [[fd q]|err|r]; [| |done].
  - destruct IH as (l1 & l2 & -> & Hq & Hl). exists (p :: l1), l2. split_and!; [done|done|by constructor].
  - destruct err; try (destruct IH as [He Hl]; split; [exact He|by constructor]).
    destruct IH as (l1 & l2 & -> & Hq & Hb' & Hl). exists (p :: l1), l2.
    split_and!; [done|done|done|by constructor].
Qed.

(** A port in the middle of a range, and the ports before it. *)
Lemma seqZ_split start n l1 p l2 q :
  seqZ start n = l1 ++ p :: l2 -> start <= p < start + n /\ (start <= q < p -> q ∈ l1).
Proof.
  intros Hs.
  assert (seqZ start n !! length l1 = Some p) as Hl by (rewrite Hs, lookup_app_r, Nat.sub_diag by done; done).
  apply lookup_seqZ in Hl as [-> Hlt]. split; [lia|]. intros Hq.
  assert (seqZ start n !! Z.to_nat (q - start) = Some q) as Hq' by (apply lookup_seqZ; lia).
  rewrite Hs, lookup_app_l in Hq' by lia. by apply list_elem_of_lookup_2 in Hq'.
Qed.

(** ** The pool *)

Definition message_ok (m : Message) : Prop := zlen (Buffer m) = UDPShredSize.

Definition packets_ok (p : Packets) : Prop :=
  length (slots p) = batchSize /\ Forall message_ok (slots p) /\ (shown p <= batchSize)%nat.

(** No object is in the pool twice, or in the pool and in use; all are whole. *)
Definition pool_inv (st : pool_state) (held : list nat) : Prop :=
  NoDup (pool st ++ held)
  /\ forall id, id ∈ pool st ++ held ->
       (id < nextPackets st)%nat /\ exists p, heap st !! id = Some p /\ packets_ok p.

Lemma newPackets_ok : packets_ok newPackets.
Proof.
  split_and!; [apply length_replicate| |done].
  apply Forall_replicate. unfold message_ok, zlen. cbn [Buffer newMessage]. by rewrite length_replicate.
Qed.

Lemma fill_ok m d : message_ok m -> message_ok (fill m d).
Proof. unfold message_ok, zlen. cbn. by rewrite length_go_copy. Qed.

Lemma fill_slots_ok ms ds : Forall message_ok ms -> Forall message_ok (fill_slots ms ds).
Proof.
  intros H. revert ds. induction H as [|m ms Hm Hms IH]; intros [|d ds]; [done..|by constructor|].
  constructor; [by apply fill_ok|apply IH].
Qed.

Lemma fill_slots_length ms ds : length (fill_slots ms ds) = length ms.
Proof. revert ds. induction ms as [|m ms IH]; intros [|d ds]; cbn; [done..|]. by rewrite IH. Qed.

(** The object that [Get] hands out is not in the pool any more nor in use, and it is whole. *)
Lemma pool_Get_inv choice st held id st' :
  pool_inv st held -> pool_Get choice st = (id, st') ->
  pool_inv st' (id :: held)
  /\ id ∉ held
  /\ (forall id', id' ∈ held -> heap st' !! id' = heap st !! id').
Proof.
  intros [Hnd Hall] Hget.
  assert (forall id' st1, (nextPackets st, mkPool (<[nextPackets st := newPackets]> (heap st)) (pool st)
      (S (nextPackets st))) = (id', st1) ->
    pool_inv st1 (id' :: held) /\ id' ∉ held
    /\ (forall i, i ∈ held -> heap st1 !! i = heap st !! i)) as Hnew.
  { intros id' st1 [= <- <-].
    assert (nextPackets st ∉ pool st ++ held) as Hfresh by (intros [? _]%Hall; lia).
    split_and!; [split|set_solver|].
    - cbn. rewrite <- Permutation_middle. by constructor.
    - cbn. intros i Hi. assert (i = nextPackets st \/ i ∈ pool st ++ held) as [->|Hi'] by set_solver.
      + split; [lia|]. exists newPackets. rewrite lookup_insert_eq. split; [done|apply newPackets_ok].
      + destruct (Hall i Hi') as (Hlt & p & Hp & Hok). split; [lia|]. exists p.
        rewrite lookup_insert_ne by lia. done.
    - cbn. intros i Hi. rewrite lookup_insert_ne; [done|]. intros <-. set_solver. }
  unfold pool_Get in Hget. destruct choice as [k|]; [|by apply Hnew].
  destruct (pool st !! k) as [i|] eqn:Hk; [|by apply Hnew]. injection Hget as <- <-.
  assert (pool st ++ held ≡ₚ (take k (pool st) ++ drop (S k) (pool st)) ++ i :: held) as Hperm.
  { rewrite <- (take_drop_middle (pool st) k i Hk) at 1.
    rewrite <- !app_assoc. cbn. apply Permutation_app_head. by rewrite Permutation_middle. }
  split_and!; [split; cbn|..|done].
  - by rewrite <- Hperm.
  - intros i' Hi'. apply Hall. by rewrite Hperm.
  - rewrite Hperm in Hnd. apply list.NoDup_app in Hnd as (_ & _ & Hnd). by apply list.NoDup_cons in Hnd as [? _].
Qed.

(** Overwriting an object in use with another whole one keeps the invariant. *)
Lemma pool_inv_update st held id p :
  pool_inv st held -> packets_ok p ->
  pool_inv (mkPool (<[id := p]> (heap st)) (pool st) (nextPackets st)) held.
Proof.
  intros [Hnd Hall] Hp. split; [done|]. cbn. intros i Hi. destruct (Hall i Hi) as (Hlt & q & Hq & Hok).
  split; [done|]. destruct (decide (id = i)) as [->|].
  - exists p. by rewrite lookup_insert_eq.
  - exists q. by rewrite lookup_insert_ne.
Qed.

(** A step of a program that frees what it has read, once: a batch is read, a read fails, a
    batch in use is freed, or the runtime drops an object from the pool.  The second part of
    the state is the batches in use. *)
Inductive pool_step : pool_state * list nat -> pool_state * list nat -> Prop :=
  | step_read choice ds st held id st' :
      Read choice (BatchOk ds) st = (Ok id, st') ->
      pool_step (st, held) (st', id :: held)
  | step_read_err choice errno st held e st' :
      Read choice (BatchErr errno) st = (Err e, st') -> pool_step (st, held) (st', held)
  | step_free id st held held' :
      held ≡ₚ id :: held' -> pool_step (st, held) (Free id st, held')
  | step_gc k st held :
      pool_step (st, held) (mkPool (heap st) (take k (pool st) ++ drop (S k) (pool st)) (nextPackets st), held).

Lemma Read_Ok_inv choice ds st held id st' :
  let taken := take batchSize ds in
  pool_inv st held -> Read choice (BatchOk ds) st = (Ok id, st') ->
  pool_inv st' (id :: held) /\ id ∉ held
  /\ (forall i, i ∈ held -> heap st' !! i = heap st !! i)
  /\ exists p, packets_ok p /\ heap st' !! id = Some (mkPackets (fill_slots (slots p) taken) (length taken)).
Proof.
  intros taken Hinv. unfold Read. destruct (pool_Get choice st) as [i st1] eqn:Hget.
  destruct (pool_Get_inv choice st held i st1 Hinv Hget) as (Hinv1 & Hni & Hsame). intros [= <- <-].
  destruct (proj2 Hinv1 i ltac:(set_solver)) as (_ & p & Hp & Hok). rewrite Hp. cbn [default from_option id].
  destruct Hok as (Hl & Hb & Hs). cbn [shown slots]. rewrite Hl. fold taken.
  assert (length taken <= batchSize)%nat as Hlen by (unfold taken; rewrite length_take; lia).
  split_and!; [apply pool_inv_update; [done|]|done| |].
  - split_and!; cbn; [by rewrite fill_slots_length|by apply fill_slots_ok|done].
  - intros j Hj. cbn. rewrite lookup_insert_ne by (intros <-; done). by apply Hsame.
  - exists p. split; [by split_and!|]. cbn. by rewrite lookup_insert_eq.
Qed.

Lemma Put_inv st held id : pool_inv st (id :: held) -> pool_inv (pool_Put id st) held.
Proof.
  intros [Hnd Hall].
  assert (pool (pool_Put id st) ++ held ≡ₚ pool st ++ id :: held) as Hperm by (cbn; by rewrite Permutation_middle).
  split; [by rewrite Hperm|]. intros i Hi. apply Hall. by rewrite <- Hperm.
Qed.

Lemma pool_step_inv s s' : pool_step s s' -> pool_inv s.1 s.2 -> pool_inv s'.1 s'.2.
Proof.
  intros Hs Hinv. destruct Hs as [choice ds st held id st' Hr|choice errno st held e st' Hr|id st held held' Hp|k st held];
    cbn [fst snd] in *.
  - by apply (Read_Ok_inv choice ds st held id st' Hinv Hr).
  - unfold Read in Hr. destruct (pool_Get choice st) as [i st1] eqn:Hget.
    destruct (pool_Get_inv choice st held i st1 Hinv Hget) as (Hinv1 & _ & _). injection Hr as _ <-.
    destruct (proj2 Hinv1 i ltac:(set_solver)) as (_ & p & Hpi & Hl & Hb & Hsh).
    apply Put_inv, pool_inv_update; [done|]. rewrite Hpi. cbn. split_and!; [done|done|cbn; lia].
  - apply Put_inv. destruct Hinv as [Hnd Hall]. split; [by rewrite <- Hp|].
    intros i Hi. apply Hall. by rewrite Hp.
  - destruct Hinv as [Hnd Hall].
    assert (sublist (take k (pool st) ++ drop (S k) (pool st)) (pool st)) as Hsub.
    { destruct (pool st !! k) as [x|] eqn:Hk.
      - rewrite <- (take_drop_middle (pool st) k x Hk) at 3. apply sublist_app; [done|]. by constructor.
      - apply lookup_ge_None in Hk. rewrite take_ge, drop_ge by lia. by rewrite app_nil_r. }
    split; cbn.
    + eapply sublist_NoDup; [exact Hnd|]. by apply sublist_app.
    + intros i Hi. apply Hall. rewrite elem_of_app in *. destruct Hi as [Hi|]; [left|by right].
      by eapply elem_of_sublist.
Qed.

Lemma pool_reachable_inv s : rtc pool_step (emptyPool, []) s -> pool_inv s.1 s.2.
Proof.
  intros H. assert (pool_inv (emptyPool, @nil nat).1 (emptyPool, @nil nat).2) as H0.
  { split; cbn; [constructor|]. intros id Hid. by apply elem_of_nil in Hid. }
  revert H0. induction H as [s|s1 s2 s3 Hs _ IH]; [done|]. intros H1. by eapply IH, pool_step_inv.
Qed.

(** ** What a batch shows *)

(** The packet that a datagram becomes. *)
Definition packet_for (d : list byte * UDPAddr) (pkt : Packet) : Prop :=
  Len pkt = Z.min UDPShredSize (zlen d.1) /\ zlen (Data pkt) = UDPShredSize
  /\ take (Z.to_nat (Len pkt)) (Data pkt) = take (Z.to_nat UDPShredSize) d.1 /\ pAddr pkt = d.2.

Lemma packet_of_fill {E} m d :
  message_ok m -> exists pkt, packet_of (E:=E) (fill m d) = Ok pkt /\ packet_for d pkt.
Proof.
  intros Hm. unfold packet_of. pose proof (fill_ok m d Hm) as Hf. rewrite Hf, Z.ltb_irrefl.
  eexists. split; [done|]. unfold packet_for. cbn [Len Data pAddr fill N Buffer mAddr].
  unfold message_ok, zlen in *. cbn [fill Buffer] in Hf. rewrite length_go_copy in Hf.
  assert (length (Buffer m) = Z.to_nat UDPShredSize) as HB by lia.
  rewrite (take_ge (go_copy _ _)) by (rewrite length_go_copy; lia). rewrite length_go_copy, Hf.
  split_and!; [done|done| |done].
  rewrite Z2Nat.inj_min, <- HB, Nat2Z.id. destruct (Nat.le_gt_cases (length d.1) (length (Buffer m))).
  - rewrite Nat.min_r by done. rewrite take_go_copy by done. by rewrite take_ge.
  - rewrite Nat.min_l by lia. unfold go_copy. rewrite drop_ge, app_nil_r by lia.
    rewrite take_take. by rewrite Nat.min_id.
Qed.

Lemma ForEach_fill ms ds :
  Forall message_ok ms -> (length ds <= length ms)%nat ->
  exists l, ForEach_loop (take (length ds) (fill_slots ms ds)) = (l, None) /\ Forall2 packet_for ds l.
Proof.
  intros Hms. revert ds. induction Hms as [|m ms Hm _ IH]; intros [|d ds] Hlen; cbn in Hlen; try lia;
    try (exists []; split; [done|constructor]).
  cbn [length fill_slots take ForEach_loop].
  destruct (packet_of_fill (E:=unit) m d Hm) as (pkt & -> & Hp).
  destruct (IH ds ltac:(lia)) as (l & -> & Hl). exists (pkt :: l). split; [done|by constructor].
Qed.

(** Only the type of errors, of which there are none, tells two uses of [packet_of] apart. *)
Lemma packet_of_cases {E E'} m :
  (exists pkt, packet_of (E:=E) m = Ok pkt /\ packet_of (E:=E') m = Ok pkt)
  \/ exists p, packet_of (E:=E) m = Panic p.
Proof. unfold packet_of. case_if; [eauto|]. destruct (mAddr m); eauto. Qed.

(** [At] and [ForEach] show the same packets. *)
Lemma ForEach_at {E} ms l :
  ForEach_loop ms = (l, None) ->
  length l = length ms
  /\ forall i m, ms !! i = Some m -> exists pkt, packet_of (E:=E) m = Ok pkt /\ l !! i = Some pkt.
Proof.
  revert l. induction ms as [|m ms IH]; intros l; cbn [ForEach_loop]; [by intros [= <-]|].
  destruct (packet_of_cases (E:=unit) (E':=E) m) as [(pkt & -> & Hm)|(p & ->)]; [|done].
  destruct (ForEach_loop ms) as [l' q] eqn:Hl. intros [= <- ->]. destruct (IH l' eq_refl) as [Hlen Hall].
  split; [cbn; by rewrite Hlen|]. intros [|i] m' Hi; cbn in Hi; [|by apply Hall].
  injection Hi as <-. by exists pkt.
Qed.

Lemma At_lookup {E} p l i :
  ForEach p = (l, None) ->
  At (E:=E) p i = match (if 0 <=? i then l !! Z.to_nat i else None) with
                  | Some pkt => Ok pkt
                  | None => Panic IndexOutOfRange
                  end.
Proof.
  intros Hl. destruct (ForEach_at (E:=E) (msgs p) l Hl) as [Hlen Hall]. unfold At, go_index.
  destruct (Z.leb_spec 0 i); [|done]. cbn [andb]. destruct (Z.ltb_spec i (zlen (msgs p))) as [Hlt|Hge].
  - destruct (msgs p !! Z.to_nat i) as [m|] eqn:Hm.
    + destruct (Hall _ _ Hm) as (pkt & Hp & ->). exact Hp.
    + apply lookup_ge_None in Hm. unfold zlen in Hlt. lia.
  - assert (l !! Z.to_nat i = None) as -> by (apply lookup_ge_None; unfold zlen in Hge; lia). done.
Qed.

(** ** Theorems *)

(** C21: batches in use are isolated, under the discipline that a batch is freed only while it
    is in use, that is at most once per read ([double_free_shares] shows what happens
    otherwise).  Then, whatever the pool hands out and whenever the runtime empties it: no
    batch is in use twice; every batch in use is whole, with 100 messages of 1228-byte
    buffers; and no step - reading another batch, a failed read, freeing, collection - changes
    the messages of a batch in use. *)
Theorem packets_isolated (st : pool_state) (held : list nat) :
  rtc pool_step (emptyPool, []) (st, held) ->
  NoDup held
  /\ (forall id, id ∈ held -> exists p, heap st !! id = Some p
       /\ length (slots p) = 100%nat /\ (shown p <= 100)%nat
       /\ Forall (fun m => zlen (Buffer m) = 1228) (slots p))
  /\ (forall st' held' id, pool_step (st, held) (st', held') -> id ∈ held -> heap st' !! id = heap st !! id)
  /\ (forall choice ds id st', Read choice (BatchOk ds) st = (Ok id, st') -> id ∉ held).
Proof.
  intros Hr. pose proof (pool_reachable_inv _ Hr) as Hinv. cbn [fst snd] in Hinv. split_and!.
  - destruct Hinv as [Hnd _]. by apply list.NoDup_app in Hnd as (_ & _ & ?).
  - intros id Hid. destruct Hinv as [_ Hall]. destruct (Hall id) as (_ & p & Hp & Hl & Hm & Hs);
      [apply elem_of_app; by right|]. by exists p.
  - intros st' held' id Hs Hid.
    inversion Hs as [choice ds st0 held0 i st1 Hread|choice errno st0 held0 e st1 Hread|i st0 held0 held1 Hp|k st0 held0];
      subst; [|clear Hs|done|done].
    + by apply (Read_Ok_inv choice ds st held i st' Hinv Hread).
    + unfold Read in Hread. destruct (pool_Get choice st) as [i st1] eqn:Hget.
      destruct (pool_Get_inv choice st held' i st1 Hinv Hget) as (_ & Hni & Hsame). injection Hread as _ <-.
      cbn. rewrite lookup_insert_ne by (intros <-; done). by apply Hsame.
  - intros choice ds id st' Hread. by apply (Read_Ok_inv choice ds st held id st' Hinv Hread).
Qed.

(** C22: a batch shows the datagrams of its read.  When [ds] wait at the socket, a read into any
    object of the pool - also one that last held a smaller batch - takes the first 100;
    [Len] is their number, and [ForEach] and [At] give, in order and without panic, a packet
    for each: its sender, its length (at most 1228), and its bytes, copied out of the buffer.
    [At] panics elsewhere. *)
Theorem Read_delivers (st : pool_state) (held : list nat) (choice : option nat)
    (ds : list (list byte * UDPAddr)) (id : nat) (st' : pool_state) :
  rtc pool_step (emptyPool, []) (st, held) ->
  Read choice (BatchOk ds) st = (Ok id, st') ->
  exists p l, heap st' !! id = Some p /\ Packets_Len p = zlen (take batchSize ds)
    /\ ForEach p = (l, None) /\ Forall2 packet_for (take batchSize ds) l
    /\ (forall i, At (E:=unit) p i = match (if 0 <=? i then l !! Z.to_nat i else None) with
                                    | Some pkt => Ok pkt
                                    | None => Panic IndexOutOfRange
                                    end).
Proof.
  intros Hr Hread. pose proof (pool_reachable_inv _ Hr) as Hinv. cbn [fst snd] in Hinv.
  destruct (Read_Ok_inv choice ds st held id st' Hinv Hread) as (_ & _ & _ & p & (Hl & Hb & Hs) & Hp).
  set (taken := take batchSize ds) in *.
  assert (length taken <= batchSize)%nat as Hlen by (unfold taken; rewrite length_take; lia).
  destruct (ForEach_fill (slots p) taken Hb ltac:(lia)) as (l & Hfe & Hl2).
  exists (mkPackets (fill_slots (slots p) taken) (length taken)), l. split_and!; [done| |done|done|].
  - unfold Packets_Len, msgs, zlen. cbn [slots shown]. rewrite length_take, fill_slots_length. lia.
  - intros i. by apply At_lookup.
Qed.

(** Freeing a batch twice shares it.  After two calls of [Free] on the same batch two reads
    can return the same object, and the second overwrites what the first reader holds. *)
Theorem double_free_shares (st : pool_state) (id : nat) (p : Packets) (d1 d2 : list byte * UDPAddr) :
  heap st !! id = Some p -> packets_ok p ->
  exists st1 st2 p1 p2,
    Read (Some O) (BatchOk [d1]) (Free id (Free id st)) = (Ok id, st1)
    /\ Read (Some O) (BatchOk [d2]) st1 = (Ok id, st2)
    /\ heap st1 !! id = Some p1 /\ heap st2 !! id = Some p2
    /\ (exists pkt, ForEach p1 = ([pkt], None) /\ packet_for d1 pkt)
    /\ (exists pkt, ForEach p2 = ([pkt], None) /\ packet_for d2 pkt).
Proof.
  intros Hp (Hl & Hb & Hs).
  set (p1 := mkPackets (fill_slots (slots p) [d1]) 1). set (p2 := mkPackets (fill_slots (slots p1) [d2]) 1).
  exists (mkPool (<[id := p1]> (heap st)) (id :: pool st) (nextPackets st)),
    (mkPool (<[id := p2]> (<[id := p1]> (heap st))) (pool st) (nextPackets st)), p1, p2.
  assert (forall ms d, Forall message_ok ms -> length ms = batchSize ->
    exists pkt, ForEach (mkPackets (fill_slots ms [d]) 1) = ([pkt], None) /\ packet_for d pkt) as Hone.
  { intros ms d Hms Hlen. destruct (ForEach_fill ms [d] Hms) as (l & Hfe & Hl2); [rewrite Hlen; unfold batchSize; cbn; lia|].
    pose proof (Forall2_length Hl2) as Hn. destruct l as [|pkt [|? ?]]; [done| |done].
    exists pkt. split; [exact Hfe|]. by apply Forall2_cons_1 in Hl2 as [? _]. }
  split_and!; try (cbn; by rewrite lookup_insert_eq).
  - unfold Read, pool_Get. cbn [pool Free pool_Put lookup list_lookup take drop app heap nextPackets].
    rewrite Hp. change (default newPackets (Some p)) with p. cbn [shown slots]. by rewrite Hl.
  - unfold Read, pool_Get. cbn [pool Free pool_Put lookup list_lookup take drop app heap nextPackets].
    rewrite lookup_insert_eq. change (default newPackets (Some p1)) with p1. cbn [shown slots].
    cbn [p1 slots]. rewrite !fill_slots_length, Hl. reflexivity.
  - by apply Hone.
  - apply Hone; cbn [p1 slots]; [by apply fill_slots_ok|by rewrite fill_slots_length].
Qed.

Lemma packets_isolated_witness :
  exists st id, Read None (BatchOk []) emptyPool = (Ok id, st) /\ NoDup [id].
Proof.
  exists (Read None (BatchOk []) emptyPool).2, 0%nat. split; [reflexivity|].
  apply (proj1 (packets_isolated (Read None (BatchOk []) emptyPool).2 [0%nat]
    (rtc_once _ _ (step_read None [] emptyPool [] 0%nat _ eq_refl)))).
Defined.

Definition demo_datagram : list byte * UDPAddr :=
  (AliveMsg, mkUDPAddr [Byte.x0a; Byte.x00; Byte.x00; Byte.x01] 8001).

Lemma Read_delivers_witness :
  exists id st' p, Read None (BatchOk [demo_datagram]) emptyPool = (Ok id, st')
    /\ heap st' !! id = Some p /\ Packets_Len p = 1.
Proof.
  destruct (Read_delivers emptyPool [] None [demo_datagram] 0%nat (Read None (BatchOk [demo_datagram]) emptyPool).2
    (rtc_refl _ _) eq_refl) as (p & l & Hp & Hlen & _).
  exists 0%nat, (Read None (BatchOk [demo_datagram]) emptyPool).2, p.
  split; [reflexivity|]. split; [exact Hp|exact Hlen].
Defined.

Lemma double_free_shares_witness :
  exists st1 st2,
    Read (Some O) (BatchOk [demo_datagram]) (Free 0 (Free 0 (mkPool {[0%nat := newPackets]} [] 1))) = (Ok 0%nat, st1)
    /\ Read (Some O) (BatchOk [(AliveMsg, mkUDPAddr [] 1)]) st1 = (Ok 0%nat, st2).
Proof.
  destruct (double_free_shares (mkPool {[0%nat := newPackets]} [] 1) 0%nat newPackets demo_datagram
    (AliveMsg, mkUDPAddr [] 1) (lookup_singleton_eq 0%nat newPackets) newPackets_ok) as (st1 & st2 & p1 & p2 & H1 & H2 & _).
  exists st1, st2. split; [exact H1|exact H2].
Defined.

(** Binding a port of a range.  In a legal range the result is the first port that can be
    bound, all ports before it being in use; or the first failure of another kind; or, when
    every port is in use, the error that says so.  Any other range is refused. *)
Theorem ListenUDPInRange_spec (listen : Z -> listen_error + Z) (startPort endPort : Z) :
  let busy q := exists e, listen q = inl e /\ bails_out e = false in
  match ListenUDPInRange listen startPort endPort with
  | Ok (fd, p) => 1 <= startPort <= p /\ p <= endPort <= 65535 /\ listen p = inr fd
      /\ (forall q, startPort <= q < p -> busy q)
  | Err (ErrBinding p e) => 1 <= startPort <= p /\ p <= endPort <= 65535
      /\ listen p = inl e /\ bails_out e = true /\ (forall q, startPort <= q < p -> busy q)
  | Err (ErrNoFreePort _ _) => 1 <= startPort <= endPort /\ endPort <= 65535
      /\ (forall q, startPort <= q <= endPort -> busy q)
  | Err e => e = ErrInvalidRange startPort endPort /\ ~ (1 <= startPort <= endPort /\ endPort <= 65535)
  | Panic _ => False
  end.
Proof.
  intros busy. unfold ListenUDPInRange.
  destruct ((startPort <? 1) || (65535 <? endPort) || (endPort <? startPort)) eqn:Hr; [split; [done|lia]|].
  pose proof (listen_loop_spec listen startPort endPort (seqZ startPort (endPort - startPort + 1))) as Hl.
  destruct (listen_loop _ _ _ _) as [[fd p]|e|]; [| |done].
  - destruct Hl as (l1 & l2 & Hs & Hp & Hb). rewrite list.Forall_forall in Hb.
    destruct (seqZ_split _ _ l1 p l2 0 Hs) as [Hrange _]. split_and!; [lia|lia|lia|lia|done|].
    intros q Hq. by apply Hb, (seqZ_split _ _ l1 p l2 q Hs).
  - destruct e as [|p e| | | | | | |]; try (destruct Hl as [He _]; discriminate He).
    + destruct Hl as (l1 & l2 & Hs & Hp & Hb' & Hb). rewrite list.Forall_forall in Hb.
      destruct (seqZ_split _ _ l1 p l2 0 Hs) as [Hrange _]. split_and!; [lia|lia|lia|lia|done|done|].
      intros q Hq. by apply Hb, (seqZ_split _ _ l1 p l2 q Hs).
    + destruct Hl as [_ Hb]. rewrite list.Forall_forall in Hb. split_and!; [lia|lia|lia|].
      intros q Hq. apply Hb. apply elem_of_seqZ. lia.
Qed.

(** The search for a port fails in three ways only. *)
Lemma ListenUDPInRange_err listen startPort endPort e :
  ListenUDPInRange listen startPort endPort = Err e ->
  match e with ErrInvalidRange _ _ | ErrBinding _ _ | ErrNoFreePort _ _ => True | _ => False end.
Proof.
  unfold ListenUDPInRange. case_match; [by intros [= <-]|].
  pose proof (listen_loop_spec listen startPort endPort (seqZ startPort (endPort - startPort + 1))) as Hl.
  destruct (listen_loop _ _ _ _) as [r|e'|]; [done| |done]. intros [= ->].
  destruct e; try done; by destruct Hl.
Qed.

(** Which sockets a failed call leaves open.  A call that creates a batch connection
    leaves open the socket of the connection it returns; when it fails it leaves none, unless
    the failure is that of setting a buffer size: then the socket stays open and nobody
    holds it. *)
Theorem batch_sockets_leak (sc : server_calls) (cpuCore : Z) (reusePort : bool)
    (listen : Z -> listen_error + Z) (setRead setWrite : option Z) (startPort endPort : Z) :
  let leaks (r : outcome batch_error Conn * list Z) :=
    match r with
    | (Ok c, opened) => opened = [conn c]
    | (Err (ErrSetReadBuffer _), opened) | (Err (ErrSetWriteBuffer _), opened) => length opened = 1%nat
    | (_, opened) => opened = []
    end in
  leaks (newServerInternal sc cpuCore reusePort) /\ leaks (NewClient listen setRead setWrite startPort endPort)
  /\ (forall fd p errno, ListenUDPInRange listen startPort endPort = Ok (fd, p) -> setRead = Some errno ->
       NewClient listen setRead setWrite startPort endPort = (Err (ErrSetReadBuffer errno), [fd])).
Proof.
  intros leaks. split_and!.
  - unfold newServerInternal. destruct reusePort.
    + destruct (reuse_control _ _ _).1; [done|]. destruct (sc_listen sc); [done|]. cbn.
      unfold set_buffers. by destruct (sc_setRead sc); [|destruct (sc_setWrite sc)].
    + destruct (sc_listen sc); [done|]. cbn.
      unfold set_buffers. by destruct (sc_setRead sc); [|destruct (sc_setWrite sc)].
  - unfold NewClient. pose proof (ListenUDPInRange_err listen startPort endPort) as Hs.
    destruct (ListenUDPInRange _ _ _) as [[fd p]|e|]; [|specialize (Hs e eq_refl); by destruct e|done].
    cbn. unfold set_buffers. by destruct setRead; [|destruct setWrite].
  - intros fd p errno Hl ->. unfold NewClient. by rewrite Hl.
Qed.

Lemma go_copy_full {A} (dst src : list A) : length dst = length src -> go_copy dst src = src.
Proof. intros Hl. unfold go_copy. rewrite take_ge, drop_ge, app_nil_r by lia. done. Qed.

Lemma udpAddrToNetip_eq a :
  udpAddrToNetip a = match To4 (UIP a) with
                     | Some v4 => Ok (Addr4 v4)
                     | None => if (length (UIP a) =? 16)%nat then Ok (Addr6 (UIP a) "")
                               else Err (ErrInvalidNetIP (UIP a))
                     end.
Proof.
  unfold udpAddrToNetip. destruct (To4 (UIP a)) as [v4|] eqn:H4.
  - apply To4_length in H4. unfold AddrFrom4. by rewrite go_copy_full by (by rewrite length_replicate).
  - unfold To4 in H4. unfold To16. destruct (length (UIP a) =? 4)%nat; [done|].
    destruct (Nat.eqb_spec (length (UIP a)) 16); [|done]. unfold AddrFrom16.
    by rewrite go_copy_full by (by rewrite length_replicate).
Qed.

(** The two forms of an address.  [NewUDPAddr] succeeds exactly on addresses of 4 or 16
    bytes.  On the address of a datagram's sender it gives the [netip.Addr] that [NewAddr]
    gives, except for an IPv4-mapped IPv6 sender, which [NewUDPAddr] turns into an IPv4
    address and [NewAddr] leaves IPv6: there the two never compare equal. *)
Theorem NewUDPAddr_agrees (addr : UDPAddr) (sa : Sockaddr) (a : Addr) :
  sockaddr_wf sa -> NewAddr (Some sa) = Ok a ->
  is_Ok (NewUDPAddr addr) = ((length (UIP addr) =? 4)%nat || (length (UIP addr) =? 16)%nat)
  /\ exists b, NewUDPAddr (UDPAddrFromSockAddr (Some sa)) = Ok b
       /\ (ba_NetipAddr b = NetAddr a <->
           match sa with SockaddrInet6 _ _ ip => take 12 ip <> v4InV6Prefix | _ => True end).
Proof.
  intros Hwf Ha. split.
  - unfold NewUDPAddr. rewrite udpAddrToNetip_eq. unfold To4.
    destruct (length (UIP addr) =? 4)%nat; [done|]. destruct (length (UIP addr) =? 16)%nat; [|done].
    by destruct (bool_decide _).
  - unfold NewUDPAddr. rewrite udpAddrToNetip_eq.
    destruct sa as [p ip|p z ip|f]; cbn in Hwf, Ha; [| |done]; injection Ha as <-;
      cbn [UDPAddrFromSockAddr UIP NetAddr]; unfold To4; rewrite Hwf; cbn [Nat.eqb].
    + eexists. split; [done|]. done.
    + case_bool_decide as Hm; cbn [andb]; eexists; (split; [done|]); cbn; [|done].
      split; [done|]. by intros Hne.
Qed.

Lemma NewUDPAddr_agrees_witness :
  exists b, NewUDPAddr (UDPAddrFromSockAddr (Some (SockaddrInet4 1 [Byte.x0a; Byte.x00; Byte.x00; Byte.x01]))) = Ok b.
Proof.
  destruct (NewUDPAddr_agrees (mkUDPAddr [] 0) (SockaddrInet4 1 [Byte.x0a; Byte.x00; Byte.x00; Byte.x01])
    (mkAddr (Some (SockaddrInet4 1 [Byte.x0a; Byte.x00; Byte.x00; Byte.x01])) (Addr4 [Byte.x0a; Byte.x00; Byte.x00; Byte.x01]))
    eq_refl eq_refl) as (_ & b & Hb & _).
  exists b. exact Hb.
Defined.
