(* ===== verification/Stats.v ===== *)
(** * Shred statistics ([pkg/ofr/stats.go], [pkg/ofr/success_counter.go])

    The per-source recorders (a bounded channel drained by a goroutine into a map that
    the flush loop empties), the first-shred recorder, the flush iteration of [NewStats]
    with the table [logStats] prints and the records sent to fluentd, the keyed counter
    and the success counter.  [float64] ratios are rationals.  The order in which Go
    ranges over a map and the unstable [sort.Slice] are the parameters of [GoOrder]. *)

From Stdlib Require Import QArith Sorting.Sorted.
From S2P Require Import Prelude Strconv Shred Udp.
Open Scope Z_scope.

(** ** Map iteration and sorting *)

Class GoOrder := {
  map_range : forall {K V : Type} `{Countable K}, gmap K V -> list (K * V);
  sort_Slice : forall {A : Type}, (A -> A -> bool) -> list A -> list A
}.

Class GoOrderLaws `{GoOrder} : Prop := {
  map_range_perm {K V : Type} `{Countable K} (m : gmap K V) : map_range m ≡ₚ map_to_list m;
  sort_Slice_perm {A : Type} (less : A -> A -> bool) (l : list A) : sort_Slice less l ≡ₚ l;
  (** sorting by a descending integer key *)
  sort_Slice_desc {A : Type} (key : A -> Z) (l : list A) :
    StronglySorted (fun x y => key y <= key x) (sort_Slice (fun x y => key y <? key x) l)
}.

(** ** Records of shreds by source *)

Record NodeInfo := mkNodeInfo { Src : NetipAddr; NodeType : string; Name : string }.

Record ShredsBySrcRecord := mkShredsBySrcRecord {
  Shreds : Z;
  rNodeInfo : NodeInfo;
  SrcString : string
}.

(** [shredsBySrcRecorder].  The map holds pointers; a record leaves the map before it is
    handed out by [flush], so no record is shared and values suffice. *)
Record shredsBySrcRecorder := mkRecorder {
  rec_ch : channel NodeInfo;
  rec_mp : gmap NetipAddr ShredsBySrcRecord
}.

Definition shredsRecorderChanBuf : Z := 10000.

Definition newShredsBySrcRecorder : shredsBySrcRecorder :=
  {| rec_ch := make_chan shredsRecorderChanBuf; rec_mp := ∅ |}.

Definition recorder_record (nodeInfo : NodeInfo) (r : shredsBySrcRecorder) : shredsBySrcRecorder :=
  {| rec_ch := (try_send (rec_ch r) nodeInfo).2; rec_mp := rec_mp r |}.

(** [r.mp[info.Src]] is created or incremented.  The counter is an [int]; it is written without
    its wrap, which takes 2^63 records of one source between two flushes, each of them received
    from the channel by the one goroutine that empties it. *)
Definition count_shred (addr_String : NetipAddr -> string) (info : NodeInfo)
    (mp : gmap NetipAddr ShredsBySrcRecord) : gmap NetipAddr ShredsBySrcRecord :=
  match mp !! Src info with
  | Some v => <[Src info := {| Shreds := Shreds v + 1; rNodeInfo := rNodeInfo v; SrcString := SrcString v |}]> mp
  | None => <[Src info := {| Shreds := 1; rNodeInfo := info; SrcString := addr_String (Src info) |}]> mp
  end.

(** One iteration of [run]; nothing happens while the channel is empty. *)
Definition recorder_run (addr_String : NetipAddr -> string) (r : shredsBySrcRecorder)
    : shredsBySrcRecorder :=
  match chan_recv (rec_ch r) with
  | None => r
  | Some (info, ch) => {| rec_ch := ch; rec_mp := count_shred addr_String info (rec_mp r) |}
  end.

(** [flush()]: the records, most shreds first; the map is emptied. *)
Definition recorder_flush `{GoOrder} (r : shredsBySrcRecorder)
    : list ShredsBySrcRecord * shredsBySrcRecorder :=
  (sort_Slice (fun x y => Shreds y <? Shreds x) (map_range (rec_mp r)).*2,
   {| rec_ch := rec_ch r; rec_mp := ∅ |}).

(** ** First shred of each slot and type *)

Record firstShredRecord := mkFirstShredRecord {
  f_src : NetipAddr;
  f_slot : Z;
  f_index : Z;
  f_typ : string;
  f_typeByte : Z
}.

(** [mp] maps a slot-type key to its record time. *)
Record firstShredRecorder := mkFirstRecorder {
  fr_mp : gmap (list byte) Z;
  fr_ch : channel firstShredRecord
}.

Definition newFirstShredRecorder : firstShredRecorder :=
  {| fr_mp := ∅; fr_ch := make_chan shredsRecorderChanBuf |}.

Definition buildKey (slot typ : Z) : list byte := format_uint64 slot ++ [zb typ].

Definition first_record (src : NetipAddr) (shred : PartialShred) (r : firstShredRecorder)
    : firstShredRecorder :=
  {| fr_mp := fr_mp r;
     fr_ch := (try_send (fr_ch r)
       {| f_src := src; f_slot := Slot shred; f_index := Index shred;
          f_typ := VariantString (PVariant shred); f_typeByte := Variant (PVariant shred) |}).2 |}.

(** One iteration of [run] at time [now]. *)
Definition first_run (now : Z) (r : firstShredRecorder) : firstShredRecorder :=
  match chan_recv (fr_ch r) with
  | None => r
  | Some (shred, ch) =>
      let key := buildKey (f_slot shred) (f_typeByte shred) in
      {| fr_mp := match fr_mp r !! key with Some _ => fr_mp r | None => <[key := now]> (fr_mp r) end;
         fr_ch := ch |}
  end.

Definition minute : Z := 60 * 1000000000.

(** [clean()]: entries older than a minute are deleted. *)
Definition first_clean (now : Z) (r : firstShredRecorder) : firstShredRecorder :=
  {| fr_mp := filter (fun kv => now - kv.2 <= minute) (fr_mp r); fr_ch := fr_ch r |}.

(** ** Stats *)

(** The recorders of [Stats]; the histograms are only set by options that this program
    does not use. *)
Record Stats := mkStats {
  totalShredsRecorder : shredsBySrcRecorder;
  unseenShredsRecorder : shredsBySrcRecorder;
  firstRecorder : firstShredRecorder;
  fluentD : bool;
  regions : gmap string (gset string)
}.

Definition newStats (fluentd : bool) : Stats :=
  {| totalShredsRecorder := newShredsBySrcRecorder;
     unseenShredsRecorder := newShredsBySrcRecorder;
     firstRecorder := newFirstShredRecorder;
     fluentD := fluentd; regions := ∅ |}.

Definition AddRegions (addr : string) (r : gset string) (s : Stats) : Stats :=
  {| totalShredsRecorder := totalShredsRecorder s; unseenShredsRecorder := unseenShredsRecorder s;
     firstRecorder := firstRecorder s; fluentD := fluentD s; regions := <[addr := r]> (regions s) |}.

Definition RecordNewShred (src : NetipAddr) (nodeType name : string) (s : Stats) : Stats :=
  {| totalShredsRecorder := recorder_record (mkNodeInfo src nodeType name) (totalShredsRecorder s);
     unseenShredsRecorder := unseenShredsRecorder s;
     firstRecorder := firstRecorder s; fluentD := fluentD s; regions := regions s |}.

Definition RecordUnseenShred (src : NetipAddr) (shred : PartialShred) (nodeType name : string)
    (s : Stats) : Stats :=
  {| totalShredsRecorder := totalShredsRecorder s;
     unseenShredsRecorder := recorder_record (mkNodeInfo src nodeType name) (unseenShredsRecorder s);
     firstRecorder := first_record src shred (firstRecorder s);
     fluentD := fluentD s; regions := regions s |}.

(** ** The table of [logStats] *)

Record logEntry := mkLogEntry {
  le_source : string;
  firstSeenShreds : Z;
  totalShreds : Z;
  firstSeenPercentage : Q;
  kpi : Q;
  le_nodeInfo : NodeInfo;
  le_regions : string
}.

Definition sum_shreds (l : list ShredsBySrcRecord) : Z := fold_right (fun r n => Shreds r + n) 0 l.

(** The inner loop of [logStats]: the count of the first unseen record with this source. *)
Fixpoint unseen_count (src : string) (unseen : list ShredsBySrcRecord) : Z :=
  match unseen with
  | [] => 0
  | u :: unseen => if bool_decide (SrcString u = src) then Shreds u else unseen_count src unseen
  end.

Definition mapKeysToString `{GoOrder} (str_less : string -> string -> bool)
    (addr : string) (m : gmap string (gset string)) : string :=
  match m !! addr with
  | None => ""
  | Some regions => String.concat ", " (sort_Slice str_less (elements regions))
  end.

Definition log_entry `{GoOrder} (str_less : string -> string -> bool) (s : Stats)
    (totalUnseenShreds : Z) (unseen : list ShredsBySrcRecord) (total : ShredsBySrcRecord) : logEntry :=
  let unseenCount := unseen_count (SrcString total) unseen in
  {| le_source := SrcString total;
     firstSeenShreds := unseenCount;
     totalShreds := Shreds total;
     firstSeenPercentage :=
       if 0 <? totalUnseenShreds then (inject_Z unseenCount / inject_Z totalUnseenShreds * 100)%Q else 0%Q;
     kpi := if 0 <? Shreds total then (inject_Z unseenCount / inject_Z (Shreds total))%Q else 0%Q;
     le_nodeInfo := rNodeInfo total;
     le_regions := mapKeysToString str_less (SrcString total) (regions s) |}.

(** The rows [logStats] prints, best source first. *)
Definition logStats `{GoOrder} (str_less : string -> string -> bool) (s : Stats)
    (totals unseen : list ShredsBySrcRecord) : list logEntry :=
  sort_Slice (fun x y => firstSeenShreds y <? firstSeenShreds x)
    (map (log_entry str_less s (sum_shreds unseen) unseen) totals).

(** ** The flush iteration *)

(** A call of [LogShredStats]; the counts are converted to [uint32]. *)
Record shred_stats := mkShredStats {
  peerIP : string;
  peerType : string;
  ss_total : Z;
  ss_unseen : Z
}.

Fixpoint fluent_match (ts : ShredsBySrcRecord) (unseen : list ShredsBySrcRecord) : list shred_stats :=
  match unseen with
  | [] => []
  | us :: unseen =>
      if bool_decide (SrcString ts = SrcString us)
      then [mkShredStats (SrcString ts) (NodeType (rNodeInfo ts)) (u32 (Shreds ts)) (u32 (Shreds us))]
      else fluent_match ts unseen
  end.

(** What a flush of a recorder gives. *)
Definition ShredsBySource : Type := list ShredsBySrcRecord.

Record flush_effects := mkFlushEffects {
  fl_total : ShredsBySource;
  fl_unseen : ShredsBySource;
  fl_sent : option ShredsBySource;  (* what a waiting reader of the flush channel gets *)
  fl_log : list logEntry;
  fl_fluent : list shred_stats
}.

(** One tick of the goroutine started by [NewStats]; [reader] tells whether a receiver is
    waiting on the unbuffered flush channel. *)
Definition flush_tick `{GoOrder} (str_less : string -> string -> bool) (now : Z) (reader : bool)
    (s : Stats) : flush_effects * Stats :=
  let (total, tr) := recorder_flush (totalShredsRecorder s) in
  let (unseen, ur) := recorder_flush (unseenShredsRecorder s) in
  ({| fl_total := total; fl_unseen := unseen;
      fl_sent := if reader then Some unseen else None;
      fl_log := logStats str_less s total unseen;
      fl_fluent := if fluentD s then concat (map (fun ts => fluent_match ts unseen) total) else [] |},
   {| totalShredsRecorder := tr; unseenShredsRecorder := ur;
      firstRecorder := first_clean now (firstRecorder s);
      fluentD := fluentD s; regions := regions s |}).

(** The channel of flushed unseen shreds: what a reader that waits at a flush gets. *)
Definition RecvFlushUnseenShreds (eff : flush_effects) : option ShredsBySource := fl_sent eff.

(** ** Keyed counter *)

Definition KeyedCounter (T : Type) `{Countable T} := gmap T Z.

Definition kc_Increment {T} `{Countable T} (key : T) (m : KeyedCounter T) : KeyedCounter T :=
  <[key := u64 (default 0 ((m : gmap T Z) !! key) + 1)]> (m : gmap T Z).

Definition kc_Flush {T} `{Countable T} (m : KeyedCounter T) : KeyedCounter T * KeyedCounter T :=
  (m, (∅ : gmap T Z)).

(** ** Success counter *)

Record SuccessCounter := mkSuccessCounter { success : Z; failure : Z }.

Definition RecordSuccess (c : SuccessCounter) : SuccessCounter :=
  {| success := u64 (success c + 1); failure := failure c |}.

Definition RecordFailure (c : SuccessCounter) : SuccessCounter :=
  {| success := success c; failure := u64 (failure c + 1) |}.

Definition SuccessRate (c : SuccessCounter) : Q :=
  if 0 <? u64 (success c + failure c)
  then (inject_Z (success c) / inject_Z (u64 (success c + failure c)))%Q
  else 0%Q.

(** One tick of [Print]: the two swapped-out counts and the percentage. *)
Definition Print_tick (c : SuccessCounter) : (Z * Z * Q) * SuccessCounter :=
  ((success c, failure c,
    if 0 <? u64 (success c + failure c)
    then (inject_Z (success c) / inject_Z (u64 (success c + failure c)) * 100)%Q
    else 0%Q),
   {| success := 0; failure := 0 |}).

(** * Properties *)

(** ** A concrete order: maps in key order, insertion sort *)

Fixpoint insert_by {A} (less : A -> A -> bool) (x : A) (l : list A) : list A :=
  match l with
  | [] => [x]
  | y :: l' => if less y x then y :: insert_by less x l' else x :: y :: l'
  end.

Definition insertion_sort {A} (less : A -> A -> bool) (l : list A) : list A :=
  foldr (insert_by less) [] l.

Definition simple_order : GoOrder := {|
  map_range _ _ _ _ m := map_to_list m;
  sort_Slice _ less l := insertion_sort less l
|}.

Lemma insert_by_perm {A} (less : A -> A -> bool) x l : insert_by less x l ≡ₚ x :: l.
Proof.
  induction l as [|y l IH]; [done|]. cbn. case_if; [|done].
  rewrite IH. apply Permutation_swap.
Qed.

Lemma insertion_sort_perm {A} (less : A -> A -> bool) l : insertion_sort less l ≡ₚ l.
Proof. induction l as [|x l IH]; [done|]. cbn. by rewrite insert_by_perm, IH. Qed.

Lemma insert_by_desc {A} (key : A -> Z) x l :
  StronglySorted (fun x y => key y <= key x) l ->
  StronglySorted (fun x y => key y <= key x) (insert_by (fun x y => key y <? key x) x l).
Proof.
  induction 1 as [|y l Hl IH Hy]; cbn; [by repeat constructor|].
  destruct (Z.ltb_spec (key x) (key y)).
  - constructor; [done|]. rewrite insert_by_perm. constructor; [lia|done].
  - constructor; [by constructor|]. constructor; [lia|].
    eapply List.Forall_impl; [|exact Hy]. cbn. lia.
Qed.

Lemma simple_order_laws : @GoOrderLaws simple_order.
Proof.
  split; cbn; intros; [done|apply insertion_sort_perm|].
  induction l as [|x l IH]; [constructor|]. by apply insert_by_desc.
Qed.

(** ** Sums *)

Lemma sum_shreds_perm l l' : l ≡ₚ l' -> sum_shreds l = sum_shreds l'.
Proof. unfold sum_shreds. induction 1; cbn; lia. Qed.

Lemma sum_shreds_app l l' : sum_shreds (l ++ l') = sum_shreds l + sum_shreds l'.
Proof. unfold sum_shreds. induction l; cbn; lia. Qed.

Definition from_src (a : NetipAddr) (r : ShredsBySrcRecord) : bool := bool_decide (Src (rNodeInfo r) = a).

(** Shreds of source [a] among flushed records, in the map, among node infos. *)
Definition flushed_count (a : NetipAddr) (l : list ShredsBySrcRecord) : Z :=
  sum_shreds (List.filter (from_src a) l).

Definition map_count (a : NetipAddr) (mp : gmap NetipAddr ShredsBySrcRecord) : Z :=
  match mp !! a with Some v => Shreds v | None => 0 end.

Definition info_count (a : NetipAddr) (l : list NodeInfo) : Z :=
  zlen (List.filter (fun n => bool_decide (Src n = a)) l).

Lemma info_count_app a l l' : info_count a (l ++ l') = info_count a l + info_count a l'.
Proof. unfold info_count, zlen. rewrite List.filter_app, length_app. lia. Qed.

Lemma info_count_cons a n l :
  info_count a (n :: l) = (if decide (Src n = a) then 1 else 0) + info_count a l.
Proof.
  unfold info_count, zlen. cbn. destruct (decide (Src n = a)).
  - rewrite bool_decide_eq_true_2 by done. cbn. lia.
  - by rewrite bool_decide_eq_false_2 by done.
Qed.

Lemma flushed_count_app a l l' : flushed_count a (l ++ l') = flushed_count a l + flushed_count a l'.
Proof. unfold flushed_count. by rewrite List.filter_app, sum_shreds_app. Qed.

Lemma flushed_count_perm a l l' : l ≡ₚ l' -> flushed_count a l = flushed_count a l'.
Proof. intros H. apply sum_shreds_perm. by rewrite H. Qed.

Lemma flushed_count_cons a r l :
  flushed_count a (r :: l) = (if decide (Src (rNodeInfo r) = a) then Shreds r else 0) + flushed_count a l.
Proof. unfold flushed_count, from_src. cbn. by case_bool_decide; [rewrite decide_True|rewrite decide_False]. Qed.

Section recorder.
Context (addr_String : NetipAddr -> string).

(** Every record is filed under its own source, with its cached name and a positive count. *)
Definition mp_ok (mp : gmap NetipAddr ShredsBySrcRecord) : Prop :=
  forall a v, mp !! a = Some v ->
    Src (rNodeInfo v) = a /\ SrcString v = addr_String a /\ 1 <= Shreds v.

Lemma count_shred_ok info mp : mp_ok mp -> mp_ok (count_shred addr_String info mp).
Proof.
  intros Hmp a v. unfold count_shred.
  destruct (mp !! Src info) as [v0|] eqn:Hv0; rewrite lookup_insert; case_decide; subst; try apply Hmp.
  - intros [= <-]. cbn. destruct (Hmp _ _ Hv0) as (? & ? & ?). split_and!; [done|done|lia].
  - intros [= <-]. cbn. split_and!; done.
Qed.

Lemma count_shred_count info mp a :
  map_count a (count_shred addr_String info mp)
  = (if decide (Src info = a) then 1 else 0) + map_count a mp.
Proof.
  unfold map_count, count_shred. destruct (mp !! Src info) as [v0|] eqn:Hv0;
    rewrite lookup_insert; destruct (decide (Src info = a)) as [<-|]; rewrite ?Hv0; cbn; lia.
Qed.

(** The records of a map, per source. *)
Lemma flushed_count_map mp a :
  mp_ok mp -> flushed_count a (map_to_list mp).*2 = map_count a mp.
Proof.
  induction mp as [|k v mp Hk IH] using map_ind; intros Hmp; [done|].
  rewrite (flushed_count_perm _ _ (v :: (map_to_list mp).*2)) by
    (by rewrite map_to_list_insert).
  destruct (Hmp k v) as (Hsrc & _ & _); [apply lookup_insert_eq|].
  rewrite flushed_count_cons, Hsrc, IH.
  - unfold map_count. rewrite lookup_insert. case_decide; [subst; rewrite Hk; lia|lia].
  - intros k' v' Hv'. apply Hmp. rewrite lookup_insert_ne; [done|]. congruence.
Qed.

Context {order : GoOrder} {order_laws : GoOrderLaws}.

Lemma recorder_flush_perm r : (recorder_flush r).1 ≡ₚ (map_to_list (rec_mp r)).*2.
Proof using order_laws. cbn. by rewrite sort_Slice_perm, map_range_perm. Qed.

Lemma recorder_flush_sources r :
  mp_ok (rec_mp r) -> map (fun v => Src (rNodeInfo v)) (recorder_flush r).1 ≡ₚ (map_to_list (rec_mp r)).*1.
Proof using All.
  intros Hmp. rewrite recorder_flush_perm.
  induction (rec_mp r) as [|k v mp Hk IH] using map_ind; [done|].
  rewrite map_to_list_insert by done. cbn.
  destruct (Hmp k v) as (-> & _ & _); [apply lookup_insert_eq|].
  rewrite IH; [done|]. intros k' v' Hv'. apply Hmp. rewrite lookup_insert_ne; [done|]. congruence.
Qed.

(** ** Traces of a recorder *)

Inductive rec_event := RRecord (n : NodeInfo) | RRun | RFlush.

(** State of a trace: the recorder, the infos the channel took, the records flushed. *)
Definition rec_step (e : rec_event)
    (s : shredsBySrcRecorder * list NodeInfo * list ShredsBySrcRecord) :=
  let '(r, accepted, flushed) := s in
  match e with
  | RRecord n =>
      (recorder_record n r,
       if (try_send (rec_ch r) n).1 then accepted ++ [n] else accepted, flushed)
  | RRun => (recorder_run addr_String r, accepted, flushed)
  | RFlush => let (l, r') := recorder_flush r in (r', accepted, flushed ++ l)
  end.

Definition rec_run (es : list rec_event) : shredsBySrcRecorder * list NodeInfo * list ShredsBySrcRecord :=
  fold_left (fun s e => rec_step e s) es (newShredsBySrcRecorder, [], []).

Definition rec_inv (s : shredsBySrcRecorder * list NodeInfo * list ShredsBySrcRecord) : Prop :=
  let '(r, accepted, flushed) := s in
  mp_ok (rec_mp r) /\ chan_wf (rec_ch r)
  /\ forall a, info_count a accepted
       = info_count a (chan_buf (rec_ch r)) + map_count a (rec_mp r) + flushed_count a flushed.

Lemma rec_step_inv e s : rec_inv s -> rec_inv (rec_step e s).
Proof using All.
  destruct s as [[r accepted] flushed]. intros (Hmp & Hwf & Hcount). destruct e as [n| |]; cbn.
  - split_and!; [done|by apply try_send_wf|]. intros a. rewrite try_send_buf.
    destruct (try_send (rec_ch r) n).1; [|apply Hcount].
    rewrite !info_count_app, Hcount. lia.
  - unfold recorder_run, chan_recv. destruct (chan_buf (rec_ch r)) as [|info l] eqn:Hbuf; cbn.
    { split_and!; [done..|]. intros a. by rewrite Hcount, ?Hbuf. }
    unfold chan_wf, zlen in *. rewrite ?Hbuf in Hwf. cbn in *.
    split_and!; [by apply count_shred_ok|lia|]. intros a.
    rewrite Hcount, count_shred_count, ?Hbuf, info_count_cons. lia.
  - split_and!; [by intros ? ? ?|done|]. intros a.
    rewrite Hcount, flushed_count_app, (flushed_count_perm _ _ _ (recorder_flush_perm r)),
      flushed_count_map by done. unfold map_count at 2. rewrite lookup_empty. lia.
Qed.

Lemma rec_run_inv es : rec_inv (rec_run es).
Proof using All.
  unfold rec_run. assert (rec_inv (newShredsBySrcRecorder, [], [])) as Hnew by
    (split_and!; [by intros ? ? ?|by unfold chan_wf|by intros a; cbn; unfold map_count; rewrite lookup_empty]).
  revert Hnew. generalize (newShredsBySrcRecorder, @nil NodeInfo, @nil ShredsBySrcRecord).
  induction es as [|e es IH]; intros s Hs; cbn; [done|]. by apply IH, rec_step_inv.
Qed.
End recorder.

(** ** Keys of the first-shred recorder *)

Lemma buildKey_inj slot1 typ1 slot2 typ2 :
  0 <= slot1 < 2 ^ 64 -> 0 <= slot2 < 2 ^ 64 -> 0 <= typ1 < 256 -> 0 <= typ2 < 256 ->
  buildKey slot1 typ1 = buildKey slot2 typ2 -> slot1 = slot2 /\ typ1 = typ2.
Proof.
  intros Hs1 Hs2 Ht1 Ht2 [Hf Ht]%app_inj_2; [|done].
  apply format_uint64_inj in Hf; [|done..]. split; [done|].
  injection Ht as Ht. apply (f_equal bz) in Ht. rewrite !bz_zb, !wrap_small in Ht by lia. done.
Qed.

(** ** The table *)

Definition sum_first (rows : list logEntry) : Z := fold_right (fun r n => firstSeenShreds r + n) 0 rows.

Definition sum_percentage (rows : list logEntry) : Q :=
  fold_right (fun r n => firstSeenPercentage r + n)%Q 0%Q rows.

Lemma sum_first_perm l l' : l ≡ₚ l' -> sum_first l = sum_first l'.
Proof. unfold sum_first. induction 1; cbn; lia. Qed.

Definition unseen_counts (totals unseen : list ShredsBySrcRecord) : Z :=
  fold_right (fun t n => unseen_count (SrcString t) unseen + n) 0 totals.

Lemma unseen_count_absent src us : src ∉ map SrcString us -> unseen_count src us = 0.
Proof.
  induction us as [|u us IH]; [done|]. cbn. intros [Hne Hus]%not_elem_of_cons.
  rewrite bool_decide_eq_false_2 by done. auto.
Qed.

(** Exactly one row is credited with the shreds of an unseen source. *)
Lemma unseen_counts_cons totals u us :
  NoDup (map SrcString totals) -> SrcString u ∉ map SrcString us ->
  unseen_counts totals (u :: us) =
    (if decide (SrcString u ∈ map SrcString totals) then Shreds u else 0) + unseen_counts totals us.
Proof.
  intros Hnd Hu. induction totals as [|t totals IH]; [by rewrite decide_False by apply not_elem_of_nil|].
  cbn [map] in Hnd. apply list.NoDup_cons in Hnd as [Ht Hnd]. specialize (IH Hnd).
  unfold unseen_counts in *. cbn [fold_right map]. rewrite IH. cbn [unseen_count].
  destruct (bool_decide_reflect (SrcString u = SrcString t)) as [Heq|Hne].
  - rewrite (decide_False (P := SrcString u ∈ map SrcString totals)) by by rewrite Heq.
    rewrite decide_True by (rewrite Heq; apply elem_of_cons; by left).
    rewrite <- Heq, (unseen_count_absent (SrcString u) us) by done. lia.
  - destruct (decide (SrcString u ∈ map SrcString totals)).
    + rewrite decide_True by (apply elem_of_cons; by right). lia.
    + rewrite decide_False by (rewrite elem_of_cons; naive_solver). lia.
Qed.

Lemma unseen_counts_total totals unseen :
  NoDup (map SrcString totals) -> NoDup (map SrcString unseen) ->
  (forall u, u ∈ unseen -> SrcString u ∈ map SrcString totals) ->
  unseen_counts totals unseen = sum_shreds unseen.
Proof.
  intros Hnt. induction unseen as [|u us IH]; intros Hnu Hin.
  - clear Hnt Hin. by induction totals.
  - cbn [map] in Hnu. apply list.NoDup_cons in Hnu as [Hu Hnu].
    rewrite unseen_counts_cons by done. rewrite decide_True by (apply Hin, elem_of_cons; by left).
    rewrite IH; [done|done|]. intros u' Hu'. apply Hin, elem_of_cons. by right.
Qed.

Section table.
Context `{GoOrderLaws} (str_less : string -> string -> bool) (s : Stats).

Lemma logStats_perm totals unseen :
  logStats str_less s totals unseen ≡ₚ map (log_entry str_less s (sum_shreds unseen) unseen) totals.
Proof using All. unfold logStats. by rewrite sort_Slice_perm. Qed.

Lemma sum_first_logStats totals unseen :
  sum_first (logStats str_less s totals unseen) = unseen_counts totals unseen.
Proof using All.
  rewrite (sum_first_perm _ _ (logStats_perm totals unseen)).
  generalize (sum_shreds unseen). intros n.
  unfold sum_first, unseen_counts. induction totals; cbn; lia.
Qed.

Lemma logStats_rows totals unseen row :
  row ∈ logStats str_less s totals unseen ->
  exists t, t ∈ totals /\ row = log_entry str_less s (sum_shreds unseen) unseen t.
Proof using All.
  rewrite logStats_perm, list_elem_of_In, in_map_iff. intros (t & <- & Ht).
  exists t. by rewrite list_elem_of_In.
Qed.

Lemma sum_percentage_rows rows n :
  0 < n ->
  (forall row, row ∈ rows -> firstSeenPercentage row
     = (inject_Z (firstSeenShreds row) / inject_Z n * 100)%Q) ->
  (sum_percentage rows == inject_Z (sum_first rows) / inject_Z n * 100)%Q.
Proof using.
  intros Hn. assert (~ inject_Z n == 0)%Q by (unfold Qeq; cbn; lia).
  induction rows as [|r rows IH]; intros Hrows; cbn [sum_percentage sum_first fold_right].
  - change (inject_Z 0) with 0%Q. by field.
  - fold (sum_percentage rows) (sum_first rows).
    rewrite IH, (Hrows r), inject_Z_plus.
    + by field.
    + apply elem_of_cons. by left.
    + intros. apply Hrows, elem_of_cons. by right.
Qed.
End table.

(** ** Theorems *)

(** Conservation of counts.  Over every interleaving of [record], the recorder's
    goroutine and [flush], and for every source, each shred the recorder's channel
    accepted is in exactly one place: still buffered, counted in the map, or in a
    flushed record.  Nothing is lost or counted twice by a flush. *)
Theorem recorder_conserves `{GoOrderLaws} (addr_String : NetipAddr -> string)
    (es : list rec_event) (a : NetipAddr) :
  let '(r, accepted, flushed) := rec_run addr_String es in
  info_count a accepted
  = info_count a (chan_buf (rec_ch r)) + map_count a (rec_mp r) + flushed_count a flushed.
Proof.
  pose proof (rec_run_inv addr_String es) as Hinv.
  destruct (rec_run addr_String es) as [[r accepted] flushed]. apply Hinv.
Qed.

Lemma recorder_conserves_witness :
  @GoOrderLaws simple_order
  /\ let '(r, accepted, flushed) := @rec_run (fun _ => ""%string) simple_order
       [RRecord (mkNodeInfo ZeroAddr "OFR" ""); RRun; RFlush; RRecord (mkNodeInfo ZeroAddr "OFR" "")] in
     info_count ZeroAddr accepted = 2.
Proof.
  split; [exact simple_order_laws|].
  refine (eq_trans (@recorder_conserves simple_order simple_order_laws (fun _ => ""%string)
    [RRecord (mkNodeInfo ZeroAddr "OFR" ""); RRun; RFlush; RRecord (mkNodeInfo ZeroAddr "OFR" "")] ZeroAddr) _).
  vm_compute. reflexivity.
Defined.

(** What a flush reports.  In every reachable recorder [flush] returns the records
    with most shreds first, one record per source, each with a positive count equal to
    the one accumulated in the map and with its source's printed address; and it leaves
    the map empty and the channel untouched. *)
Theorem flush_report `{GoOrderLaws} (addr_String : NetipAddr -> string) (es : list rec_event) :
  let r := (rec_run addr_String es).1.1 in
  let '(stats, r') := recorder_flush r in
  StronglySorted (fun x y => Shreds y <= Shreds x) stats
  /\ NoDup (map (fun v => Src (rNodeInfo v)) stats)
  /\ (forall v, v ∈ stats -> 1 <= Shreds v
        /\ Shreds v = map_count (Src (rNodeInfo v)) (rec_mp r)
        /\ SrcString v = addr_String (Src (rNodeInfo v)))
  /\ rec_mp r' = ∅ /\ rec_ch r' = rec_ch r.
Proof.
  pose proof (rec_run_inv addr_String es) as Hinv.
  destruct (rec_run addr_String es) as [[r accepted] flushed]. cbn [fst].
  destruct Hinv as (Hmp & _ & _). pose proof (recorder_flush_sources addr_String r Hmp) as Hsrc.
  pose proof (recorder_flush_perm r) as Hperm. split_and!; [apply sort_Slice_desc| | |done|done].
  - cbn [fst] in Hsrc. rewrite Hsrc. apply NoDup_fst_map_to_list.
  - intros v Hv. change (v ∈ (recorder_flush r).1) in Hv.
    rewrite Hperm, list_elem_of_fmap in Hv. destruct Hv as ([k v'] & -> & Hk%elem_of_map_to_list).
    cbn. destruct (Hmp _ _ Hk) as (Hs & Hstr & Hpos). rewrite Hs. split_and!; [done| |done].
    unfold map_count. by rewrite Hk.
Qed.

Lemma flush_report_witness :
  @GoOrderLaws simple_order /\
  StronglySorted (fun x y => Shreds y <= Shreds x)
    (@recorder_flush simple_order (@rec_run (fun _ => ""%string) simple_order
      [RRecord (mkNodeInfo ZeroAddr "OFR" ""); RRun]).1.1).1.
Proof.
  split; [exact simple_order_laws|].
  exact (proj1 (@flush_report simple_order simple_order_laws (fun _ => ""%string)
    [RRecord (mkNodeInfo ZeroAddr "OFR" ""); RRun])).
Defined.

(** The table adds up.  If the flushed records have distinct source names and every
    source of an unseen shred also has a total record, the rows of [logStats] credit
    each unseen shred to exactly one row, are ordered by first-seen count, and their
    percentages add up to 100. *)
Theorem logStats_accounts `{GoOrderLaws} (str_less : string -> string -> bool) (s : Stats)
    (totals unseen : list ShredsBySrcRecord) :
  NoDup (map SrcString totals) -> NoDup (map SrcString unseen) ->
  (forall u, u ∈ unseen -> SrcString u ∈ map SrcString totals) ->
  0 < sum_shreds unseen ->
  let rows := logStats str_less s totals unseen in
  length rows = length totals
  /\ sum_first rows = sum_shreds unseen
  /\ StronglySorted (fun x y => firstSeenShreds y <= firstSeenShreds x) rows
  /\ (sum_percentage rows == 100)%Q.
Proof.
  intros Ht Hu Hin Hpos rows. assert (sum_first rows = sum_shreds unseen) as Hsum.
  { unfold rows. by rewrite sum_first_logStats, unseen_counts_total. }
  split_and!; [|done|apply sort_Slice_desc|].
  - unfold rows. rewrite (logStats_perm str_less s totals unseen). apply length_map.
  - rewrite (sum_percentage_rows rows (sum_shreds unseen)); [|done|].
    + rewrite Hsum. field. unfold Qeq. cbn. lia.
    + intros row (t & _ & ->)%logStats_rows. cbn. by rewrite (proj2 (Z.ltb_lt _ _)).
Qed.

(** Two sources, the second of which had 3 of the 4 first-seen shreds. *)
Definition sample_record (name : string) (n : Z) : ShredsBySrcRecord :=
  mkShredsBySrcRecord n (mkNodeInfo ZeroAddr "OFR" "") name.

Lemma logStats_accounts_witness :
  @GoOrderLaws simple_order /\
  (sum_percentage (@logStats simple_order (fun _ _ => false) (newStats false)
    [sample_record "a" 5; sample_record "b" 7] [sample_record "b" 3; sample_record "a" 1]) == 100)%Q.
Proof.
  split; [exact simple_order_laws|].
  eapply (@logStats_accounts simple_order simple_order_laws (fun _ _ => false) (newStats false)
    [sample_record "a" 5; sample_record "b" 7] [sample_record "b" 3; sample_record "a" 1]).
  - apply list.NoDup_cons. split; [|apply NoDup_singleton].
    intros [H|[]]%list_elem_of_In. discriminate H.
  - apply list.NoDup_cons. split; [|apply NoDup_singleton].
    intros [H|[]]%list_elem_of_In. discriminate H.
  - intros u [<-|[<-|[]]]%list_elem_of_In; apply list_elem_of_In; [right; left|left]; reflexivity.
  - reflexivity.
Defined.

(** The first-shred key.  [buildKey] separates slot and type: the decimal slot
    followed by the raw type byte determines both, for every [uint64] slot. *)
Theorem buildKey_identifies (slot1 typ1 slot2 typ2 : Z) :
  0 <= slot1 < 2 ^ 64 -> 0 <= slot2 < 2 ^ 64 -> 0 <= typ1 < 256 -> 0 <= typ2 < 256 ->
  buildKey slot1 typ1 = buildKey slot2 typ2 <-> slot1 = slot2 /\ typ1 = typ2.
Proof. intros. split; [by apply buildKey_inj|]. by intros [-> ->]. Qed.

Lemma buildKey_identifies_witness : buildKey 413783688 144 <> buildKey 41378368 144.
Proof.
  intros H. apply buildKey_identifies in H; [|vm_compute; by split..].
  destruct H as [H _]. discriminate H.
Defined.
