(* ===== verification/Histogram.v ===== *)
(** * Histograms and the report of the keyed counter
      ([pkg/ofr/histogram.go], and their use in [pkg/ofr/stats.go])

    A [Histogram] is a bounded channel drained by a goroutine into a histogram of a
    third-party library, which is the class [Hdr] with the laws of its documentation.
    [HistStats] is [Stats] with the parts that options set: three histograms and the flush
    callback.  [KeyedCounter.FlushPretty] prints and empties a counter. *)

From Stdlib Require Import QArith.
From S2P Require Import Prelude Strconv Shred Udp Stats.
Open Scope Z_scope.

(** ** The library *)

(** [hdrhistogram.Histogram]; percentiles are the four that the program asks for. *)
Class Hdr := {
  hdr : Type;
  hdr_New : Z -> Z -> Z -> hdr;
  RecordValue : Z -> hdr -> bool * hdr;            (* whether it was in range *)
  TotalCount : hdr -> Z;
  ValueAtPercentile : Z -> hdr -> Z;
  hdr_Max : hdr -> Z;
  hdr_Reset : hdr -> hdr
}.

Class HdrLaws `{Hdr} : Prop := {
  TotalCount_New lo hi digits : TotalCount (hdr_New lo hi digits) = 0;
  TotalCount_Record v h : TotalCount (RecordValue v h).2 = TotalCount h + (if (RecordValue v h).1 then 1 else 0);
  TotalCount_Reset h : TotalCount (hdr_Reset h) = 0
}.

(** ** [Histogram] *)

Section histogram.
Context `{Hdr}.

Definition p50 : Z := 50.
Definition p75 : Z := 75.
Definition p90 : Z := 90.
Definition p99 : Z := 99.

Record Histogram := mkHistogram { histogram : hdr; recordCh : channel Z }.

Record HistogramResult := mkHistogramResult {
  P50 : Z;
  P75 : Z;
  P90 : Z;
  P99 : Z;
  Max : Z;
  TotalRecorded : Z                        (* uint64 *)
}.

Definition NewHistogram : Histogram :=
  {| histogram := hdr_New 1 10000000 3; recordCh := make_chan 10000 |}.

(** One iteration of [recordingRoutine]; the error of [RecordValue] is dropped. *)
Definition recordingRoutine (h : Histogram) : Histogram :=
  match chan_recv (recordCh h) with
  | None => h
  | Some (value, ch) => {| histogram := (RecordValue value (histogram h)).2; recordCh := ch |}
  end.

Definition Record_value (value : Z) (h : Histogram) : Histogram :=
  {| histogram := histogram h; recordCh := (try_send (recordCh h) value).2 |}.

Definition GetStats (h : Histogram) : HistogramResult :=
  let totalRecorded := u64 (TotalCount (histogram h)) in
  if totalRecorded =? 0 then mkHistogramResult 0 0 0 0 0 totalRecorded
  else mkHistogramResult (ValueAtPercentile p50 (histogram h)) (ValueAtPercentile p75 (histogram h))
         (ValueAtPercentile p90 (histogram h)) (ValueAtPercentile p99 (histogram h))
         (hdr_Max (histogram h)) totalRecorded.

Definition Histogram_Reset (h : Histogram) : Histogram :=
  {| histogram := hdr_Reset (histogram h); recordCh := recordCh h |}.

(** ** [Stats] with histograms *)

Record HistStats := mkHistStats {
  hs_stats : Stats;
  shredProcessingHist : option Histogram;
  writeElapsedHist : option Histogram;
  batchSizeHist : option Histogram;
  onStatsFlush : bool                      (* whether the callback is set *)
}.

Definition StatsOption : Type := HistStats -> HistStats.

Definition StatsWithFluentD (fd : bool) : StatsOption := fun s =>
  mkHistStats
    {| totalShredsRecorder := totalShredsRecorder (hs_stats s);
       unseenShredsRecorder := unseenShredsRecorder (hs_stats s);
       firstRecorder := firstRecorder (hs_stats s); fluentD := fd; regions := regions (hs_stats s) |}
    (shredProcessingHist s) (writeElapsedHist s) (batchSizeHist s) (onStatsFlush s).

Definition StatsWithShredProcessingHist : StatsOption := fun s =>
  mkHistStats (hs_stats s) (Some NewHistogram) (writeElapsedHist s) (batchSizeHist s) (onStatsFlush s).

Definition StatsWithWriteElapsedHist : StatsOption := fun s =>
  mkHistStats (hs_stats s) (shredProcessingHist s) (Some NewHistogram) (batchSizeHist s) (onStatsFlush s).

Definition StatsWithBatchSizeHist : StatsOption := fun s =>
  mkHistStats (hs_stats s) (shredProcessingHist s) (writeElapsedHist s) (Some NewHistogram) (onStatsFlush s).

Definition StatsWithFlushCallback : StatsOption := fun s =>
  mkHistStats (hs_stats s) (shredProcessingHist s) (writeElapsedHist s) (batchSizeHist s) true.

(** [SetFlushCallback(callback)]; nil unsets it. *)
Definition SetFlushCallback (callback : bool) (s : HistStats) : HistStats :=
  mkHistStats (hs_stats s) (shredProcessingHist s) (writeElapsedHist s) (batchSizeHist s) callback.

(** [NewStats], without its goroutine. *)
Definition NewStats (opts : list StatsOption) : HistStats :=
  fold_left (fun s o => o s) opts (mkHistStats (newStats false) None None None false).

Definition RecordShredProcessingTime (elapsed : Z) (s : HistStats) : HistStats :=
  mkHistStats (hs_stats s) (Record_value elapsed <$> shredProcessingHist s) (writeElapsedHist s)
    (batchSizeHist s) (onStatsFlush s).

Definition RecordWriteElapsed (elapsed : Z) (s : HistStats) : HistStats :=
  mkHistStats (hs_stats s) (shredProcessingHist s) (Record_value elapsed <$> writeElapsedHist s)
    (batchSizeHist s) (onStatsFlush s).

Definition RecordBatchSize (size : Z) (s : HistStats) : HistStats :=
  mkHistStats (hs_stats s) (shredProcessingHist s) (writeElapsedHist s)
    (Record_value size <$> batchSizeHist s) (onStatsFlush s).

(** The part of [logStats] after the table: for each histogram that is set, its statistics
    are read and it is reset.  The first report also gives the sum over the table. *)
Record hist_report := mkHistReport {
  totalReceivedShreds : Z;
  processing : option HistogramResult;
  writing : option HistogramResult;
  batching : option HistogramResult
}.

Definition logStats_hists (rows : list logEntry) (s : HistStats) : hist_report * HistStats :=
  ({| totalReceivedShreds := fold_left (fun n e => n + totalShreds e) rows 0;
      processing := GetStats <$> shredProcessingHist s;
      writing := GetStats <$> writeElapsedHist s;
      batching := GetStats <$> batchSizeHist s |},
   mkHistStats (hs_stats s) (Histogram_Reset <$> shredProcessingHist s) (Histogram_Reset <$> writeElapsedHist s)
     (Histogram_Reset <$> batchSizeHist s) (onStatsFlush s)).

(** A tick of the goroutine of [NewStats], undisturbed by the recording goroutines: the
    effects of the tick of [Stats], the report of the histograms, and the arguments of the
    callback. *)
Definition hist_flush_tick `{GoOrder} (str_less : string -> string -> bool) (now : Z) (reader : bool)
    (s : HistStats)
    : flush_effects * hist_report * option (list ShredsBySrcRecord * list ShredsBySrcRecord) * HistStats :=
  let (eff, st) := flush_tick str_less now reader (hs_stats s) in
  let (rep, s) := logStats_hists (fl_log eff) s in
  (eff, rep, if onStatsFlush s then Some (fl_total eff, fl_unseen eff) else None,
   mkHistStats st (shredProcessingHist s) (writeElapsedHist s) (batchSizeHist s) (onStatsFlush s)).

(** ** A histogram and its windows *)

(** The events at a histogram: a recorded value, an iteration of the goroutine, and the two
    separate calls of [logStats]. *)
Inductive hist_event := HRecord (v : Z) | HRun | HGetStats | HReset.

(** The histogram; how many values its channel took, how many the library refused, and how
    many each reset dropped; the reports. *)
Record hist_trace := mkHistTrace {
  ht_hist : Histogram;
  ht_accepted : Z;
  ht_refused : Z;
  ht_dropped : list Z;
  ht_reports : list Z
}.

Definition hist_step (t : hist_trace) (e : hist_event) : hist_trace :=
  let h := ht_hist t in
  match e with
  | HRecord v =>
      mkHistTrace (Record_value v h) (ht_accepted t + if (try_send (recordCh h) v).1 then 1 else 0)
        (ht_refused t) (ht_dropped t) (ht_reports t)
  | HRun =>
      mkHistTrace (recordingRoutine h) (ht_accepted t)
        (ht_refused t + match chan_recv (recordCh h) with
                        | Some (v, _) => if (RecordValue v (histogram h)).1 then 0 else 1
                        | None => 0
                        end)
        (ht_dropped t) (ht_reports t)
  | HGetStats =>
      mkHistTrace h (ht_accepted t) (ht_refused t) (ht_dropped t)
        (ht_reports t ++ [TotalRecorded (GetStats h)])
  | HReset =>
      mkHistTrace (Histogram_Reset h) (ht_accepted t) (ht_refused t)
        (ht_dropped t ++ [TotalCount (histogram h)]) (ht_reports t)
  end.

Definition hist_run (es : list hist_event) : hist_trace :=
  fold_left hist_step es (mkHistTrace NewHistogram 0 0 [] []).

Definition sum (l : list Z) : Z := fold_right Z.add 0 l.
End histogram.

(** ** [KeyedCounter.FlushPretty] *)

(** The entries printed, in the order of the map iteration; [show] prints a key. *)
Definition kc_FlushPretty `{GoOrder} {T} `{Countable T} (show : T -> string) (m : KeyedCounter T)
    : string * KeyedCounter T :=
  let (mp, m') := kc_Flush m in
  let entries := map (fun kv => ("(" +:+ show kv.1 +:+ ", "
                                 +:+ String.string_of_list_byte (format_uint64 kv.2) +:+ ")")%string)
                   (map_range (mp : gmap T Z)) in
  (("[" +:+ String.concat ", " entries +:+ "]")%string, m').

(** * Properties *)

Section histogram_lemmas.
Context `{HdrLaws}.

Lemma sum_app l l' : sum (l ++ l') = sum l + sum l'.
Proof using Type. unfold sum. induction l; cbn; lia. Qed.

Definition hist_inv (t : hist_trace) : Prop :=
  ht_accepted t = zlen (chan_buf (recordCh (ht_hist t))) + TotalCount (histogram (ht_hist t))
                  + ht_refused t + sum (ht_dropped t).

Lemma hist_step_inv t e : hist_inv t -> hist_inv (hist_step t e).
Proof using All.
  unfold hist_inv. intros Hinv. destruct e as [v| | |]; cbn -[sum zlen].
  - rewrite try_send_buf. destruct (try_send _ _).1; [|lia]. unfold zlen in *. rewrite length_app. cbn. lia.
  - unfold recordingRoutine, chan_recv. destruct (chan_buf (recordCh (ht_hist t))) as [|v l] eqn:Hb; cbn -[sum zlen].
    + rewrite Hb. lia.
    + rewrite TotalCount_Record. unfold zlen in *. rewrite ?Hb in Hinv. cbn [length] in Hinv.
      destruct (RecordValue _ _).1; lia.
  - done.
  - rewrite TotalCount_Reset, sum_app. unfold sum at 2. cbn [fold_right]. lia.
Qed.

Lemma hist_steps_inv es t : hist_inv t -> hist_inv (fold_left hist_step es t).
Proof using All. revert t. induction es as [|e es IH]; intros t Ht; [done|]. by apply IH, hist_step_inv. Qed.

Lemma hist_run_inv es : hist_inv (hist_run es).
Proof using All. apply hist_steps_inv. unfold hist_inv. cbn. by rewrite TotalCount_New. Qed.

Definition is_run (e : hist_event) : bool := match e with HRun => true | _ => false end.
Definition is_window (e : hist_event) : bool := match e with HRecord _ | HRun => true | _ => false end.

Lemma window_step e t :
  is_window e = true ->
  ht_dropped (hist_step t e) = ht_dropped t /\ ht_reports (hist_step t e) = ht_reports t
  /\ 0 <= TotalCount (histogram (ht_hist (hist_step t e))) - TotalCount (histogram (ht_hist t))
       <= (if is_run e then 1 else 0).
Proof using All.
  intros He. destruct e as [v| | |]; try done; cbn [hist_step ht_dropped ht_reports ht_hist is_run].
  - unfold Record_value. cbn [histogram]. split_and!; (done || lia).
  - unfold recordingRoutine, chan_recv.
    destruct (chan_buf (recordCh (ht_hist t))) as [|v l]; cbn [histogram]; [split_and!; (done || lia)|].
    rewrite TotalCount_Record. destruct (RecordValue _ _).1; split_and!; (done || lia).
Qed.

(** Between the calls of [logStats] the histogram grows by at most one for each iteration. *)
Lemma window_growth mid t :
  Forall (fun e => is_window e = true) mid ->
  let t' := fold_left hist_step mid t in
  ht_dropped t' = ht_dropped t /\ ht_reports t' = ht_reports t
  /\ 0 <= TotalCount (histogram (ht_hist t')) - TotalCount (histogram (ht_hist t))
       <= zlen (List.filter is_run mid).
Proof using All.
  intros Hmid. revert t. induction Hmid as [|e mid He _ IH]; intros t.
  { cbn [fold_left List.filter]. unfold zlen. cbn [length]. split_and!; (done || lia). }
  cbn [fold_left]. destruct (IH (hist_step t e)) as (-> & -> & Hg).
  destruct (window_step e t He) as (-> & -> & Hs). cbn [List.filter]. split_and!; [done|done|lia|].
  destruct (is_run e); unfold zlen in *; cbn [length]; lia.
Qed.
End histogram_lemmas.

(** ** The keyed counter *)

Section counter.
Context {T : Type} `{Countable T}.

Definition occurrences (k : T) (keys : list T) : Z := zlen (List.filter (fun k' => bool_decide (k' = k)) keys).

Definition count_keys (keys : list T) (m : KeyedCounter T) : KeyedCounter T :=
  fold_left (fun m k => kc_Increment k m) keys m.

Lemma u64_add_l a b : u64 (u64 a + b) = u64 (a + b).
Proof using Type. unfold wrap. by rewrite Z.add_mod_idemp_l. Qed.

Lemma count_keys_lookup keys (m : KeyedCounter T) k :
  (count_keys keys m : gmap T Z) !! k
  = if decide (k ∈ keys) then Some (u64 (default 0 ((m : gmap T Z) !! k) + occurrences k keys))
    else (m : gmap T Z) !! k.
Proof using Type.
  revert m. induction keys as [|x keys IH]; intros m.
  { by rewrite decide_False by apply not_elem_of_nil. }
  unfold count_keys in *. cbn [fold_left]. rewrite IH. unfold kc_Increment.
  unfold occurrences, zlen in *. cbn [List.filter]. rewrite lookup_insert.
  destruct (decide (x = k)) as [->|Hne].
  - rewrite (decide_True (P := k ∈ k :: keys)) by set_solver. rewrite bool_decide_eq_true_2 by done.
    cbn [length]. case_decide as Hin.
    + cbn [default from_option id]. rewrite u64_add_l. do 2 f_equal. lia.
    + assert (List.filter (fun k' => bool_decide (k' = k)) keys = []) as ->.
      { clear IH. induction keys as [|y keys IHk]; [done|]. apply not_elem_of_cons in Hin as [Hy Hin].
        cbn. rewrite bool_decide_eq_false_2 by done. auto. }
      do 2 f_equal.
  - rewrite bool_decide_eq_false_2 by done. destruct (decide (k ∈ keys)).
    + by rewrite decide_True by set_solver.
    + by rewrite decide_False by set_solver.
Qed.
End counter.

(** ** Theorems *)

(** C39: what becomes of a recorded value.  Over every sequence of events at a histogram, the
    values its channel took are those still buffered, those in the histogram, those the
    library refused and those dropped by resets.  A report of [logStats] counts (modulo 2^64)
    what was in the histogram when it was read; the reset drops that and whatever the
    recording goroutine added in between, at most one value for each of its iterations, which
    no report ever counts. *)
Theorem hist_conserves `{HdrLaws} (es mid : list hist_event) :
  Forall (fun e => is_window e = true) mid ->
  let t := hist_run es in
  let t' := hist_run (es ++ [HGetStats] ++ mid ++ [HReset]) in
  ht_accepted t = zlen (chan_buf (recordCh (ht_hist t))) + TotalCount (histogram (ht_hist t))
                  + ht_refused t + sum (ht_dropped t)
  /\ exists lost, ht_reports t' = ht_reports t ++ [u64 (TotalCount (histogram (ht_hist t)))]
       /\ ht_dropped t' = ht_dropped t ++ [TotalCount (histogram (ht_hist t)) + lost]
       /\ 0 <= lost <= zlen (List.filter is_run mid).
Proof.
  intros Hmid t t'. split; [apply hist_run_inv|].
  unfold t', hist_run. rewrite !fold_left_app. fold (hist_run es). fold t. cbn [fold_left].
  destruct (window_growth mid (hist_step t HGetStats) Hmid) as (Hd & Hr & Hg).
  exists (TotalCount (histogram (ht_hist (fold_left hist_step mid (hist_step t HGetStats))))
          - TotalCount (histogram (ht_hist t))).
  cbn [hist_step ht_reports ht_dropped ht_hist] in *. rewrite Hd, Hr.
  split_and!; [|f_equal; f_equal; lia|lia|lia].
  f_equal. f_equal. unfold GetStats. by case_if.
Qed.

(** A library that counts: values up to 10,000,000 are in range. *)
Definition demo_hdr : Hdr := {|
  hdr := list Z;
  hdr_New _ _ _ := [];
  RecordValue v h := if (0 <=? v) && (v <=? 10000000) then (true, v :: h) else (false, h);
  TotalCount := zlen;
  ValueAtPercentile _ h := hd 0 h;
  hdr_Max h := fold_right Z.max 0 h;
  hdr_Reset _ := []
|}.

Lemma demo_hdr_laws : @HdrLaws demo_hdr.
Proof.
  split; [done| |done]. intros v h. cbn. case_if; cbn; unfold zlen; cbn [length]; lia.
Qed.

(** One value is read between the two calls: the report counts 1 of the 2. *)
Example demo_lost :
  let t := @hist_run demo_hdr [HRecord 5; HRecord 6; HRun; HGetStats; HRun; HReset] in
  ht_accepted t = 2 /\ ht_reports t = [1] /\ ht_dropped t = [2].
Proof. vm_compute. done. Qed.

Lemma hist_conserves_witness :
  exists lost, ht_reports (@hist_run demo_hdr ([HRecord 5; HRecord 6; HRun] ++ [HGetStats] ++ [HRun] ++ [HReset]))
               = [1] /\ 0 <= lost <= 1.
Proof.
  destruct (@hist_conserves demo_hdr demo_hdr_laws [HRecord 5; HRecord 6; HRun] [HRun]
    (List.Forall_cons _ HRun [] eq_refl (List.Forall_nil _))) as (_ & lost & Hr & _ & Hl).
  exists lost. split; [rewrite Hr; reflexivity|exact Hl].
Defined.

(** A flush with histograms.  The total that is logged before the latencies is the number
    of shreds in the flushed records; the callback, if set, gets the records of this flush,
    after the report; every histogram is empty afterwards and keeps its buffered values. *)
Theorem hist_flush `{HdrLaws} `{GoOrderLaws} (str_less : string -> string -> bool) (now : Z) (reader : bool)
    (s : HistStats) :
  let '(eff, rep, cb, s') := hist_flush_tick str_less now reader s in
  totalReceivedShreds rep = sum_shreds (fl_total eff)
  /\ cb = (if onStatsFlush s then Some (fl_total eff, fl_unseen eff) else None)
  /\ hs_stats s' = (flush_tick str_less now reader (hs_stats s)).2
  /\ processing rep = GetStats <$> shredProcessingHist s
  /\ (forall h', shredProcessingHist s' = Some h' \/ writeElapsedHist s' = Some h' \/ batchSizeHist s' = Some h' ->
        GetStats h' = mkHistogramResult 0 0 0 0 0 0)
  /\ (recordCh <$> shredProcessingHist s') = recordCh <$> shredProcessingHist s.
Proof.
  unfold hist_flush_tick. destruct (flush_tick str_less now reader (hs_stats s)) as [eff st] eqn:Hf.
  cbn. split_and!; try done.
  - unfold flush_tick in Hf. destruct (recorder_flush (totalShredsRecorder (hs_stats s))) as [total tr].
    destruct (recorder_flush (unseenShredsRecorder (hs_stats s))) as [unseen ur].
    injection Hf as <- _. cbn [fl_log fl_total].
    assert (forall l n, fold_left (fun n e => n + totalShreds e) l n = n + sum (map totalShreds l)) as Hfold.
    { induction l as [|e l IH]; intros n; [cbn; unfold sum; cbn; lia|]. cbn [fold_left map]. rewrite IH. unfold sum. cbn [fold_right]. lia. }
    rewrite Hfold.
    assert (forall l l', l ≡ₚ l' -> sum l = sum l') as Hperm by (unfold sum; induction 1; cbn; lia).
    rewrite (Hperm _ (map totalShreds (map (log_entry str_less (hs_stats s) (sum_shreds unseen) unseen) total)))
      by (by rewrite logStats_perm).
    rewrite map_map. rewrite Z.add_0_l. generalize (sum_shreds unseen). intros n.
    unfold sum, sum_shreds.
    induction total as [|r l IH]; [done|]. cbn [map fold_right]. by rewrite IH.
  - intros h'. unfold GetStats.
    assert (forall o : option Histogram, Histogram_Reset <$> o = Some h' -> TotalCount (histogram h') = 0) as Hz.
    { intros [h|]; [|done]. intros [= <-]. apply TotalCount_Reset. }
    intros [E|[E|E]]; apply Hz in E; by rewrite E.
  - by destruct (shredProcessingHist s).
Qed.

Lemma hist_flush_witness :
  @HdrLaws demo_hdr /\ @GoOrderLaws simple_order
  /\ exists eff rep cb s', @hist_flush_tick demo_hdr simple_order (fun _ _ => false) 0 false
       (NewStats [StatsWithShredProcessingHist; StatsWithFlushCallback]) = (eff, rep, cb, s')
     /\ cb = Some (fl_total eff, fl_unseen eff).
Proof.
  split; [exact demo_hdr_laws|]. split; [exact simple_order_laws|].
  pose proof (@hist_flush demo_hdr demo_hdr_laws simple_order simple_order_laws (fun _ _ => false) 0 false
    (NewStats [StatsWithShredProcessingHist; StatsWithFlushCallback])) as Hf.
  destruct (@hist_flush_tick demo_hdr simple_order (fun _ _ => false) 0 false
    (NewStats [StatsWithShredProcessingHist; StatsWithFlushCallback])) as [[[eff rep] cb] s'].
  exists eff, rep, cb, s'. split; [reflexivity|]. exact (proj1 (proj2 Hf)).
Defined.

(** What the keyed counter prints.  After any number of increments of a fresh counter,
    [FlushPretty] prints one entry for each key that was incremented, with the number of its
    increments modulo 2^64, in some order, and leaves the counter empty. *)
Theorem FlushPretty_counts `{GoOrderLaws} {T : Type} `{Countable T} (show : T -> string) (keys : list T) :
  exists entries : list (T * Z),
    NoDup entries.*1
    /\ (forall k n, (k, n) ∈ entries <-> k ∈ keys /\ n = u64 (occurrences k keys))
    /\ kc_FlushPretty show (count_keys keys (∅ : gmap T Z))
       = (("[" +:+ String.concat ", " (map (fun kv => ("(" +:+ show kv.1 +:+ ", "
              +:+ String.string_of_list_byte (format_uint64 kv.2) +:+ ")")%string) entries) +:+ "]")%string,
          (∅ : gmap T Z)).
Proof.
  exists (map_range (count_keys keys (∅ : gmap T Z) : gmap T Z)).
  pose proof (map_range_perm (count_keys keys (∅ : gmap T Z) : gmap T Z)) as Hp.
  split_and!; [|intros k n|done].
  - rewrite Hp. apply NoDup_fst_map_to_list.
  - rewrite Hp, elem_of_map_to_list, count_keys_lookup, lookup_empty. cbn [default from_option id].
    case_decide; split; intros Hk; [by simplify_eq|by destruct Hk as [_ ->]|done|by destruct Hk].
Qed.

Lemma FlushPretty_counts_witness :
  @GoOrderLaws simple_order
  /\ (@kc_FlushPretty simple_order Z _ _ (fun z => String.string_of_list_byte (format_int64 z)) (count_keys [7; 7; 9] (∅ : gmap Z Z))).2
     = (∅ : gmap Z Z).
Proof.
  split; [exact simple_order_laws|].
  destruct (@FlushPretty_counts simple_order simple_order_laws Z _ _
    (fun z => String.string_of_list_byte (format_int64 z)) [7; 7; 9]) as (entries & _ & _ & Hf).
  rewrite Hf. reflexivity.
Defined.
