(* ===== verification/Counters.v ===== *)
(** * The counters that print themselves ([pkg/ofr/stats.go], [success_counter.go])

    [RunPrettyPrint] and [Print] run beside the goroutines that count: every atomic operation
    of either side is an event.  [Stats] and [Histogram] have the operations themselves. *)

From Stdlib Require Import QArith.
From S2P Require Import Prelude Strconv Shred Udp Stats Histogram.
Open Scope Z_scope.

(** ** [KeyedCounter.RunPrettyPrint] *)

(** [now.Truncate(delay).Add(delay)]; times count from the zero time. *)
Definition nextLogTime (now delay : Z) : Z :=
  (if delay <=? 0 then now else now - now mod delay) + delay.

(** The goroutine waits for [nextLogTime], then prints at every tick, until it is cancelled. *)
Inductive runner := RunnerWaiting | RunnerTicking | RunnerStopped.

Record keyed_run (T : Type) `{Countable T} := mkKeyedRun {
  kr_counter : KeyedCounter T;
  kr_runner : runner;
  kr_lines : list string
}.
Arguments mkKeyedRun {T _ _} _ _ _.
Arguments kr_counter {T _ _} _.
Arguments kr_runner {T _ _} _.
Arguments kr_lines {T _ _} _.

(** [KTimer] is the timer the goroutine waits for, [KDone] the end of the context. *)
Inductive keyed_event (T : Type) := KIncrement (k : T) | KTimer | KDone.
Arguments KIncrement {T} _.
Arguments KTimer {T}.
Arguments KDone {T}.

Section keyed.
Context `{GoOrder} {T : Type} `{Countable T} (show : T -> string) (prefix : string).

Definition NewKeyedCounter : KeyedCounter T := (∅ : gmap T Z).

Definition NewKeyedCounterWithRunner : keyed_run T := mkKeyedRun NewKeyedCounter RunnerWaiting [].

(** One line: "stats: %s: %s" *)
Definition RunPrettyPrint (e : keyed_event T) (s : keyed_run T) : keyed_run T :=
  match e, kr_runner s with
  | KIncrement k, r => mkKeyedRun (kc_Increment k (kr_counter s)) r (kr_lines s)
  | KTimer, RunnerWaiting => mkKeyedRun (kr_counter s) RunnerTicking (kr_lines s)
  | KTimer, RunnerTicking =>
      let (text, m) := kc_FlushPretty show (kr_counter s) in
      mkKeyedRun m RunnerTicking (kr_lines s ++ [("stats: " +:+ prefix +:+ ": " +:+ text)%string])
  | KTimer, RunnerStopped => s
  | KDone, _ => mkKeyedRun (kr_counter s) RunnerStopped (kr_lines s)
  end.

Definition keyed_exec (es : list (keyed_event T)) : keyed_run T :=
  fold_left (fun s e => RunPrettyPrint e s) es NewKeyedCounterWithRunner.
End keyed.

(** ** [SuccessCounter.Print] *)

(** [Print] swaps out the two numbers one after the other; [pr_success] is the first, once
    it is swapped. *)
Record print_run := mkPrintRun {
  pr_counter : SuccessCounter;
  pr_success : option Z;
  pr_stopped : bool;
  pr_lines : list (Z * Z * Q)
}.

Definition NewSuccessCounter : SuccessCounter := {| success := 0; failure := 0 |}.

Inductive print_event := PSuccess | PFailure | PSwapSuccess | PSwapFailure | PDone.

(** The percentage of a line; the sum wraps around. *)
Definition successPercentage (s f : Z) : Q :=
  if 0 <? u64 (s + f) then (inject_Z s / inject_Z (u64 (s + f)) * 100)%Q else 0%Q.

Definition Print (e : print_event) (p : print_run) : print_run :=
  let c := pr_counter p in
  match e with
  | PSuccess => mkPrintRun (RecordSuccess c) (pr_success p) (pr_stopped p) (pr_lines p)
  | PFailure => mkPrintRun (RecordFailure c) (pr_success p) (pr_stopped p) (pr_lines p)
  | PSwapSuccess =>
      if pr_stopped p then p
      else match pr_success p with
           | Some _ => p
           | None => mkPrintRun {| success := 0; failure := failure c |} (Some (success c)) false (pr_lines p)
           end
  | PSwapFailure =>
      match pr_success p with
      | None => p
      | Some s => mkPrintRun {| success := success c; failure := 0 |} None (pr_stopped p)
                    (pr_lines p ++ [(s, failure c, successPercentage s (failure c))])
      end
  | PDone => match pr_success p with
             | None => mkPrintRun c None true (pr_lines p)
             | Some _ => p     (* in the middle of a tick; the select comes later *)
             end
  end.

Definition print_exec (es : list print_event) : print_run :=
  fold_left (fun p e => Print e p) es (mkPrintRun NewSuccessCounter None false []).

(** * Properties *)

(** The first line is due within the first interval. *)
Lemma nextLogTime_range now delay : 0 < delay -> now < nextLogTime now delay <= now + delay /\ nextLogTime now delay mod delay = 0.
Proof.
  intros Hd. unfold nextLogTime. rewrite (proj2 (Z.leb_gt _ _)) by lia.
  pose proof (Z.mod_pos_bound now delay Hd). split; [lia|].
  replace (now - now mod delay + delay) with ((now / delay + 1) * delay) by (rewrite (Z.div_mod now delay) at 2 by lia; lia).
  apply Z_mod_mult.
Qed.

(** ** The keyed counter *)

Section keyed_lemmas.
Context `{GoOrderLaws} {T : Type} `{Countable T} (show : T -> string) (prefix : string).

(** The keys counted since the last line, and those of each line, after [es]. *)
Fixpoint spans (r : runner) (pending : list T) (es : list (keyed_event T)) : list (list T) * list T :=
  match es with
  | [] => ([], pending)
  | KIncrement k :: es => spans r (pending ++ [k]) es
  | KTimer :: es =>
      match r with
      | RunnerWaiting => spans RunnerTicking pending es
      | RunnerTicking => let (l, p) := spans RunnerTicking [] es in (pending :: l, p)
      | RunnerStopped => spans RunnerStopped pending es
      end
  | KDone :: es => spans RunnerStopped pending es
  end.

Definition increments (es : list (keyed_event T)) : list T :=
  concat (map (fun e => match e with KIncrement k => [k] | _ => [] end) es).

Lemma spans_all r pending es : concat (spans r pending es).1 ++ (spans r pending es).2 = pending ++ increments es.
Proof using Type.
  revert r pending. induction es as [|e es IH]; intros r pending; [cbn; by rewrite app_nil_r|].
  unfold increments. cbn [map concat]. fold (increments es). destruct e as [k| |]; cbn [spans].
  - rewrite IH, <- app_assoc. done.
  - destruct r; [apply IH| |apply IH]. specialize (IH RunnerTicking []).
    destruct (spans RunnerTicking [] es) as [l p]. cbn [fst snd concat] in *. by rewrite <- app_assoc, IH.
  - apply IH.
Qed.

Definition timers (es : list (keyed_event T)) : nat :=
  length (List.filter (fun e => match e with KTimer => true | _ => false end) es).

Lemma spans_length r pending es :
  (length (spans r pending es).1 <= match r with RunnerWaiting => pred (timers es) | _ => timers es end)%nat.
Proof using Type.
  unfold timers. revert r pending. induction es as [|e es IH]; intros r pending; [destruct r; cbn; lia|].
  destruct e as [k| |]; cbn [spans List.filter length].
  - apply IH.
  - destruct r; [exact (IH RunnerTicking pending)| |specialize (IH RunnerStopped pending); cbn in *; lia].
    specialize (IH RunnerTicking []). destruct (spans RunnerTicking [] es) as [l p]. cbn in *. lia.
  - specialize (IH RunnerStopped pending). destruct r; cbn in *; [|exact IH..].
    destruct (length (List.filter _ es)) eqn:E; cbn in *; [exact IH|].
    clear -IH E. rename IH into Hle.
    assert (length (spans RunnerStopped pending es).1 = 0)%nat as ->; [|lia].
    clear. revert pending. induction es as [|e es IH]; intros pending; [done|]. destruct e; cbn; apply IH.
Qed.

Definition line (keys : list T) : string :=
  ("stats: " +:+ prefix +:+ ": " +:+ (kc_FlushPretty show (count_keys keys (∅ : gmap T Z))).1)%string.

Lemma count_keys_app k1 k2 (m : KeyedCounter T) : count_keys (k1 ++ k2) m = count_keys k2 (count_keys k1 m).
Proof using Type. apply fold_left_app. Qed.

Lemma keyed_exec_spans es s pending :
  kr_counter s = count_keys pending (∅ : gmap T Z) ->
  let s' := fold_left (fun s e => RunPrettyPrint show prefix e s) es s in
  let sp := spans (kr_runner s) pending es in
  kr_lines s' = kr_lines s ++ map line sp.1 /\ kr_counter s' = count_keys sp.2 (∅ : gmap T Z).
Proof using Type.
  revert s pending. induction es as [|e es IH]; intros s pending Hc; cbn [fold_left spans].
  { cbn. by rewrite app_nil_r. }
  destruct e as [k| |].
  - specialize (IH (RunPrettyPrint show prefix (KIncrement k) s) (pending ++ [k])). cbn [RunPrettyPrint kr_runner kr_counter kr_lines] in IH.
    apply IH. by rewrite count_keys_app, Hc.
  - unfold RunPrettyPrint at 2. unfold RunPrettyPrint at 3. destruct (kr_runner s) eqn:Hr.
    + by apply (IH (mkKeyedRun (kr_counter s) RunnerTicking (kr_lines s)) pending).
    + destruct (kc_FlushPretty show (kr_counter s)) as [text m] eqn:Hf.
      assert (text = (kc_FlushPretty show (count_keys pending (∅ : gmap T Z))).1) as -> by (by rewrite <- Hc, Hf).
      injection Hf as _ <-.
      destruct (IH (mkKeyedRun (∅ : gmap T Z) RunnerTicking (kr_lines s ++ [line pending])) []) as [Hl Hp]; [done|].
      cbn [kr_runner kr_lines kr_counter] in Hl, Hp. destruct (spans RunnerTicking [] es) as [l p].
      cbn [fst snd map] in *. rewrite <- app_assoc in Hl. done.
    + destruct (IH s pending Hc) as [Hl Hp]. rewrite Hr in Hl, Hp. done.
  - apply (IH (mkKeyedRun (kr_counter s) RunnerStopped (kr_lines s)) pending). exact Hc.
Qed.

Lemma keyed_stopped es s :
  kr_runner s = RunnerStopped ->
  let s' := fold_left (fun s e => RunPrettyPrint show prefix e s) es s in
  kr_lines s' = kr_lines s /\ kr_runner s' = RunnerStopped.
Proof using Type.
  revert s. induction es as [|e es IH]; intros s Hs; [done|]. cbn [fold_left].
  destruct (IH (RunPrettyPrint show prefix e s)) as [Hl Hr]; destruct e; cbn in *; rewrite ?Hs in *; done.
Qed.

Lemma keyed_done es : KDone ∈ es -> kr_runner (keyed_exec show prefix es) = RunnerStopped.
Proof using Type.
  intros (es1 & es2 & ->)%list_elem_of_split. unfold keyed_exec. rewrite fold_left_app. cbn [fold_left].
  by apply keyed_stopped.
Qed.
End keyed_lemmas.

(** What a counter with a runner prints.  Over any order of increments, timers and the end of
    the context: the increments fall, in order, into the lines printed and a rest, each line
    is what [FlushPretty] prints of its increments alone, and the counter holds the rest.
    Nothing is printed before the second timer or after the end of the context. *)
Theorem keyed_counter_lines `{GoOrderLaws} {T : Type} `{Countable T} (show : T -> string) (prefix : string)
    (es : list (keyed_event T)) :
  exists (groups : list (list T)) (rest : list T),
    concat groups ++ rest = increments es
    /\ kr_lines (keyed_exec show prefix es) = map (line show prefix) groups
    /\ kr_counter (keyed_exec show prefix es) = count_keys rest (∅ : gmap T Z)
    /\ (length groups <= pred (timers es))%nat
    /\ (KDone ∈ es -> forall es2, kr_lines (keyed_exec show prefix (es ++ es2)) = kr_lines (keyed_exec show prefix es)).
Proof.
  destruct (keyed_exec_spans show prefix es NewKeyedCounterWithRunner [] eq_refl) as [Hl Hc].
  exists (spans RunnerWaiting [] es).1, (spans RunnerWaiting [] es).2.
  split_and!; [apply (spans_all RunnerWaiting [])|exact Hl|exact Hc|apply (spans_length RunnerWaiting [] es)|].
  intros Hin es2. apply (keyed_done show prefix) in Hin as Hs. unfold keyed_exec in *. rewrite fold_left_app.
  by apply keyed_stopped.
Qed.

(** ** The success counter *)

(** The events a number stands for. *)
Definition is_success (e : print_event) : bool := match e with PSuccess => true | _ => false end.
Definition is_failure (e : print_event) : bool := match e with PFailure => true | _ => false end.
Definition count_events (f : print_event -> bool) (es : list print_event) : Z := zlen (List.filter f es).

Definition sum_lines (f : Z * Z * Q -> Z) (l : list (Z * Z * Q)) : Z := sum (map f l).

Definition print_inv (s f : Z) (p : print_run) : Prop :=
  u64 (sum_lines (fun l => l.1.1) (pr_lines p) + default 0 (pr_success p) + success (pr_counter p)) = u64 s
  /\ u64 (sum_lines (fun l => l.1.2) (pr_lines p) + failure (pr_counter p)) = u64 f.

Lemma u64_shift a b c d : u64 (a + b) = u64 c -> u64 (a + u64 (b + d)) = u64 (c + d).
Proof.
  unfold wrap. intros H. rewrite Z.add_mod_idemp_r by done.
  rewrite Z.add_assoc, (Z.add_mod (a + b)), H by done. by rewrite <- Z.add_mod.
Qed.

Lemma sum_lines_app f l l' : sum_lines f (l ++ l') = sum_lines f l + sum_lines f l'.
Proof. unfold sum_lines, sum. rewrite map_app. induction l as [|x l IH]; cbn; lia. Qed.

Lemma Print_inv e s f p :
  print_inv s f p ->
  print_inv (s + if is_success e then 1 else 0) (f + if is_failure e then 1 else 0) (Print e p).
Proof.
  unfold print_inv. intros [Hs Hf]. destruct e; cbn [is_success is_failure Print pr_lines pr_success pr_counter];
    rewrite ?Z.add_0_r.
  - split; [|exact Hf]. cbn [success RecordSuccess]. by apply u64_shift.
  - split; [exact Hs|]. cbn [failure RecordFailure]. by apply u64_shift.
  - destruct (pr_stopped p); [done|]. destruct (pr_success p) as [n|] eqn:E; [by rewrite E|].
    cbn [pr_lines pr_success pr_counter success failure default from_option id] in *. split; [|done].
    rewrite <- Hs. f_equal. lia.
  - destruct (pr_success p) as [n|] eqn:E; [|by rewrite E].
    cbn [pr_lines pr_success pr_counter success failure default from_option id] in *.
    rewrite !sum_lines_app. cbn. split; [rewrite <- Hs|rewrite <- Hf]; f_equal; lia.
  - destruct (pr_success p) as [n|] eqn:E; [by rewrite E|]. done.
Qed.

Lemma Print_all_inv es s f p :
  print_inv s f p ->
  print_inv (s + count_events is_success es) (f + count_events is_failure es) (fold_left (fun p e => Print e p) es p).
Proof.
  revert s f p. induction es as [|e es IH]; intros s f p Hp; cbn [fold_left].
  - unfold count_events. cbn. by rewrite !Z.add_0_r.
  - apply (Print_inv e), IH in Hp. unfold count_events, zlen in *. cbn [List.filter].
    assert (forall f : print_event -> bool, Z.of_nat (length (if f e then e :: List.filter f es else List.filter f es))
      = (if f e then 1 else 0) + Z.of_nat (length (List.filter f es))) as Hlen.
    { intros g. destruct (g e); cbn [length]; lia. }
    by rewrite !Hlen, !Z.add_assoc.
Qed.

(** Every success and failure is in exactly one line, or still counted - modulo 2^64 - also
    when it comes between the two swaps of a line. *)
Theorem success_counter_conserves (es : list print_event) :
  let p := print_exec es in
  u64 (sum_lines (fun l => l.1.1) (pr_lines p) + default 0 (pr_success p) + success (pr_counter p))
  = u64 (count_events is_success es)
  /\ u64 (sum_lines (fun l => l.1.2) (pr_lines p) + failure (pr_counter p)) = u64 (count_events is_failure es).
Proof.
  exact (Print_all_inv es 0 0 (mkPrintRun NewSuccessCounter None false []) (conj eq_refl eq_refl)).
Qed.

(** A line whose two swaps nothing disturbs is the one of [Print_tick]. *)
Lemma Print_undisturbed p :
  pr_success p = None -> pr_stopped p = false ->
  Print PSwapFailure (Print PSwapSuccess p)
  = mkPrintRun (Print_tick (pr_counter p)).2 None false (pr_lines p ++ [(Print_tick (pr_counter p)).1]).
Proof. intros Hs Hp. cbn. rewrite Hp, Hs. reflexivity. Qed.

(** A run of the counter of invalid packets: two lines, and one increment left over. *)
Example demo_keyed_lines :
  let show z := String.string_of_list_byte (format_int64 z) in
  let s := @keyed_exec simple_order Z _ _ show "N"
    [KIncrement 7; KTimer; KIncrement 7; KTimer; KTimer; KIncrement 9; KDone; KTimer] in
  kr_lines s = ["stats: N: [(7, 2)]"; "stats: N: []"]%string /\ kr_counter s !! 9 = Some 1.
Proof. vm_compute. done. Qed.
