(* ===== verification/Json.v ===== *)
(** * JSON text ([encoding/json], [unicode/utf8])

    The configuration is sent to the relay as JSON.  This file models what the Go standard
    library does for that: the writer of [json.Marshal] with its escapes, the grammar that
    [json.Unmarshal] accepts, and the decoding of strings, with the replacement of invalid
    UTF-8 in both directions.  A document is a [json]; its strings are bytes. *)

From S2P Require Import Prelude Strconv.

(** ** UTF-8 *)

Definition RuneError : Z := 65533.

Definition within (lo hi : Z) (b : byte) : bool := (lo <=? bz b) && (bz b <=? hi).

(** [utf8.DecodeRune]: the first rune and its width; an invalid encoding has width 1. *)
Definition DecodeRune (s : list byte) : Z * nat :=
  match s with
  | [] => (RuneError, 0%nat)
  | b0 :: t =>
      if bz b0 <? 128 then (bz b0, 1%nat)
      else if within 194 223 b0 then
        match t with
        | b1 :: _ =>
            if within 128 191 b1 then (bz b0 mod 32 * 64 + bz b1 mod 64, 2%nat) else (RuneError, 1%nat)
        | _ => (RuneError, 1%nat)
        end
      else if within 224 239 b0 then
        match t with
        | b1 :: b2 :: _ =>
            if within (if bz b0 =? 224 then 160 else 128) (if bz b0 =? 237 then 159 else 191) b1
               && within 128 191 b2
            then (bz b0 mod 16 * 4096 + bz b1 mod 64 * 64 + bz b2 mod 64, 3%nat)
            else (RuneError, 1%nat)
        | _ => (RuneError, 1%nat)
        end
      else if within 240 244 b0 then
        match t with
        | b1 :: b2 :: b3 :: _ =>
            if within (if bz b0 =? 240 then 144 else 128) (if bz b0 =? 244 then 143 else 191) b1
               && within 128 191 b2 && within 128 191 b3
            then (bz b0 mod 8 * 262144 + bz b1 mod 64 * 4096 + bz b2 mod 64 * 64 + bz b3 mod 64, 4%nat)
            else (RuneError, 1%nat)
        | _ => (RuneError, 1%nat)
        end
      else (RuneError, 1%nat)
  end.

(** The bytes of [RuneError]. *)
Definition error_bytes : list byte := [Byte.xef; Byte.xbf; Byte.xbd].

(** [utf8.AppendRune] *)
Definition EncodeRune (r : Z) : list byte :=
  if (0 <=? r) && (r <? 128) then [zb r]
  else if (128 <=? r) && (r <? 2048) then [zb (192 + r / 64); zb (128 + r mod 64)]
  else if (r <? 0) || (1114111 <? r) || ((55296 <=? r) && (r <=? 57343)) then error_bytes
  else if r <? 65536 then [zb (224 + r / 4096); zb (128 + r / 64 mod 64); zb (128 + r mod 64)]
  else [zb (240 + r / 262144); zb (128 + r / 4096 mod 64); zb (128 + r / 64 mod 64); zb (128 + r mod 64)].

(** A string with every invalid byte replaced.  [skip] counts the bytes of the current rune
    that are still to come. *)
Fixpoint coerce_loop (skip : nat) (s : list byte) : list byte :=
  match s with
  | [] => []
  | _ :: t =>
      match skip with
      | S skip => coerce_loop skip t
      | O => let (r, n) := DecodeRune s in EncodeRune r ++ coerce_loop (n - 1) t
      end
  end.

Definition coerce (s : list byte) : list byte := coerce_loop 0 s.

(** [utf8.Valid] *)
Definition valid_utf8 (s : list byte) : bool := bool_decide (coerce s = s).

(** ** Documents *)

#[warnings="-register-all"]
Inductive json :=
  | JNull
  | JBool (b : bool)
  | JNumber (literal : list byte)
  | JString (s : list byte)
  | JArray (elems : list json)
  | JObject (members : list (list byte * json)).

(** ** The writer *)

Definition hex_digit (z : Z) : byte := zb (if z <? 10 then 48 + z else 87 + z).

(** [htmlSafeSet]: printable ASCII but the quote, the backslash, [&], [<] and [>]. *)
Definition html_safe (b : byte) : bool :=
  (32 <=? bz b) && (bz b <? 128)
  && negb (existsb (Byte.eqb b) [Byte.x22; Byte.x26; Byte.x3c; Byte.x3e; Byte.x5c]).

(** What [appendString] emits for an ASCII byte. *)
Definition escape_ascii (b : byte) : list byte :=
  if html_safe b then [b]
  else match b with
       | Byte.x22 | Byte.x5c => [Byte.x5c; b]
       | Byte.x08 => [Byte.x5c; "b"%byte]
       | Byte.x0c => [Byte.x5c; "f"%byte]
       | Byte.x0a => [Byte.x5c; "n"%byte]
       | Byte.x0d => [Byte.x5c; "r"%byte]
       | Byte.x09 => [Byte.x5c; "t"%byte]
       | _ => Byte.x5c :: bytes_of "u00" ++ [hex_digit (bz b / 16); hex_digit (bz b mod 16)]
       end.

(** One iteration of [appendString]: the text for the rune at the head, and its width. *)
Definition quote_step (s : list byte) : list byte * nat :=
  match s with
  | [] => ([], 0%nat)
  | b :: _ =>
      if bz b <? 128 then (escape_ascii b, 1%nat)
      else
        let (r, n) := DecodeRune s in
        if (r =? RuneError) && (n =? 1)%nat then (Byte.x5c :: bytes_of "ufffd", n)
        else if (r =? 8232) || (r =? 8233) then (Byte.x5c :: bytes_of "u202" ++ [hex_digit (r mod 16)], n)
        else (take n s, n)
  end.

Fixpoint quote_loop (skip : nat) (s : list byte) : list byte :=
  match s with
  | [] => []
  | _ :: t =>
      match skip with
      | S skip => quote_loop skip t
      | O => let (out, n) := quote_step s in out ++ quote_loop (n - 1) t
      end
  end.

Definition quote (s : list byte) : list byte := Byte.x22 :: quote_loop 0 s ++ [Byte.x22].

Fixpoint write (j : json) : list byte :=
  match j with
  | JNull => bytes_of "null"
  | JBool true => bytes_of "true"
  | JBool false => bytes_of "false"
  | JNumber lit => lit
  | JString s => quote s
  | JArray elems => "["%byte :: Join [","%byte] (map write elems) ++ ["]"%byte]
  | JObject members =>
      "{"%byte :: Join [","%byte] (map (fun kv => quote kv.1 ++ ":"%byte :: write kv.2) members)
        ++ ["}"%byte]
  end.

(** ** The reader *)

Definition is_space (b : byte) : bool :=
  match b with Byte.x20 | Byte.x09 | Byte.x0a | Byte.x0d => true | _ => false end.

Fixpoint skip_ws (s : list byte) : list byte :=
  match s with b :: t => if is_space b then skip_ws t else s | [] => [] end.

Definition hex_value (b : byte) : option Z :=
  if within 48 57 b then Some (bz b - 48)
  else if within 97 102 b then Some (bz b - 87)
  else if within 65 70 b then Some (bz b - 55)
  else None.

(** [getu4]: the code unit of an escape [\uXXXX] at the head. *)
Definition getu4 (s : list byte) : option Z :=
  match s with
  | Byte.x5c :: "u"%byte :: h1 :: h2 :: h3 :: h4 :: _ =>
      d1 ← hex_value h1; d2 ← hex_value h2; d3 ← hex_value h3; d4 ← hex_value h4;
      Some (d1 * 4096 + d2 * 256 + d3 * 16 + d4)
  | _ => None
  end.

Definition is_surrogate (r : Z) : bool := (55296 <=? r) && (r <? 57344).

(** An escape [\u] at the head: the bytes it stands for and the number of bytes read. *)
Definition unescape_u (s : list byte) : option (list byte * nat) :=
  rr ← getu4 s;
  if negb (is_surrogate rr) then Some (EncodeRune rr, 6%nat)
  else match getu4 (drop 6 s) with
       | Some rr1 =>
           if (rr <? 56320) && (56320 <=? rr1) && (rr1 <? 57344)
           then Some (EncodeRune ((rr - 55296) * 1024 + (rr1 - 56320) + 65536), 12%nat)
           else Some (EncodeRune RuneError, 6%nat)
       | None => Some (EncodeRune RuneError, 6%nat)
       end.

(** One character of a string literal; [None] is a syntax error. *)
Definition str_step (s : list byte) : option (list byte * nat) :=
  match s with
  | [] => None
  | b :: t =>
      if Byte.eqb b Byte.x5c then
        match t with
        | [] => None
        | c :: _ =>
            match c with
            | Byte.x22 | Byte.x5c | Byte.x2f => Some ([c], 2%nat)
            | "b"%byte => Some ([Byte.x08], 2%nat)
            | "f"%byte => Some ([Byte.x0c], 2%nat)
            | "n"%byte => Some ([Byte.x0a], 2%nat)
            | "r"%byte => Some ([Byte.x0d], 2%nat)
            | "t"%byte => Some ([Byte.x09], 2%nat)
            | "u"%byte => unescape_u s
            | _ => None
            end
        end
      else if bz b <? 32 then None
      else let (r, n) := DecodeRune s in Some (EncodeRune r, n)
  end.

(** The rest of a string literal after its opening quote: contents and remaining input. *)
Fixpoint str_loop (skip : nat) (s : list byte) : option (list byte * list byte) :=
  match s with
  | [] => None
  | b :: t =>
      match skip with
      | S skip => str_loop skip t
      | O =>
          if Byte.eqb b Byte.x22 then Some ([], t)
          else
            '(out, n) ← str_step s;
            '(s', rest) ← str_loop (n - 1) t;
            Some (out ++ s', rest)
      end
  end.

Fixpoint span_digits (s : list byte) : list byte * list byte :=
  match s with
  | c :: t => if is_digit c then let (d, r) := span_digits t in (c :: d, r) else ([], s)
  | [] => ([], [])
  end.

Definition lex_int (s : list byte) : option (list byte * list byte) :=
  match s with
  | "0"%byte :: t => Some (["0"%byte], t)
  | c :: t => if is_digit c then let (d, r) := span_digits t in Some (c :: d, r) else None
  | [] => None
  end.

(** At least one digit. *)
Definition lex_digits (s : list byte) : option (list byte * list byte) :=
  match span_digits s with ([], _) => None | dr => Some dr end.

Definition lex_frac (s : list byte) : option (list byte * list byte) :=
  match s with
  | "."%byte :: t => '(d, r) ← lex_digits t; Some ("."%byte :: d, r)
  | _ => Some ([], s)
  end.

Definition lex_exp (s : list byte) : option (list byte * list byte) :=
  match s with
  | c :: t =>
      if Byte.eqb c "e" || Byte.eqb c "E" then
        match t with
        | g :: u =>
            if Byte.eqb g "+" || Byte.eqb g "-" then '(d, r) ← lex_digits u; Some (c :: g :: d, r)
            else '(d, r) ← lex_digits t; Some (c :: d, r)
        | [] => None
        end
      else Some ([], s)
  | [] => Some ([], [])
  end.

Definition lex_number (s : list byte) : option (list byte * list byte) :=
  let '(sign, t) := match s with "-"%byte :: t => (["-"%byte], t) | _ => ([], s) end in
  '(i, r) ← lex_int t;
  '(f, r) ← lex_frac r;
  '(e, r) ← lex_exp r;
  Some (sign ++ i ++ f ++ e, r).

Definition maxNestingDepth : Z := 10000.

(** The literals [true], [false] and [null]. *)
Definition lex_word (s : list byte) : option (json * list byte) :=
  if HasPrefix (bytes_of "true") s then Some (JBool true, drop 4 s)
  else if HasPrefix (bytes_of "false") s then Some (JBool false, drop 5 s)
  else if HasPrefix (bytes_of "null") s then Some (JNull, drop 4 s)
  else None.

(** The input after the next character, when that is [c]. *)
Definition next_is (c : byte) (s : list byte) : option (list byte) :=
  match skip_ws s with
  | b :: t => if Byte.eqb b c then Some t else None
  | [] => None
  end.

(** A value inside [depth] arrays and objects, the elements of an array after [[], and
    the members of an object after [{]. *)
Fixpoint parse_value (fuel : nat) (depth : Z) (s : list byte) : option (json * list byte) :=
  match fuel with
  | O => None
  | S fuel =>
      match skip_ws s with
      | [] => None
      | c :: t =>
          if Byte.eqb c "[" then
            if maxNestingDepth <? depth + 1 then None
            else match next_is "]" t with
                 | Some r => Some (JArray [], r)
                 | None => '(vs, r) ← parse_elements fuel (depth + 1) t; Some (JArray vs, r)
                 end
          else if Byte.eqb c "{" then
            if maxNestingDepth <? depth + 1 then None
            else match next_is "}" t with
                 | Some r => Some (JObject [], r)
                 | None => '(ms, r) ← parse_members fuel (depth + 1) t; Some (JObject ms, r)
                 end
          else if Byte.eqb c Byte.x22 then '(str, r) ← str_loop 0 t; Some (JString str, r)
          else if Byte.eqb c "-" || is_digit c then
            '(lit, r) ← lex_number (c :: t); Some (JNumber lit, r)
          else lex_word (c :: t)
      end
  end
with parse_elements (fuel : nat) (depth : Z) (s : list byte) : option (list json * list byte) :=
  match fuel with
  | O => None
  | S fuel =>
      '(v, r) ← parse_value fuel depth s;
      match next_is "]" r with
      | Some r => Some ([v], r)
      | None =>
          r ← next_is "," r;
          '(vs, r) ← parse_elements fuel depth r; Some (v :: vs, r)
      end
  end
with parse_members (fuel : nat) (depth : Z) (s : list byte)
    : option (list (list byte * json) * list byte) :=
  match fuel with
  | O => None
  | S fuel =>
      t ← next_is Byte.x22 s;
      '(k, r) ← str_loop 0 t;
      r ← next_is ":" r;
      '(v, r) ← parse_value fuel depth r;
      match next_is "}" r with
      | Some r => Some ([(k, v)], r)
      | None =>
          r ← next_is "," r;
          '(ms, r) ← parse_members fuel depth r; Some ((k, v) :: ms, r)
      end
  end.

(** Two calls for every byte are enough ([parse_fuel_enough]). *)
Definition json_fuel (s : list byte) : nat := 2 * length s + 2.

(** [checkValid] and the reading of the document: [None] is a syntax error. *)
Definition parse (s : list byte) : option json :=
  '(v, r) ← parse_value (json_fuel s) 0 s;
  match skip_ws r with [] => Some v | _ => None end.

(** * Properties *)

(** ** Runes *)

Lemma within_spec lo hi b : within lo hi b = true <-> lo <= bz b <= hi.
Proof. unfold within. lia. Qed.

Lemma zb_eq z b : z = bz b -> zb z = b.
Proof. intros ->. apply zb_bz. Qed.

Lemma EncodeRune_ascii b : bz b < 128 -> EncodeRune (bz b) = [b].
Proof.
  intros. unfold EncodeRune. pose proof (bz_bound b).
  rewrite (proj2 (Z.leb_le _ _)), (proj2 (Z.ltb_lt _ _)) by lia. cbn. by rewrite zb_bz.
Qed.

Lemma EncodeRune_2 b0 b1 :
  within 194 223 b0 = true -> within 128 191 b1 = true ->
  EncodeRune (bz b0 mod 32 * 64 + bz b1 mod 64) = [b0; b1].
Proof.
  rewrite !within_spec. intros H0 H1.
  replace (bz b0 mod 32) with (bz b0 - 192) by dm_lia.
  replace (bz b1 mod 64) with (bz b1 - 128) by dm_lia.
  unfold EncodeRune. rewrite (proj2 (Z.ltb_ge _ 128)), andb_false_r by lia.
  rewrite (proj2 (Z.leb_le _ _)), (proj2 (Z.ltb_lt _ _)) by lia. cbn [andb].
  f_equal; [|f_equal]; apply zb_eq; dm_lia.
Qed.

Lemma EncodeRune_3 b0 b1 b2 :
  within 224 239 b0 = true ->
  within (if bz b0 =? 224 then 160 else 128) (if bz b0 =? 237 then 159 else 191) b1 = true ->
  within 128 191 b2 = true ->
  EncodeRune (bz b0 mod 16 * 4096 + bz b1 mod 64 * 64 + bz b2 mod 64) = [b0; b1; b2].
Proof.
  rewrite !within_spec. intros H0 H1 H2.
  replace (bz b0 mod 16) with (bz b0 - 224) by dm_lia.
  assert (bz b1 mod 64 = bz b1 - 128) as -> by (repeat case_if; dm_lia).
  replace (bz b2 mod 64) with (bz b2 - 128) by dm_lia.
  set (r := (bz b0 - 224) * 4096 + (bz b1 - 128) * 64 + (bz b2 - 128)).
  assert (2048 <= r < 55296 \/ 57343 < r < 65536) by (unfold r; repeat case_if; lia).
  unfold EncodeRune. replace ((0 <=? r) && (r <? 128)) with false by lia.
  replace ((128 <=? r) && (r <? 2048)) with false by lia.
  replace ((r <? 0) || (1114111 <? r) || ((55296 <=? r) && (r <=? 57343))) with false by lia.
  rewrite (proj2 (Z.ltb_lt _ _)) by lia.
  repeat f_equal; apply zb_eq; unfold r; repeat case_if; dm_lia.
Qed.

Lemma EncodeRune_4 b0 b1 b2 b3 :
  within 240 244 b0 = true ->
  within (if bz b0 =? 240 then 144 else 128) (if bz b0 =? 244 then 143 else 191) b1 = true ->
  within 128 191 b2 = true -> within 128 191 b3 = true ->
  EncodeRune (bz b0 mod 8 * 262144 + bz b1 mod 64 * 4096 + bz b2 mod 64 * 64 + bz b3 mod 64)
  = [b0; b1; b2; b3].
Proof.
  rewrite !within_spec. intros H0 H1 H2 H3.
  replace (bz b0 mod 8) with (bz b0 - 240) by dm_lia.
  assert (bz b1 mod 64 = bz b1 - 128) as -> by (repeat case_if; dm_lia).
  replace (bz b2 mod 64) with (bz b2 - 128) by dm_lia.
  replace (bz b3 mod 64) with (bz b3 - 128) by dm_lia.
  set (r := (bz b0 - 240) * 262144 + (bz b1 - 128) * 4096 + (bz b2 - 128) * 64 + (bz b3 - 128)).
  assert (65536 <= r <= 1114111) by (unfold r; repeat case_if; lia).
  unfold EncodeRune. replace ((0 <=? r) && (r <? 128)) with false by lia.
  replace ((128 <=? r) && (r <? 2048)) with false by lia.
  replace ((r <? 0) || (1114111 <? r) || ((55296 <=? r) && (r <=? 57343))) with false by lia.
  rewrite (proj2 (Z.ltb_ge _ _)) by lia.
  repeat f_equal; apply zb_eq; unfold r; repeat case_if; dm_lia.
Qed.

(** What [DecodeRune] finds at the head of a string: ASCII, an invalid byte, or an encoding
    of the rune, which is read whatever follows it. *)
Inductive rune_at (b : byte) (t : list byte) : Z -> nat -> Prop :=
  | rune_ascii : bz b < 128 -> rune_at b t (bz b) 1
  | rune_invalid : 128 <= bz b -> rune_at b t RuneError 1
  | rune_multi r n :
      128 <= bz b -> (1 <= n <= length t)%nat -> EncodeRune r = b :: take n t ->
      (forall u, DecodeRune (b :: take n t ++ u) = (r, S n)) -> rune_at b t r (S n).

Lemma DecodeRune_at b t : rune_at b t (DecodeRune (b :: t)).1 (DecodeRune (b :: t)).2.
Proof.
  cbn [DecodeRune]. destruct (Z.ltb_spec (bz b) 128); [by apply rune_ascii|].
  destruct (within 194 223 b) eqn:H0.
  { destruct t as [|b1 t]; [by apply rune_invalid|].
    destruct (within 128 191 b1) eqn:H1; [|by apply rune_invalid].
    apply rune_multi; [done|cbn; lia|by apply EncodeRune_2|]. intros u. cbn [DecodeRune take app].
    by rewrite (proj2 (Z.ltb_ge _ _)), H0, H1. }
  destruct (within 224 239 b) eqn:H0'.
  { destruct t as [|b1 [|b2 t]]; [by apply rune_invalid..|].
    destruct (within _ _ b1 && _) eqn:H1; [|by apply rune_invalid]. apply andb_prop in H1 as [H1 H2].
    apply rune_multi; [done|cbn; lia|by apply EncodeRune_3|]. intros u. cbn [DecodeRune take app].
    by rewrite (proj2 (Z.ltb_ge _ _)), H0, H0', H1, H2. }
  destruct (within 240 244 b) eqn:H0''; [|by apply rune_invalid].
  destruct t as [|b1 [|b2 [|b3 t]]]; [by apply rune_invalid..|].
  destruct (within _ _ b1 && _ && _) eqn:H1; [|by apply rune_invalid].
  apply andb_prop in H1 as [H1 H3]. apply andb_prop in H1 as [H1 H2].
  apply rune_multi; [done|cbn; lia|by apply EncodeRune_4|]. intros u. cbn [DecodeRune take app].
  by rewrite (proj2 (Z.ltb_ge _ _)), H0, H0', H0'', H1, H2, H3.
Qed.

Lemma coerce_skip k s : coerce_loop k s = coerce (drop k s).
Proof.
  revert k. induction s as [|c s IH]; intros k; [by destruct k|].
  destruct k as [|k]; [done|]. apply IH.
Qed.

Lemma coerce_cons b t :
  coerce (b :: t) = EncodeRune (DecodeRune (b :: t)).1 ++ coerce (drop ((DecodeRune (b :: t)).2 - 1) t).
Proof.
  unfold coerce at 1. cbn [coerce_loop]. destruct (DecodeRune (b :: t)) as [r n]. by rewrite coerce_skip.
Qed.

(** ASCII text is valid UTF-8. *)
Lemma coerce_ascii s : Forall (fun b => bz b < 128) s -> coerce s = s.
Proof.
  induction 1 as [|b s Hb _ IH]; [done|]. rewrite coerce_cons. cbn [DecodeRune].
  rewrite (proj2 (Z.ltb_lt _ _)) by done. cbn [fst snd]. rewrite EncodeRune_ascii by done.
  cbn [app]. f_equal. apply IH.
Qed.

Lemma quote_skip k s : quote_loop k s = quote_loop 0 (drop k s).
Proof.
  revert k. induction s as [|c s IH]; intros k; [by destruct k|].
  destruct k as [|k]; [done|]. apply IH.
Qed.

Lemma str_skip k s : str_loop k s = str_loop 0 (drop k s).
Proof.
  revert k. induction s as [|c s IH]; intros k; [by destruct k|].
  destruct k as [|k]; [done|]. apply IH.
Qed.

(** ** Strings: what is quoted is read back, coerced to valid UTF-8 *)

Lemma escape_ascii_step b X :
  bz b < 128 ->
  str_step (escape_ascii b ++ X) = Some ([b], length (escape_ascii b))
  /\ head (escape_ascii b) <> Some Byte.x22 /\ escape_ascii b <> [].
Proof. intros Hb. destruct b; (split_and!; [reflexivity|discriminate|discriminate]) || (vm_compute in Hb; discriminate). Qed.

Lemma quote_step_str b t X :
  let out := (quote_step (b :: t)).1 in
  str_step (out ++ X) = Some (EncodeRune (DecodeRune (b :: t)).1, length out)
  /\ head out <> Some Byte.x22 /\ out <> []
  /\ (quote_step (b :: t)).2 = (DecodeRune (b :: t)).2.
Proof.
  intros out. unfold out, quote_step. pose proof (DecodeRune_at b t) as Hat.
  destruct (DecodeRune (b :: t)) as [r n]. cbn [fst snd] in Hat.
  destruct Hat as [Hb|Hb|r n Hb Hn Henc Hdec].
  - rewrite (proj2 (Z.ltb_lt _ _)) by done. cbn [fst snd].
    destruct (escape_ascii_step b X Hb) as (Hs & Hh & Hne). by rewrite EncodeRune_ascii.
  - rewrite (proj2 (Z.ltb_ge _ _)) by done. by vm_compute.
  - rewrite (proj2 (Z.ltb_ge _ _)) by done.
    replace ((r =? RuneError) && (S n =? 1)%nat) with false by (destruct n; [lia|by rewrite andb_false_r]).
    destruct ((r =? 8232) || (r =? 8233)) eqn:Hsep; cbn [fst snd].
    { apply orb_prop in Hsep as [->%Z.eqb_eq| ->%Z.eqb_eq]; by vm_compute. }
    cbn [take app]. split_and!; [|intros [= ->]; by vm_compute in Hb|done|done].
    cbn [str_step]. destruct (byte_eqb_spec b Byte.x5c) as [->|_]; [by vm_compute in Hb|].
    rewrite (proj2 (Z.ltb_ge _ 32)), Hdec by lia. cbn. do 2 f_equal. rewrite length_take. lia.
Qed.

Lemma str_loop_step s out n :
  head s <> Some Byte.x22 -> str_step s = Some (out, n) -> (1 <= n)%nat ->
  str_loop 0 s = '(s', rest) ← str_loop 0 (drop n s); Some (out ++ s', rest).
Proof.
  destruct s as [|b t]; [done|]. intros Hh Hs Hn. cbn [str_loop].
  destruct (byte_eqb_spec b Byte.x22) as [->|_]; [done|]. rewrite Hs. cbn [mbind option_bind].
  rewrite str_skip. destruct n; [lia|]. cbn [drop]. by rewrite Nat.sub_succ, Nat.sub_0_r.
Qed.

Lemma str_loop_quote s rest :
  str_loop 0 (quote_loop 0 s ++ Byte.x22 :: rest) = Some (coerce s, rest).
Proof.
  remember (length s) as len eqn:Hlen. revert s Hlen.
  induction len as [len IH] using lt_wf_ind. intros s ->. destruct s as [|b t]; [done|].
  cbn [quote_loop].
  pose proof (fun X => quote_step_str b t X) as Hq. destruct (quote_step (b :: t)) as [out n].
  cbn [fst snd] in Hq. rewrite quote_skip.
  set (X := quote_loop 0 (drop (n - 1) t) ++ Byte.x22 :: rest).
  rewrite <- app_assoc. fold X. destruct (Hq X) as (Hs & Hh & Hne & Hn).
  rewrite (str_loop_step (out ++ X) _ _ ltac:(by destruct out) Hs) by (destruct out; cbn; [done|lia]).
  rewrite drop_app_length. unfold X. rewrite (IH (length (drop (n - 1) t))) by
    (rewrite ?length_drop; cbn; lia || done).
  cbn [mbind option_bind]. by rewrite coerce_cons, <- Hn.
Qed.

Lemma str_loop_quoted s rest :
  exists t, quote s ++ rest = Byte.x22 :: t /\ str_loop 0 t = Some (coerce s, rest).
Proof.
  exists ((quote_loop 0 s ++ [Byte.x22]) ++ rest). split; [done|].
  rewrite <- app_assoc. apply str_loop_quote.
Qed.

(** ** Numbers *)

(** What may follow a number: the end or a character that does not continue it. *)
Definition stops (rest : list byte) : Prop :=
  match rest with
  | [] => True
  | c :: _ => is_digit c = false /\ c <> "."%byte /\ c <> "e"%byte /\ c <> "E"%byte
  end.

Lemma span_digits_app d rest :
  Forall (fun b => is_digit b = true) d -> stops rest -> span_digits (d ++ rest) = (d, rest).
Proof.
  induction 1 as [|c d Hc _ IH]; intros Hrest; cbn.
  - destruct rest as [|c rest]; [done|]. cbn. by destruct Hrest as [-> _].
  - by rewrite Hc, IH.
Qed.

Definition number_ok (lit : list byte) : Prop :=
  (exists c t, lit = c :: t /\ (c = "-"%byte \/ is_digit c = true))
  /\ forall rest, stops rest -> lex_number (lit ++ rest) = Some (lit, rest).

Lemma lex_unsigned z rest :
  0 <= z < 2 ^ 64 -> stops rest -> lex_int (format_uint64 z ++ rest) = Some (format_uint64 z, rest).
Proof.
  intros Hz Hrest. destruct (Z.eq_dec z 0) as [->|]; [done|].
  pose proof (format_uint64_digits z ltac:(lia)) as Hd.
  destruct (format_uint64_head z) as (b & l & Hf & Hb); [lia|]. rewrite Hf in *.
  apply list.Forall_cons in Hd as [Hbd Hd]. cbn [app]. unfold lex_int. rewrite Hbd.
  rewrite span_digits_app by done.
  assert (b <> "0"%byte) by (intros ->; change (bz "0"%byte) with 48 in Hb; lia).
  destruct b; (reflexivity || congruence).
Qed.

Lemma lex_tail rest : stops rest ->
  lex_frac rest = Some ([], rest) /\ lex_exp rest = Some ([], rest).
Proof.
  destruct rest as [|c rest]; [done|]. intros (_ & Hdot & He & HE). split.
  - destruct c; (reflexivity || congruence).
  - cbn. by destruct (byte_eqb_spec c "e"), (byte_eqb_spec c "E").
Qed.

Lemma format_uint64_number z : 0 <= z < 2 ^ 64 -> number_ok (format_uint64 z).
Proof.
  intros Hz. pose proof (format_uint64_digits z ltac:(lia)) as Hd.
  pose proof (format_uint64_nonempty z Hz).
  assert (exists c t, format_uint64 z = c :: t /\ is_digit c = true) as (c & t & Hf & Hc).
  { destruct Hd as [|c t Hc _]; [done|eauto]. }
  split; [eauto|]. intros rest Hrest. unfold lex_number.
  assert (match format_uint64 z ++ rest with "-"%byte :: t => (["-"%byte], t)
          | _ => ([], format_uint64 z ++ rest) end = ([], format_uint64 z ++ rest)) as ->.
  { rewrite Hf. by destruct c. }
  rewrite lex_unsigned by done. destruct (lex_tail rest Hrest) as [Hfrac Hexp].
  cbn [mbind option_bind]. rewrite Hfrac. cbn [mbind option_bind]. rewrite Hexp.
  cbn [mbind option_bind]. by rewrite !app_nil_r.
Qed.

Lemma format_int64_number z : - 2 ^ 63 <= z < 2 ^ 63 -> number_ok (format_int64 z).
Proof.
  intros Hz. unfold format_int64. destruct (Z.ltb_spec z 0); [|apply format_uint64_number; lia].
  split; [eauto|]. intros rest Hrest. unfold lex_number. cbn [app].
  rewrite lex_unsigned by (lia || done). destruct (lex_tail rest Hrest) as [Hfrac Hexp].
  cbn [mbind option_bind]. rewrite Hfrac. cbn [mbind option_bind]. rewrite Hexp.
  cbn [mbind option_bind]. by rewrite !app_nil_r.
Qed.
#[export] Hint Resolve format_uint64_number format_int64_number : go.

(** ** Documents *)

(** A document of at most [d] nested arrays and objects, with numbers that the grammar
    accepts. *)
Fixpoint writable (d : nat) (j : json) : Prop :=
  match j with
  | JNull | JBool _ | JString _ => True
  | JNumber lit => number_ok lit
  | JArray elems => match d with O => False | S d => Forall (writable d) elems end
  | JObject members => match d with O => False | S d => Forall (fun kv => writable d kv.2) members end
  end.

(** The document with all strings coerced to valid UTF-8. *)
Fixpoint coerce_json (j : json) : json :=
  match j with
  | JString s => JString (coerce s)
  | JArray elems => JArray (map coerce_json elems)
  | JObject members => JObject (map (fun kv => (coerce kv.1, coerce_json kv.2)) members)
  | _ => j
  end.

Lemma skip_ws_head c t : is_space c = false -> skip_ws (c :: t) = c :: t.
Proof. intros H. cbn. by rewrite H. Qed.

Lemma next_is_self c t : is_space c = false -> next_is c (c :: t) = Some t.
Proof. intros Hc. unfold next_is. by rewrite skip_ws_head, byte_eqb_refl. Qed.

Lemma next_is_other c c' t : is_space c = false -> Byte.eqb c c' = false -> next_is c' (c :: t) = None.
Proof. intros Hc Hne. unfold next_is. by rewrite skip_ws_head, Hne. Qed.

(** The first byte of a value: no white space, no closing bracket. *)
Definition starts_value (s : list byte) : Prop :=
  match s with [] => False | c :: _ => is_space c = false /\ c <> "]"%byte /\ c <> "}"%byte end.

Lemma write_starts d j rest : writable d j -> starts_value (write j ++ rest).
Proof.
  destruct j as [|[]|lit| | |]; try (intros; cbn; done).
  destruct d; intros ((c & t & -> & Hc) & _); (destruct c; first [done|by destruct Hc]).
Qed.

Lemma starts_value_skip s : starts_value s -> skip_ws s = s.
Proof. destruct s as [|c s]; [done|]. intros [Hc _]. by rewrite skip_ws_head. Qed.

Lemma stops_sep c rest : c ∈ [","%byte; "]"%byte; "}"%byte] -> stops (c :: rest).
Proof. rewrite !elem_of_cons, elem_of_nil. naive_solver. Qed.

Lemma Join_cons sep w w' ws : Join sep (w :: w' :: ws) = w ++ sep ++ Join sep (w' :: ws).
Proof. reflexivity. Qed.

Definition write_member (kv : list byte * json) : list byte := quote kv.1 ++ ":"%byte :: write kv.2.

Definition coerce_member (kv : list byte * json) : list byte * json := (coerce kv.1, coerce_json kv.2).

(** [j] is read back inside any document that leaves [d] levels of nesting. *)
Definition reads (d : nat) (j : json) : Prop :=
  forall fuel depth rest,
    depth + Z.of_nat d <= maxNestingDepth -> stops rest -> (2 * length (write j) <= fuel)%nat ->
    parse_value fuel depth (write j ++ rest) = Some (coerce_json j, rest).

Lemma parse_elements_write d elems fuel depth rest :
  elems <> [] -> Forall (reads d) elems -> depth + Z.of_nat d <= maxNestingDepth ->
  (2 * length (Join [","%byte] (map write elems)) < fuel)%nat ->
  parse_elements fuel depth (Join [","%byte] (map write elems) ++ "]"%byte :: rest)
  = Some (map coerce_json elems, rest).
Proof.
  intros Hne Hall Hd. revert fuel.
  induction Hall as [|v vs Hv Hvs IH]; intros fuel Hfuel; [done|].
  destruct fuel as [|fuel]; [lia|]. cbn [parse_elements]. destruct vs as [|v' vs].
  - cbn [map Join] in *. rewrite Hv; [done|done|by apply stops_sep; set_solver|lia].
  - cbn [map] in *. rewrite Join_cons in *. rewrite !length_app in Hfuel. cbn [length] in Hfuel.
    rewrite <- !app_assoc. rewrite Hv; [|done|by apply stops_sep; set_solver|lia].
    cbn [mbind option_bind app].
    rewrite next_is_other, next_is_self by done. cbn [mbind option_bind].
    rewrite IH; [done|done|lia].
Qed.

Lemma parse_members_write d members fuel depth rest :
  members <> [] -> Forall (fun kv => reads d kv.2) members -> depth + Z.of_nat d <= maxNestingDepth ->
  (2 * length (Join [","%byte] (map write_member members)) < fuel)%nat ->
  parse_members fuel depth (Join [","%byte] (map write_member members) ++ "}"%byte :: rest)
  = Some (map coerce_member members, rest).
Proof.
  intros Hne Hall Hd. revert fuel.
  induction Hall as [|[k v] ms Hv Hms IH]; intros fuel Hfuel; [done|].
  destruct fuel as [|fuel]; [lia|]. cbn [parse_members map] in *.
  set (tail := match ms with [] => [] | _ => ","%byte :: Join [","%byte] (map write_member ms) end).
  assert (Join [","%byte] (write_member (k, v) :: map write_member ms) = write_member (k, v) ++ tail) as HJ.
  { unfold tail. destruct ms; cbn [map Join]; [by rewrite app_nil_r|done]. }
  rewrite HJ in *. rewrite length_app in Hfuel. unfold write_member at 1. cbn [fst snd].
  unfold write_member in Hfuel at 1. rewrite length_app in Hfuel. cbn [fst snd length] in Hfuel.
  rewrite <- !app_assoc. cbn [app].
  destruct (str_loop_quoted k (":"%byte :: write v ++ tail ++ "}"%byte :: rest)) as (t & -> & Ht).
  rewrite next_is_self by done. cbn [mbind option_bind]. rewrite Ht. cbn [mbind option_bind].
  rewrite next_is_self by done. cbn [mbind option_bind].
  assert (stops (tail ++ "}"%byte :: rest)) as Hstop by
    (unfold tail; destruct ms; apply stops_sep; set_solver).
  rewrite Hv; [|done|done|cbn; lia]. cbn [mbind option_bind]. unfold tail in *.
  destruct ms as [|m ms]; cbn [app]; [by rewrite next_is_self|].
  rewrite next_is_other, next_is_self by done.
  cbn [mbind option_bind]. rewrite IH; [done|done|cbn [length] in *; lia].
Qed.

Lemma starts_not_bracket s :
  starts_value s -> next_is "]" s = None /\ next_is "}" s = None.
Proof.
  intros Hs. unfold next_is. rewrite starts_value_skip by done. destruct s as [|c s]; [done|].
  destruct Hs as (_ & H1 & H2). by destruct (byte_eqb_spec c "]"), (byte_eqb_spec c "}").
Qed.

Lemma Join_starts elems d c rest :
  elems <> [] -> Forall (writable d) elems ->
  starts_value (Join [","%byte] (map write elems) ++ c :: rest).
Proof.
  destruct elems as [|v vs]; [done|]. intros Hne Hall. apply list.Forall_cons in Hall as [Hv _].
  destruct vs; cbn [map]; [by eapply write_starts|]. rewrite Join_cons, <- app_assoc. by eapply write_starts.
Qed.

Lemma Join_members_starts members c rest :
  members <> [] -> starts_value (Join [","%byte] (map write_member members) ++ c :: rest).
Proof. by destruct members as [|[k v] [|m ms]]. Qed.

Lemma scalar_reads d j : match j with JArray _ | JObject _ => False | _ => True end ->
  writable d j -> reads d j.
Proof.
  intros Hj Hw fuel depth rest Hd Hrest Hfuel.
  assert (starts_value (write j ++ rest)) as Hs by by eapply write_starts.
  destruct j as [|[]|lit|s| |]; try done; try (destruct fuel; [cbn in Hfuel; lia|done]).
  - assert (number_ok lit) as ((c & t & -> & Hc) & Hlex) by by destruct d.
    destruct fuel; [cbn in Hfuel; lia|]. cbn [parse_value write app]. rewrite skip_ws_head by
      (by destruct Hs).
    replace (Byte.eqb c "[") with false by (destruct c; (done || by destruct Hc)).
    replace (Byte.eqb c "{") with false by (destruct c; (done || by destruct Hc)).
    replace (Byte.eqb c Byte.x22) with false by (destruct c; (done || by destruct Hc)).
    replace (Byte.eqb c "-" || is_digit c) with true by (destruct Hc as [-> |Hc]; [done|by rewrite Hc, orb_true_r]).
    change (c :: t ++ rest) with ((c :: t) ++ rest). by rewrite Hlex.
  - destruct fuel; [cbn in Hfuel; lia|]. cbn [parse_value write].
    destruct (str_loop_quoted s rest) as (t & -> & Ht). rewrite skip_ws_head by done. by rewrite Ht.
Qed.

(** What is written is read back, with the strings coerced. *)
Lemma write_reads d j : writable d j -> reads d j.
Proof.
  revert j. induction d as [|d IH]; intros j Hw;
    (destruct j as [| | | |elems|members]; try by apply scalar_reads).
  - intros fuel depth rest Hd Hrest Hfuel. destruct fuel; [cbn in Hfuel; lia|].
    cbn [parse_value write app]. rewrite skip_ws_head by done. cbn [Byte.eqb].
    destruct (byte_eqb_spec "[" "[") as [_|]; [|done].
    rewrite (proj2 (Z.ltb_ge _ _)) by lia. destruct elems as [|v vs]; [done|].
    rewrite <- app_assoc. cbn [app].
    rewrite (proj1 (starts_not_bracket _ (Join_starts (v :: vs) d _ _ ltac:(done) Hw))).
    rewrite (parse_elements_write d); [done|done| |lia|].
    + eapply List.Forall_impl; [|exact Hw]. apply IH.
    + cbn [write length] in Hfuel. rewrite length_app in Hfuel. cbn [length] in Hfuel. lia.
  - intros fuel depth rest Hd Hrest Hfuel. destruct fuel; [cbn in Hfuel; lia|].
    cbn [parse_value write app]. rewrite skip_ws_head by done.
    destruct (byte_eqb_spec "{" "[") as [|_]; [done|]. destruct (byte_eqb_spec "{" "{") as [_|]; [|done].
    rewrite (proj2 (Z.ltb_ge _ _)) by lia. destruct members as [|m ms]; [done|].
    fold write_member. rewrite <- app_assoc. cbn [app].
    rewrite (proj2 (starts_not_bracket _ (Join_members_starts (m :: ms) _ _ ltac:(done)))).
    rewrite (parse_members_write d); [done|done| |lia|].
    + eapply List.Forall_impl; [|exact Hw]. intros kv. apply IH.
    + cbn [write length] in Hfuel. rewrite length_app in Hfuel. fold write_member in Hfuel.
      cbn [length] in Hfuel. lia.
Qed.

(** ** The fuel of the reader is enough *)

Lemma skip_ws_length s : (length (skip_ws s) <= length s)%nat.
Proof. induction s as [|c s IH]; cbn; [done|]. case_if; cbn; lia. Qed.

Lemma str_loop_shorter k s str r : str_loop k s = Some (str, r) -> (length r < length s)%nat.
Proof.
  revert k str. induction s as [|c s IH]; intros k str; [done|]. cbn [str_loop].
  destruct k as [|k]; [|by intros H%IH; cbn; lia].
  case_if; [intros [= _ ->]; cbn; lia|].
  destruct (str_step _) as [[out n]|]; [|done]. cbn [mbind option_bind].
  destruct (str_loop (n - 1) s) as [[s' r']|] eqn:Hs; [|done].
  intros [= _ ->]. apply IH in Hs. cbn. lia.
Qed.

Lemma span_digits_length s : (length (span_digits s).2 <= length s)%nat.
Proof.
  induction s as [|c s IH]; cbn; [done|]. case_if; [|done].
  destruct (span_digits s). cbn in *. lia.
Qed.

Lemma lex_digits_length s d r : lex_digits s = Some (d, r) -> (length r <= length s)%nat.
Proof.
  unfold lex_digits. pose proof (span_digits_length s) as H.
  destruct (span_digits s) as [[|b l] r']; [done|]. intros [= _ ->]. done.
Qed.

Lemma lex_int_shorter s d r : lex_int s = Some (d, r) -> (length r < length s)%nat.
Proof.
  destruct s as [|c s]; [done|]. unfold lex_int. pose proof (span_digits_length s) as H.
  destruct (span_digits s) as [d' r']. cbn in H.
  destruct c; intros H'; repeat case_if; simplify_eq; cbn; lia.
Qed.

Lemma lex_frac_length s d r : lex_frac s = Some (d, r) -> (length r <= length s)%nat.
Proof.
  destruct s as [|c s]; [by intros [= _ <-]|]. unfold lex_frac.
  destruct (lex_digits s) as [[d' r']|] eqn:Hd; [apply lex_digits_length in Hd|];
    destruct c; cbn; intros ?; simplify_eq; cbn; lia.
Qed.

Lemma lex_exp_length s d r : lex_exp s = Some (d, r) -> (length r <= length s)%nat.
Proof.
  destruct s as [|c s]; [by intros [= _ <-]|]. cbn [lex_exp].
  case_if; [|by intros [= _ <-]]. destruct s as [|g s]; [done|].
  case_if; intros H; [destruct (lex_digits s) as [[d' r']|] eqn:Hd|destruct (lex_digits (g :: s)) as [[d' r']|] eqn:Hd];
    try done; apply lex_digits_length in Hd; cbn in *; simplify_eq; lia.
Qed.

Lemma lex_number_shorter s lit r : lex_number s = Some (lit, r) -> (length r < length s)%nat.
Proof.
  unfold lex_number. set (p := match s with "-"%byte :: t => _ | _ => _ end).
  assert (length p.2 <= length s)%nat as Hp by (unfold p; destruct s as [|[] s]; cbn; lia).
  destruct p as [sign t]. cbn in Hp.
  destruct (lex_int t) as [[i r1]|] eqn:Hi; [|done]. cbn [mbind option_bind].
  destruct (lex_frac r1) as [[f r2]|] eqn:Hf; [|done]. cbn [mbind option_bind].
  destruct (lex_exp r2) as [[e r3]|] eqn:He; [|done]. cbn [mbind option_bind]. intros [= _ ->].
  apply lex_int_shorter in Hi. apply lex_frac_length in Hf. apply lex_exp_length in He. lia.
Qed.

Lemma lex_word_shorter c s v r : lex_word (c :: s) = Some (v, r) -> (length r < length (c :: s))%nat.
Proof.
  unfold lex_word. intros H. repeat case_if; simplify_eq; rewrite length_drop; cbn; lia.
Qed.

Lemma next_is_shorter c s t : next_is c s = Some t -> (length t < length s)%nat.
Proof.
  unfold next_is. pose proof (skip_ws_length s) as H.
  destruct (skip_ws s); [done|]. cbn in H. case_if; [|done]. intros [= ->]. lia.
Qed.

(** Invert the first step of a successful option computation. *)
Ltac inv_some H :=
  match type of H with
  | (?m ≫= _) = Some _ =>
      let E := fresh "E" in destruct m eqn:E; [cbn [mbind option_bind] in H|done]
  end.

Definition shorter {A} (p : nat -> Z -> list byte -> option (A * list byte)) (fuel : nat) : Prop :=
  forall depth s x r, p fuel depth s = Some (x, r) -> (length r < length s)%nat.

Lemma value_shorter_step fuel :
  shorter parse_elements fuel -> shorter parse_members fuel -> shorter parse_value (S fuel).
Proof.
  intros Hel Hmem depth s v r H. cbn [parse_value] in H. pose proof (skip_ws_length s) as Hws.
  destruct (skip_ws s) as [|c t] eqn:Hs; [done|]. cbn [length] in Hws.
  destruct (Byte.eqb c "["); [|destruct (Byte.eqb c "{"); [|destruct (Byte.eqb c Byte.x22);
    [|destruct (Byte.eqb c "-" || is_digit c)]]].
  - case_if; [done|]. destruct (next_is "]" t) eqn:Hn.
    + apply next_is_shorter in Hn. simplify_eq. lia.
    + inv_some H. destruct p. apply Hel in E. simplify_eq. lia.
  - case_if; [done|]. destruct (next_is "}" t) eqn:Hn.
    + apply next_is_shorter in Hn. simplify_eq. lia.
    + inv_some H. destruct p. apply Hmem in E. simplify_eq. lia.
  - inv_some H. destruct p. apply str_loop_shorter in E. simplify_eq. lia.
  - inv_some H. destruct p. apply lex_number_shorter in E. cbn [length] in E. simplify_eq. lia.
  - apply lex_word_shorter in H. cbn [length] in H. lia.
Qed.

Lemma elements_shorter_step fuel :
  shorter parse_value fuel -> shorter parse_elements fuel -> shorter parse_elements (S fuel).
Proof.
  intros Hval Hel depth s vs r H. cbn [parse_elements] in H. inv_some H. destruct p as [v r1].
  apply Hval in E. destruct (next_is "]" r1) eqn:Hn.
  - apply next_is_shorter in Hn. simplify_eq. lia.
  - inv_some H. apply next_is_shorter in E0. inv_some H. destruct p. apply Hel in E1. simplify_eq. lia.
Qed.

Lemma members_shorter_step fuel :
  shorter parse_value fuel -> shorter parse_members fuel -> shorter parse_members (S fuel).
Proof.
  intros Hval Hmem depth s ms r H. cbn [parse_members] in H.
  inv_some H. apply next_is_shorter in E. inv_some H. destruct p as [k r1]. apply str_loop_shorter in E0.
  inv_some H. apply next_is_shorter in E1. inv_some H. destruct p as [v r2]. apply Hval in E2.
  destruct (next_is "}" r2) eqn:Hn.
  - apply next_is_shorter in Hn. simplify_eq. lia.
  - inv_some H. apply next_is_shorter in E3. inv_some H. destruct p. apply Hmem in E4. simplify_eq. lia.
Qed.

Lemma parse_shorter fuel :
  shorter parse_value fuel /\ shorter parse_elements fuel /\ shorter parse_members fuel.
Proof.
  induction fuel as [|fuel (Hv & He & Hm)]; [split_and!; by intros ????|].
  split_and!; [by apply value_shorter_step|by apply elements_shorter_step|by apply members_shorter_step].
Qed.

(** With [f] fuel the result is the one of any larger amount, on inputs of length [n]. *)
Definition stable {A} (p : nat -> Z -> list byte -> option (A * list byte)) (k f g : nat) : Prop :=
  forall depth s, (2 * length s + k <= f)%nat -> (2 * length s + k <= g)%nat -> p f depth s = p g depth s.

Lemma value_stable_step f g :
  stable parse_elements 2 f g -> stable parse_members 2 f g -> stable parse_value 1 (S f) (S g).
Proof.
  intros Hel Hmem depth s Hf Hg. cbn [parse_value]. pose proof (skip_ws_length s) as Hws.
  destruct (skip_ws s) as [|c t]; [done|]. cbn [length] in Hws.
  rewrite (Hel _ t), (Hmem _ t) by lia. done.
Qed.

Lemma elements_stable_step f g :
  stable parse_value 1 f g -> stable parse_elements 2 f g -> stable parse_elements 2 (S f) (S g).
Proof.
  intros Hval Hel depth s Hf Hg. cbn [parse_elements]. rewrite (Hval _ s) by lia.
  destruct (parse_value g depth s) as [[v r]|] eqn:E; [|done]. cbn [mbind option_bind].
  apply (parse_shorter g) in E. destruct (next_is "]" r); [done|].
  destruct (next_is "," r) as [r'|] eqn:En; [|done]. apply next_is_shorter in En.
  cbn [mbind option_bind]. by rewrite (Hel _ r') by lia.
Qed.

Lemma members_stable_step f g :
  stable parse_value 1 f g -> stable parse_members 2 f g -> stable parse_members 2 (S f) (S g).
Proof.
  intros Hval Hmem depth s Hf Hg. cbn [parse_members].
  destruct (next_is Byte.x22 s) as [t|] eqn:E; [|done]. apply next_is_shorter in E. cbn [mbind option_bind].
  destruct (str_loop 0 t) as [[k r]|] eqn:Ek; [|done]. apply str_loop_shorter in Ek. cbn [mbind option_bind].
  destruct (next_is ":" r) as [u|] eqn:Eu; [|done]. apply next_is_shorter in Eu. cbn [mbind option_bind].
  rewrite (Hval _ u) by lia.
  destruct (parse_value g depth u) as [[v w]|] eqn:Ev; [|done]. apply (parse_shorter g) in Ev.
  cbn [mbind option_bind]. destruct (next_is "}" w); [done|].
  destruct (next_is "," w) as [x|] eqn:Ex; [|done]. apply next_is_shorter in Ex.
  cbn [mbind option_bind]. by rewrite (Hmem _ x) by lia.
Qed.

Lemma parse_stable f g : stable parse_value 1 f g /\ stable parse_elements 2 f g /\ stable parse_members 2 f g.
Proof.
  revert g. induction f as [|f IH]; intros g; [split_and!; intros ?? H; lia|].
  destruct g as [|g]; [split_and!; intros ??? H; lia|]. destruct (IH g) as (Hv & He & Hm).
  split_and!; [by apply value_stable_step|by apply elements_stable_step|by apply members_stable_step].
Qed.

(** A document that [parse] rejects is rejected with any amount of fuel. *)
Lemma parse_fuel_enough fuel s :
  (json_fuel s <= fuel)%nat -> parse_value fuel 0 s = parse_value (json_fuel s) 0 s.
Proof. intros. apply parse_stable; unfold json_fuel in *; lia. Qed.

(** ** The round trip *)

Lemma parse_write d j : writable d j -> Z.of_nat d <= maxNestingDepth -> parse (write j) = Some (coerce_json j).
Proof.
  intros Hw Hd. unfold parse.
  pose proof (write_reads d j Hw (json_fuel (write j)) 0 [] ltac:(lia) ltac:(done)
    ltac:(unfold json_fuel; lia)) as H.
  rewrite app_nil_r in H. by rewrite H.
Qed.
