(* ===== verification/Config.v ===== *)
(** * The configuration sent to the relay ([pkg/config/gateway.go])

    [Marshal] writes the configuration as JSON for the registration request; [Unmarshal] is
    what the relay reads it with.  The authorization header has the tag ["-"]: it is neither
    written nor read.  [config.Gateway] is [GatewayConfig] here, since [gateway.Gateway] is
    modelled as well. *)

From S2P Require Import Prelude Strconv Json.

Abbreviation string_of := String.string_of_list_byte.

(** A [[]string] that is not nil: its elements, and the rest of its backing array, which a
    decoder can make visible again. *)
Record strings := mkStrings { elems : list string; spare : list string }.

Record RuntimeEnvironment := mkEnv { Version : string; ServerPort : Z; Arguments : string }.

Record GatewayConfig := mkGateway {
  RuntimeEnnvironment : RuntimeEnvironment;
  LogLevel : string;
  LogFileLevel : string;
  LogMaxSize : Z;
  LogMaxBackups : Z;
  LogMaxAge : Z;
  SolanaTVUBroadcastPort : Z;
  SolanaTVUPort : Z;
  SniffInterface : string;
  OfrHost : string;
  OfrGRPCPort : Z;
  UdpServerPort : Z;
  AuthHeader : string;
  ExtraBroadcastAddrs : option strings;
  ExtraBroadcastFromOFROnly : bool;
  NoValidator : bool;
  StakedNode : bool;
  DynamicPortRangeString : string;
  LogFluentd : bool;
  LogFluentdHost : string;
  FiredancerMode : bool;
  StakedNodes : bool;
  DirectForwarding : bool;
  NoTrafficCounterLimit : Z;             (* uint *)
  SubmissionOnlyDeprecated : bool
}.

(** [GatewayConfig{}] *)
Definition zeroGateway : GatewayConfig :=
  mkGateway (mkEnv "" 0 "") "" "" 0 0 0 0 0 "" "" 0 0 "" None false false false "" false "" false false
    false 0 false.

(** ** [Marshal] *)

Definition text (s : string) : json := JString (bytes_of s).
Definition int (z : Z) : json := JNumber (format_int64 z).
Definition uint (z : Z) : json := JNumber (format_uint64 z).

Definition env_json (e : RuntimeEnvironment) : json :=
  JObject [(bytes_of "version", text (Version e));
           (bytes_of "server_port", int (ServerPort e));
           (bytes_of "arguments", text (Arguments e))].

Definition gateway_json (g : GatewayConfig) : json :=
  JObject [
    (bytes_of "runtime_environment", env_json (RuntimeEnnvironment g));
    (bytes_of "log_level", text (LogLevel g));
    (bytes_of "log_file_level", text (LogFileLevel g));
    (bytes_of "log_max_size", int (LogMaxSize g));
    (bytes_of "log_max_backups", int (LogMaxBackups g));
    (bytes_of "log_max_age", int (LogMaxAge g));
    (bytes_of "solana_tvu_broadcast_port", int (SolanaTVUBroadcastPort g));
    (bytes_of "solana_tvu_port", int (SolanaTVUPort g));
    (bytes_of "sniff_interface", text (SniffInterface g));
    (bytes_of "ofr_host", text (OfrHost g));
    (bytes_of "ofr_grpc_port", int (OfrGRPCPort g));
    (bytes_of "udp_server_port", int (UdpServerPort g));
    (bytes_of "extra_broadcast_addrs",
       match ExtraBroadcastAddrs g with None => JNull | Some l => JArray (map text (elems l)) end);
    (bytes_of "extra_broadcast_from_ofr_only", JBool (ExtraBroadcastFromOFROnly g));
    (bytes_of "no_validator", JBool (NoValidator g));
    (bytes_of "staked_node", JBool (StakedNode g));
    (bytes_of "dynamic_port_range_string", text (DynamicPortRangeString g));
    (bytes_of "log_fluentd", JBool (LogFluentd g));
    (bytes_of "log_fluentd_host", text (LogFluentdHost g));
    (bytes_of "firedancer_mode", JBool (FiredancerMode g));
    (bytes_of "staked_nodes", JBool (StakedNodes g));
    (bytes_of "direct_forwarding", JBool (DirectForwarding g));
    (bytes_of "no_traffic_counter_limit", uint (NoTrafficCounterLimit g));
    (bytes_of "submission_only", JBool (SubmissionOnlyDeprecated g))].

(** [Marshal()]: no value of these types fails to be written. *)
Definition Marshal (g : GatewayConfig) : outcome string (list byte) := Ok (write (gateway_json g)).

(** ** [Unmarshal] *)

(** The type of a field, as far as the decoder tells types apart. *)
Inductive kind := KString | KInt | KUint | KBool | KStrings | KEnv.

Definition env_fields : list (string * kind) :=
  [("version", KString); ("server_port", KInt); ("arguments", KString)]%string.

Definition gateway_fields : list (string * kind) :=
  [("runtime_environment", KEnv); ("log_level", KString); ("log_file_level", KString);
   ("log_max_size", KInt); ("log_max_backups", KInt); ("log_max_age", KInt);
   ("solana_tvu_broadcast_port", KInt); ("solana_tvu_port", KInt); ("sniff_interface", KString);
   ("ofr_host", KString); ("ofr_grpc_port", KInt); ("udp_server_port", KInt);
   ("extra_broadcast_addrs", KStrings); ("extra_broadcast_from_ofr_only", KBool);
   ("no_validator", KBool); ("staked_node", KBool); ("dynamic_port_range_string", KString);
   ("log_fluentd", KBool); ("log_fluentd_host", KString); ("firedancer_mode", KBool);
   ("staked_nodes", KBool); ("direct_forwarding", KBool); ("no_traffic_counter_limit", KUint);
   ("submission_only", KBool)]%string.

(** [foldName]: upper case.  Apart from the ASCII letters only U+017F and U+212A fold to an
    ASCII letter; where others fold to does not matter, as the names of fields are ASCII. *)
Definition fold_rune (r : Z) : list byte :=
  if (97 <=? r) && (r <=? 122) then [zb (r - 32)]
  else if r =? 383 then ["S"%byte]
  else if r =? 8490 then ["K"%byte]
  else EncodeRune r.

Fixpoint fold_loop (skip : nat) (s : list byte) : list byte :=
  match s with
  | [] => []
  | _ :: t =>
      match skip with
      | S skip => fold_loop skip t
      | O => let (r, n) := DecodeRune s in fold_rune r ++ fold_loop (n - 1) t
      end
  end.

Definition foldName (s : list byte) : list byte := fold_loop 0 s.

Fixpoint bytes_eqb (s t : list byte) : bool :=
  match s, t with
  | [], [] => true
  | a :: s, b :: t => Byte.eqb a b && bytes_eqb s t
  | _, _ => false
  end.

(** The field a key stands for: the one of that name, or else of that name up to case. *)
Definition field_of (fields : list (string * kind)) (key : list byte) : option (string * kind) :=
  match List.find (fun f => bytes_eqb (bytes_of f.1) key) fields with
  | Some f => Some f
  | None => List.find (fun f => bytes_eqb (foldName (bytes_of f.1)) (foldName key)) fields
  end.

(** What storing a value in a field leaves there; [null] and a value of the wrong type leave
    it as it is, except that [null] clears a slice. *)
Definition store_string (v : json) (old : string) : string :=
  match v with JString s => string_of s | _ => old end.

Definition store_bool (v : json) (old : bool) : bool :=
  match v with JBool b => b | _ => old end.

Definition store_int (v : json) (old : Z) : Z :=
  match v with JNumber lit => match ParseInt lit with Ok z => z | _ => old end | _ => old end.

Definition store_uint (v : json) (old : Z) : Z :=
  match v with JNumber lit => match ParseUint lit with Ok z => z | _ => old end | _ => old end.

(** The elements are stored one by one over the backing array; beyond it they are empty. *)
Fixpoint store_elems (vs : list json) (backing : list string) : list string :=
  match vs with
  | [] => []
  | v :: vs => store_string v (match backing with s :: _ => s | [] => ""%string end)
                 :: store_elems vs (List.tl backing)
  end.

Definition store_strings (v : json) (old : option strings) : option strings :=
  match v with
  | JNull => None
  | JArray [] => Some (mkStrings [] [])
  | JArray vs =>
      let backing := match old with Some l => elems l ++ spare l | None => [] end in
      Some (mkStrings (store_elems vs backing) (drop (length vs) backing))
  | _ => old
  end.

(** [upd] applied to a field when the key [k] stands for it. *)
Definition at_field {A} (k : option (string * kind)) (name : string) (upd : A -> A) (old : A) : A :=
  match k with Some (n, _) => if String.eqb n name then upd old else old | None => old end.

Definition set_env (e : RuntimeEnvironment) (kv : list byte * json) : RuntimeEnvironment :=
  let k := field_of env_fields kv.1 in
  {| Version := at_field k "version" (store_string kv.2) (Version e);
     ServerPort := at_field k "server_port" (store_int kv.2) (ServerPort e);
     Arguments := at_field k "arguments" (store_string kv.2) (Arguments e) |}.

Definition store_env (v : json) (old : RuntimeEnvironment) : RuntimeEnvironment :=
  match v with JObject members => fold_left set_env members old | _ => old end.

Definition set_field (g : GatewayConfig) (kv : list byte * json) : GatewayConfig :=
  let k := field_of gateway_fields kv.1 in
  let v := kv.2 in
  {| RuntimeEnnvironment := at_field k "runtime_environment" (store_env v) (RuntimeEnnvironment g);
     LogLevel := at_field k "log_level" (store_string v) (LogLevel g);
     LogFileLevel := at_field k "log_file_level" (store_string v) (LogFileLevel g);
     LogMaxSize := at_field k "log_max_size" (store_int v) (LogMaxSize g);
     LogMaxBackups := at_field k "log_max_backups" (store_int v) (LogMaxBackups g);
     LogMaxAge := at_field k "log_max_age" (store_int v) (LogMaxAge g);
     SolanaTVUBroadcastPort :=
       at_field k "solana_tvu_broadcast_port" (store_int v) (SolanaTVUBroadcastPort g);
     SolanaTVUPort := at_field k "solana_tvu_port" (store_int v) (SolanaTVUPort g);
     SniffInterface := at_field k "sniff_interface" (store_string v) (SniffInterface g);
     OfrHost := at_field k "ofr_host" (store_string v) (OfrHost g);
     OfrGRPCPort := at_field k "ofr_grpc_port" (store_int v) (OfrGRPCPort g);
     UdpServerPort := at_field k "udp_server_port" (store_int v) (UdpServerPort g);
     AuthHeader := AuthHeader g;
     ExtraBroadcastAddrs := at_field k "extra_broadcast_addrs" (store_strings v) (ExtraBroadcastAddrs g);
     ExtraBroadcastFromOFROnly :=
       at_field k "extra_broadcast_from_ofr_only" (store_bool v) (ExtraBroadcastFromOFROnly g);
     NoValidator := at_field k "no_validator" (store_bool v) (NoValidator g);
     StakedNode := at_field k "staked_node" (store_bool v) (StakedNode g);
     DynamicPortRangeString :=
       at_field k "dynamic_port_range_string" (store_string v) (DynamicPortRangeString g);
     LogFluentd := at_field k "log_fluentd" (store_bool v) (LogFluentd g);
     LogFluentdHost := at_field k "log_fluentd_host" (store_string v) (LogFluentdHost g);
     FiredancerMode := at_field k "firedancer_mode" (store_bool v) (FiredancerMode g);
     StakedNodes := at_field k "staked_nodes" (store_bool v) (StakedNodes g);
     DirectForwarding := at_field k "direct_forwarding" (store_bool v) (DirectForwarding g);
     NoTrafficCounterLimit := at_field k "no_traffic_counter_limit" (store_uint v) (NoTrafficCounterLimit g);
     SubmissionOnlyDeprecated :=
       at_field k "submission_only" (store_bool v) (SubmissionOnlyDeprecated g) |}.

(** Whether a value has the wrong type for a field: decoding goes on, and the first such
    error is returned at the end. *)
Definition scalar_mismatch (k : kind) (v : json) : bool :=
  match v, k with
  | JNull, _ => false
  | JString _, KString => false
  | JNumber lit, KInt => negb (is_Ok (ParseInt lit))
  | JNumber lit, KUint => negb (is_Ok (ParseUint lit))
  | JBool _, KBool => false
  | _, _ => true
  end.

Definition member_mismatch (mismatch : kind -> json -> bool) (fields : list (string * kind))
    (kv : list byte * json) : bool :=
  match field_of fields kv.1 with Some (_, k) => mismatch k kv.2 | None => false end.

Definition mismatch (k : kind) (v : json) : bool :=
  match k, v with
  | KStrings, JArray vs => existsb (scalar_mismatch KString) vs
  | KEnv, JObject members => existsb (member_mismatch scalar_mismatch env_fields) members
  | _, _ => scalar_mismatch k v
  end.

Inductive json_error := ErrSyntax | ErrUnmarshalType.

(** [Unmarshal(data)]: the error, and the receiver afterwards. *)
Definition Unmarshal (data : list byte) (g : GatewayConfig) : option json_error * GatewayConfig :=
  match data with
  | [] => (None, g)
  | _ =>
      match parse data with
      | None => (Some ErrSyntax, g)
      | Some JNull => (None, g)
      | Some (JObject members) =>
          (if existsb (member_mismatch mismatch gateway_fields) members then Some ErrUnmarshalType else None,
           fold_left set_field members g)
      | Some _ => (Some ErrUnmarshalType, g)
      end
  end.

(** * Properties *)

Definition int_ok (z : Z) : Prop := - 2 ^ 63 <= z < 2 ^ 63.

(** The integers of a configuration have their types. *)
Record gateway_ok (g : GatewayConfig) : Prop := mkGatewayOk {
  ok_ServerPort : int_ok (ServerPort (RuntimeEnnvironment g));
  ok_LogMaxSize : int_ok (LogMaxSize g);
  ok_LogMaxBackups : int_ok (LogMaxBackups g);
  ok_LogMaxAge : int_ok (LogMaxAge g);
  ok_SolanaTVUBroadcastPort : int_ok (SolanaTVUBroadcastPort g);
  ok_SolanaTVUPort : int_ok (SolanaTVUPort g);
  ok_OfrGRPCPort : int_ok (OfrGRPCPort g);
  ok_UdpServerPort : int_ok (UdpServerPort g);
  ok_NoTrafficCounterLimit : 0 <= NoTrafficCounterLimit g < 2 ^ 64
}.

(** A string as the relay sees it. *)
Definition coerce_text (s : string) : string := string_of (coerce (bytes_of s)).

Definition coerce_env (e : RuntimeEnvironment) : RuntimeEnvironment :=
  {| Version := coerce_text (Version e); ServerPort := ServerPort e; Arguments := coerce_text (Arguments e) |}.

Definition received_strings (l old : option strings) : option strings :=
  match l with
  | None => None
  | Some l =>
      let backing := match old with Some l0 => elems l0 ++ spare l0 | None => [] end in
      Some (mkStrings (map coerce_text (elems l))
              (match elems l with [] => [] | _ => drop (length (elems l)) backing end))
  end.

(** What the configuration [g0] is after it has received the configuration [g]. *)
Definition received (g g0 : GatewayConfig) : GatewayConfig :=
  {| RuntimeEnnvironment := coerce_env (RuntimeEnnvironment g);
     LogLevel := coerce_text (LogLevel g); LogFileLevel := coerce_text (LogFileLevel g);
     LogMaxSize := LogMaxSize g; LogMaxBackups := LogMaxBackups g; LogMaxAge := LogMaxAge g;
     SolanaTVUBroadcastPort := SolanaTVUBroadcastPort g; SolanaTVUPort := SolanaTVUPort g;
     SniffInterface := coerce_text (SniffInterface g); OfrHost := coerce_text (OfrHost g);
     OfrGRPCPort := OfrGRPCPort g; UdpServerPort := UdpServerPort g;
     AuthHeader := AuthHeader g0;
     ExtraBroadcastAddrs := received_strings (ExtraBroadcastAddrs g) (ExtraBroadcastAddrs g0);
     ExtraBroadcastFromOFROnly := ExtraBroadcastFromOFROnly g; NoValidator := NoValidator g;
     StakedNode := StakedNode g; DynamicPortRangeString := coerce_text (DynamicPortRangeString g);
     LogFluentd := LogFluentd g; LogFluentdHost := coerce_text (LogFluentdHost g);
     FiredancerMode := FiredancerMode g; StakedNodes := StakedNodes g;
     DirectForwarding := DirectForwarding g; NoTrafficCounterLimit := NoTrafficCounterLimit g;
     SubmissionOnlyDeprecated := SubmissionOnlyDeprecated g |}.

(** ** One member for every field *)

(** The members of a document in the order of [Marshal], with values [vs]. *)
Definition members_of (fields : list (string * kind)) (vs : list json) : list (list byte * json) :=
  zip_with (fun f v => (bytes_of f.1, v)) fields vs.

Lemma set_env_all e v1 v2 v3 :
  fold_left set_env (members_of env_fields [v1; v2; v3]) e
  = mkEnv (store_string v1 (Version e)) (store_int v2 (ServerPort e)) (store_string v3 (Arguments e)).
Proof. lazy -[store_string store_int Version ServerPort Arguments]. reflexivity. Qed.

Lemma set_field_all g v1 v2 v3 v4 v5 v6 v7 v8 v9 v10 v11 v12 v13 v14 v15 v16 v17 v18 v19 v20 v21 v22 v23 v24 :
  fold_left set_field (members_of gateway_fields
    [v1; v2; v3; v4; v5; v6; v7; v8; v9; v10; v11; v12; v13; v14; v15; v16; v17; v18; v19; v20; v21; v22; v23; v24]) g
  = mkGateway (store_env v1 (RuntimeEnnvironment g)) (store_string v2 (LogLevel g))
      (store_string v3 (LogFileLevel g)) (store_int v4 (LogMaxSize g)) (store_int v5 (LogMaxBackups g))
      (store_int v6 (LogMaxAge g)) (store_int v7 (SolanaTVUBroadcastPort g)) (store_int v8 (SolanaTVUPort g))
      (store_string v9 (SniffInterface g)) (store_string v10 (OfrHost g)) (store_int v11 (OfrGRPCPort g))
      (store_int v12 (UdpServerPort g)) (AuthHeader g) (store_strings v13 (ExtraBroadcastAddrs g))
      (store_bool v14 (ExtraBroadcastFromOFROnly g)) (store_bool v15 (NoValidator g))
      (store_bool v16 (StakedNode g)) (store_string v17 (DynamicPortRangeString g))
      (store_bool v18 (LogFluentd g)) (store_string v19 (LogFluentdHost g))
      (store_bool v20 (FiredancerMode g)) (store_bool v21 (StakedNodes g)) (store_bool v22 (DirectForwarding g))
      (store_uint v23 (NoTrafficCounterLimit g)) (store_bool v24 (SubmissionOnlyDeprecated g)).
Proof.
  destruct g.
  lazy -[store_string store_int store_uint store_bool store_strings store_env]. reflexivity.
Qed.

(** A document with a member for every field has a type error when one of the values has. *)
Lemma member_mismatch_all (m : kind -> json -> bool) all fields vs :
  Forall (fun f => field_of all (bytes_of f.1) = Some f) fields ->
  existsb (member_mismatch m all) (members_of fields vs)
  = existsb (fun kv => m kv.1 kv.2) (zip fields.*2 vs).
Proof.
  intros Hf. revert vs. induction Hf as [|[n k] l Hn _ IH]; intros [|v vs]; try done.
  change (members_of ((n, k) :: l) (v :: vs)) with ((bytes_of n, v) :: members_of l vs).
  cbn [existsb fmap list_fmap zip zip_with fst snd]. rewrite IH.
  unfold member_mismatch at 1. cbn [fst snd] in *. by rewrite Hn.
Qed.

(** ** Reading back single values *)

Lemma string_of_bytes_of s : string_of (bytes_of s) = s.
Proof. apply String.string_of_list_byte_of_string. Qed.

Lemma store_text s old : store_string (coerce_json (text s)) old = coerce_text s.
Proof. reflexivity. Qed.

Lemma store_int_json z old : int_ok z -> store_int (coerce_json (int z)) old = z.
Proof. intros Hz. unfold int. cbn [coerce_json store_int]. by rewrite ParseInt_format. Qed.

Lemma store_uint_json z old : 0 <= z < 2 ^ 64 -> store_uint (coerce_json (uint z)) old = z.
Proof. intros Hz. unfold uint. cbn [coerce_json store_uint]. by rewrite ParseUint_format. Qed.

Definition strings_json (l : option strings) : json :=
  match l with None => JNull | Some l => JArray (map text (elems l)) end.

Lemma store_elems_text l backing :
  store_elems (map coerce_json (map text l)) backing = map coerce_text l.
Proof. revert backing. induction l as [|s l IH]; intros backing; cbn; [done|]. f_equal. apply IH. Qed.

Lemma store_strings_json l old : store_strings (coerce_json (strings_json l)) old = received_strings l old.
Proof.
  destruct l as [l|]; [|done]. cbn [strings_json coerce_json store_strings received_strings].
  destruct l as [[|s l] sp]; [done|]. cbn [elems map]. cbn [store_strings].
  change (coerce_json (text s) :: map coerce_json (map text l)) with (map coerce_json (map text (s :: l))).
  rewrite store_elems_text. by rewrite !length_map.
Qed.

Lemma store_env_json e old :
  int_ok (ServerPort e) -> store_env (coerce_json (env_json e)) old = coerce_env e.
Proof.
  intros He.
  change (coerce_json (env_json e)) with
    (JObject (members_of env_fields
       [coerce_json (text (Version e)); coerce_json (int (ServerPort e)); coerce_json (text (Arguments e))])).
  cbn [store_env]. rewrite set_env_all. by rewrite !store_text, store_int_json.
Qed.

(** The values of the members, in order. *)
Definition gateway_values (g : GatewayConfig) : list json :=
  [env_json (RuntimeEnnvironment g); text (LogLevel g); text (LogFileLevel g); int (LogMaxSize g);
   int (LogMaxBackups g); int (LogMaxAge g); int (SolanaTVUBroadcastPort g); int (SolanaTVUPort g);
   text (SniffInterface g); text (OfrHost g); int (OfrGRPCPort g); int (UdpServerPort g);
   strings_json (ExtraBroadcastAddrs g); JBool (ExtraBroadcastFromOFROnly g); JBool (NoValidator g);
   JBool (StakedNode g); text (DynamicPortRangeString g); JBool (LogFluentd g); text (LogFluentdHost g);
   JBool (FiredancerMode g); JBool (StakedNodes g); JBool (DirectForwarding g);
   uint (NoTrafficCounterLimit g); JBool (SubmissionOnlyDeprecated g)].

Lemma coerce_gateway_json g :
  coerce_json (gateway_json g) = JObject (members_of gateway_fields (map coerce_json (gateway_values g))).
Proof. reflexivity. Qed.

Lemma int_writable d z : int_ok z -> writable d (int z).
Proof. intros. destruct d; by apply format_int64_number. Qed.

Lemma uint_writable d z : 0 <= z < 2 ^ 64 -> writable d (uint z).
Proof. intros. destruct d; by apply format_uint64_number. Qed.

Lemma object_writable d members :
  Forall (fun kv => writable d kv.2) members -> writable (S d) (JObject members).
Proof. done. Qed.

Lemma env_json_writable d e : int_ok (ServerPort e) -> writable (S d) (env_json e).
Proof.
  intros. apply object_writable. repeat constructor; cbn [snd]; [by destruct d|by apply int_writable|by destruct d].
Qed.

Lemma strings_json_writable d l : writable (S d) (strings_json l).
Proof. destruct l as [l|]; [|done]. apply List.Forall_map, Forall_true. by destruct d. Qed.

Lemma gateway_json_writable g : gateway_ok g -> writable 2 (gateway_json g).
Proof.
  intros []. apply object_writable.
  repeat first [exact I|apply int_writable; assumption|apply uint_writable; assumption
    |apply env_json_writable; assumption|apply (strings_json_writable 0 (ExtraBroadcastAddrs g))
    |apply Forall_nil|apply list.Forall_cons; split; cbn [snd]].
Qed.

Lemma parse_Marshal g :
  gateway_ok g ->
  parse (write (gateway_json g))
  = Some (JObject (members_of gateway_fields (map coerce_json (gateway_values g)))).
Proof.
  intros Hg. rewrite (parse_write 2) by (by apply gateway_json_writable || done).
  by rewrite coerce_gateway_json.
Qed.

Lemma set_received g g0 :
  gateway_ok g ->
  fold_left set_field (members_of gateway_fields (map coerce_json (gateway_values g))) g0 = received g g0.
Proof.
  intros []. unfold gateway_values. cbn [map]. rewrite set_field_all, !store_text.
  rewrite !store_int_json, store_uint_json, store_strings_json, store_env_json by done. reflexivity.
Qed.

Lemma mismatch_int z : int_ok z -> mismatch KInt (coerce_json (int z)) = false.
Proof. intros. unfold int. cbn [coerce_json mismatch scalar_mismatch]. by rewrite ParseInt_format. Qed.

Lemma mismatch_uint z : 0 <= z < 2 ^ 64 -> mismatch KUint (coerce_json (uint z)) = false.
Proof. intros. unfold uint. cbn [coerce_json mismatch scalar_mismatch]. by rewrite ParseUint_format. Qed.

Lemma mismatch_strings l : mismatch KStrings (coerce_json (strings_json l)) = false.
Proof.
  destruct l as [l|]; [|done]. cbn [strings_json coerce_json mismatch].
  induction (elems l) as [|s ss IH]; [done|]. apply IH.
Qed.

Lemma mismatch_env e : int_ok (ServerPort e) -> mismatch KEnv (coerce_json (env_json e)) = false.
Proof.
  intros He. change (coerce_json (env_json e)) with
    (JObject (members_of env_fields
       [coerce_json (text (Version e)); coerce_json (int (ServerPort e)); coerce_json (text (Arguments e))])).
  cbn [mismatch]. rewrite member_mismatch_all by (by repeat constructor).
  cbn [existsb zip zip_with fmap list_fmap env_fields fst snd].
  rewrite (mismatch_int _ He : scalar_mismatch KInt _ = false). reflexivity.
Qed.

Lemma no_mismatch g :
  gateway_ok g ->
  existsb (member_mismatch mismatch gateway_fields)
    (members_of gateway_fields (map coerce_json (gateway_values g))) = false.
Proof.
  intros []. rewrite member_mismatch_all by (by repeat constructor).
  unfold gateway_values. cbn [existsb zip zip_with fmap list_fmap gateway_fields fst snd map].
  rewrite !mismatch_int, mismatch_uint, mismatch_strings, mismatch_env by done. reflexivity.
Qed.

Lemma write_nonempty g : write (gateway_json g) <> [].
Proof. done. Qed.

Lemma Unmarshal_write g g0 :
  gateway_ok g -> Unmarshal (write (gateway_json g)) g0 = (None, received g g0).
Proof.
  intros Hg. unfold Unmarshal. pose proof (write_nonempty g) as Hne.
  destruct (write (gateway_json g)) as [|b l] eqn:Hw; [done|]. rewrite <- Hw.
  by rewrite parse_Marshal, no_mismatch, set_received.
Qed.

(** ** What is shared with the relay *)

(** The part of a configuration that [Marshal] writes. *)
Definition public (g : GatewayConfig) : GatewayConfig :=
  mkGateway (RuntimeEnnvironment g) (LogLevel g) (LogFileLevel g) (LogMaxSize g) (LogMaxBackups g)
    (LogMaxAge g) (SolanaTVUBroadcastPort g) (SolanaTVUPort g) (SniffInterface g) (OfrHost g)
    (OfrGRPCPort g) (UdpServerPort g) ""
    (match ExtraBroadcastAddrs g with None => None | Some l => Some (mkStrings (elems l) []) end)
    (ExtraBroadcastFromOFROnly g) (NoValidator g) (StakedNode g) (DynamicPortRangeString g)
    (LogFluentd g) (LogFluentdHost g) (FiredancerMode g) (StakedNodes g) (DirectForwarding g)
    (NoTrafficCounterLimit g) (SubmissionOnlyDeprecated g).

Definition texts (g : GatewayConfig) : list string :=
  [Version (RuntimeEnnvironment g); Arguments (RuntimeEnnvironment g); LogLevel g; LogFileLevel g;
   SniffInterface g; OfrHost g; DynamicPortRangeString g; LogFluentdHost g]
  ++ match ExtraBroadcastAddrs g with None => [] | Some l => elems l end.

(** All strings are valid UTF-8. *)
Definition valid_texts (g : GatewayConfig) : Prop := Forall (fun s => valid_utf8 (bytes_of s) = true) (texts g).

Lemma coerce_text_valid s : valid_utf8 (bytes_of s) = true -> coerce_text s = s.
Proof. unfold coerce_text. intros ->%bool_decide_eq_true. apply string_of_bytes_of. Qed.

Lemma gateway_json_public g : gateway_json (public g) = gateway_json g.
Proof. by destruct g as [????????????? [[]|] ???????????]. Qed.

Lemma public_received g g0 : valid_texts g -> public (received g g0) = public g.
Proof.
  intros [Hbase Hlist]%list.Forall_app.
  repeat (apply list.Forall_cons in Hbase as [?%coerce_text_valid Hbase]).
  unfold public, received. cbn. unfold coerce_env.
  replace (mkEnv _ _ _) with (RuntimeEnnvironment g) by (destruct (RuntimeEnnvironment g); cbn in *; congruence).
  f_equal; try done. destruct (ExtraBroadcastAddrs g) as [l|]; [|done]. cbn. do 2 f_equal.
  induction Hlist as [|s ss Hs _ IH]; [done|]. cbn. rewrite IH. f_equal. by apply coerce_text_valid.
Qed.

Lemma write_public_inj g1 g2 :
  gateway_ok g1 -> gateway_ok g2 -> valid_texts g1 -> valid_texts g2 ->
  write (gateway_json g1) = write (gateway_json g2) -> public g1 = public g2.
Proof.
  intros Hg1 Hg2 Ht1 Ht2 Hw.
  pose proof (Unmarshal_write g1 zeroGateway Hg1) as E1. rewrite Hw, Unmarshal_write in E1 by done.
  apply (f_equal snd) in E1. cbn [snd] in E1.
  by rewrite <- (public_received g1 zeroGateway), <- (public_received g2 zeroGateway), E1.
Qed.

(** ** Theorems *)

(** C23: a configuration survives the transport to the relay.  What [Marshal] writes of a
    configuration [g], [Unmarshal] reads without error into any receiver: every field but
    the authorization header gets the value of [g], with its strings coerced to valid UTF-8
    (so unchanged when they are valid), and the header of the receiver is kept. *)
Theorem Unmarshal_Marshal (g g0 : GatewayConfig) :
  gateway_ok g ->
  exists data, Marshal g = Ok data
    /\ Unmarshal data g0 = (None, received g g0)
    /\ AuthHeader (Unmarshal data g0).2 = AuthHeader g0
    /\ (valid_texts g -> public (Unmarshal data g0).2 = public g).
Proof.
  intros Hg. exists (write (gateway_json g)). rewrite Unmarshal_write by done.
  split_and!; [done|done|done|]. apply public_received.
Qed.

Definition demo_config : GatewayConfig :=
  mkGateway (mkEnv "v0.18.5h" 18888 "--ofr-host=h -auth-header=REDACTED") "info" "debug" 100 10 10 0 8001
    "eth0" "frankfurt.example" 5005 18888 "c2VjcmV0"
    (Some (mkStrings ["127.0.0.1:9999"; "[::1]:7"]%string [])) false false true "18889-19888" false "127.0.0.1"
    false false false 60 false.

Lemma demo_config_ok : gateway_ok demo_config.
Proof. split; cbn; unfold int_ok; lia. Qed.

Lemma Unmarshal_Marshal_witness :
  exists data, Marshal demo_config = Ok data
    /\ public (Unmarshal data zeroGateway).2 = public demo_config.
Proof.
  destruct (Unmarshal_Marshal demo_config zeroGateway demo_config_ok) as (data & Hm & _ & _ & Hp).
  exists data. split; [exact Hm|]. apply Hp. unfold valid_texts. repeat constructor.
Defined.

(** C40: what the relay learns from the configuration.  Two configurations whose integers have
    their types and whose strings are valid UTF-8 are written as the same bytes exactly when
    they agree on every field but the authorization header: the header has no influence on
    the text, and every other field can be told from it. *)
Theorem Marshal_public (g1 g2 : GatewayConfig) :
  gateway_ok g1 -> gateway_ok g2 -> valid_texts g1 -> valid_texts g2 ->
  Marshal g1 = Marshal g2 <-> public g1 = public g2.
Proof.
  intros Hg1 Hg2 Ht1 Ht2. unfold Marshal. split.
  - intros Hw%(f_equal (fun m => match m with Ok data => data | _ => [] end)).
    by apply write_public_inj.
  - intros Hp. by rewrite <- (gateway_json_public g1), <- (gateway_json_public g2), Hp.
Qed.

Definition demo_config' : GatewayConfig :=
  mkGateway (mkEnv "v0.18.5h" 18888 "--ofr-host=h -auth-header=REDACTED") "info" "debug" 100 10 10 0 8001
    "eth0" "frankfurt.example" 5005 18888 "b3RoZXI"
    (Some (mkStrings ["127.0.0.1:9999"; "[::1]:7"]%string [])) false false true "18889-19888" false "127.0.0.1"
    false false false 60 false.

Lemma demo_config_texts : valid_texts demo_config.
Proof. unfold valid_texts. repeat constructor. Qed.

Lemma Marshal_public_witness : Marshal demo_config = Marshal demo_config' <-> public demo_config = public demo_config'.
Proof.
  apply (Marshal_public demo_config demo_config'); [apply demo_config_ok| |apply demo_config_texts|].
  - split; cbn; unfold int_ok; lia.
  - unfold valid_texts. repeat constructor.
Defined.
