(* ===== verification/Fluentd.v ===== *)
(** * Records for fluentD ([pkg/ofr/fluentd.go], and the guards of [pkg/ofr/stats.go])

    Every call builds a record and posts it under one tag; the post is asynchronous and its
    error is only logged.  The connection belongs to a third-party library; what is posted is
    modelled here, with the JSON that the tags of the types give it.  The printing of times
    is a parameter (of a time within the years 0 to 9999, which the JSON encoder asks for). *)

From S2P Require Import Prelude Strconv Shred Stats Json Config.

(** ** The records *)

Definition fluentDTSFmt : string := "2006-01-02T15:04:05.000000".
Definition fluentDShredStatsRecordType : string := "OFRPerformance".
Definition fluentDConnectedGatewayRecordType : string := "OFRConnectedGateway".
Definition fluentDUsageRecordType : string := "OFRUsage".
Definition fluentDGatewayShreadPropapagationRecordType : string := "OFRGatewayShreadPropapagation".
Definition fluentDRelayShreadPropapagationRecordType : string := "OFRRelayShreadPropapagation".
Definition fluentDShredStatsLogName : string := "stats.ofr_performance".
Definition fluentDConnectedGatewayLogName : string := "stats.ofr_connected_gateway".
Definition fluentDShredLogName : string := "stats.ofr_shred".
Definition fluentDUsageLogName : string := "stats.ofr_usage".

Record fluentDShredStatsRecord := mkShredStatsRecord {
  ss_Type : string;
  ss_PeerIP : string;
  ss_PeerType : string;
  ss_TotalShreds : Z;                      (* uint32 *)
  ss_UnseenShreds : Z                      (* uint32 *)
}.

Record fluentDConnectedGatewayStatsRecord := mkConnectedGateway {
  cg_PeerIP : string;
  cg_Version : string;
  cg_AccountId : string
}.

Record fluentDUsageStatsRecord := mkUsage {
  us_AccountID : string;
  us_NumGateways : Z;                      (* uint32 *)
  us_NumShredstreams : Z;                  (* uint32 *)
  us_NumTxStreams : Z                      (* uint32 *)
}.

Record fluentDShredRecordGateway := mkShredGateway {
  sg_Slot : Z;
  sg_Index : Z;
  sg_Variant : string;
  sg_Source : string;
  sg_ReceiveTime : Z;
  sg_ProcessTime : Z
}.

Record fluentDShredRecordRelay := mkShredRelay {
  sr_Slot : Z;
  sr_Index : Z;
  sr_Variant : string;
  sr_Source : string;
  sr_SourceType : string;
  sr_ReceiveTime : Z;
  sr_ProcessTime : Z
}.

(** [Record.Data], and the one message that is not wrapped in a [Record]. *)
Inductive stats_data :=
  | DConnectedGateway (r : fluentDConnectedGatewayStatsRecord)
  | DUsage (r : fluentDUsageStatsRecord)
  | DShredGateway (r : fluentDShredRecordGateway)
  | DShredRelay (r : fluentDShredRecordRelay).

(** [FluentDLogRecord.Msg] *)
Inductive stats_msg :=
  | MShredStats (r : fluentDShredStatsRecord)
  | MRecord (Type_ : string) (Data : stats_data).

Record FluentDLogRecord := mkLogRecord {
  Level : string;
  Instance_ : string;
  lr_Name : string;
  Msg : stats_msg;
  Timestamp : string
}.

(** [FluentD]: its instance name (a random UUID). *)
Record FluentD := mkFluentD { fd_Instance : string }.

(** [NewFluentD]: [fluent_New] is the error of the library, [uuid] the name. *)
Definition NewFluentD (fluent_New : option string) (uuid : string) : outcome string FluentD :=
  _ ← of_err fluent_New; Ok (mkFluentD uuid).

(** ** The calls *)

Section calls.
Context (format : string -> Z -> string).  (* time.Format *)

(** What [EncodeAndPostData] gets: the tag, the time and the record. *)
Definition post : Type := string * Z * FluentDLogRecord.

Definition log (f : FluentD) (record : stats_msg) (t : Z) (logName : string) : post :=
  ("bx.solana-bdn.go.log"%string, t,
   {| Level := "STATS"; Instance_ := fd_Instance f; lr_Name := logName; Msg := record;
      Timestamp := format fluentDTSFmt t |}).

Definition LogShredStats (f : FluentD) (now : Z) (peerIP peerType : string) (totalShreds unseenShreds : Z) : post :=
  log f (MShredStats {| ss_Type := fluentDShredStatsRecordType; ss_PeerIP := peerIP; ss_PeerType := peerType;
                        ss_TotalShreds := totalShreds; ss_UnseenShreds := unseenShreds |})
    now fluentDShredStatsLogName.

Definition LogUsageStats (f : FluentD) (now : Z) (accountID : string)
    (numGateways numShredStreams numTxStreams : Z) : post :=
  log f (MRecord fluentDUsageRecordType (DUsage
           {| us_AccountID := accountID; us_NumGateways := u32 numGateways;
              us_NumShredstreams := u32 numShredStreams; us_NumTxStreams := u32 numTxStreams |}))
    now fluentDUsageLogName.

Definition LogConnectedGateway (f : FluentD) (now : Z) (peerIP version accountID : string) : post :=
  log f (MRecord fluentDConnectedGatewayRecordType (DConnectedGateway
           {| cg_PeerIP := peerIP; cg_Version := version; cg_AccountId := accountID |}))
    now fluentDConnectedGatewayLogName.

Definition LogShredGateway (f : FluentD) (now slot index : Z) (variant source : string) (tm processTime : Z) : post :=
  log f (MRecord fluentDGatewayShreadPropapagationRecordType (DShredGateway
           {| sg_Slot := slot; sg_Index := index; sg_Variant := variant; sg_Source := source;
              sg_ReceiveTime := tm; sg_ProcessTime := processTime |}))
    now fluentDShredLogName.

Definition LogShredRelay (f : FluentD) (now slot index : Z) (variant source sourceType : string)
    (tm processTime : Z) : post :=
  log f (MRecord fluentDRelayShreadPropapagationRecordType (DShredRelay
           {| sr_Slot := slot; sr_Index := index; sr_Variant := variant; sr_Source := source;
              sr_SourceType := sourceType; sr_ReceiveTime := tm; sr_ProcessTime := processTime |}))
    now fluentDShredLogName.

(** The methods of [Stats], which do nothing without a client. *)
Definition Stats_RecordNewGateway (f : option FluentD) (now : Z) (peerIP version accountID : string) : list post :=
  match f with None => [] | Some f => [LogConnectedGateway f now peerIP version accountID] end.

Definition Stats_RecordShredGateway (f : option FluentD) (now slot index : Z) (variant source : string)
    (tm processTime : Z) : list post :=
  match f with None => [] | Some f => [LogShredGateway f now slot index variant source tm processTime] end.

Definition Stats_RecordShredRelay (f : option FluentD) (now slot index : Z) (variant source sourceType : string)
    (tm processTime : Z) : list post :=
  match f with
  | None => []
  | Some f => [LogShredRelay f now slot index variant source sourceType tm processTime]
  end.

(** The posts of a flush ([Stats.flush_tick] gives the arguments of the calls). *)
Definition flush_posts (f : FluentD) (now : Z) (calls : list shred_stats) : list post :=
  map (fun c => LogShredStats f now (peerIP c) (peerType c) (ss_total c) (ss_unseen c)) calls.
End calls.

(** ** The JSON of a record *)

Section json.
Context (time_json : Z -> string).         (* time.Time.MarshalJSON, without its quotes *)

Definition data_json (d : stats_data) : json :=
  match d with
  | DConnectedGateway r =>
      JObject [(bytes_of "peer_ip", text (cg_PeerIP r)); (bytes_of "version", text (cg_Version r));
               (bytes_of "account_id", text (cg_AccountId r))]
  | DUsage r =>
      JObject [(bytes_of "account_id", text (us_AccountID r)); (bytes_of "num_gateways", uint (us_NumGateways r));
               (bytes_of "num_shred_streams", uint (us_NumShredstreams r));
               (bytes_of "num_tx_streams", uint (us_NumTxStreams r))]
  | DShredGateway r =>
      JObject [(bytes_of "slot", uint (sg_Slot r)); (bytes_of "index", uint (sg_Index r));
               (bytes_of "variant", text (sg_Variant r)); (bytes_of "source", text (sg_Source r));
               (bytes_of "receive_time", text (time_json (sg_ReceiveTime r)));
               (bytes_of "process_time", int (sg_ProcessTime r))]
  | DShredRelay r =>
      JObject [(bytes_of "slot", uint (sr_Slot r)); (bytes_of "index", uint (sr_Index r));
               (bytes_of "variant", text (sr_Variant r)); (bytes_of "source", text (sr_Source r));
               (bytes_of "source_type", text (sr_SourceType r));
               (bytes_of "receive_time", text (time_json (sr_ReceiveTime r)));
               (bytes_of "process_time", int (sr_ProcessTime r))]
  end.

Definition msg_json (m : stats_msg) : json :=
  match m with
  | MShredStats r =>
      JObject [(bytes_of "type", text (ss_Type r)); (bytes_of "peer_ip", text (ss_PeerIP r));
               (bytes_of "peer_type", text (ss_PeerType r)); (bytes_of "total_shreds", uint (ss_TotalShreds r));
               (bytes_of "unseen_shreds", uint (ss_UnseenShreds r))]
  | MRecord t d => JObject [(bytes_of "type", text t); (bytes_of "data", data_json d)]
  end.

Definition log_record_json (r : FluentDLogRecord) : json :=
  JObject [(bytes_of "level", text (Level r)); (bytes_of "instance", text (Instance_ r));
           (bytes_of "name", text (lr_Name r)); (bytes_of "msg", msg_json (Msg r));
           (bytes_of "timestamp", text (Timestamp r))].
End json.

(** * Properties *)

(** The types of the numbers of a message. *)
Definition msg_ok (m : stats_msg) : Prop :=
  match m with
  | MShredStats r => 0 <= ss_TotalShreds r < 2 ^ 32 /\ 0 <= ss_UnseenShreds r < 2 ^ 32
  | MRecord _ (DConnectedGateway _) => True
  | MRecord _ (DUsage r) =>
      0 <= us_NumGateways r < 2 ^ 32 /\ 0 <= us_NumShredstreams r < 2 ^ 32 /\ 0 <= us_NumTxStreams r < 2 ^ 32
  | MRecord _ (DShredGateway r) =>
      0 <= sg_Slot r < 2 ^ 64 /\ 0 <= sg_Index r < 2 ^ 32 /\ int_ok (sg_ProcessTime r)
  | MRecord _ (DShredRelay r) =>
      0 <= sr_Slot r < 2 ^ 64 /\ 0 <= sr_Index r < 2 ^ 32 /\ int_ok (sr_ProcessTime r)
  end.

Lemma uint32_writable d z : 0 <= z < 2 ^ 32 -> writable d (uint z).
Proof. intros. apply uint_writable. lia. Qed.

Lemma data_writable tj d : forall t, msg_ok (MRecord t d) -> writable 1 (data_json tj d).
Proof.
  intros t. destruct d; cbn [msg_ok data_json]; intros Hok; apply object_writable;
    repeat first [exact I|apply Forall_nil|apply list.Forall_cons; split; cbn [snd]];
    first [apply uint32_writable; apply Hok|apply uint_writable; apply Hok|apply int_writable; apply Hok].
Qed.

Lemma msg_writable tj m : msg_ok m -> writable 2 (msg_json tj m).
Proof.
  destruct m as [r|t d]; intros Hok; apply object_writable.
  - repeat first [exact I|apply Forall_nil|apply list.Forall_cons; split; cbn [snd]];
      apply uint32_writable, Hok.
  - repeat first [exact I|apply Forall_nil|apply list.Forall_cons; split; cbn [snd]].
    by apply (data_writable tj d t).
Qed.

(** A count that fits is the one that is posted. *)
Lemma u32_exact z : u32 z = z <-> 0 <= z < 2 ^ 32.
Proof. unfold wrap. split; [intros <-; by apply Z.mod_pos_bound|]. apply Z.mod_small. Qed.

(** A log record whose message is well typed is read back from its JSON. *)
Lemma log_record_read tj r :
  msg_ok (Msg r) -> parse (write (log_record_json tj r)) = Some (coerce_json (log_record_json tj r)).
Proof.
  intros Hok. apply (parse_write 3); [|done]. apply object_writable.
  repeat first [exact I|apply Forall_nil|apply list.Forall_cons; split; cbn [snd]].
  by apply msg_writable.
Qed.

(** What a flush posts to fluentD.  For every flushed source that also has unseen shreds
    there is one post, in the order of the report; each is a document that a JSON reader
    gets back with its strings coerced; its counts are those of the flush modulo 2^32, so
    they are exact below 2^32; and without a client nothing is posted by any method. *)
Theorem flush_posts_spec `{GoOrder} (format : string -> Z -> string) (time_json : Z -> string) (f : FluentD)
    (str_less : string -> string -> bool) (now : Z) (reader : bool) (s : Stats) :
  let eff := (flush_tick str_less now reader s).1 in
  let posts := flush_posts format f now (fl_fluent eff) in
  (forall tag t r, (tag, t, r) ∈ posts ->
     tag = "bx.solana-bdn.go.log"%string /\ lr_Name r = "stats.ofr_performance"%string
     /\ parse (write (log_record_json time_json r)) = Some (coerce_json (log_record_json time_json r))
     /\ exists ts us, ts ∈ fl_total eff /\ us ∈ fl_unseen eff /\ SrcString ts = SrcString us
          /\ Msg r = MShredStats (mkShredStatsRecord "OFRPerformance" (SrcString ts) (NodeType (rNodeInfo ts))
                                    (u32 (Shreds ts)) (u32 (Shreds us)))
          /\ (u32 (Shreds ts) = Shreds ts <-> 0 <= Shreds ts < 2 ^ 32))
  /\ (length posts <= length (fl_total eff))%nat
  /\ (fluentD s = false -> posts = []).
Proof.
  unfold flush_tick. destruct (recorder_flush (totalShredsRecorder s)) as [total tr].
  destruct (recorder_flush (unseenShredsRecorder s)) as [unseen ur]. cbn [fst fl_fluent fl_total fl_unseen].
  assert (forall ts, (fluent_match ts unseen = []
      \/ exists us, us ∈ unseen /\ SrcString ts = SrcString us
         /\ fluent_match ts unseen = [mkShredStats (SrcString ts) (NodeType (rNodeInfo ts)) (u32 (Shreds ts)) (u32 (Shreds us))]))
    as Hm.
  { intros ts. induction unseen as [|u us IH]; [by left|]. cbn [fluent_match].
    case_bool_decide as Heq; [right; exists u; split_and!; [set_solver|done|done]|].
    destruct IH as [->|(us' & Hin & He & ->)]; [by left|right]. exists us'. split_and!; [set_solver|done|done]. }
  split_and!.
  - intros tag t r Hin. unfold flush_posts in Hin.
    apply list_elem_of_In, in_map_iff in Hin as (c & Hc & Hin). destruct (fluentD s); [|done].
    apply in_concat in Hin as (l & (ts & <- & Hts)%in_map_iff & Hin).
    destruct (Hm ts) as [Hnil|(us & Hus & Heq & Hone)]; [by rewrite Hnil in Hin|].
    rewrite Hone in Hin. destruct Hin as [<-|[]]. unfold LogShredStats, log in Hc.
    cbn [peerIP peerType ss_total ss_unseen] in Hc. injection Hc as <- <- <-. split_and!; [done|done| |].
    + apply log_record_read. cbn. split; apply (wrap_bound 32); lia.
    + exists ts, us. split_and!; [by apply list_elem_of_In|done|done|done|]. apply u32_exact.
  - unfold flush_posts. rewrite length_map. destruct (fluentD s); [|cbn; lia].
    induction total as [|ts total IH]; [done|]. cbn [map concat]. rewrite length_app. cbn [length].
    destruct (Hm ts) as [->|(us & _ & _ & ->)]; cbn [length]; lia.
  - by intros ->.
Qed.

(** The other records.  The methods of [Stats] post nothing without a client and one
    record with it; the records of usage, of a connected gateway and of a shred's way are
    documents that a JSON reader gets back, for all arguments of their types; the usage
    counts are cut to 32 bits, so that a negative count appears as a large one. *)
Theorem stats_posts_spec (format : string -> Z -> string) (time_json : Z -> string) (f : FluentD) (now slot index tm processTime : Z)
    (s1 s2 s3 : string) (n1 n2 n3 : Z) :
  0 <= slot < 2 ^ 64 -> 0 <= index < 2 ^ 32 -> int_ok processTime ->
  let readable (p : post) := parse (write (log_record_json time_json p.2)) = Some (coerce_json (log_record_json time_json p.2)) in
  (forall p, p ∈ [LogConnectedGateway format f now s1 s2 s3; LogUsageStats format f now s1 n1 n2 n3;
                  LogShredGateway format f now slot index s1 s2 tm processTime;
                  LogShredRelay format f now slot index s1 s2 s3 tm processTime] -> readable p)
  /\ Stats_RecordNewGateway format None now s1 s2 s3 = []
  /\ Stats_RecordShredGateway format None now slot index s1 s2 tm processTime = []
  /\ Stats_RecordShredRelay format None now slot index s1 s2 s3 tm processTime = []
  /\ (forall g, Stats_RecordShredGateway format (Some g) now slot index s1 s2 tm processTime
                = [LogShredGateway format g now slot index s1 s2 tm processTime])
  /\ (n1 < 0 -> - 2 ^ 32 <= n1 -> Msg (LogUsageStats format f now s1 n1 n2 n3).2
       = MRecord fluentDUsageRecordType (DUsage (mkUsage s1 (n1 + 2 ^ 32) (u32 n2) (u32 n3)))).
Proof.
  intros Hslot Hindex Hp readable. split; [|split; [reflexivity|split; [reflexivity|split; [reflexivity|split; [reflexivity|]]]]].
  - intros p Hin. refine (log_record_read time_json p.2 _). rewrite !elem_of_cons, elem_of_nil in Hin.
    destruct Hin as [->|[->|[->|[->|[]]]]]; cbn [LogConnectedGateway LogUsageStats LogShredGateway LogShredRelay log
      snd Msg msg_ok us_NumGateways us_NumShredstreams us_NumTxStreams sg_Slot sg_Index sg_ProcessTime
      sr_Slot sr_Index sr_ProcessTime].
    + exact I.
    + split; [|split]; apply (wrap_bound 32); lia.
    + exact (conj Hslot (conj Hindex Hp)).
    + exact (conj Hslot (conj Hindex Hp)).
  - intros Hneg Hlo. assert (u32 n1 = n1 + 2 ^ 32) as He.
    { unfold wrap. rewrite <- (Z.mod_add n1 1 (2 ^ 32)) by lia. rewrite Z.mul_1_l. apply Z.mod_small. lia. }
    cbn [LogUsageStats log snd Msg]. by rewrite He.
Qed.

Lemma stats_posts_spec_witness :
  int_ok 5 /\ Stats_RecordShredGateway (fun _ _ => ""%string) None 0 1 2 "Data" "1.2.3.4" 3 5 = [].
Proof.
  assert (int_ok 5) as H by (unfold int_ok; lia). split; [exact H|].
  exact (proj1 (proj2 (proj2 (stats_posts_spec (fun _ _ => ""%string) (fun _ => ""%string) (mkFluentD "i") 0 1 2 3 5
    "Data" "1.2.3.4" "" 0 0 0 ltac:(lia) ltac:(lia) H)))).
Defined.
