(* ===== verification/Redact.v ===== *)
(** * Redaction of the authorization header ([bxgateway/cmd/gateway/main.go])

    Before the arguments of the process become part of the configuration sent to the relay,
    [run] replaces every match of a regular expression: one or two dashes, the name
    [auth-header] in any case, one white space or [=], and all that follows up to the next
    white space.  The matcher below is this expression under the leftmost-first rule of the
    [regexp] package; its [\s] is ASCII white space, so that runes and bytes make no
    difference. *)

From S2P Require Import Prelude Strconv.

(** [\s] of the [regexp] package *)
Definition is_blank (b : byte) : bool :=
  match b with Byte.x09 | Byte.x0a | Byte.x0c | Byte.x0d | Byte.x20 => true | _ => false end.

(** ASCII lower case; no letter of [auth-header] has a fold outside of ASCII. *)
Definition lower (b : byte) : byte := if (65 <=? bz b) && (bz b <=? 90) then zb (bz b + 32) else b.

(** [lit], up to case, at the head of [s]. *)
Fixpoint starts_ci (lit s : list byte) : bool :=
  match lit, s with
  | [], _ => true
  | _, [] => false
  | l :: lit, c :: s => Byte.eqb l (lower c) && starts_ci lit s
  end.

Definition flag_name : list byte := bytes_of "auth-header".

(** The length of the longest prefix without white space. *)
Fixpoint token_length (s : list byte) : nat :=
  match s with c :: t => if is_blank c then O else S (token_length t) | [] => O end.

(** The expression after its dashes, at the head of [s]: the length of the match. *)
Definition match_name (s : list byte) : option nat :=
  if starts_ci flag_name s then
    match drop (length flag_name) s with
    | c :: t =>
        if is_blank c || Byte.eqb c "=" then Some (length flag_name + 1 + token_length t)%nat else None
    | [] => None
    end
  else None.

(** The whole expression: two dashes are tried before one. *)
Definition match_at (s : list byte) : option nat :=
  match s with
  | "-"%byte :: t =>
      match match t with "-"%byte :: u => match_name u | _ => None end with
      | Some n => Some (2 + n)%nat
      | None => match match_name t with Some n => Some (1 + n)%nat | None => None end
      end
  | _ => None
  end.

(** [re.FindAllString(s, -1)]: [skip] is the rest of the match just found. *)
Fixpoint find_loop (skip : nat) (s : list byte) : list (list byte) :=
  match s with
  | [] => []
  | _ :: t =>
      match skip with
      | S skip => find_loop skip t
      | O => match match_at s with
             | Some n => take n s :: find_loop (n - 1) t
             | None => find_loop 0 t
             end
      end
  end.

Definition FindAllString (s : list byte) : list (list byte) := find_loop 0 s.

Definition redacted : list byte := bytes_of "-auth-header=REDACTED".

(** The loop of [run] over the matches of the original arguments. *)
Definition redact (arguments : list byte) : list byte :=
  fold_left (fun s m => ReplaceAll m redacted s) (FindAllString arguments) arguments.

(** * Properties *)

(** ** Where the name of the flag can occur *)

Fixpoint has_name (s : list byte) : bool :=
  match s with [] => false | _ :: t => starts_ci flag_name s || has_name t end.

(** The text before the flag: free of its name, and at its end white space. *)
Definition clean_before (pre : list byte) : Prop :=
  has_name pre = false /\ (pre = [] \/ exists a c, pre = a ++ [c] /\ is_blank c = true).

Definition clean_after (post : list byte) : Prop :=
  has_name post = false /\ match post with [] => True | c :: _ => is_blank c = true end.

Lemma lower_blank c : is_blank c = true -> lower c = c.
Proof. by destruct c. Qed.

Lemma starts_ci_app lit a t :
  Forall (fun l => is_blank l = false) lit ->
  (exists a' c, a = a' ++ [c] /\ is_blank c = true) ->
  starts_ci lit (a ++ t) = true -> starts_ci lit a = true.
Proof.
  intros Hlit. revert a. induction Hlit as [|l lit Hl _ IH]; intros a (a' & c & -> & Hc); [done|].
  destruct a' as [|b a']; cbn.
  - rewrite lower_blank by done. destruct (byte_eqb_spec l c) as [->|]; [congruence|done].
  - destruct (Byte.eqb l (lower b)); [|done]. apply IH. eauto.
Qed.

Lemma flag_name_no_blank : Forall (fun l => is_blank l = false) flag_name.
Proof. by repeat constructor. Qed.

(** No name starts in the text before the flag. *)
Lemma no_name_before pre t p :
  clean_before pre -> (p < length pre)%nat -> starts_ci flag_name (drop p (pre ++ t)) = false.
Proof.
  intros [Hno [->|Hend]]; [cbn; lia|]. revert p. 
  induction pre as [|b pre IH]; intros p Hp; [cbn in Hp; lia|].
  cbn in Hno. apply orb_false_iff in Hno as [Hb Hno]. destruct p as [|p].
  - cbn [drop]. destruct (starts_ci flag_name ((b :: pre) ++ t)) eqn:Hs; [|done].
    apply starts_ci_app in Hs; [|apply flag_name_no_blank|done]. cbn in Hs. cbn in Hb. congruence.
  - cbn [drop app]. destruct Hend as ([|a0 a] & c & Heq & Hc).
    + cbn in Heq. simplify_eq. cbn in Hp. lia.
    + cbn in Heq. simplify_eq. apply IH; [done|eauto|cbn in Hp; lia].
Qed.

Lemma has_name_drop p s : has_name s = false -> has_name (drop p s) = false.
Proof.
  revert s. induction p as [|p IH]; intros [|c s] Hs; try done.
  apply IH. cbn in Hs. by apply orb_false_iff in Hs as [_ ?].
Qed.

Lemma has_name_starts s : has_name s = false -> starts_ci flag_name s = false.
Proof. destruct s; [done|]. cbn. by intros [? _]%orb_false_iff. Qed.

Lemma match_name_starts s n : match_name s = Some n -> starts_ci flag_name s = true.
Proof. unfold match_name. by destruct (starts_ci flag_name s). Qed.

(** A match needs the name one or two places further on. *)
Lemma match_at_none s :
  starts_ci flag_name (drop 1 s) = false ->
  (starts_ci flag_name (drop 2 s) = false \/ head s <> Some "-"%byte) ->
  match_at s = None.
Proof.
  intros H1 H2. unfold match_at. destruct s as [|c t]; [done|].
  destruct (byte_eqb_spec c "-") as [->|Hne]; [|destruct c; (reflexivity || congruence)].
  destruct H2 as [H2|]; [|done]. cbn [drop] in *. rewrite drop_0 in H1.
  assert (match_name t = None) as ->.
  { destruct (match_name t) eqn:E; [|done]. apply match_name_starts in E. congruence. }
  destruct t as [|d u]; [done|]. cbn [drop] in H2. rewrite drop_0 in H2.
  assert (match_name u = None) as ->.
  { destruct (match_name u) eqn:E; [|done]. apply match_name_starts in E. congruence. }
  by destruct d.
Qed.

Lemma find_skip k s : find_loop k s = FindAllString (drop k s).
Proof.
  revert k. induction s as [|c s IH]; intros k; [by destruct k|].
  destruct k as [|k]; [done|]. apply IH.
Qed.

Lemma find_none s : has_name s = false -> FindAllString s = [].
Proof.
  unfold FindAllString. induction s as [|c s IH]; intros Hs; [done|].
  cbn [find_loop]. cbn in Hs. apply orb_false_iff in Hs as [Hc Hs].
  rewrite match_at_none; [by apply IH| |left].
  - apply has_name_starts, has_name_drop. cbn. by apply orb_false_iff.
  - apply has_name_starts, has_name_drop. cbn. by apply orb_false_iff.
Qed.

Lemma find_prefix pre t :
  (forall i, (i < length pre)%nat -> match_at (drop i (pre ++ t)) = None) ->
  FindAllString (pre ++ t) = FindAllString t.
Proof.
  unfold FindAllString. induction pre as [|c pre IH]; intros Hno; [done|].
  pose proof (Hno 0%nat ltac:(cbn; lia)) as H0. cbn [drop app] in H0.
  cbn [app find_loop]. rewrite H0. apply IH. intros i Hi. apply (Hno (S i)). cbn. lia.
Qed.

(** ** One flag on the command line *)

Lemma starts_ci_app_r lit s t : starts_ci lit s = true -> starts_ci lit (s ++ t) = true.
Proof.
  revert s. induction lit as [|l lit IH]; intros [|c s]; cbn; try done.
  destruct (Byte.eqb l (lower c)); [|done]. apply IH.
Qed.

Lemma token_length_app tok post :
  Forall (fun c => is_blank c = false) tok -> match post with [] => True | c :: _ => is_blank c = true end ->
  token_length (tok ++ post) = length tok.
Proof.
  intros Htok Hpost. induction Htok as [|c tok Hc _ IH]; cbn.
  - destruct post as [|c post]; [done|]. cbn. by rewrite Hpost.
  - by rewrite Hc, IH.
Qed.

Section one_flag.
Context (dashes name tok : list byte) (sep : byte) (pre post : list byte).
Context (Hdashes : dashes = ["-"%byte] \/ dashes = ["-"; "-"]%byte).
Context (Hname : starts_ci flag_name name = true) (Hlen : length name = length flag_name).
Context (Hsep : is_blank sep || Byte.eqb sep "=" = true).
Context (Htok : Forall (fun c => is_blank c = false) tok).
Context (Hpre : clean_before pre) (Hpost : clean_after post).

Definition flag_text : list byte := dashes ++ name ++ sep :: tok.

Lemma match_name_here : match_name (name ++ sep :: tok ++ post) = Some (length (name ++ sep :: tok)).
Proof using All.
  unfold match_name. rewrite starts_ci_app_r by done. rewrite <- Hlen, drop_app_length, Hsep.
  destruct Hpost as [_ Hb]. rewrite token_length_app by done. f_equal. rewrite length_app. cbn. lia.
Qed.

Lemma name_head : exists c name', name = c :: name' /\ c <> "-"%byte.
Proof using All.
  destruct name as [|c name']; [done|]. exists c, name'. split; [done|]. intros ->. by cbn in Hname.
Qed.

Lemma match_here : match_at (flag_text ++ post) = Some (length flag_text).
Proof using All.
  pose proof match_name_here as Hm. unfold flag_text. rewrite <- !app_assoc. cbn [app].
  destruct name_head as (c & name' & Hn & Hc).
  destruct Hdashes as [-> | ->]; cbn [app match_at].
  - assert (match name ++ sep :: tok ++ post with "-"%byte :: u => match_name u | _ => None end = None) as ->.
    { rewrite Hn. destruct c; (reflexivity || congruence). }
    by rewrite Hm.
  - by rewrite Hm.
Qed.

(** Inside the text before the flag, and on its dashes, no name starts. *)
Lemma no_name_around p t :
  (p < length pre + length dashes)%nat -> starts_ci flag_name (drop p (pre ++ dashes ++ t)) = false.
Proof using All.
  intros Hp. destruct (Nat.lt_ge_cases p (length pre)); [by apply no_name_before|].
  rewrite drop_app_ge by done.
  destruct Hdashes as [-> | ->]; cbn [length] in Hp.
  - by replace (p - length pre)%nat with 0%nat by lia.
  - destruct (decide (p = length pre)) as [->|]; [by rewrite Nat.sub_diag|].
    by replace (p - length pre)%nat with 1%nat by lia.
Qed.

Lemma last_blank i t :
  (S i = length pre)%nat -> head (drop i (pre ++ t)) <> Some "-"%byte.
Proof using All.
  intros Hi. destruct Hpre as [_ [->|(a & c & -> & Hc)]]; [done|].
  rewrite length_app in Hi. cbn in Hi. replace i with (length a) by lia.
  rewrite <- app_assoc, drop_app_length. cbn. intros [= ->]. done.
Qed.

Lemma before_no_match i t : (i < length pre)%nat -> match_at (drop i (pre ++ dashes ++ t)) = None.
Proof using All.
  intros Hi. assert (1 <= length dashes)%nat by (destruct Hdashes as [-> | ->]; cbn; lia).
  apply match_at_none; rewrite ?drop_drop.
  - apply no_name_around. lia.
  - destruct (decide (S i = length pre)); [right; by apply last_blank|left]. apply no_name_around. lia.
Qed.

Lemma before_no_occurrence i t :
  (i < length pre)%nat -> HasPrefix flag_text (drop i (pre ++ dashes ++ t)) = false.
Proof using All.
  intros Hi. destruct (HasPrefix _ _) eqn:E; [|done]. apply HasPrefix_spec in E as [u Hu].
  pose proof (no_name_around (i + length dashes) t ltac:(lia)) as Hno.
  rewrite <- drop_drop, Hu in Hno. unfold flag_text in Hno.
  rewrite <- !app_assoc, drop_app_length in Hno. by rewrite starts_ci_app_r in Hno.
Qed.

Lemma after_no_occurrence i : HasPrefix flag_text (drop i post) = false.
Proof using All.
  destruct (HasPrefix _ _) eqn:E; [|done]. apply HasPrefix_spec in E as [u Hu].
  destruct Hpost as [Hno _].
  apply (has_name_drop (i + length dashes)), has_name_starts in Hno.
  rewrite <- drop_drop, Hu in Hno. unfold flag_text in Hno.
  rewrite <- !app_assoc, drop_app_length in Hno. by rewrite starts_ci_app_r in Hno.
Qed.

Lemma flag_text_cons : exists t, flag_text = "-"%byte :: t.
Proof using All. unfold flag_text. destruct Hdashes as [-> | ->]; by eexists. Qed.

Lemma find_one : FindAllString (pre ++ flag_text ++ post) = [flag_text].
Proof using All.
  assert (forall t, flag_text ++ t = dashes ++ (name ++ sep :: tok) ++ t) as Hft
    by (intros; unfold flag_text; by rewrite <- !app_assoc).
  rewrite find_prefix by (rewrite Hft; intros; by apply before_no_match).
  pose proof match_here as Hm. destruct flag_text_cons as [t Ht]. rewrite Ht in *. unfold FindAllString.
  cbn [app find_loop]. cbn [app] in Hm. rewrite Hm. rewrite find_skip. cbn [length].
  rewrite Nat.sub_1_r, Nat.pred_succ, drop_app_length, find_none by apply Hpost.
  change ("-"%byte :: t ++ post) with (("-"%byte :: t) ++ post).
  change (S (length t)) with (length ("-"%byte :: t)). by rewrite take_app_length.
Qed.

(** The match is replaced, nothing else changes. *)
Lemma redact_one : redact (pre ++ flag_text ++ post) = pre ++ redacted ++ post.
Proof using All.
  assert (forall t, flag_text ++ t = dashes ++ (name ++ sep :: tok) ++ t) as Hft
    by (intros; unfold flag_text; by rewrite <- !app_assoc).
  unfold redact. rewrite find_one. cbn [fold_left].
  rewrite replace_keep by (rewrite Hft; intros; by apply before_no_occurrence).
  rewrite replace_here by (by destruct flag_text_cons as [t ->]). do 2 f_equal.
  rewrite <- (app_nil_r post) at 1. rewrite replace_keep; [by rewrite app_nil_r|].
  intros i _. rewrite app_nil_r. apply after_no_occurrence.
Qed.
End one_flag.

(** ** Command lines as lists of words *)

Definition joined (words : list (list byte)) : list byte := Join [" "%byte] words.

(** The words before and after a word of the command line, with their separators. *)
Definition words_before (ws : list (list byte)) : list byte := concat (map (fun w => w ++ [" "%byte]) ws).
Definition words_after (ws : list (list byte)) : list byte := concat (map (fun w => " "%byte :: w) ws).

Lemma joined_cons w ws : joined (w :: ws) = w ++ words_after ws.
Proof.
  revert w. induction ws as [|w' ws IH]; intros w; [by rewrite app_nil_r|].
  unfold joined in *. change (Join [" "%byte] (w :: w' :: ws)) with (w ++ [" "%byte] ++ Join [" "%byte] (w' :: ws)).
  by rewrite IH.
Qed.

Lemma joined_cons2 w ws : ws <> [] -> joined (w :: ws) = (w ++ [" "%byte]) ++ joined ws.
Proof. destruct ws as [|w' ws]; [done|]. intros _. by rewrite <- app_assoc. Qed.

Lemma joined_split ws1 w ws2 : joined (ws1 ++ w :: ws2) = words_before ws1 ++ w ++ words_after ws2.
Proof.
  induction ws1 as [|w1 ws1 IH]; [apply joined_cons|].
  cbn [app]. rewrite joined_cons2 by (by destruct ws1). by rewrite IH, app_assoc.
Qed.

Lemma starts_ci_blank lit l t :
  Forall (fun c => is_blank c = false) lit -> starts_ci lit (l ++ " "%byte :: t) = starts_ci lit l.
Proof.
  intros Hlit. revert l. induction Hlit as [|x lit Hx _ IH]; intros [|y l]; cbn; try done.
  - by destruct (byte_eqb_spec x " ") as [->|].
  - by rewrite IH.
Qed.

Lemma has_name_join a b : has_name (a ++ " "%byte :: b) = has_name a || has_name b.
Proof.
  induction a as [|c a IH]; [done|]. cbn [app has_name]. rewrite IH, orb_assoc. do 2 f_equal.
  apply (starts_ci_blank _ (c :: a)), flag_name_no_blank.
Qed.

Lemma words_before_clean ws : Forall (fun w => has_name w = false) ws -> clean_before (words_before ws).
Proof.
  intros Hws. split.
  - induction Hws as [|w ws Hw _ IH]; [done|]. cbn. fold (words_before ws).
    rewrite <- app_assoc. cbn [app].
    by rewrite has_name_join, Hw, IH.
  - destruct ws as [|w ws] using rev_ind; [by left|right].
    unfold words_before. rewrite map_app, concat_app. cbn. rewrite app_nil_r, app_assoc. eauto.
Qed.

Lemma words_after_clean ws : Forall (fun w => has_name w = false) ws -> clean_after (words_after ws).
Proof.
  intros Hws. split; [|by destruct ws].
  induction Hws as [|w ws Hw _ IH]; [done|]. cbn. fold (words_after ws).
  assert (has_name (w ++ words_after ws) = has_name w || has_name (words_after ws)) as ->.
  { destruct ws as [|w' ws]; [by rewrite app_nil_r, orb_false_r|]. cbn. rewrite has_name_join.
    by destruct (has_name w). }
  by rewrite Hw, IH.
Qed.

(** ** Theorems *)

(** The header [tok] on the command line, as one word or as two. *)
Definition header_words (dashes name tok : list byte) (one_word : bool) : list (list byte) :=
  if one_word then [dashes ++ name ++ "="%byte :: tok] else [dashes ++ name; tok].

Definition flag_dashes (dashes : list byte) : Prop := dashes = ["-"%byte] \/ dashes = ["-"; "-"]%byte.

(** The name of the flag in some case. *)
Definition is_name (name : list byte) : Prop :=
  starts_ci flag_name name = true /\ length name = length flag_name.

Lemma header_words_joined ws1 dashes name tok one_word ws2 :
  exists sep, is_blank sep || Byte.eqb sep "=" = true
    /\ joined (ws1 ++ header_words dashes name tok one_word ++ ws2)
       = words_before ws1 ++ flag_text dashes name tok sep ++ words_after ws2.
Proof.
  destruct one_word.
  - exists "="%byte. split; [done|]. apply joined_split.
  - exists " "%byte. split; [done|]. cbn [header_words app]. rewrite joined_split. unfold flag_text.
    rewrite <- !app_assoc. reflexivity.
Qed.

(** C24: the redaction hides the header.  On a command line that gives the header once, in
    one word or in two, with one dash or two and in any case, where the header is free of
    white space and no other word contains the name of the flag, what is left is the command
    line with these words replaced by [-auth-header=REDACTED]: nothing of the header, and
    every other word as it was. *)
Theorem redact_hides (ws1 ws2 : list (list byte)) (dashes name tok : list byte) (one_word : bool) :
  flag_dashes dashes -> is_name name -> Forall (fun c => is_blank c = false) tok ->
  Forall (fun w => has_name w = false) ws1 -> Forall (fun w => has_name w = false) ws2 ->
  redact (joined (ws1 ++ header_words dashes name tok one_word ++ ws2)) = joined (ws1 ++ redacted :: ws2).
Proof.
  intros Hd [Hn Hl] Ht H1 H2.
  destruct (header_words_joined ws1 dashes name tok one_word ws2) as (sep & Hsep & ->).
  rewrite redact_one by (done || by apply words_before_clean || by apply words_after_clean).
  by rewrite joined_split.
Qed.

Lemma redact_hides_witness :
  redact (joined ([bytes_of "--ofr-host"; bytes_of "relay"]
                  ++ header_words (bytes_of "--") (bytes_of "Auth-Header") (bytes_of "c2VjcmV0") false
                  ++ [bytes_of "--port=18888"]))
  = joined ([bytes_of "--ofr-host"; bytes_of "relay"] ++ redacted :: [bytes_of "--port=18888"]).
Proof.
  apply (redact_hides [bytes_of "--ofr-host"; bytes_of "relay"] [bytes_of "--port=18888"]
    (bytes_of "--") (bytes_of "Auth-Header") (bytes_of "c2VjcmV0") false).
  - by right.
  - by split.
  - by repeat constructor.
  - by repeat constructor.
  - by repeat constructor.
Defined.

(** The redaction leaks a header with white space.  When the header is one argument of
    the form "scheme secret", the arguments are joined with spaces before the match, so
    only the scheme is replaced and the secret stays in the redacted text. *)
Theorem redact_leaks (ws1 ws2 : list (list byte)) (dashes name scheme secret : list byte) (one_word : bool) :
  flag_dashes dashes -> is_name name -> Forall (fun c => is_blank c = false) scheme ->
  Forall (fun w => has_name w = false) ws1 -> Forall (fun w => has_name w = false) (secret :: ws2) ->
  redact (joined (ws1 ++ header_words dashes name (scheme ++ " "%byte :: secret) one_word ++ ws2))
  = joined (ws1 ++ redacted :: secret :: ws2).
Proof.
  intros Hd [Hn Hl] Ht H1 H2.
  destruct (header_words_joined ws1 dashes name (scheme ++ " "%byte :: secret) one_word ws2)
    as (sep & Hsep & ->).
  assert (flag_text dashes name (scheme ++ " "%byte :: secret) sep ++ words_after ws2
          = flag_text dashes name scheme sep ++ words_after (secret :: ws2)) as ->.
  { unfold flag_text, words_after. cbn [map concat]. repeat (rewrite <- app_assoc; cbn [app]). reflexivity. }
  rewrite redact_one by (done || by apply words_before_clean || by apply words_after_clean).
  by rewrite joined_split.
Qed.

Lemma redact_leaks_witness :
  redact (joined ([] ++ header_words (bytes_of "--") (bytes_of "auth-header") (bytes_of "Bearer" ++ " "%byte :: bytes_of "c2VjcmV0") true ++ []))
  = joined ([] ++ redacted :: [bytes_of "c2VjcmV0"]).
Proof.
  apply (redact_leaks [] [] (bytes_of "--") (bytes_of "auth-header") (bytes_of "Bearer") (bytes_of "c2VjcmV0") true).
  - by right.
  - by split.
  - by repeat constructor.
  - by repeat constructor.
  - by repeat constructor.
Defined.

(** When one match is a prefix of another, the rest of the longer one stays. *)
Example redact_prefix_leak :
  redact (bytes_of "--auth-header=abc --auth-header=abcdef")
  = bytes_of "-auth-header=REDACTED -auth-header=REDACTEDdef".
Proof. reflexivity. Qed.

(** Other flags and an empty command line are kept. *)
Example redact_keeps : redact (bytes_of "--no-validator --auth-headers=x auth-header=y") 
  = bytes_of "--no-validator --auth-headers=x auth-header=y".
Proof. reflexivity. Qed.
