(* ===== verification/Logger.v ===== *)
(** * The logger ([pkg/logger/logger.go])

    [New] parses the two levels, derives the name of the log file and initialises the logging
    library, which is an input: [ParseLevel] and [Init].  A level is a number of that library.
    A [Logger] is the interface of the program's parts; what a method does is the list of
    calls of the library. *)

From S2P Require Import Prelude Strconv.

Record LogConfig := mkLogConfig {
  lc_AppName : string;
  lc_Level : string;
  lc_FileLevel : string;
  lc_MaxSize : Z;
  lc_MaxBackups : Z;
  lc_MaxAge : Z;
  lc_Port : Z;
  lc_Version : string;
  lc_Fluentd : bool;
  lc_FluentHost : string
}.

Definition DefaultConfig : LogConfig := mkLogConfig "ofr" "info" "trace" 100 10 10 0 "v0.0.0" false "".

(** The arguments of [log.Init]. *)
Record InitConfig := mkInitConfig {
  ic_AppName : string;
  ic_FileName : string;
  ic_FileLevel : Z;
  ic_ConsoleLevel : Z;
  ic_MaxSize : Z;
  ic_MaxBackups : Z;
  ic_MaxAge : Z
}.

Record FluentDConfig := mkFluentDConfig { FluentDHost : string; FluentDLevel : Z }.

(** [log.Fatal] ends the process; an error of [Init] is returned. *)
Inductive log_error :=
  | FatalLevel (e : string)
  | FatalFileLevel (e : string)
  | ErrInit (e : string).

(** [fmt.Sprintf] of "logs/%v-%v.log" *)
Definition log_file_name (appName : string) (port : Z) : string :=
  ("logs/" +:+ appName +:+ "-" +:+ String.string_of_list_byte (format_int64 port) +:+ ".log")%string.

(** ** The interface and its implementations *)

Inductive severity := STrace | SDebug | SInfo | SWarn | SError.

(** A call of the library: the level, the message or format, and the arguments of a format. *)
Record log_call (A : Type) := mkLogCall { lc_severity : severity; lc_text : string; lc_args : option (list A) }.
Arguments mkLogCall {A} _ _ _.

Record Logger (A : Type) := mkLogger {
  Trace : string -> list (log_call A);
  Tracef : string -> list A -> list (log_call A);
  Debug_ : string -> list (log_call A);
  Debugf : string -> list A -> list (log_call A);
  Info_ : string -> list (log_call A);
  Infof : string -> list A -> list (log_call A);
  Warn : string -> list (log_call A);
  Warnf : string -> list A -> list (log_call A);
  Error_ : string -> list (log_call A);
  Errorf : string -> list A -> list (log_call A)
}.

Definition logrusLogger {A} : Logger A := {|
  Trace s := [mkLogCall STrace s None];
  Tracef s a := [mkLogCall STrace s (Some a)];
  Debug_ s := [mkLogCall SDebug s None];
  Debugf s a := [mkLogCall SDebug s (Some a)];
  Info_ s := [mkLogCall SInfo s None];
  Infof s a := [mkLogCall SInfo s (Some a)];
  Warn s := [mkLogCall SWarn s None];
  Warnf s a := [mkLogCall SWarn s (Some a)];
  Error_ s := [mkLogCall SError s None];
  Errorf s a := [mkLogCall SError s (Some a)]
|}.

Definition noopLogger {A} : Logger A := {|
  Trace _ := []; Tracef _ _ := []; Debug_ _ := []; Debugf _ _ := []; Info_ _ := []; Infof _ _ := [];
  Warn _ := []; Warnf _ _ := []; Error_ _ := []; Errorf _ _ := []
|}.

Definition NewNoopLogger {A} : Logger A := noopLogger.

(** ** [New] *)

Section new.
Context (ParseLevel : string -> string + Z) (InfoLevel : Z)
  (Init : InitConfig -> option FluentDConfig -> string -> option string).

(** The logger; the function that closes it comes from [Init]. *)
Definition logger_New {A} (cfg : LogConfig) : outcome log_error (Logger A) :=
  consoleLevel ← map_err FatalLevel (of_sum (ParseLevel (lc_Level cfg)));
  fileLevel ← map_err FatalFileLevel (of_sum (ParseLevel (lc_FileLevel cfg)));
  let fluentDConfig :=
    if lc_Fluentd cfg then Some {| FluentDHost := lc_FluentHost cfg; FluentDLevel := InfoLevel |} else None in
  _ ← map_err ErrInit (of_err (Init
        {| ic_AppName := lc_AppName cfg; ic_FileName := log_file_name (lc_AppName cfg) (lc_Port cfg);
           ic_FileLevel := fileLevel; ic_ConsoleLevel := consoleLevel; ic_MaxSize := lc_MaxSize cfg;
           ic_MaxBackups := lc_MaxBackups cfg; ic_MaxAge := lc_MaxAge cfg |}
        fluentDConfig (lc_Version cfg)));
  Ok logrusLogger.
End new.

(** * Properties *)

(** The methods of a logger, to state what all of them do. *)
Definition methods {A} (lg : Logger A) (a : list A) : list (string -> list (log_call A)) :=
  [Trace A lg; fun s => Tracef A lg s a; Debug_ A lg; fun s => Debugf A lg s a; Info_ A lg; fun s => Infof A lg s a;
   Warn A lg; fun s => Warnf A lg s a; Error_ A lg; fun s => Errorf A lg s a].

(** The logger that [New] returns makes one call for every call of a method, with its text,
    and no two methods make the same; the silent one makes none. *)
Theorem loggers_differ {A} (a : list A) (s : string) :
  Forall (fun m => exists sev args, m s = [mkLogCall sev s args]) (methods logrusLogger a)
  /\ NoDup (map (fun m => m s) (methods logrusLogger a))
  /\ Forall (fun m => m s = []) (methods NewNoopLogger a).
Proof.
  split_and!.
  - repeat (apply list.Forall_cons; split; [by eexists _, _|]). by apply list.Forall_nil.
  - cbn. apply NoDup_ListNoDup.
    repeat (apply List.NoDup_cons; [cbn; intros H; repeat destruct H as [H|H]; done|]). by apply List.NoDup_nil.
  - repeat (apply list.Forall_cons; split; [done|]). by apply list.Forall_nil.
Qed.

Lemma logger_New_no_panic {A} ParseLevel InfoLevel Init cfg :
  panics (logger_New ParseLevel InfoLevel Init cfg : outcome log_error (Logger A)) = false.
Proof.
  unfold logger_New. apply bind_not_panics; [rewrite map_err_panics; apply of_sum_panics|intros console _].
  apply bind_not_panics; [rewrite map_err_panics; apply of_sum_panics|intros file _].
  apply bind_not_panics; [rewrite map_err_panics; apply of_err_panics|done].
Qed.

(** The log files of one application on two ports differ. *)
Lemma log_file_name_inj app p1 p2 :
  - 2 ^ 63 <= p1 < 2 ^ 63 -> - 2 ^ 63 <= p2 < 2 ^ 63 -> log_file_name app p1 = log_file_name app p2 -> p1 = p2.
Proof.
  intros H1 H2 Heq. unfold log_file_name in Heq.
  apply (f_equal String.list_byte_of_string) in Heq.
  assert (forall x y, String.list_byte_of_string (x +:+ y) = String.list_byte_of_string x ++ String.list_byte_of_string y)
    as Happ.
  { intros x y. induction x as [|c x IH]; [done|]. exact (f_equal (cons (Ascii.byte_of_ascii c)) IH). }
  rewrite !Happ, !String.list_byte_of_string_of_list_byte in Heq.
  do 3 apply app_inv_head in Heq. apply app_inv_tail in Heq.
  pose proof (ParseInt_format p1 H1) as E1. rewrite Heq, ParseInt_format in E1 by done.
  by injection E1.
Qed.
