(* ===== verification/Registrar.v ===== *)
(** * Registration with the relay ([bxgateway/internal/gateway/registrar.go])

    [Register] marshals the configuration, calls the relay and classifies the failure:
    only an invalid configuration or a refused authorization is final for the callers.
    The gRPC client is the input [client]; [status.FromError] is the distinction
    between the two constructors of [grpc_error]. *)

From S2P Require Import Prelude Config.

(** [codes.Code], as far as [Register] tells codes apart. *)
Inductive code := InvalidArgument | Unauthenticated | PermissionDenied | OtherCode (n : Z).

Inductive grpc_error :=
  | GrpcStatus (c : code) (message : string)
  | GrpcOther (message : string).

Record RegisterRequest := mkRegisterRequest { AuthHeader : string; GatewayConfiguration : list byte }.

Record RegisterResponse := mkRegisterResponse { UdpAddress : string }.

Inductive register_error :=
  | ErrInvalidConfig (message : string)
  | ErrUnathorized (message : string)
  | ErrRegistrar (message : string)   (* "ofrRegistrar.Register(): %s" *)
  | ErrMarshal (message : string).

#[export] Instance register_error_eq_dec : EqDecision register_error.
Proof. solve_decision. Defined.

Definition classify (err : grpc_error) : register_error :=
  match err with
  | GrpcStatus InvalidArgument m => ErrInvalidConfig m
  | GrpcStatus Unauthenticated m => ErrUnathorized m
  | GrpcStatus PermissionDenied m => ErrUnathorized m
  | GrpcStatus (OtherCode _) m => ErrRegistrar m
  | GrpcOther m => ErrRegistrar m
  end.

(** [(r *ofrRegistrar) Register()]: [marshal] is the result of [cfg.Marshal()]. *)
Definition ofrRegistrar_Register (marshal : outcome string (list byte)) (authHeader : string)
    (client : RegisterRequest -> outcome grpc_error RegisterResponse)
    : outcome register_error RegisterResponse :=
  bz ← map_err ErrMarshal marshal;
  map_err classify (client {| AuthHeader := authHeader; GatewayConfiguration := bz |}).

(** The interface: the result of the [i]-th call. *)
Record Registrar := mkRegistrar { Register_call : nat -> outcome register_error RegisterResponse }.

(** Its implementation: the relay's client, which may answer each call differently. *)
Record ofrRegistrar := mkOfrRegistrar {
  reg_client : nat -> RegisterRequest -> outcome grpc_error RegisterResponse;
  reg_cfg : Config.GatewayConfig
}.

Definition ofrRegistrar_is_Registrar (r : ofrRegistrar) : Registrar := {|
  Register_call i :=
    ofrRegistrar_Register (Config.Marshal (reg_cfg r)) (Config.AuthHeader (reg_cfg r)) (reg_client r i)
|}.

Definition NewOFRRegistrar (client : nat -> RegisterRequest -> outcome grpc_error RegisterResponse)
    (cfg : Config.GatewayConfig) : Registrar :=
  ofrRegistrar_is_Registrar (mkOfrRegistrar client cfg).

(** [errors.Is(err, ErrInvalidConfig) || errors.Is(err, ErrUnathorized)] *)
Definition is_final (e : register_error) : bool :=
  match e with
  | ErrInvalidConfig _ | ErrUnathorized _ => true
  | _ => false
  end.

(** ** Theorems *)

(** Classification of registration failures.  A failed [Register] is final exactly
    when the configuration could be marshalled and the relay answered with status
    InvalidArgument, Unauthenticated or PermissionDenied; every other failure may be
    retried, and a success is passed through unchanged. *)
Theorem Register_final_iff (marshal : outcome string (list byte)) (auth : string)
    (client : RegisterRequest -> outcome grpc_error RegisterResponse) :
  ((exists e, ofrRegistrar_Register marshal auth client = Err e /\ is_final e = true) <->
   exists bz c m, marshal = Ok bz
     /\ client {| AuthHeader := auth; GatewayConfiguration := bz |} = Err (GrpcStatus c m)
     /\ (c = InvalidArgument \/ c = Unauthenticated \/ c = PermissionDenied))
  /\ (forall resp, ofrRegistrar_Register marshal auth client = Ok resp <->
      exists bz, marshal = Ok bz
        /\ client {| AuthHeader := auth; GatewayConfiguration := bz |} = Ok resp).
Proof.
  unfold ofrRegistrar_Register. split.
  - destruct marshal as [bz|e|p]; cbn; [|naive_solver..].
    destruct (client _) as [resp|err|p] eqn:Hc; cbn;
      [split; [naive_solver|]; intros (? & ? & ? & [= <-] & ? & _); congruence| |
       split; [naive_solver|]; intros (? & ? & ? & [= <-] & ? & _); congruence].
    assert (is_final (classify err) = true <-> exists c m, err = GrpcStatus c m
      /\ (c = InvalidArgument \/ c = Unauthenticated \/ c = PermissionDenied)) as Herr
      by (destruct err as [[] ?|?]; cbn; naive_solver).
    split.
    + intros (e & [= <-] & (c & m & -> & Hor)%Herr). exists bz, c, m. done.
    + intros (bz' & c & m & [= <-] & Hc' & Hor). rewrite Hc in Hc'. injection Hc' as ->.
      eexists. split; [done|]. apply Herr. eauto.
  - intros resp. split; [intros H; invert_outcome; eauto|].
    intros (bz & -> & Hc). cbn. by rewrite Hc.
Qed.
