(* ===== verification/Sniffer.v ===== *)
(** * The packet sniffer ([pkg/packet/sniffer.go], [pkg/packet/handler.go])

    A [Sniffer] reads captured frames, decodes and validates them, counts the invalid
    ones, and forwards the payloads on a channel.  The frame decoder of gopacket is
    the parameter [DecodeLayers]; a read of the capture handle is an input event.  The two
    counters are [int64], and the ratio of invalid packets is a [float64]. *)

From Stdlib Require Import SpecFloat.
From S2P Require Import Prelude Float64 Shred Udp Stats.
Open Scope Z_scope.

Record SniffPacket := mkSniffPacket {
  SrcAddr : NetipAddr;
  SrcHandleName : string;
  Payload : list byte;
  Length : Z;
  ReceiveTime : Z
}.

Definition zeroSniffPacket : SniffPacket :=
  {| SrcAddr := ZeroAddr; SrcHandleName := ""; Payload := replicate (Z.to_nat UDPShredSize) Byte.x00;
     Length := 0; ReceiveTime := 0 |}.

(** [DecodingLayerParser.DecodeLayers]: an error, or the number of layers decoded with
    the IPv4 source address and the UDP payload they contain. *)
Inductive decode_result :=
  | DecodeErr
  | Decoded (layers : Z) (srcIP : list byte) (payload : list byte).

Inductive sniff_error :=
  | ErrDecodeLayers
  | ErrLayerCount (n : Z)
  | ErrInvalidAddress
  | ErrValidation (e : shred_error).

(** A [Validator]: the error, or nil. *)
Definition validator : Type := list byte -> option shred_error.

(** A [Counter]: the keyed counter, or the [noopCounter] of a sniffer without one. *)
Definition noopCounter_Increment (key : NetipAddr) (m : KeyedCounter NetipAddr) : KeyedCounter NetipAddr := m.

Definition Counter_Increment (real : bool) : NetipAddr -> KeyedCounter NetipAddr -> KeyedCounter NetipAddr :=
  if real then kc_Increment else noopCounter_Increment.

Record Sniffer := mkSniffer {
  HandleName : string;
  intolerant : bool;
  dynamic : bool;
  validators : list validator;
  counter : Z;
  invalidPackets : Z;
  hasCounter : bool     (* [invalidPacketsCounter] is a real counter, not [noopCounter] *)
}.

Definition Option : Type := Sniffer -> Sniffer.

Definition WithPacketValidator (v : validator) : Option := fun s =>
  mkSniffer (HandleName s) (intolerant s) (dynamic s) (validators s ++ [v])
    (counter s) (invalidPackets s) (hasCounter s).

Definition WithIntolerant (i : bool) : Option := fun s =>
  mkSniffer (HandleName s) i (dynamic s) (validators s) (counter s) (invalidPackets s) (hasCounter s).

Definition WithDynamic (d : bool) : Option := fun s =>
  mkSniffer (HandleName s) (intolerant s) d (validators s) (counter s) (invalidPackets s) (hasCounter s).

Definition WithInvalidPacketsCounter : Option := fun s =>
  mkSniffer (HandleName s) (intolerant s) (dynamic s) (validators s)
    (counter s) (invalidPackets s) true.

Definition NewSniffer (handleName : string) (opts : list Option) : Sniffer :=
  fold_left (fun s opt => opt s) opts (mkSniffer handleName false false [] 0 0 false).

Definition IsDynamic (s : Sniffer) : bool := dynamic s.

Definition with_counts (c i : Z) (s : Sniffer) : Sniffer :=
  mkSniffer (HandleName s) (intolerant s) (dynamic s) (validators s) c i (hasCounter s).

(** The validators in order; the first error is returned. *)
Fixpoint run_validators (vs : list validator) (payload : list byte) : option shred_error :=
  match vs with
  | [] => None
  | v :: vs => match v payload with Some e => Some e | None => run_validators vs payload end
  end.

Section decode.
Context (DecodeLayers : list byte -> decode_result).

(** [DecodePacket]: the packet, with its source address as far as it is known even on
    error, and the error if any. *)
Definition DecodePacket (now : Z) (s : Sniffer) (data : list byte) : SniffPacket * option sniff_error :=
  match DecodeLayers data with
  | DecodeErr => (zeroSniffPacket, Some ErrDecodeLayers)
  | Decoded layers srcIP layerPayload =>
      if negb (layers =? 4) then (zeroSniffPacket, Some (ErrLayerCount layers))
      else
        let (src, ok) := AddrFromSlice srcIP in
        let pkt := mkSniffPacket src "" (Payload zeroSniffPacket) 0 0 in
        if negb ok then (pkt, Some ErrInvalidAddress)
        else
          match run_validators (validators s) layerPayload with
          | None =>
              (mkSniffPacket src (HandleName s) (go_copy (Payload zeroSniffPacket) layerPayload)
                 (Z.min UDPShredSize (zlen layerPayload)) now, None)
          | Some e => (pkt, Some (ErrValidation e))
          end
  end.

(** [float64(s.invalidPackets)/float64(s.counter) < invalidPacketsRatioThreshold] *)
Definition invalidPacketsRatioThreshold : spec_float := hundredth.

Definition ratio_below (s : Sniffer) : bool :=
  float64_lt (float64_div (to_float64 (invalidPackets s)) (to_float64 (counter s))) invalidPacketsRatioThreshold.

(** What the read of the handle gives. *)
Inductive read_event := ReadEOF | ReadError | ReadData (data : list byte).

(** The shared state of a sniffer's loop: the sniffer, the counter of invalid packets
    (shared with the other sniffers of a listener) and the output channel. *)
Record sniff_state := mkSniffState {
  sn : Sniffer;
  sn_invalid : KeyedCounter NetipAddr;
  sn_ch : channel SniffPacket
}.

Definition with_sn (s : Sniffer) (st : sniff_state) : sniff_state :=
  mkSniffState s (sn_invalid st) (sn_ch st).

(** One iteration of [SniffUDPNetworkNoClose].  [done] tells whether the context is done
    at the head of the loop, [done'] whether the final select takes its [done] case.
    The boolean of the result tells whether the loop goes on. *)
Definition sniff_step (now : Z) (done : bool) (ev : read_event) (done' : bool) (st : sniff_state)
    : bool * sniff_state :=
  if done then (false, st) else
  match ev with
  | ReadEOF => (false, st)
  | ReadError => (true, st)
  | ReadData data =>
      let s := sn st in
      match DecodePacket now s data with
      | (pkt, Some _) =>
          let s := with_counts (counter s) (i64 (invalidPackets s + 1)) s in
          if intolerant s || dynamic s then
            if (0 <? counter s) && ratio_below s then (true, with_sn s st)
            else (false, with_sn s st)
          else if negb (IsUnspecified (SrcAddr pkt)) then
            (true, mkSniffState s
               (Counter_Increment (hasCounter s) (SrcAddr pkt) (sn_invalid st))
               (sn_ch st))
          else (true, with_sn s st)
      | (pkt, None) =>
          let s := with_counts (i64 (counter s + 1)) (invalidPackets s) s in
          if done' then (false, with_sn s st)
          else (true, mkSniffState s (sn_invalid st) (try_send (sn_ch st) pkt).2)
      end
  end.

(** The loop over a sequence of iterations, until it returns or the inputs end. *)
Fixpoint sniff_loop (inputs : list (Z * bool * read_event * bool)) (st : sniff_state)
    : bool * sniff_state :=
  match inputs with
  | [] => (true, st)
  | (now, done, ev, done') :: inputs =>
      let (go, st) := sniff_step now done ev done' st in
      if go then sniff_loop inputs st else (false, st)
  end.
End decode.

(** * Properties *)

(** What an option list configured. *)
Definition same_config (s s' : Sniffer) : Prop :=
  HandleName s' = HandleName s /\ intolerant s' = intolerant s /\ dynamic s' = dynamic s
  /\ validators s' = validators s /\ hasCounter s' = hasCounter s.

#[export] Instance same_config_equiv : Equivalence same_config.
Proof. split; unfold same_config; repeat intro; naive_solver congruence. Qed.

Lemma with_counts_config c i s : same_config s (with_counts c i s).
Proof. by repeat split. Qed.
#[export] Hint Resolve with_counts_config : go.

Section sniffer.
Context (DecodeLayers : list byte -> decode_result).

Lemma sniff_step_config now done ev done' st :
  same_config (sn st) (sn (sniff_step DecodeLayers now done ev done' st).2).
Proof.
  unfold sniff_step. destruct done; [done|]. destruct ev as [| |data]; [done..|].
  destruct (DecodePacket _ _ _ _) as [pkt [e|]]; repeat case_if; apply with_counts_config.
Qed.

(** The ratio test, without division: exact for counters below 2^53. *)
Lemma ratio_below_eq s :
  0 <= invalidPackets s < 2 ^ 53 -> 0 < counter s < 2 ^ 53 ->
  ratio_below s = (100 * invalidPackets s <? counter s).
Proof. apply float64_hundredth. Qed.

(** A decoded packet carries its payload at the front of a 1228-byte array. *)
Definition packet_wf (s : Sniffer) (payload : list byte) (pkt : SniffPacket) : Prop :=
  SrcHandleName pkt = HandleName s /\ Payload pkt = fixed_array payload
  /\ Length pkt = Z.min UDPShredSize (zlen payload)
  /\ run_validators (validators s) payload = None.

Lemma DecodePacket_ok now s data pkt :
  DecodePacket DecodeLayers now s data = (pkt, None) ->
  exists srcIP payload, DecodeLayers data = Decoded 4 srcIP payload /\ packet_wf s payload pkt
    /\ SrcAddr pkt = (AddrFromSlice srcIP).1.
Proof.
  unfold DecodePacket. destruct (DecodeLayers data) as [|layers srcIP payload]; [done|].
  destruct (Z.eqb_spec layers 4) as [->|]; cbn [negb]; [|done].
  destruct (AddrFromSlice srcIP) as [src []] eqn:Ha; cbn [negb]; [|done].
  destruct (run_validators _ _) as [e|] eqn:Hv; [done|]. intros H.
  apply (f_equal fst) in H. cbn [fst] in H. subst pkt.
  exists srcIP, payload. unfold packet_wf. rewrite Ha. repeat split; done.
Qed.

(** The packets a run delivers, in the order of the frames. *)
Definition decoded_packet (s : Sniffer) (i : Z * bool * read_event * bool) : list SniffPacket :=
  match i with
  | (now, _, ReadData data, _) =>
      match DecodePacket DecodeLayers now s data with (pkt, None) => [pkt] | _ => [] end
  | _ => []
  end.

(** The source addresses of the invalid frames that have one. *)
Definition invalid_source (s : Sniffer) (i : Z * bool * read_event * bool) : list NetipAddr :=
  match i with
  | (now, _, ReadData data, _) =>
      match DecodePacket DecodeLayers now s data with
      | (pkt, Some _) => if IsUnspecified (SrcAddr pkt) then [] else [SrcAddr pkt]
      | _ => []
      end
  | _ => []
  end.

Definition send_all (c : channel SniffPacket) (l : list SniffPacket) : channel SniffPacket :=
  fold_left (fun c pkt => (try_send c pkt).2) l c.

Definition count_all (m : KeyedCounter NetipAddr) (l : list NetipAddr) : KeyedCounter NetipAddr :=
  fold_left (fun m a => kc_Increment a m) l m.

(** No end of file and no cancelled context among the inputs. *)
Definition undisturbed (i : Z * bool * read_event * bool) : bool :=
  match i with (_, done, ev, done') =>
    negb done && negb done' && match ev with ReadEOF => false | _ => true end
  end.

Lemma DecodePacket_same_config now s s' data :
  same_config s s' -> DecodePacket DecodeLayers now s data = DecodePacket DecodeLayers now s' data.
Proof. intros (Hn & _ & _ & Hv & _). unfold DecodePacket. by rewrite Hn, Hv. Qed.

Lemma decoded_packet_same_config s s' i :
  same_config s s' -> decoded_packet s i = decoded_packet s' i.
Proof.
  intros H. destruct i as [[[now d] [| |data]] d']; cbn; [done..|].
  by rewrite (DecodePacket_same_config now s s' data H).
Qed.

Lemma invalid_source_same_config s s' i :
  same_config s s' -> invalid_source s i = invalid_source s' i.
Proof.
  intros H. destruct i as [[[now d] [| |data]] d']; cbn; [done..|].
  by rewrite (DecodePacket_same_config now s s' data H).
Qed.

(** An iteration that goes on delivers exactly its frame's packet, one that returns nothing. *)
Lemma sniff_step_ch now done ev done' st :
  sn_ch (sniff_step DecodeLayers now done ev done' st).2
  = if (sniff_step DecodeLayers now done ev done' st).1
    then send_all (sn_ch st) (decoded_packet (sn st) (now, done, ev, done'))
    else sn_ch st.
Proof.
  unfold sniff_step. destruct done; [done|]. destruct ev as [| |data]; [done..|]. cbn.
  destruct (DecodePacket _ _ _ _) as [pkt [e|]]; repeat case_if; cbn in *; congruence.
Qed.

(** Every decoded packet is well formed. *)
Lemma decoded_packet_wf s i :
  Forall (fun pkt => exists payload, packet_wf s payload pkt) (decoded_packet s i).
Proof.
  destruct i as [[[now done] [| |data]] done']; cbn; [constructor..|].
  destruct (DecodePacket _ _ _ _) as [pkt [e|]] eqn:Hd; [constructor|].
  apply DecodePacket_ok in Hd as (srcIP & payload & _ & Hwf & _). constructor; [eauto|constructor].
Qed.

Lemma packet_wf_same_config s s' payload pkt :
  same_config s s' -> packet_wf s' payload pkt -> packet_wf s payload pkt.
Proof. intros (Hn & _ & _ & Hv & _). unfold packet_wf. by rewrite Hn, Hv. Qed.

(** A tolerant sniffer handles an undisturbed iteration completely. *)
Lemma sniff_step_tolerant i st :
  intolerant (sn st) = false -> dynamic (sn st) = false -> undisturbed i = true ->
  match i with (now, done, ev, done') =>
    (sniff_step DecodeLayers now done ev done' st).1 = true
    /\ sn_ch (sniff_step DecodeLayers now done ev done' st).2 = send_all (sn_ch st) (decoded_packet (sn st) i)
    /\ sn_invalid (sniff_step DecodeLayers now done ev done' st).2
       = if hasCounter (sn st) then count_all (sn_invalid st) (invalid_source (sn st) i) else sn_invalid st
  end.
Proof.
  intros Hi Hd. destruct i as [[[now done] ev] done']. cbn.
  rewrite !andb_true_iff, !negb_true_iff. intros [[-> ->] Hev].
  unfold sniff_step. destruct ev as [| |data]; [done|by destruct (hasCounter _)|]. cbn.
  destruct (DecodePacket _ _ _ _) as [pkt [e|]]; cbn; [|by destruct (hasCounter _)]. rewrite Hi, Hd. cbn.
  by destruct (IsUnspecified _), (hasCounter (sn st)).
Qed.

Lemma sniff_loop_cons now done ev done' inputs st :
  sniff_loop DecodeLayers ((now, done, ev, done') :: inputs) st
  = let r := sniff_step DecodeLayers now done ev done' st in
    if r.1 then sniff_loop DecodeLayers inputs r.2 else (false, r.2).
Proof. cbn [sniff_loop]. by destruct (sniff_step _ _ _ _ _ _). Qed.

(** The packets and the counted sources of a run. *)
Definition decoded_packets (s : Sniffer) (inputs : list (Z * bool * read_event * bool)) : list SniffPacket :=
  flat_map (decoded_packet s) inputs.

Definition invalid_sources (s : Sniffer) (inputs : list (Z * bool * read_event * bool)) : list NetipAddr :=
  flat_map (invalid_source s) inputs.

Lemma decoded_packets_same_config s s' inputs :
  same_config s s' -> decoded_packets s inputs = decoded_packets s' inputs.
Proof. intros H. apply flat_map_ext. intros i. by apply decoded_packet_same_config. Qed.

Lemma decoded_packets_cons s i inputs :
  decoded_packets s (i :: inputs) = decoded_packet s i ++ decoded_packets s inputs.
Proof. done. Qed.

Lemma invalid_sources_cons s i inputs :
  invalid_sources s (i :: inputs) = invalid_source s i ++ invalid_sources s inputs.
Proof. done. Qed.

Lemma invalid_sources_same_config s s' inputs :
  same_config s s' -> invalid_sources s inputs = invalid_sources s' inputs.
Proof. intros H. apply flat_map_ext. intros i. by apply invalid_source_same_config. Qed.

Lemma send_all_app c l1 l2 : send_all c (l1 ++ l2) = send_all (send_all c l1) l2.
Proof. apply fold_left_app. Qed.

Lemma count_all_app m l1 l2 : count_all m (l1 ++ l2) = count_all (count_all m l1) l2.
Proof. apply fold_left_app. Qed.

(** Whether a frame is read and rejected. *)
Definition rejects (s : Sniffer) (i : Z * bool * read_event * bool) : bool :=
  match i with
  | (now, _, ReadData data, _) =>
      match DecodePacket DecodeLayers now s data with (_, Some _) => true | _ => false end
  | _ => false
  end.

Definition count_rejects (s : Sniffer) (inputs : list (Z * bool * read_event * bool)) : Z :=
  zlen (List.filter (rejects s) inputs).

Lemma rejects_same_config s s' i : same_config s s' -> rejects s i = rejects s' i.
Proof.
  intros H. destruct i as [[[now d] [| |data]] d']; cbn; [done..|].
  by rewrite (DecodePacket_same_config now s s' data H).
Qed.

Lemma count_rejects_same_config s s' inputs :
  same_config s s' -> count_rejects s inputs = count_rejects s' inputs.
Proof.
  intros H. unfold count_rejects. f_equal. apply List.filter_ext. intros i.
  by apply rejects_same_config.
Qed.

Lemma count_rejects_cons s i inputs :
  count_rejects s (i :: inputs) = (if rejects s i then 1 else 0) + count_rejects s inputs.
Proof. unfold count_rejects, zlen. cbn. destruct (rejects s i); cbn [length]; lia. Qed.

(** The counters of a sniffer, small enough for [n] more frames without rounding. *)
Definition counts_ok (n : Z) (s : Sniffer) : Prop :=
  0 <= counter s /\ 0 <= invalidPackets s /\ counter s + invalidPackets s + n < 2 ^ 53.

(** A sniffer that stops on invalid packets, on an undisturbed iteration. *)
Lemma sniff_step_strict i st :
  intolerant (sn st) || dynamic (sn st) = true -> undisturbed i = true -> counts_ok 1 (sn st) ->
  match i with (now, done, ev, done') =>
    let r := sniff_step DecodeLayers now done ev done' st in
    sn_invalid r.2 = sn_invalid st
    /\ counter (sn r.2) = counter (sn st) + zlen (decoded_packet (sn st) i)
    /\ invalidPackets (sn r.2) = invalidPackets (sn st) + (if rejects (sn st) i then 1 else 0)
    /\ zlen (decoded_packet (sn st) i) + (if rejects (sn st) i then 1 else 0) <= 1
    /\ (r.1 = true <-> (rejects (sn st) i = true ->
          0 < counter (sn st) /\ 100 * (invalidPackets (sn st) + 1) < counter (sn st)))
  end.
Proof.
  intros Hst. destruct i as [[[now done] ev] done']. cbn.
  rewrite !andb_true_iff, !negb_true_iff. intros [[-> ->] Hev] (Hc & Hi & Hb).
  assert (i64 (invalidPackets (sn st) + 1) = invalidPackets (sn st) + 1) as Ei by (apply swrap_small; lia).
  assert (i64 (counter (sn st) + 1) = counter (sn st) + 1) as Ec by (apply swrap_small; lia).
  unfold sniff_step. destruct ev as [| |data]; [done| |].
  { cbn. split_and!; [done|unfold zlen; cbn; lia|lia|unfold zlen; cbn; lia|naive_solver]. }
  destruct (DecodePacket _ _ _ _) as [pkt [e|]]; rewrite ?Ei, ?Ec.
  - change (intolerant (with_counts _ _ (sn st))) with (intolerant (sn st)).
    change (dynamic (with_counts _ _ (sn st))) with (dynamic (sn st)). rewrite Hst.
    destruct (0 <? _) eqn:Hpos; cbn [andb with_counts counter] in Hpos.
    + apply Z.ltb_lt in Hpos. rewrite ratio_below_eq by (cbn [with_counts counter invalidPackets]; lia).
      cbn [with_counts counter invalidPackets andb].
      destruct (Z.ltb_spec (100 * (invalidPackets (sn st) + 1)) (counter (sn st))); cbn;
        (split_and!; [done|unfold zlen; cbn; lia|lia|unfold zlen; cbn; lia|]); naive_solver lia.
    + apply Z.ltb_ge in Hpos. cbn.
      split_and!; [done|unfold zlen; cbn; lia|lia|unfold zlen; cbn; lia|]. split; [done|]. naive_solver lia.
  - cbn. split_and!; [done|unfold zlen; cbn; lia|lia|unfold zlen; cbn; lia|naive_solver].
Qed.
End sniffer.

(** ** A concrete capture *)

(** A toy frame decoder: a leading zero byte is undecodable, otherwise the first byte is
    the last byte of the source address. *)
Definition demo_decode (data : list byte) : decode_result :=
  match data with
  | [] => DecodeErr
  | Byte.x00 :: _ => DecodeErr
  | b :: payload => Decoded 4 [Byte.x0a; Byte.x00; Byte.x00; b] payload
  end.

Definition demo_sniffer : Sniffer :=
  NewSniffer "in_8001"
    [WithPacketValidator (fun p => error_of (ValidateShredSizeSimple (zlen p))); WithInvalidPacketsCounter].

Definition demo_inputs : list (Z * bool * read_event * bool) :=
  [(1, false, ReadData (Byte.x05 :: replicate 1203 Byte.x01), false);
   (2, false, ReadError, false);
   (3, false, ReadData [Byte.x00; Byte.x01], false);
   (4, false, ReadData [Byte.x06; Byte.x01], false);
   (5, false, ReadData (Byte.x07 :: replicate 1228 Byte.x02), false)].

Definition demo_state (s : Sniffer) : sniff_state :=
  {| sn := s; sn_invalid := ∅; sn_ch := make_chan 100000 |}.

(** The intolerant sniffer stops at the third input, having accepted one frame. *)
Example demo_strict :
  let r := sniff_loop demo_decode demo_inputs (demo_state (WithIntolerant true demo_sniffer)) in
  (r.1, counter (sn r.2), invalidPackets (sn r.2), zlen (chan_buf (sn_ch r.2))) = (false, 1, 1, 1).
Proof. vm_compute. reflexivity. Qed.

(** The tolerant one accepts two frames and counts two sources: [10.0.0.6], and the zero
    address of the undecodable frame, which [IsUnspecified] does not recognise. *)
Example demo_tolerant :
  let r := sniff_loop demo_decode demo_inputs (demo_state demo_sniffer) in
  (r.1, counter (sn r.2), invalidPackets (sn r.2), zlen (chan_buf (sn_ch r.2)),
   sn_invalid r.2 !! ZeroAddr) = (true, 2, 2, 2, Some 1).
Proof. vm_compute. reflexivity. Qed.

(** ** Theorems *)

(** What a sniffer delivers.  Whatever the frames, read errors and cancellations,
    the channel at the end is the initial one after sending, in order, the packets of
    an initial part of the captured frames: nothing is invented, repeated or reordered.
    Each packet holds a datagram that every validator of the sniffer accepted, in front
    of its 1228-byte buffer, under the sniffer's handle name. *)
Theorem sniffer_delivers (DecodeLayers : list byte -> decode_result)
    (inputs : list (Z * bool * read_event * bool)) (st : sniff_state) :
  exists l, l `prefix_of` decoded_packets DecodeLayers (sn st) inputs
    /\ sn_ch (sniff_loop DecodeLayers inputs st).2 = send_all (sn_ch st) l
    /\ Forall (fun pkt => exists payload, packet_wf (sn st) payload pkt) l.
Proof.
  revert st. induction inputs as [|[[[now dn] ev] dn'] inputs IH]; intros st.
  { exists []. split_and!; [apply prefix_nil|done|constructor]. }
  rewrite sniff_loop_cons. cbn zeta.
  pose proof (sniff_step_config DecodeLayers now dn ev dn' st) as Hcfg.
  pose proof (sniff_step_ch DecodeLayers now dn ev dn' st) as Hch.
  destruct (sniff_step DecodeLayers now dn ev dn' st) as [[] st1]; cbn [fst snd] in *.
  - destruct (IH st1) as (l & Hl & Hs & Hf).
    exists (decoded_packet DecodeLayers (sn st) (now, dn, ev, dn') ++ l). split_and!.
    + rewrite decoded_packets_cons. apply prefix_app.
      by rewrite (decoded_packets_same_config _ (sn st) (sn st1)).
    + by rewrite Hs, Hch, send_all_app.
    + apply Forall_app; split; [apply decoded_packet_wf|].
      eapply List.Forall_impl; [|exact Hf]. intros pkt [payload Hp].
      exists payload. by apply (packet_wf_same_config (sn st) (sn st1)).
  - exists []. split_and!; [apply prefix_nil|done|constructor].
Qed.

(** C33: a tolerant sniffer loses nothing.  A sniffer that is neither intolerant nor
    dynamic keeps running through read errors and invalid frames: as long as the capture
    does not end and the context is not cancelled, every valid frame is offered to the
    channel in order.  The sources of invalid frames are counted exactly if a counter is
    attached: the listener attaches none to its tolerant sniffers, which count nothing. *)
Theorem tolerant_sniffer_complete (DecodeLayers : list byte -> decode_result)
    (inputs : list (Z * bool * read_event * bool)) (st : sniff_state) :
  intolerant (sn st) = false -> dynamic (sn st) = false -> forallb undisturbed inputs = true ->
  let r := sniff_loop DecodeLayers inputs st in
  r.1 = true
  /\ sn_ch r.2 = send_all (sn_ch st) (decoded_packets DecodeLayers (sn st) inputs)
  /\ sn_invalid r.2 = if hasCounter (sn st)
                      then count_all (sn_invalid st) (invalid_sources DecodeLayers (sn st) inputs)
                      else sn_invalid st.
Proof.
  revert st. induction inputs as [|[[[now dn] ev] dn'] inputs IH]; intros st Hi Hd; [by destruct (hasCounter _)|].
  cbn [forallb]. intros [Hu Hall]%andb_prop. rewrite sniff_loop_cons. cbn zeta.
  pose proof (sniff_step_config DecodeLayers now dn ev dn' st) as Hcfg.
  destruct (sniff_step_tolerant DecodeLayers (now, dn, ev, dn') st Hi Hd Hu) as (-> & Hch & Hinv).
  destruct (sniff_step _ _ _ _ _ _) as [go st1]. cbn [snd] in *.
  pose proof Hcfg as (Hn & Hi' & Hd' & Hv & Hc').
  destruct (IH st1) as (-> & -> & ->); [congruence..|done|].
  rewrite Hch, Hinv, Hc', decoded_packets_cons, invalid_sources_cons, send_all_app.
  split_and!; [done|f_equal; by apply decoded_packets_same_config, symmetry|].
  destruct (hasCounter (sn st)); [|done]. rewrite count_all_app. f_equal.
  by apply invalid_sources_same_config, symmetry.
Qed.

(** A sniffer as the listener starts it for the TVU port. *)
Definition demo_turbine_sniffer : Sniffer :=
  NewSniffer "in port 8001" [WithPacketValidator (fun p => error_of (ValidateShredSizeSimple (zlen p)))].

Lemma tolerant_sniffer_complete_witness :
  let r := sniff_loop demo_decode demo_inputs (demo_state demo_turbine_sniffer) in
  r.1 = true
  /\ sn_ch r.2 = send_all (make_chan 100000) (decoded_packets demo_decode demo_turbine_sniffer demo_inputs)
  /\ sn_invalid r.2 = ∅.
Proof.
  apply (tolerant_sniffer_complete demo_decode demo_inputs (demo_state demo_turbine_sniffer)); reflexivity.
Defined.

(** C26: when a strict sniffer stops.  An intolerant or dynamic sniffer is still running after
    a sequence of frames exactly when at each rejected frame at least one frame had been
    accepted and the rejected ones (this one included) were fewer than one percent of the
    accepted ones.  This holds as long as all frames together are fewer than 2^53, for the
    counters of the code and its [float64] quotient, which is rounded.  The sniffer never
    counts the source of an invalid frame. *)
Theorem strict_sniffer_stops_iff (DecodeLayers : list byte -> decode_result)
    (inputs : list (Z * bool * read_event * bool)) (st : sniff_state) :
  intolerant (sn st) || dynamic (sn st) = true -> forallb undisturbed inputs = true ->
  counts_ok (zlen inputs) (sn st) ->
  ((sniff_loop DecodeLayers inputs st).1 = true <->
    forall pre i post, inputs = pre ++ i :: post -> rejects DecodeLayers (sn st) i = true ->
      let good := counter (sn st) + zlen (decoded_packets DecodeLayers (sn st) pre) in
      let bad := invalidPackets (sn st) + count_rejects DecodeLayers (sn st) pre in
      0 < good /\ 100 * (bad + 1) < good)
  /\ sn_invalid (sniff_loop DecodeLayers inputs st).2 = sn_invalid st.
Proof.
  revert st. induction inputs as [|[[[now dn] ev] dn'] inputs IH]; intros st Hst.
  { split; [|done]. split; [|done]. by intros _ [|] i post. }
  cbn [forallb]. intros [Hu Hall]%andb_prop Hc0. rewrite sniff_loop_cons. cbn zeta.
  pose proof (sniff_step_config DecodeLayers now dn ev dn' st) as Hcfg.
  destruct (sniff_step_strict DecodeLayers (now, dn, ev, dn') st Hst Hu) as (Hinv & Hcnt & Hbad & Hone & Hgo).
  { unfold counts_ok, zlen in *. cbn [length] in Hc0. lia. }
  destruct (sniff_step _ _ _ _ _ _) as [go st1]. cbn [fst snd] in *.
  pose proof Hcfg as (Hn & Hi' & Hd' & Hv & Hc').
  destruct (IH st1) as [IH1 IH2]; [congruence|done| |].
  { unfold counts_ok, zlen in *. cbn [length] in Hc0. destruct (rejects _ _ _); lia. }
  destruct go; cbn [fst snd].
  - rewrite IH2. split; [|done]. rewrite IH1. split.
    + intros H [|i0 pre] i post; cbn [app]; intros Heq; injection Heq as <- Heq.
      * intros Hr. destruct (proj1 Hgo eq_refl Hr). cbn. unfold count_rejects, zlen. cbn. lia.
      * intros Hr. rewrite (rejects_same_config _ (sn st) (sn st1) i Hcfg) in Hr.
        specialize (H pre i post Heq Hr). cbn zeta in *.
        rewrite count_rejects_cons, decoded_packets_cons.
        rewrite (count_rejects_same_config _ (sn st) (sn st1) pre Hcfg).
        rewrite (decoded_packets_same_config _ (sn st) (sn st1) pre Hcfg).
        unfold zlen in *. rewrite length_app. lia.
    + intros H pre i post Heq Hr. rewrite <- (rejects_same_config _ (sn st) (sn st1) i Hcfg) in Hr.
      specialize (H ((now, dn, ev, dn') :: pre) i post). cbn [app] in H. rewrite Heq in H.
      specialize (H eq_refl Hr). cbn zeta in *.
      rewrite count_rejects_cons, decoded_packets_cons in H.
      rewrite (count_rejects_same_config _ (sn st) (sn st1) pre Hcfg) in H.
      rewrite (decoded_packets_same_config _ (sn st) (sn st1) pre Hcfg) in H.
      unfold zlen in *. rewrite length_app in H. lia.
  - split; [|congruence]. split; [done|]. intros H. apply Hgo. intros Hr.
    destruct (H [] (now, dn, ev, dn') inputs eq_refl Hr) as [H1 H2].
    cbn in H1, H2. unfold count_rejects, zlen in *. cbn in H1, H2. lia.
Qed.

Lemma strict_sniffer_stops_iff_witness :
  (sniff_loop demo_decode demo_inputs (demo_state (WithIntolerant true demo_sniffer))).1 = true <->
  forall pre i post, demo_inputs = pre ++ i :: post ->
    rejects demo_decode (WithIntolerant true demo_sniffer) i = true ->
    let good := 0 + zlen (decoded_packets demo_decode (WithIntolerant true demo_sniffer) pre) in
    let bad := 0 + count_rejects demo_decode (WithIntolerant true demo_sniffer) pre in
    0 < good /\ 100 * (bad + 1) < good.
Proof.
  apply (strict_sniffer_stops_iff demo_decode demo_inputs (demo_state (WithIntolerant true demo_sniffer)));
    [reflexivity|reflexivity|vm_compute; split; [|split]; easy].
Defined.
