(* ===== verification/NetListen.v ===== *)
(** * The network listener ([bxgateway/internal/netlisten/netlisten.go], [pkg/packet/handle_d.go])

    The listener keeps, for every captured port, a [portData] object reachable from two
    maps: [listenPorts] (by capture-handle name) and [portHandleMap] (by port, with the
    handle, nil once the handle was given up).  The objects are modelled as a heap, the
    contexts and pcap handles as identifiers.  The result of opening a handle, of scanning
    for ports and of reading the interface are inputs.  [Recv] is a set of handlers over
    the listener, the objects it shares with the gateway (deduplication cache and
    statistics), its output channel and its running sniffers. *)

From Stdlib Require Import QArith.
From S2P Require Import Prelude Strconv Shred AlterKey Udp Stats Sniffer.
Open Scope Z_scope.

(** ** Objects shared with the gateway *)

Record shared (C : Type) := mkShared { cache : C; stats : Stats }.
Arguments mkShared {C} _ _.
Arguments cache {C} _.
Arguments stats {C} _.

(** The sequence [RecordNewShred; cache.Set; RecordUnseenShred] of every receive path: the
    boolean tells whether the shred is to be forwarded. *)
Definition observe {C} `{DedupCache C} (src : NetipAddr) (nodeType : string) (shred : PartialShred)
    (sh : shared C) : bool * shared C :=
  let st := RecordNewShred src nodeType "" (stats sh) in
  let (fresh, c) := cache_Set (ShredKey (Slot shred) (Index shred) (PVariant shred)) (cache sh) in
  if fresh then (true, mkShared c (RecordUnseenShred src shred nodeType "" st))
  else (false, mkShared c st).

(** ** Port data *)

Record portData := mkPortData {
  pd_cancel : option nat;     (* the context whose cancel function it holds *)
  pd_outgoing : bool;
  pd_dynamic : bool;
  pd_port : Z
}.

Definition string_of_uint (z : Z) : string := String.string_of_list_byte (format_uint64 z).

(** [(pd *portData) String()] *)
Definition portData_String (pd : portData) : string :=
  ((if pd_outgoing pd then "out" else "in") +:+ " port " +:+ string_of_uint (pd_port pd))%string.

(** [NewUDPNetworkSniffHandle]: the handle and its name, the BPF expression.  The results
    of the pcap calls are inputs; [ip_String] is [net.IP.String]. *)
Record pcap_results := mkPcap {
  pc_inactive : option string;
  pc_immediate : option string;
  pc_activate : string + nat;
  pc_filter : string -> option string
}.

Definition handleExpr (ip_String : list byte -> string) (inet : list byte) (port : Z) (outgoing : bool)
    : string :=
  let dir : string := if outgoing then "src" else "dst" in
  ("udp and " +:+ dir +:+ " port " +:+ string_of_uint port +:+ " and " +:+ dir +:+ " host " +:+ ip_String inet)%string.

Definition NewUDPNetworkSniffHandle (ip_String : list byte -> string) (pcap : pcap_results)
    (inet : list byte) (port : Z) (outgoing : bool) : outcome string (nat * string) :=
  _ ← of_err (pc_inactive pcap);
  _ ← of_err (pc_immediate pcap);
  handle ← of_sum (pc_activate pcap);
  let expr := handleExpr ip_String inet port outgoing in
  _ ← of_err (pc_filter pcap expr);
  Ok (handle, expr).

(** [packetValidator] *)
Definition packetValidator_Validate (payload : list byte) : option shred_error :=
  error_of (ValidateShredSizeSimple (zlen payload)).

(** [inetAddr] on the addresses of the interface: the first IPv4 address that is not a
    loopback address. *)
Inductive iface_addr := IPNet (ip : list byte) | OtherNetAddr.

(** [net.IP.IsLoopback] *)
Definition IsLoopback (ip : list byte) : bool :=
  match To4 ip with
  | Some v4 => match v4 with b :: _ => bool_decide (b = Byte.x7f) | [] => false end
  | None => bool_decide (ip = replicate 15 Byte.x00 ++ [Byte.x01])
  end.

Fixpoint inetAddr_loop (addrs : list iface_addr) : outcome string (list byte) :=
  match addrs with
  | [] => Err "inet addr for interface not found"
  | IPNet ip :: addrs =>
      if negb (IsLoopback ip) then
        match To4 ip with Some ip4 => Ok ip4 | None => inetAddr_loop addrs end
      else inetAddr_loop addrs
  | OtherNetAddr :: addrs => inetAddr_loop addrs
  end.

Definition inetAddr (InterfaceByName : string + (string + list iface_addr))
    : outcome string (list byte) :=
  itf ← of_sum InterfaceByName;
  addrs ← of_sum itf;
  inetAddr_loop addrs.

(** ** The listener *)

Record NetworkListener := mkNL {
  localAddr : NetipAddr;
  nl_ip : list byte;
  stakedNodes : bool;
  inPort : Z;
  outPorts : list Z;
  serverPort : Z;
  pds : gmap nat portData;                        (* the portData objects *)
  nextId : nat;                                   (* next object or context *)
  cancelled : gset nat;                           (* contexts whose cancel function was called *)
  listenPorts : gmap string nat;                  (* handle name -> port data *)
  portHandleMap : gmap string (nat * option nat)  (* port -> port data, handle *)
}.

(** A sniffer that [registerNewSniffer] returned, with its context and its handle. *)
Record running := mkRunning { rn_sniffer : Sniffer; rn_ctx : nat; rn_handle : nat }.

Definition with_maps (heap : gmap nat portData) (next : nat) (canc : gset nat)
    (lp : gmap string nat) (ph : gmap string (nat * option nat)) (nl : NetworkListener) : NetworkListener :=
  mkNL (localAddr nl) (nl_ip nl) (stakedNodes nl) (inPort nl) (outPorts nl) (serverPort nl)
    heap next canc lp ph.

(** [&portData{...}] *)
Definition new_portData (p : portData) (nl : NetworkListener) : nat * NetworkListener :=
  (nextId nl, with_maps (<[nextId nl := p]> (pds nl)) (S (nextId nl)) (cancelled nl)
     (listenPorts nl) (portHandleMap nl) nl).

Section listener.
Context (ip_String : list byte -> string).

Definition registerNewSniffer (pcap : Z -> bool -> pcap_results) (pd : nat) (nl : NetworkListener)
    : outcome string running * NetworkListener :=
  match pds nl !! pd with
  | None => (Panic NilDereference, nl)
  | Some p =>
      match NewUDPNetworkSniffHandle ip_String (pcap (pd_port p) (pd_outgoing p))
              (nl_ip nl) (pd_port p) (pd_outgoing p) with
      | Err e => (Err e, nl)
      | Panic e => (Panic e, nl)
      | Ok (handle, handleName) =>
          let ctx := nextId nl in
          let p' := mkPortData (Some ctx) (pd_outgoing p) (pd_dynamic p) (pd_port p) in
          let opts := [WithPacketValidator packetValidator_Validate;
                       WithIntolerant (pd_outgoing p); WithDynamic (pd_dynamic p)]
                      ++ (if pd_outgoing p then [WithInvalidPacketsCounter] else []) in
          (Ok (mkRunning (NewSniffer handleName opts) ctx handle),
           with_maps (<[pd := p']> (pds nl)) (S ctx) (cancelled nl)
             (<[handleName := pd]> (listenPorts nl))
             (<[portData_String p' := (pd, Some handle)]> (portHandleMap nl)) nl)
      end
  end.

(** The sniffers created, and the error that stopped the loop if any. *)
Fixpoint registerNewSniffers (pcap : Z -> bool -> pcap_results) (outgoing : bool) (ports : list Z)
    (nl : NetworkListener) : outcome string (list running) * NetworkListener :=
  match ports with
  | [] => (Ok [], nl)
  | p :: ports =>
      let (pd, nl) := new_portData (mkPortData None outgoing false (u16 p)) nl in
      match registerNewSniffer pcap pd nl with
      | (Ok sniffer, nl) =>
          let (r, nl) := registerNewSniffers pcap outgoing ports nl in
          (sniffers ← r; Ok (sniffer :: sniffers), nl)
      | (Err e, nl) => (Err e, nl)
      | (Panic e, nl) => (Panic e, nl)
      end
  end.

(** The ports without an entry in [portHandleMap]. *)
Definition new_dynamic_ports (inPorts : list Z) (nl : NetworkListener) : list portData :=
  List.filter (fun pd => negb (bool_decide (is_Some (portHandleMap nl !! portData_String pd))))
    (map (fun p => mkPortData None false true (u16 p)) inPorts).

(** The loop over [pds]: a port that cannot be registered is skipped. *)
Fixpoint register_dynamic (pcap : Z -> bool -> pcap_results) (l : list portData) (nl : NetworkListener)
    : outcome string (list running) * NetworkListener :=
  match l with
  | [] => (Ok [], nl)
  | p :: l =>
      let (pd, nl) := new_portData p nl in
      match registerNewSniffer pcap pd nl with
      | (Ok sniffer, nl) =>
          let (r, nl) := register_dynamic pcap l nl in (sniffers ← r; Ok (sniffer :: sniffers), nl)
      | (Err _, nl) => register_dynamic pcap l nl
      | (Panic e, nl) => (Panic e, nl)
      end
  end.

(** [scan] is [ListPotentialUDPPorts] on the interface, given the excluded ports. *)
Definition createDynamicSniffers (scan : list Z -> string + list Z)
    (pcap : Z -> bool -> pcap_results) (nl : NetworkListener)
    : outcome string (list running) * NetworkListener :=
  match scan (outPorts nl ++ [inPort nl; serverPort nl]) with
  | inl _ => (Ok [], nl)
  | inr inPorts => register_dynamic pcap (new_dynamic_ports inPorts nl) nl
  end.

Definition registerSniffers (scan : list Z -> string + list Z)
    (pcap : Z -> bool -> pcap_results) (nl : NetworkListener)
    : outcome string (list running) * NetworkListener :=
  match (if 0 <? zlen (outPorts nl) then registerNewSniffers pcap true (outPorts nl) nl else (Ok [], nl)) with
  | (Ok outs, nl) =>
      match registerNewSniffers pcap false [inPort nl] nl with
      | (Ok ins, nl) =>
          if stakedNodes nl then
            let (r, nl) := createDynamicSniffers scan pcap nl in
            (dyn ← r; Ok (outs ++ ins ++ dyn), nl)
          else (Ok (outs ++ ins), nl)
      | r => r
      end
  | r => r
  end.

Definition NewNetworkListener (iface : string + (string + list iface_addr))
    (scan : list Z -> string + list Z) (pcap : Z -> bool -> pcap_results)
    (staked : bool) (inP : Z) (outPs : list Z) (serverP : Z)
    : outcome string (list running * NetworkListener) :=
  ip ← inetAddr iface;
  match To4 ip with
  | None => Panic SliceConversion
  | Some v4 =>
      let nl := mkNL (AddrFrom4 v4) ip staked inP outPs serverP ∅ 0 ∅ ∅ ∅ in
      let (r, nl) := registerSniffers scan pcap nl in
      sniffers ← r; Ok (sniffers, nl)
  end.

(** [(s *NetworkListener) Addr()]; the receiver may be nil. *)
Definition NetworkListener_Addr (s : option NetworkListener) : NetipAddr :=
  match s with None => ZeroAddr | Some nl => localAddr nl end.

(** ** [Recv] *)

(** What is sent to the gateway: [netlisten.Shred]. *)
Record NLShred := mkNLShred { Packet : SniffPacket; PShred : PartialShred }.

Definition invalidPacketsStatsInterval : Z := 5 * 60 * 1000000000.
Definition recvChBuf : Z := 100000.
Definition noOutgoingTrafficThreshold : Z := 6 * 3600 * 1000000000.

Section recv.
Context {C : Type} `{DedupCache C}.

(** The state of [Recv]: the listener, the shared objects, the output channel, the
    running sniffers (those the wait group counts), whether [sniffRecvCh] was closed, and
    when the ticker of missing outgoing traffic fires next. *)
Record recv_state := mkRecv {
  rv_nl : NetworkListener;
  rv_shared : shared C;
  rv_out : channel NLShred;
  rv_running : list running;
  rv_closed : bool;
  rv_next : Z
}.

Definition Recv_init (now : Z) (sniffers : list running) (nl : NetworkListener) (sh : shared C)
    (ch : channel NLShred) : recv_state :=
  mkRecv nl sh ch sniffers (bool_decide (sniffers = [])) (now + noOutgoingTrafficThreshold).

(** [case sp := <-sniffRecvCh] *)
Definition recv_packet (now : Z) (sp : SniffPacket) (st : recv_state) : outcome string recv_state :=
  let nl := rv_nl st in
  match listenPorts nl !! SrcHandleName sp with
  | None => Ok st
  | Some pd =>
      match pds nl !! pd with
      | None => Panic NilDereference
      | Some p =>
          match ParseShredPartial (Payload sp) (Length sp) with
          | Panic e => Panic e
          | Err _ =>
              if pd_outgoing p then
                match pd_cancel p with
                | None => Panic NilDereference
                | Some ctx =>
                    let nl := with_maps (pds nl) (nextId nl) ({[ctx]} ∪ cancelled nl)
                                (delete (SrcHandleName sp) (listenPorts nl))
                                (<[portData_String p := (pd, None)]> (portHandleMap nl)) nl in
                    Ok (mkRecv nl (rv_shared st) (rv_out st) (rv_running st) (rv_closed st) (rv_next st))
                end
              else Ok st
          | Ok shred =>
              let (fresh, sh) := observe (localAddr nl) "Turbine" shred (rv_shared st) in
              if negb fresh then
                Ok (mkRecv nl sh (rv_out st) (rv_running st) (rv_closed st) (rv_next st))
              else
                let next := if pd_outgoing p then now + noOutgoingTrafficThreshold else rv_next st in
                let out := (try_send (rv_out st) (mkNLShred sp shred)).2 in
                Ok (mkRecv nl sh out (rv_running st) (rv_closed st) next)
          end
      end
  end.

(** [case <-noOutgoingTraffic.C]: one entry of the port map, then all of them, in the
    order in which the map yields its keys. *)
Definition reopen (pcap : Z -> bool -> pcap_results) (key : string) (st : outcome string recv_state)
    : outcome string recv_state :=
  st ← st;
  match portHandleMap (rv_nl st) !! key with
  | None => Ok st
  | Some (_, Some _) => Ok st
  | Some (pd, None) =>
      match registerNewSniffer pcap pd (rv_nl st) with
      | (Err _, nl) =>
          Ok (mkRecv nl (rv_shared st) (rv_out st) (rv_running st) (rv_closed st) (rv_next st))
      | (Panic e, _) => Panic e
      | (Ok sniffer, nl) =>
          Ok (mkRecv nl (rv_shared st) (rv_out st) (sniffer :: rv_running st) (rv_closed st) (rv_next st))
      end
  end.

Definition recv_noOutgoing (keys : list string) (pcap : Z -> bool -> pcap_results) (st : recv_state)
    : outcome string recv_state :=
  let nl := rv_nl st in
  let st := mkRecv nl (rv_shared st) (rv_out st) (rv_running st) (rv_closed st)
              (rv_next st + noOutgoingTrafficThreshold) in
  fold_left (fun st key => reopen pcap key st) keys (Ok st).

(** The end of a sniffer's goroutine: the cleanup of a dynamic sniffer, and the wait
    group; the channel is closed when no sniffer is left. *)
Definition dynamic_cleanup (name : string) (nl : NetworkListener) : NetworkListener :=
  match listenPorts nl !! name with
  | None => nl
  | Some pd =>
      match pds nl !! pd with
      | None => nl
      | Some p =>
          with_maps (pds nl) (nextId nl)
            (match pd_cancel p with Some ctx => {[ctx]} ∪ cancelled nl | None => cancelled nl end)
            (delete name (listenPorts nl)) (delete (portData_String p) (portHandleMap nl)) nl
      end
  end.

(** [reopened] tells that the sniffer was started by the no-outgoing-traffic handler,
    whose goroutine runs no cleanup. *)
Definition sniffer_exit (i : nat) (reopened : bool) (st : recv_state) : recv_state :=
  match rv_running st !! i with
  | None => st
  | Some r =>
      let nl := if IsDynamic (rn_sniffer r) && negb reopened
                then dynamic_cleanup (HandleName (rn_sniffer r)) (rv_nl st) else rv_nl st in
      let rest := take i (rv_running st) ++ drop (S i) (rv_running st) in
      mkRecv nl (rv_shared st) (rv_out st) rest (rv_closed st || bool_decide (rest = [])) (rv_next st)
  end.

(** One tick of [startMonitoringOpenPorts]. *)
Definition monitor_tick (scan : list Z -> string + list Z) (pcap : Z -> bool -> pcap_results)
    (st : recv_state) : outcome string recv_state :=
  let (r, nl) := createDynamicSniffers scan pcap (rv_nl st) in
  sniffers ← r;
  Ok (mkRecv nl (rv_shared st) (rv_out st) (sniffers ++ rv_running st) (rv_closed st) (rv_next st)).

(** A running sniffer sends a packet: a send on a closed channel panics; the packet that
    was sent is received later, by [EvPacket]. *)
Definition sniffer_send (st : recv_state) : outcome string recv_state :=
  match rv_running st with
  | [] => Ok st
  | _ => if rv_closed st then Panic ExplicitPanic else Ok st
  end.

Inductive recv_event :=
  | EvSend
  | EvPacket (now : Z) (sp : SniffPacket)
  | EvNoOutgoing (keys : list string) (pcap : Z -> bool -> pcap_results)
  | EvExit (i : nat) (reopened : bool)
  | EvMonitor (scan : list Z -> string + list Z) (pcap : Z -> bool -> pcap_results).

Definition recv_step (e : recv_event) (st : recv_state) : outcome string recv_state :=
  match e with
  | EvSend => sniffer_send st
  | EvPacket now sp => recv_packet now sp st
  | EvNoOutgoing keys pcap => recv_noOutgoing keys pcap st
  | EvExit i reopened => Ok (sniffer_exit i reopened st)
  | EvMonitor scan pcap => monitor_tick scan pcap st
  end.

Definition recv_run (es : list recv_event) (st : recv_state) : outcome string recv_state :=
  fold_left (fun st e => st ← st; recv_step e st) es (Ok st).
End recv.
End listener.
Arguments recv_state C : clear implicits.

(** * Properties *)

Section invariants.
Context (ip_String : list byte -> string).
Implicit Types (nl : NetworkListener).

(** Every reference is allocated; a listening port data has its cancel function and is
    stored under its handle's name; an entry of the port map is stored under its port. *)
Record nl_ok nl : Prop := {
  nl_fresh id : (nextId nl <= id)%nat -> pds nl !! id = None;
  nl_listen name pd : listenPorts nl !! name = Some pd ->
    exists p ctx, pds nl !! pd = Some p /\ pd_cancel p = Some ctx
      /\ name = handleExpr ip_String (nl_ip nl) (pd_port p) (pd_outgoing p);
  nl_ports key pd h : portHandleMap nl !! key = Some (pd, h) ->
    exists p, pds nl !! pd = Some p /\ key = portData_String p;
  nl_cancelled id : id ∈ cancelled nl -> (id < nextId nl)%nat;
  nl_ctx pd p ctx : pds nl !! pd = Some p -> pd_cancel p = Some ctx -> (ctx < nextId nl)%nat
}.

Lemma nl_ok_alloc nl pd p : nl_ok nl -> pds nl !! pd = Some p -> (pd < nextId nl)%nat.
Proof.
  intros Hok Hp. destruct (Nat.lt_ge_cases pd (nextId nl)) as [|Hge]; [done|].
  by rewrite (nl_fresh nl Hok pd Hge) in Hp.
Qed.

Lemma new_portData_ok nl p :
  nl_ok nl -> pd_cancel p = None -> nl_ok (new_portData p nl).2 /\ pds (new_portData p nl).2 !! (new_portData p nl).1 = Some p.
Proof.
  intros Hok Hnone. split; [|cbn; apply lookup_insert_eq].
  destruct Hok as [Hf Hl Hp Hc Hx]. split; cbn.
  - intros id Hid. rewrite lookup_insert_ne by lia. apply Hf. lia.
  - intros name pd Hn. destruct (Hl _ _ Hn) as (q & ctx & Hq & ?). exists q, ctx. split; [|done].
    rewrite lookup_insert_ne; [done|]. intros <-. by rewrite Hf in Hq by lia.
  - intros key pd h Hk. destruct (Hp _ _ _ Hk) as (q & Hq & ?). exists q. split; [|done].
    rewrite lookup_insert_ne; [done|]. intros <-. by rewrite Hf in Hq by lia.
  - intros id Hid%Hc. lia.
  - intros pd q ctx. rewrite lookup_insert. case_decide; [intros [= <-]; congruence|].
    intros Hq Hctx. pose proof (Hx _ _ _ Hq Hctx). lia.
Qed.

(** The state after a successful registration of [pd]. *)
Definition registered (pd : nat) (p : portData) (handle : nat) nl : NetworkListener :=
  with_maps (<[pd := mkPortData (Some (nextId nl)) (pd_outgoing p) (pd_dynamic p) (pd_port p)]> (pds nl))
    (S (nextId nl)) (cancelled nl)
    (<[handleExpr ip_String (nl_ip nl) (pd_port p) (pd_outgoing p) := pd]> (listenPorts nl))
    (<[portData_String p := (pd, Some handle)]> (portHandleMap nl)) nl.

Lemma registerNewSniffer_cases pcap pd p nl :
  pds nl !! pd = Some p ->
  (exists e, registerNewSniffer ip_String pcap pd nl = (Err e, nl))
  \/ exists r, registerNewSniffer ip_String pcap pd nl = (Ok r, registered pd p (rn_handle r) nl)
       /\ rn_ctx r = nextId nl
       /\ HandleName (rn_sniffer r) = handleExpr ip_String (nl_ip nl) (pd_port p) (pd_outgoing p)
       /\ intolerant (rn_sniffer r) = pd_outgoing p /\ dynamic (rn_sniffer r) = pd_dynamic p
       /\ validators (rn_sniffer r) = [packetValidator_Validate]
       /\ hasCounter (rn_sniffer r) = pd_outgoing p.
Proof.
  intros Hp. unfold registerNewSniffer. rewrite Hp. unfold NewUDPNetworkSniffHandle.
  destruct (pc_inactive _); [left; by eexists|]. destruct (pc_immediate _); [left; by eexists|].
  destruct (pc_activate _) as [|handle]; [left; by eexists|]. cbn.
  destruct (pc_filter _ _); [left; by eexists|]. cbn. right.
  eexists (mkRunning _ _ handle). split; [reflexivity|].
  cbn. by destruct (pd_outgoing p).
Qed.

Lemma registered_ok pd p handle nl :
  nl_ok nl -> pds nl !! pd = Some p -> nl_ok (registered pd p handle nl).
Proof.
  set (p' := mkPortData (Some (nextId nl)) (pd_outgoing p) (pd_dynamic p) (pd_port p)).
  intros Hok Hpd. pose proof (nl_ok_alloc nl pd p Hok Hpd). destruct Hok as [Hf Hl Hp Hc Hx].
  split; cbn.
  - intros id Hid. rewrite lookup_insert_ne by lia. apply Hf. lia.
  - intros name pd'. rewrite lookup_insert. case_decide as Hn.
    + intros [= <-]. rewrite lookup_insert_eq. by exists p', (nextId nl).
    + intros Hn'. destruct (Hl _ _ Hn') as (q & ctx & Hq & Hctx & ->).
      rewrite lookup_insert. case_decide; [subst pd'|by exists q, ctx].
      rewrite Hpd in Hq. injection Hq as <-. by exists p', (nextId nl).
  - intros key pd' h. rewrite lookup_insert. case_decide as Hk.
    + intros [= <- <-]. rewrite lookup_insert_eq. by exists p'.
    + intros Hk'. destruct (Hp _ _ _ Hk') as (q & Hq & ->).
      rewrite lookup_insert. case_decide; [subst pd'|by exists q].
      rewrite Hpd in Hq. injection Hq as <-. by exists p'.
  - intros id Hid%Hc. lia.
  - intros pd' q ctx. rewrite lookup_insert. case_decide; [intros [= <-]; cbn; intros [= <-]; lia|].
    intros Hq Hctx. pose proof (Hx _ _ _ Hq Hctx). lia.
Qed.

Lemma registerNewSniffer_ok pcap pd p nl :
  nl_ok nl -> pds nl !! pd = Some p ->
  nl_ok (registerNewSniffer ip_String pcap pd nl).2
  /\ panics (registerNewSniffer ip_String pcap pd nl).1 = false.
Proof.
  intros Hok Hp. destruct (registerNewSniffer_cases pcap pd p nl Hp) as [[e ->]|(r & -> & _)]; [done|].
  cbn. split; [by apply registered_ok|done].
Qed.

Lemma registerNewSniffers_ok pcap outgoing ports nl :
  nl_ok nl ->
  nl_ok (registerNewSniffers ip_String pcap outgoing ports nl).2
  /\ panics (registerNewSniffers ip_String pcap outgoing ports nl).1 = false.
Proof.
  revert nl. induction ports as [|p ports IH]; intros nl Hok; [done|]. cbn [registerNewSniffers].
  destruct (new_portData_ok nl (mkPortData None outgoing false (u16 p)) Hok eq_refl) as [Hok1 Hp].
  destruct (new_portData _ nl) as [pd nl1]. cbn [fst snd] in *.
  destruct (registerNewSniffer_ok pcap pd _ nl1 Hok1 Hp) as [Hok2 Hnp].
  destruct (registerNewSniffer _ _ _ _) as [[r|e|e] nl2]; cbn [fst snd] in *; [|done..].
  destruct (IH nl2 Hok2) as [Hok3 Hnp3].
  destruct (registerNewSniffers _ _ _ _ _) as [[l|e|e] nl3]; cbn [fst snd] in *; done.
Qed.

Lemma register_dynamic_ok pcap l nl :
  nl_ok nl -> Forall (fun p => pd_cancel p = None) l ->
  nl_ok (register_dynamic ip_String pcap l nl).2
  /\ panics (register_dynamic ip_String pcap l nl).1 = false.
Proof.
  revert nl. induction l as [|p l IH]; intros nl Hok Hall; [done|]. apply list.Forall_cons in Hall as [Hnone Hall]. cbn [register_dynamic].
  destruct (new_portData_ok nl p Hok Hnone) as [Hok1 Hp].
  destruct (new_portData p nl) as [pd nl1]. cbn [fst snd] in *.
  destruct (registerNewSniffer_ok pcap pd _ nl1 Hok1 Hp) as [Hok2 Hnp].
  destruct (registerNewSniffer _ _ _ _) as [[r|e|e] nl2]; cbn [fst snd] in *; [|by apply IH|done].
  destruct (IH nl2 Hok2 Hall) as [Hok3 Hnp3].
  destruct (register_dynamic _ _ _ _) as [[l'|e|e] nl3]; cbn [fst snd] in *; done.
Qed.

Lemma createDynamicSniffers_ok scan pcap nl :
  nl_ok nl ->
  nl_ok (createDynamicSniffers ip_String scan pcap nl).2
  /\ panics (createDynamicSniffers ip_String scan pcap nl).1 = false.
Proof.
  intros Hok. unfold createDynamicSniffers. destruct (scan _); [done|].
  apply register_dynamic_ok; [done|]. apply List.Forall_forall. intros p Hp.
  by apply List.filter_In in Hp as [(q & <- & _)%in_map_iff _].
Qed.

Lemma registerSniffers_ok scan pcap nl :
  nl_ok nl ->
  nl_ok (registerSniffers ip_String scan pcap nl).2
  /\ panics (registerSniffers ip_String scan pcap nl).1 = false.
Proof.
  intros Hok. unfold registerSniffers.
  assert (forall r nl1, (if 0 <? zlen (outPorts nl)
      then registerNewSniffers ip_String pcap true (outPorts nl) nl else (Ok [], nl)) = (r, nl1) ->
    nl_ok nl1 /\ panics r = false) as Hout.
  { intros r nl1 Hr. case_if; [|by simplify_eq].
    destruct (registerNewSniffers_ok pcap true (outPorts nl) nl Hok) as [? ?]. by rewrite Hr in *. }
  destruct (if 0 <? _ then _ else _) as [[outs|e|e] nl1]; specialize (Hout _ _ eq_refl) as [Hok1 Hnp1];
    [|done..].
  destruct (registerNewSniffers_ok pcap false [inPort nl1] nl1 Hok1) as [Hok2 Hnp2].
  destruct (registerNewSniffers _ _ _ _ _) as [[ins|e|e] nl2]; cbn [fst snd] in *; [|done..].
  case_if; [|done].
  destruct (createDynamicSniffers_ok scan pcap nl2 Hok2) as [Hok3 Hnp3].
  by destruct (createDynamicSniffers _ _ _ _) as [[dyn|e|e] nl3].
Qed.

(** Giving up the handle of an outgoing port ([portHandleMap.Set(.., nil); Del; cancel]). *)
Definition gave_up (name : string) (pd : nat) (p : portData) (ctx : nat) nl : NetworkListener :=
  with_maps (pds nl) (nextId nl) ({[ctx]} ∪ cancelled nl) (delete name (listenPorts nl))
    (<[portData_String p := (pd, None)]> (portHandleMap nl)) nl.

Lemma gave_up_ok name pd p ctx nl :
  nl_ok nl -> pds nl !! pd = Some p -> pd_cancel p = Some ctx -> nl_ok (gave_up name pd p ctx nl).
Proof.
  intros [Hf Hl Hp Hc Hx] Hpd Hctx. split; cbn.
  - done.
  - intros name' pd'. rewrite lookup_delete_Some. intros [_ ?]. by apply Hl.
  - intros key pd' h. rewrite lookup_insert. case_decide; [|by apply Hp]. intros [= <- <-]. by exists p.
  - intros id. rewrite elem_of_union, elem_of_singleton. intros [->|?]; [eauto|by apply Hc].
  - done.
Qed.

Lemma dynamic_cleanup_ok name nl : nl_ok nl -> nl_ok (dynamic_cleanup name nl).
Proof.
  intros Hok. unfold dynamic_cleanup. destruct (listenPorts nl !! name) as [pd|] eqn:Hn; [|done].
  destruct (pds nl !! pd) as [p|] eqn:Hpd; [|done]. destruct Hok as [Hf Hl Hp Hc Hx]. split; cbn.
  - done.
  - intros name' pd'. rewrite lookup_delete_Some. intros [_ ?]. by apply Hl.
  - intros key pd' h. rewrite lookup_delete_Some. intros [_ ?]. by eapply Hp.
  - intros id. destruct (pd_cancel p) eqn:Hctx; [|by apply Hc].
    rewrite elem_of_union, elem_of_singleton. intros [->|?]; [eauto|by apply Hc].
  - done.
Qed.

Section recv.
Context {C : Type} `{DedupCacheLaws C}.
Implicit Types (st : recv_state C).

(** The four things that can happen to a received packet. *)
Lemma recv_packet_cases now sp st :
  nl_ok (rv_nl st) -> is_array1228 (Payload sp) ->
  (listenPorts (rv_nl st) !! SrcHandleName sp = None /\ recv_packet now sp st = Ok st)
  \/ exists pd p ctx, listenPorts (rv_nl st) !! SrcHandleName sp = Some pd
     /\ pds (rv_nl st) !! pd = Some p /\ pd_cancel p = Some ctx
     /\ ((is_Ok (ParseShredPartial (Payload sp) (Length sp)) = false
          /\ recv_packet now sp st = Ok (if pd_outgoing p
               then mkRecv (gave_up (SrcHandleName sp) pd p ctx (rv_nl st)) (rv_shared st) (rv_out st)
                      (rv_running st) (rv_closed st) (rv_next st)
               else st))
        \/ exists shred, ParseShredPartial (Payload sp) (Length sp) = Ok shred
          /\ let r := observe (localAddr (rv_nl st)) "Turbine" shred (rv_shared st) in
             recv_packet now sp st = Ok
               (mkRecv (rv_nl st) r.2
                  (if r.1 then (try_send (rv_out st) (mkNLShred sp shred)).2 else rv_out st)
                  (rv_running st) (rv_closed st)
                  (if r.1 && pd_outgoing p then now + noOutgoingTrafficThreshold else rv_next st))).
Proof.
  intros Hok Ha. unfold recv_packet.
  destruct (listenPorts (rv_nl st) !! _) as [pd|] eqn:Hn; [right|by left].
  destruct (nl_listen _ Hok _ _ Hn) as (p & ctx & Hp & Hctx & _).
  exists pd, p, ctx. split_and!; [done..|]. rewrite Hp.
  destruct (ParseShredPartial _ _) as [shred|e|e] eqn:Hparse.
  - right. exists shred. split; [done|]. destruct (observe _ _ _ _) as [[] sh]; cbn [fst snd negb andb]; [|done].
    by destruct (pd_outgoing p).
  - left. split; [done|]. destruct (pd_outgoing p); [|done]. by rewrite Hctx.
  - pose proof (ParseShredPartial_panics (Payload sp) (Length sp) Ha) as Hnp. by rewrite Hparse in Hnp.
Qed.

Lemma recv_packet_ok now sp st :
  nl_ok (rv_nl st) -> is_array1228 (Payload sp) ->
  exists st', recv_packet now sp st = Ok st' /\ nl_ok (rv_nl st')
    /\ rv_running st' = rv_running st /\ rv_closed st' = rv_closed st.
Proof.
  intros Hok Ha.
  destruct (recv_packet_cases now sp st Hok Ha)
    as [[_ ->]|(pd & p & ctx & _ & Hp & Hctx & [[_ ->]|(shred & _ & ->)])]; [by exists st| |].
  - eexists. split; [done|]. case_if; cbn; [|done]. split; [by apply gave_up_ok|done].
  - eexists. split; [done|]. by cbn.
Qed.

Lemma reopen_ok pcap key st :
  nl_ok (rv_nl st) ->
  exists st', reopen ip_String pcap key (Ok st) = Ok st' /\ nl_ok (rv_nl st')
    /\ (rv_running st <> [] -> rv_running st' <> []) /\ rv_closed st' = rv_closed st.
Proof.
  intros Hok. unfold reopen. rewrite bind_Ok.
  destruct (portHandleMap _ !! key) as [[pd [h|]]|] eqn:Hk; [by exists st| |by exists st].
  destruct (nl_ports _ Hok _ _ _ Hk) as (p & Hp & _).
  destruct (registerNewSniffer_cases pcap pd p (rv_nl st) Hp) as [[e ->]|(r & -> & _)].
  - eexists. split; [done|]. by cbn.
  - eexists. split; [done|]. cbn. split_and!; [by apply registered_ok|done|done].
Qed.

Lemma reopen_all_ok pcap (keys : list string) st :
  nl_ok (rv_nl st) ->
  exists st', fold_left (fun o key => reopen ip_String pcap key o) keys (Ok st) = Ok st'
    /\ nl_ok (rv_nl st') /\ (rv_running st <> [] -> rv_running st' <> []) /\ rv_closed st' = rv_closed st.
Proof.
  revert st. induction keys as [|key keys IH]; intros st Hok; [by exists st|]. cbn [fold_left].
  destruct (reopen_ok pcap key st Hok) as (st1 & -> & Hok1 & Hr1 & Hc1).
  destruct (IH st1 Hok1) as (st2 & -> & Hok2 & Hr2 & Hc2). exists st2. split_and!; [done|done|auto|congruence].
Qed.

Lemma recv_noOutgoing_ok pcap keys st :
  nl_ok (rv_nl st) ->
  exists st', recv_noOutgoing ip_String keys pcap st = Ok st' /\ nl_ok (rv_nl st')
    /\ rv_closed st' = rv_closed st.
Proof.
  intros Hok. unfold recv_noOutgoing.
  match goal with |- context [fold_left _ _ (Ok ?st0)] =>
    destruct (reopen_all_ok pcap keys st0 Hok) as (st1 & Hst1 & ? & ? & ?) end.
  by exists st1.
Qed.

Lemma sniffer_exit_nl_ok i reopened st : nl_ok (rv_nl st) -> nl_ok (rv_nl (sniffer_exit i reopened st)).
Proof.
  intros Hok. unfold sniffer_exit. destruct (rv_running st !! i); [|done]. cbn.
  case_if; [by apply dynamic_cleanup_ok|done].
Qed.

(** The channel of the sniffers is closed only when the last of them has returned. *)
Lemma sniffer_exit_closed i reopened st :
  rv_closed st = false -> rv_running (sniffer_exit i reopened st) <> [] ->
  rv_closed (sniffer_exit i reopened st) = false.
Proof.
  intros Hc. unfold sniffer_exit. destruct (rv_running st !! i); [|done]. cbn. intros Hr.
  by rewrite Hc, bool_decide_eq_false_2.
Qed.

Lemma monitor_tick_ok scan pcap st :
  nl_ok (rv_nl st) ->
  exists st', monitor_tick ip_String scan pcap st = Ok st' /\ nl_ok (rv_nl st')
    /\ rv_closed st' = rv_closed st.
Proof.
  intros Hok. unfold monitor_tick.
  destruct (createDynamicSniffers_ok scan pcap (rv_nl st) Hok) as [Hok1 Hnp].
  assert (exists l, (createDynamicSniffers ip_String scan pcap (rv_nl st)).1 = Ok l) as [l Hl].
  { unfold createDynamicSniffers in *. destruct (scan _); [by eexists|].
    generalize (new_dynamic_ports l (rv_nl st)). intros dp. clear.
    generalize (rv_nl st). induction dp as [|p dp IH]; intros nl; [by eexists|]. cbn [register_dynamic].
    destruct (new_portData p nl) as [pd nl1] eqn:Hnew. 
    assert (pds nl1 !! pd = Some p) as Hp by (injection Hnew as <- <-; cbn; apply lookup_insert_eq).
    destruct (registerNewSniffer_cases pcap pd p nl1 Hp) as [[e ->]|(r & -> & _)]; [apply IH|].
    specialize (IH (registered pd p (rn_handle r) nl1)) as [l' Hl'].
    destruct (register_dynamic _ _ _ _) as [q nl2]. cbn in *. subst q. by eexists. }
  destruct (createDynamicSniffers _ _ _ _) as [q nl1]. cbn in *. subst q. eexists. split; [done|]. by cbn.
Qed.

(** The inputs of a step, as far as Go's types constrain them. *)
Definition recv_event_ok (e : recv_event) : Prop :=
  match e with EvPacket _ sp => is_array1228 (Payload sp) | _ => True end.

Lemma recv_step_ok e st :
  nl_ok (rv_nl st) -> rv_closed st = false -> recv_event_ok e ->
  exists st', recv_step ip_String e st = Ok st' /\ nl_ok (rv_nl st')
    /\ (rv_running st' <> [] -> rv_closed st' = false).
Proof.
  intros Hok Hc Hev. destruct e as [|now sp|keys pcap|i reopened|scan pcap]; cbn in *.
  - unfold sniffer_send. rewrite Hc. exists st. by destruct (rv_running st).
  - destruct (recv_packet_ok now sp st Hok Hev) as (st' & ? & ? & _ & ?). exists st'.
    split_and!; [done|done|congruence].
  - destruct (recv_noOutgoing_ok pcap keys st Hok) as (st' & ? & ? & ?). exists st'.
    split_and!; [done|done|congruence].
  - eexists. split; [done|]. split; [by apply sniffer_exit_nl_ok|by apply sniffer_exit_closed].
  - destruct (monitor_tick_ok scan pcap st Hok) as (st' & ? & ? & ?). exists st'.
    split_and!; [done|done|congruence].
Qed.

Lemma recv_run_cons e es st :
  recv_run ip_String (e :: es) st = (st' ← recv_step ip_String e st; recv_run ip_String es st').
Proof.
  unfold recv_run. cbn [fold_left]. rewrite bind_Ok.
  destruct (recv_step _ _ _) as [st'|x|x]; [done| |]; rewrite ?bind_Err, ?bind_Panic.
  - induction es as [|e' es IH]; [done|]. apply IH.
  - induction es as [|e' es IH]; [done|]. apply IH.
Qed.

(** What re-opening ports keeps: the shared objects and the channel, the running sniffers,
    the cancelled contexts, the registered handle names and the open handles. *)
Record extends st st' : Prop := {
  ext_shared : rv_shared st' = rv_shared st;
  ext_out : rv_out st' = rv_out st;
  ext_running : rv_running st `suffix_of` rv_running st';
  ext_cancelled : cancelled (rv_nl st') = cancelled (rv_nl st);
  ext_ip : nl_ip (rv_nl st') = nl_ip (rv_nl st);
  ext_listen name : is_Some (listenPorts (rv_nl st) !! name) -> is_Some (listenPorts (rv_nl st') !! name);
  ext_pds pd p : pds (rv_nl st) !! pd = Some p ->
    exists p', pds (rv_nl st') !! pd = Some p' /\ pd_port p' = pd_port p
      /\ pd_outgoing p' = pd_outgoing p /\ pd_dynamic p' = pd_dynamic p;
  ext_ports key pd h : portHandleMap (rv_nl st) !! key = Some (pd, h) ->
    exists h', portHandleMap (rv_nl st') !! key = Some (pd, h') /\ (is_Some h -> h' = h)
}.

#[global] Instance extends_preorder : PreOrder extends.
Proof.
  split.
  - intros st. split; [done..| | | |]; eauto.
  - intros st1 st2 st3 [S1 O1 R1 C1 I1 L1 P1 K1] [S2 O2 R2 C2 I2 L2 P2 K2].
    split; [congruence|congruence|by etrans|congruence|congruence|auto| |].
    + intros pd p (p2 & Hp2 & ? & ? & ?)%P1. destruct (P2 _ _ Hp2) as (p3 & Hp3 & ? & ? & ?).
      exists p3. split_and!; [done|congruence..].
    + intros key pd h (h2 & Hk2 & Hh2)%K1. destruct (K2 _ _ _ Hk2) as (h3 & Hk3 & Hh3).
      exists h3. split; [done|]. intros Hh. specialize (Hh2 Hh). subst h2. auto.
Qed.

(** The state [reopen] gives when the registration of the nil entry [pd] succeeds. *)
Definition reopened_state (pd : nat) (p : portData) (r : running) st : recv_state C :=
  mkRecv (registered pd p (rn_handle r) (rv_nl st)) (rv_shared st) (rv_out st) (r :: rv_running st)
    (rv_closed st) (rv_next st).

Lemma reopened_extends pd p r st :
  pds (rv_nl st) !! pd = Some p ->
  portHandleMap (rv_nl st) !! portData_String p = Some (pd, None) ->
  extends st (reopened_state pd p r st).
Proof.
  intros Hp Hk. split; cbn; [done|done|by exists [r]|done|done| | |].
  - intros name [pd' Hn]. rewrite lookup_insert. case_decide; eauto.
  - intros pd' p' Hp'. rewrite lookup_insert. case_decide; [subst pd'|by exists p'].
    rewrite Hp in Hp'. injection Hp' as <-. by eexists.
  - intros key pd' h Hk'. rewrite lookup_insert. case_decide; [subst key|by exists h].
    rewrite Hk in Hk'. injection Hk' as <- <-. eexists. split; [done|]. by intros [? ?].
Qed.

Lemma reopen_extends pcap key st st' :
  nl_ok (rv_nl st) -> reopen ip_String pcap key (Ok st) = Ok st' -> extends st st'.
Proof.
  intros Hok. unfold reopen. rewrite bind_Ok.
  destruct (portHandleMap _ !! key) as [[pd [h|]]|] eqn:Hk; [by intros [= <-]| |by intros [= <-]].
  destruct (nl_ports _ Hok _ _ _ Hk) as (p & Hp & ->).
  destruct (registerNewSniffer_cases pcap pd p (rv_nl st) Hp) as [[e ->]|(r & -> & _)]; intros [= <-].
  - by destruct st.
  - by apply (reopened_extends pd p r st).
Qed.

Lemma reopen_all_extends pcap (keys : list string) st st' :
  nl_ok (rv_nl st) ->
  fold_left (fun o key => reopen ip_String pcap key o) keys (Ok st) = Ok st' -> extends st st'.
Proof.
  revert st. induction keys as [|key keys IH]; intros st Hok; cbn [fold_left]; [by intros [= <-]|].
  destruct (reopen_ok pcap key st Hok) as (st1 & Hst1 & Hok1 & _). rewrite Hst1. intros Hf.
  etrans; [by eapply reopen_extends|by apply IH].
Qed.

(** A capture that can be opened. *)
Definition pcap_works (c : pcap_results) : Prop :=
  pc_inactive c = None /\ pc_immediate c = None /\ (exists h, pc_activate c = inr h)
  /\ forall e, pc_filter c e = None.

Lemma registerNewSniffer_works pcap pd p nl :
  pds nl !! pd = Some p -> pcap_works (pcap (pd_port p) (pd_outgoing p)) ->
  exists r, registerNewSniffer ip_String pcap pd nl = (Ok r, registered pd p (rn_handle r) nl)
    /\ rn_ctx r = nextId nl
    /\ HandleName (rn_sniffer r) = handleExpr ip_String (nl_ip nl) (pd_port p) (pd_outgoing p).
Proof.
  intros Hp (H1 & H2 & [h H3] & H4).
  destruct (registerNewSniffer_cases pcap pd p nl Hp) as [[e He]|(r & ? & ? & ? & _)]; [|by exists r].
  exfalso. unfold registerNewSniffer, NewUDPNetworkSniffHandle in He.
  rewrite Hp, H1, H2, H3 in He. cbn in He. by rewrite H4 in He.
Qed.

(** The handler re-opens the nil entry of a port whose capture can be opened. *)
Lemma reopen_all_reopens pcap (keys : list string) st st' pd p :
  nl_ok (rv_nl st) -> pds (rv_nl st) !! pd = Some p ->
  portHandleMap (rv_nl st) !! portData_String p = Some (pd, None) -> portData_String p ∈ keys ->
  (forall port outgoing, pcap_works (pcap port outgoing)) ->
  fold_left (fun o key => reopen ip_String pcap key o) keys (Ok st) = Ok st' ->
  let name := handleExpr ip_String (nl_ip (rv_nl st)) (pd_port p) (pd_outgoing p) in
  is_Some (listenPorts (rv_nl st') !! name)
  /\ (exists h, portHandleMap (rv_nl st') !! portData_String p = Some (pd, Some h))
  /\ exists r, r ∈ rv_running st' /\ HandleName (rn_sniffer r) = name /\ rn_ctx r ∉ cancelled (rv_nl st').
Proof.
  intros Hok Hp Hk Hin Hw. revert st p Hok Hp Hk Hin.
  induction keys as [|key keys IH]; intros st p Hok Hp Hk Hin; [by apply not_elem_of_nil in Hin|].
  cbn [fold_left]. destruct (decide (key = portData_String p)) as [->|Hne].
  - unfold reopen at 2. rewrite bind_Ok, Hk.
    destruct (registerNewSniffer_works pcap pd p (rv_nl st) Hp (Hw _ _)) as (r & -> & Hctx & Hname).
    intros Hf. change (mkRecv _ _ _ _ _ _) with (reopened_state pd p r st) in Hf.
    apply reopen_all_extends in Hf as [_ _ [l Hl] Hc _ Hlis _ Hpor]; [|by apply registered_ok].
    cbn in Hc, Hl. cbn zeta. split_and!.
    + apply Hlis. cbn. rewrite lookup_insert_eq. by eexists.
    + destruct (Hpor (portData_String p) pd (Some (rn_handle r))) as (h' & ? & Hh').
      { apply lookup_insert_eq. }
      exists (rn_handle r). by rewrite <- (Hh' ltac:(by eexists)).
    + exists r. split_and!; [rewrite Hl; set_solver|done|]. rewrite Hc, Hctx.
      intros Hlt%(nl_cancelled _ Hok). lia.
  - destruct (reopen_ok pcap key st Hok) as (st1 & Hst1 & Hok1 & _). rewrite Hst1. intros Hf.
    assert (portHandleMap (rv_nl st1) !! portData_String p = Some (pd, None)
      /\ nl_ip (rv_nl st1) = nl_ip (rv_nl st)) as [Hk1 Hip].
    { revert Hst1. unfold reopen. rewrite bind_Ok.
      destruct (portHandleMap _ !! key) as [[pd' [h|]]|] eqn:Hk'; [by intros [= <-]| |by intros [= <-]].
      destruct (nl_ports _ Hok _ _ _ Hk') as (p' & Hp' & ->).
      destruct (registerNewSniffer_cases pcap pd' p' (rv_nl st) Hp') as [[e ->]|(r & -> & _)]; intros [= <-].
      - done.
      - cbn. by rewrite lookup_insert_ne. }
    pose proof (reopen_extends pcap key st st1 Hok Hst1) as Hext.
    destruct (ext_pds _ _ Hext _ _ Hp) as (p1 & Hp1 & Hport & Hout & _).
    assert (portData_String p1 = portData_String p) as Hs
      by (unfold portData_String; by rewrite Hport, Hout).
    specialize (IH st1 p1 Hok1 Hp1). rewrite Hs, Hport, Hout, Hip in IH.
    apply IH; [done|set_solver|done].
Qed.
End recv.

Lemma empty_nl_ok a ip staked inP outPs serverP : nl_ok (mkNL a ip staked inP outPs serverP ∅ 0 ∅ ∅ ∅).
Proof. by split. Qed.

Lemma NewNetworkListener_ok iface scan pcap staked inP outPs serverP sniffers nl :
  NewNetworkListener ip_String iface scan pcap staked inP outPs serverP = Ok (sniffers, nl) -> nl_ok nl.
Proof.
  unfold NewNetworkListener. intros H. invert_outcome. destruct (To4 _) as [v4|]; [|done].
  match type of H0 with context [registerSniffers _ _ _ ?nl0] =>
    pose proof (registerSniffers_ok scan pcap nl0 (empty_nl_ok _ _ _ _ _ _)) as [Hok _];
    destruct (registerSniffers _ _ _ nl0) as [r nl1] end.
  invert_outcome. by simplify_eq.
Qed.

(** ** Dynamic ports *)

(** What registering dynamic ports adds: each new sniffer captures one of the ports, which
    had no entry, and existing entries are left alone. *)
Lemma register_dynamic_spec pcap l sniffers nl nl' :
  Forall (fun p => portHandleMap nl !! portData_String p = None) l ->
  NoDup (map portData_String l) ->
  register_dynamic ip_String pcap l nl = (Ok sniffers, nl') ->
  nl_ip nl' = nl_ip nl
  /\ (forall key, key ∉ map portData_String l -> portHandleMap nl' !! key = portHandleMap nl !! key)
  /\ exists opened, opened `sublist_of` l
     /\ map (fun r => HandleName (rn_sniffer r)) sniffers
        = map (fun p => handleExpr ip_String (nl_ip nl) (pd_port p) (pd_outgoing p)) opened
     /\ map (fun r => dynamic (rn_sniffer r)) sniffers = map pd_dynamic opened.
Proof.
  revert sniffers nl. induction l as [|p l IH]; intros sniffers nl Hnone Hnd.
  { intros [= <- <-]. split_and!; [done|done|]. by exists []. }
  apply list.Forall_cons in Hnone as [Hp Hnone]. cbn [map] in Hnd. apply list.NoDup_cons in Hnd as [Hnin Hnd].
  cbn [register_dynamic].
  destruct (new_portData p nl) as [pd nl1] eqn:Hnew.
  assert (pds nl1 !! pd = Some p /\ portHandleMap nl1 = portHandleMap nl /\ nl_ip nl1 = nl_ip nl)
    as (Hpd & Hphm & Hip) by (injection Hnew as <- <-; cbn; by rewrite lookup_insert_eq).
  destruct (registerNewSniffer_cases pcap pd p nl1 Hpd) as [[e ->]|(r & -> & _ & Hname & _ & Hdyn & _)].
  - intros Hr. rewrite <- Hphm in Hnone. destruct (IH _ _ Hnone Hnd Hr) as (Hip' & Hk & opened & Hsub & Hn & Hd).
    rewrite Hphm, Hip in *. split_and!; [done| |].
    + intros key [_ Hkey]%not_elem_of_cons. by apply Hk.
    + exists opened. split_and!; [by apply sublist_cons|done|done].
  - destruct (register_dynamic _ _ _ _) as [q nl2] eqn:Hr. intros Hq. injection Hq as Hq <-.
    invert_outcome. subst.
    assert (Forall (fun p' => portHandleMap (registered pd p (rn_handle r) nl1) !! portData_String p' = None) l)
      as Hnone'.
    { apply List.Forall_forall. intros p' Hin. cbn. rewrite lookup_insert_ne.
      - rewrite Hphm. by apply (proj1 (List.Forall_forall _ _) Hnone).
      - intros Heq. apply Hnin. rewrite Heq. by apply list_elem_of_In, in_map. }
    destruct (IH _ _ Hnone' Hnd Hr) as (Hip' & Hk & opened & Hsub & Hn & Hd).
    cbn in Hip'. rewrite Hip in *. split_and!; [done| |].
    + intros key [Hne Hkey]%not_elem_of_cons. rewrite Hk by done. cbn.
      rewrite lookup_insert_ne by done. by rewrite Hphm.
    + exists (p :: opened). cbn in Hn. rewrite Hip in Hn. cbn [map]. rewrite Hname, Hdyn, Hn, Hd.
      split_and!; [by apply sublist_skip|done|done].
Qed.

(** The strings of ports of one direction differ. *)
Lemma string_of_uint_inj z1 z2 :
  0 <= z1 < 2 ^ 64 -> 0 <= z2 < 2 ^ 64 -> string_of_uint z1 = string_of_uint z2 -> z1 = z2.
Proof.
  intros H1 H2 Heq. unfold string_of_uint in Heq. apply (f_equal String.list_byte_of_string) in Heq.
  rewrite !String.list_byte_of_string_of_list_byte in Heq. by apply format_uint64_inj.
Qed.

Definition dynamic_port (p : Z) : portData := mkPortData None false true (u16 p).

Lemma dynamic_port_String_inj p1 p2 :
  0 <= p1 < 65536 -> 0 <= p2 < 65536 ->
  portData_String (dynamic_port p1) = portData_String (dynamic_port p2) -> p1 = p2.
Proof.
  intros H1 H2 Heq. cbn in Heq. injection Heq as Heq.
  rewrite !wrap_small in Heq by lia. apply string_of_uint_inj in Heq; lia.
Qed.

Lemma new_dynamic_ports_NoDup inPorts nl :
  NoDup inPorts -> Forall (fun p => 0 <= p < 65536) inPorts ->
  NoDup (map portData_String (new_dynamic_ports inPorts nl)).
Proof.
  intros Hnd Hr. unfold new_dynamic_ports. fold dynamic_port.
  induction inPorts as [|p inPorts IH]; [constructor|].
  apply list.NoDup_cons in Hnd as [Hnin Hnd]. apply list.Forall_cons in Hr as [Hp Hr].
  cbn [map List.filter]. case_if; [|by apply IH]. cbn [map]. apply list.NoDup_cons. split; [|by apply IH].
  intros Hin%list_elem_of_In. apply in_map_iff in Hin as (q & Heq & Hq).
  apply List.filter_In in Hq as [(p' & <- & Hp')%in_map_iff _].
  apply dynamic_port_String_inj in Heq; [|by apply (proj1 (List.Forall_forall _ _) Hr)|done].
  subst p'. by apply Hnin, list_elem_of_In.
Qed.
End invariants.

(** ** A concrete listener *)

Definition demo_ip_String (ip : list byte) : string := "10.0.0.1".

Definition demo_pcap (port : Z) (outgoing : bool) : pcap_results :=
  mkPcap None None (inr 1%nat) (fun _ => None).

Lemma demo_pcap_works port outgoing : pcap_works (demo_pcap port outgoing).
Proof. repeat split. by eexists. Qed.

Definition demo_iface : string + (string + list iface_addr) :=
  inr (inr [OtherNetAddr; IPNet [Byte.x7f; Byte.x00; Byte.x00; Byte.x01];
            IPNet [Byte.x0a; Byte.x00; Byte.x00; Byte.x01]]).

Definition demo_scan (excluded : list Z) : string + list Z := inr [8003; 8004].

Definition demo_new : outcome string (list running * NetworkListener) :=
  NewNetworkListener demo_ip_String demo_iface demo_scan demo_pcap true 8001 [8010] 18888.

Definition demo_nl : NetworkListener :=
  match demo_new with Ok (_, nl) => nl | _ => mkNL ZeroAddr [] false 0 [] 0 ∅ 0 ∅ ∅ ∅ end.

Definition demo_sniffers : list running := match demo_new with Ok (l, _) => l | _ => [] end.

Lemma demo_new_eq : demo_new = Ok (demo_sniffers, demo_nl).
Proof.
  assert (is_Ok demo_new = true) as Hok by (vm_compute; reflexivity).
  unfold demo_sniffers, demo_nl. by destruct demo_new as [[l nl]| |].
Qed.

Lemma demo_nl_ok : nl_ok demo_ip_String demo_nl.
Proof.
  exact (NewNetworkListener_ok demo_ip_String demo_iface demo_scan demo_pcap true 8001 [8010] 18888
    demo_sniffers demo_nl demo_new_eq).
Qed.

Definition demo_recv : recv_state AlterKey :=
  Recv_init 0 demo_sniffers demo_nl (mkShared NewAlterKey (newStats false)) (make_chan 100000).

(** One static sniffer per port, then the two dynamic ones. *)
Example demo_names :
  map (fun r => (HandleName (rn_sniffer r), intolerant (rn_sniffer r), dynamic (rn_sniffer r))) demo_sniffers
  = [("udp and src port 8010 and src host 10.0.0.1", true, false);
     ("udp and dst port 8001 and dst host 10.0.0.1", false, false);
     ("udp and dst port 8003 and dst host 10.0.0.1", false, true);
     ("udp and dst port 8004 and dst host 10.0.0.1", false, true)]%string.
Proof. vm_compute. reflexivity. Qed.

(** A second scan, which sees a known port and a new one. *)
Definition demo_rescan : list running * NetworkListener :=
  match createDynamicSniffers demo_ip_String (fun _ => inr [8004; 8005]) demo_pcap demo_nl with
  | (Ok l, nl) => (l, nl)
  | (_, nl) => ([], nl)
  end.

(** A packet captured on the outgoing port that is not a shred, and a sample shred. *)
Definition demo_bad_packet : SniffPacket :=
  mkSniffPacket ZeroAddr "udp and src port 8010 and src host 10.0.0.1"
    (replicate (Z.to_nat UDPShredSize) Byte.x00) 1203 1.

Definition demo_good_packet : SniffPacket :=
  mkSniffPacket ZeroAddr "udp and dst port 8001 and dst host 10.0.0.1" sample_shred 1203 1.

(** A trace in which the outgoing sniffer ends. *)
Definition demo_trace : list recv_event := [EvSend; EvPacket 1 demo_bad_packet; EvExit 0 false; EvSend].

Definition is_nil {A} (l : list A) : bool := match l with [] => true | _ => false end.

Definition alive_after (n : nat) : bool :=
  match recv_run demo_ip_String (take n demo_trace) demo_recv with
  | Ok st => negb (is_nil (rv_running st))
  | _ => true
  end.

Lemma alive_all : forallb alive_after (seq 0 5) = true.
Proof. vm_compute. reflexivity. Qed.

Lemma demo_trace_alive pre post st' :
  demo_trace = pre ++ post -> recv_run demo_ip_String pre demo_recv = Ok st' -> rv_running st' <> [].
Proof.
  intros Heq Hrun Hnil. assert (take (length pre) demo_trace = pre) as Ht by (rewrite Heq; apply take_app_length).
  assert (In (length pre) (seq 0 5)) as Hin.
  { apply in_seq. apply (f_equal length) in Heq. rewrite length_app in Heq. cbn [demo_trace length] in Heq. lia. }
  pose proof (proj1 (forallb_forall _ _) alive_all _ Hin) as Hb. unfold alive_after in Hb.
  by rewrite Ht, Hrun, Hnil in Hb.
Qed.

(** ** Theorems *)

(** The listener never panics.  From any listener that [NewNetworkListener] built, over
    every interleaving of packets, no-outgoing-traffic ticks, sniffer exits and port
    scans in which some sniffer is left at each point, every step succeeds: no nil port
    data or cancel function is dereferenced and no sniffer sends on a closed channel. *)
Theorem Recv_never_panics (ip_String : list byte -> string)
    (iface : string + (string + list iface_addr)) (scan : list Z -> string + list Z)
    (pcap : Z -> bool -> pcap_results) (staked : bool) (inP : Z) (outPs : list Z) (serverP : Z)
    (sniffers : list running) (nl : NetworkListener) (now : Z) (sh : shared AlterKey)
    (ch : channel NLShred) (es : list recv_event) :
  NewNetworkListener ip_String iface scan pcap staked inP outPs serverP = Ok (sniffers, nl) ->
  Forall recv_event_ok es ->
  let st := Recv_init now sniffers nl sh ch in
  (forall pre post st', es = pre ++ post -> recv_run ip_String pre st = Ok st' -> rv_running st' <> []) ->
  exists st', recv_run ip_String es st = Ok st' /\ nl_ok ip_String (rv_nl st').
Proof.
  intros Hnew. pose proof (NewNetworkListener_ok _ _ _ _ _ _ _ _ _ _ Hnew) as Hok.
  intros Hes st Hrun.
  assert (nl_ok ip_String (rv_nl st)) as Hst by done.
  assert (rv_closed st = false) as Hc.
  { cbn. apply bool_decide_eq_false_2. intros ->. by apply (Hrun [] es st eq_refl eq_refl). }
  clearbody st. clear Hnew Hok sniffers nl now sh ch. revert st Hst Hc Hrun.
  induction es as [|e es IH]; intros st Hst Hc Hrun; [by exists st|].
  apply list.Forall_cons in Hes as [He Hes]. rewrite recv_run_cons.
  destruct (recv_step_ok ip_String e st Hst Hc He) as (st1 & Hs1 & Hok1 & Hc1).
  rewrite Hs1, bind_Ok. apply IH; [done|done| |].
  - apply Hc1, (Hrun [e] es st1 eq_refl). by rewrite recv_run_cons, Hs1.
  - intros pre post st' -> Hpre. apply (Hrun (e :: pre) post st' eq_refl).
    by rewrite recv_run_cons, Hs1.
Qed.

Lemma Recv_never_panics_witness :
  exists st', recv_run demo_ip_String demo_trace demo_recv = Ok st' /\ nl_ok demo_ip_String (rv_nl st').
Proof.
  refine (Recv_never_panics demo_ip_String demo_iface demo_scan demo_pcap true 8001 [8010] 18888
    demo_sniffers demo_nl 0 (mkShared NewAlterKey (newStats false)) (make_chan 100000)
    demo_trace demo_new_eq _ _).
  - repeat constructor.
  - intros pre post st' Heq Hrun. exact (demo_trace_alive pre post st' Heq Hrun).
Defined.

(** C9: what [Recv] forwards.  A packet received from a sniffer leads to exactly one more
    element of the output channel - the packet itself with its parsed header - when its
    handle is registered, it parses, its key is not in the cache and the channel has room;
    otherwise the channel is unchanged.  In all cases a key that was forwarded or dropped
    for lack of room is in the cache, so that the same shred is not forwarded again. *)
Theorem recv_packet_forwards {C : Type} {cache0 : DedupCache C} {laws : DedupCacheLaws C}
    (ip_String : list byte -> string) (now : Z) (sp : SniffPacket) (st : recv_state C) :
  nl_ok ip_String (rv_nl st) -> is_array1228 (Payload sp) ->
  exists st', recv_packet now sp st = Ok st' /\
  let key shred := ShredKey (Slot shred) (Index shred) (PVariant shred) in
  let accepts shred := is_Some (listenPorts (rv_nl st) !! SrcHandleName sp)
    /\ ParseShredPartial (Payload sp) (Length sp) = Ok shred in
  (forall x, chan_buf (rv_out st') = chan_buf (rv_out st) ++ [x] <->
     exists shred, x = mkNLShred sp shred /\ accepts shred
       /\ ~ cache_seen (key shred) (cache (rv_shared st))
       /\ zlen (chan_buf (rv_out st)) < chan_cap (rv_out st))
  /\ (chan_buf (rv_out st') = chan_buf (rv_out st)
      \/ exists x, chan_buf (rv_out st') = chan_buf (rv_out st) ++ [x])
  /\ (forall shred, accepts shred -> cache_seen (key shred) (cache (rv_shared st'))).
Proof.
  intros Hok Ha.
  assert (forall (l : list NLShred) x, l <> l ++ [x]) as Happ.
  { intros l x Hl. apply (f_equal length) in Hl. rewrite length_app in Hl. cbn in Hl. lia. }
  destruct (recv_packet_cases ip_String now sp st Hok Ha)
    as [[Hn ->]|(pd & p & ctx & Hn & Hp & Hctx & [[Hno ->]|(shred & Hs & ->)])]; eexists; (split; [done|]); cbn zeta.
  - rewrite Hn. split_and!; [|by left|].
    + intros x. split; [by intros ?%Happ|]. by intros (? & _ & [[? ?] _] & _).
    + by intros ? [[? ?] _].
  - split_and!; [|left; by case_if|].
    + intros x. split; [case_if; by intros ?%Happ|].
      intros (shred & _ & [_ Hs] & _). by rewrite Hs in Hno.
    + intros shred [_ Hs]. by rewrite Hs in Hno.
  - cbn [rv_out rv_shared]. unfold observe.
    pose proof (cache_Set_fresh (ShredKey (Slot shred) (Index shred) (PVariant shred)) (cache (rv_shared st))) as Hf.
    pose proof (cache_Set_seen_self (ShredKey (Slot shred) (Index shred) (PVariant shred)) (cache (rv_shared st))) as Hself.
    destruct (cache_Set _ _) as [[] c]; cbn [fst snd cache] in *.
    + rewrite try_send_buf, try_send_room. split_and!.
      * intros x. destruct (Z.ltb_spec (zlen (chan_buf (rv_out st))) (chan_cap (rv_out st))); split.
        -- intros [_ [= <-]]%app_inj_2; [|done]. exists shred. rewrite Hn. split_and!; [done|eauto|done|tauto|done].
        -- intros (shred' & -> & [_ Hs'] & _). rewrite Hs in Hs'. by injection Hs' as <-.
        -- by intros ?%Happ.
        -- intros (_ & _ & _ & _ & ?). lia.
      * case_if; eauto.
      * intros shred' [_ Hs']. rewrite Hs in Hs'. by injection Hs' as <-.
    + split_and!; [|by left|].
      * intros x. split; [by intros ?%Happ|]. intros (shred' & _ & [_ Hs'] & Hns & _).
        rewrite Hs in Hs'. injection Hs' as <-. by apply Hf in Hns.
      * intros shred' [_ Hs']. rewrite Hs in Hs'. by injection Hs' as <-.
Qed.

Lemma recv_packet_forwards_witness :
  exists st', recv_packet 1 demo_good_packet demo_recv = Ok st'.
Proof.
  destruct (recv_packet_forwards demo_ip_String 1 demo_good_packet demo_recv demo_nl_ok) as (st' & Hst & _).
  - vm_compute. reflexivity.
  - exists st'. exact Hst.
Defined.

(** The sample shred is forwarded once. *)
Example demo_forward_once :
  match recv_run demo_ip_String [EvPacket 1 demo_good_packet; EvPacket 2 demo_good_packet] demo_recv with
  | Ok st => zlen (chan_buf (rv_out st)) = 1
  | _ => False
  end.
Proof. vm_compute. reflexivity. Qed.

(** C14: giving up and re-opening an outgoing port.  An unparseable packet from an outgoing
    port cancels that port's sniffer, records nothing and forwards nothing; packets still
    buffered from its handle are ignored; and the next no-outgoing-traffic tick opens the
    port again, under the same handle name and with a context that is not cancelled. *)
Theorem outgoing_port_quarantine {C : Type} {cache0 : DedupCache C} {laws : DedupCacheLaws C}
    (ip_String : list byte -> string) (now : Z) (sp : SniffPacket) (st : recv_state C)
    (pd : nat) (p : portData) (ctx : nat) (keys : list string) (pcap : Z -> bool -> pcap_results) :
  nl_ok ip_String (rv_nl st) -> is_array1228 (Payload sp) ->
  listenPorts (rv_nl st) !! SrcHandleName sp = Some pd -> pds (rv_nl st) !! pd = Some p ->
  pd_outgoing p = true -> pd_cancel p = Some ctx ->
  is_Ok (ParseShredPartial (Payload sp) (Length sp)) = false ->
  exists st1, recv_packet now sp st = Ok st1
    /\ ctx ∈ cancelled (rv_nl st1) /\ rv_shared st1 = rv_shared st /\ rv_out st1 = rv_out st
    /\ (forall now' sp', SrcHandleName sp' = SrcHandleName sp -> recv_packet now' sp' st1 = Ok st1)
    /\ (portData_String p ∈ keys -> (forall port outgoing, pcap_works (pcap port outgoing)) ->
        exists st2, recv_noOutgoing ip_String keys pcap st1 = Ok st2
          /\ is_Some (listenPorts (rv_nl st2) !! SrcHandleName sp)
          /\ exists r, r ∈ rv_running st2 /\ HandleName (rn_sniffer r) = SrcHandleName sp
             /\ rn_ctx r ∉ cancelled (rv_nl st2)).
Proof.
  intros Hok Ha Hn Hp Hout Hctx Hno.
  destruct (recv_packet_cases ip_String now sp st Hok Ha)
    as [[Hn' _]|(pd' & p' & ctx' & Hn' & Hp' & Hctx' & [[_ E]|(shred & Hs & _)])];
    [congruence| |by rewrite Hs in Hno].
  assert (pd' = pd /\ p' = p /\ ctx' = ctx) as (-> & -> & ->) by naive_solver congruence.
  rewrite Hout in E. eexists. split; [exact E|]. cbn [rv_nl rv_shared rv_out gave_up with_maps cancelled].
  split_and!; [set_solver|done|done| |].
  - intros now' sp' Hsrc. unfold recv_packet. cbn. by rewrite Hsrc, lookup_delete_eq.
  - intros Hkey Hw. unfold recv_noOutgoing. cbn [rv_nl rv_shared rv_out rv_running rv_closed rv_next].
    match goal with |- context [fold_left _ keys (Ok ?st0)] => set (st1 := st0) end.
    assert (nl_ok ip_String (rv_nl st1)) as Hok1 by (by apply gave_up_ok).
    destruct (reopen_all_ok ip_String pcap keys st1 Hok1) as (st2 & Hf & _ & _).
    exists st2. split; [exact Hf|].
    destruct (nl_listen _ _ Hok _ _ Hn) as (q & cq & Hq & _ & Hname).
    assert (q = p) as -> by congruence.
    destruct (reopen_all_reopens ip_String pcap keys st1 st2 pd p Hok1) as (Hl & _ & r & Hr & Hrn & Hrc);
      [done|cbn; apply lookup_insert_eq|done|done|done|].
    cbn [st1 rv_nl gave_up with_maps nl_ip] in Hl, Hrn. rewrite Hname. split; [done|]. by exists r.
Qed.

Lemma outgoing_port_quarantine_witness :
  exists st1 st2, recv_packet 1 demo_bad_packet demo_recv = Ok st1
    /\ recv_noOutgoing demo_ip_String ["out port 8010"%string] demo_pcap st1 = Ok st2.
Proof.
  destruct (outgoing_port_quarantine demo_ip_String 1 demo_bad_packet demo_recv 0
    (mkPortData (Some 1%nat) true false 8010) 1 ["out port 8010"%string] demo_pcap demo_nl_ok)
    as (st1 & H1 & _ & _ & _ & _ & H2).
  1-6: vm_compute; reflexivity.
  destruct H2 as (st2 & H2 & _).
  - apply list_elem_of_singleton. vm_compute. reflexivity.
  - apply demo_pcap_works.
  - exists st1, st2. split; [exact H1|exact H2].
Defined.

(** Dynamic ports.  A port scan starts sniffers only for scanned ports that have no
    entry yet, each for one port and marked dynamic, and leaves the entries of all other
    ports alone; when a dynamic sniffer ends, its port has no entry and its handle is not
    registered any more, so that the next scan that sees the port starts a new sniffer. *)
Theorem createDynamicSniffers_spec (ip_String : list byte -> string)
    (scan : list Z -> string + list Z) (pcap : Z -> bool -> pcap_results)
    (nl nl' : NetworkListener) (inPorts : list Z) (sniffers : list running) :
  scan (outPorts nl ++ [inPort nl; serverPort nl]) = inr inPorts ->
  NoDup inPorts -> Forall (fun p => 0 <= p < 65536) inPorts ->
  createDynamicSniffers ip_String scan pcap nl = (Ok sniffers, nl') ->
  (exists ports, ports `sublist_of` inPorts
     /\ map (fun r => HandleName (rn_sniffer r)) sniffers
        = map (fun p => handleExpr ip_String (nl_ip nl) p false) ports
     /\ Forall (fun r => dynamic (rn_sniffer r) = true) sniffers
     /\ Forall (fun p => portHandleMap nl !! portData_String (dynamic_port p) = None) ports)
  /\ (forall key, is_Some (portHandleMap nl !! key) -> portHandleMap nl' !! key = portHandleMap nl !! key)
  /\ forall name pd p, listenPorts nl' !! name = Some pd -> pds nl' !! pd = Some p ->
       let nl'' := dynamic_cleanup name nl' in
       listenPorts nl'' !! name = None /\ portHandleMap nl'' !! portData_String p = None.
Proof.
  intros Hscan Hnd Hr Hc. unfold createDynamicSniffers in Hc. rewrite Hscan in Hc.
  assert (Forall (fun p => portHandleMap nl !! portData_String p = None) (new_dynamic_ports inPorts nl)) as Hnone.
  { apply List.Forall_forall. intros p [_ Hp]%List.filter_In.
    rewrite negb_true_iff, bool_decide_eq_false in Hp. by apply eq_None_not_Some. }
  destruct (register_dynamic_spec ip_String pcap _ sniffers nl nl' Hnone) as (_ & Hk & opened & Hsub & Hn & Hd);
    [by apply new_dynamic_ports_NoDup|done|].
  assert (exists ports, ports `sublist_of` inPorts /\ opened = map dynamic_port ports) as (ports & Hports & ->).
  { assert (opened `sublist_of` map dynamic_port inPorts) as Hs.
    { etrans; [exact Hsub|]. unfold new_dynamic_ports. fold dynamic_port.
      generalize (map dynamic_port inPorts). intros l.
      induction l as [|q l IH]; cbn; [done|]. case_if; by constructor. }
    clear -Hs. revert opened Hs. induction inPorts as [|q inPorts IH]; intros opened Hs; cbn in Hs.
    - apply sublist_nil_r in Hs as ->. by exists [].
    - apply sublist_cons_r in Hs as [Hs|(l & -> & Hs)].
      + destruct (IH _ Hs) as (ports & ? & ->). exists ports. split; [by constructor|done].
      + destruct (IH _ Hs) as (ports & ? & ->). exists (q :: ports). split; [by constructor|done]. }
  split_and!.
  - exists ports. split_and!; [done| | |].
    + rewrite Hn, map_map. apply map_ext_in. intros q Hq%list_elem_of_In. cbn. f_equal.
      apply wrap_small. eapply sublist_subseteq in Hq; [|done].
      apply list_elem_of_In in Hq. by apply (proj1 (List.Forall_forall _ _) Hr).
    + apply List.Forall_forall. intros r Hin%(in_map (fun r => dynamic (rn_sniffer r))).
      rewrite Hd, map_map in Hin. by apply in_map_iff in Hin as (? & <- & _).
    + apply List.Forall_forall. intros q Hq. apply (proj1 (List.Forall_forall _ _) Hnone).
      apply list_elem_of_In. eapply sublist_subseteq; [exact Hsub|]. by apply list_elem_of_In, in_map.
  - intros key [x Hx]. apply Hk. intros Hin%list_elem_of_In. apply in_map_iff in Hin as (q & <- & Hq).
    by rewrite (proj1 (List.Forall_forall _ _) Hnone) in Hx.
  - intros name pd p Hname Hpd nl''. unfold nl'', dynamic_cleanup. rewrite Hname, Hpd. cbn.
    by rewrite !lookup_delete_eq.
Qed.

Lemma createDynamicSniffers_spec_witness :
  exists ports, ports `sublist_of` [8004; 8005] /\
    map (fun r => HandleName (rn_sniffer r)) demo_rescan.1
    = map (fun p => handleExpr demo_ip_String (nl_ip demo_nl) p false) ports.
Proof.
  destruct (createDynamicSniffers_spec demo_ip_String (fun _ => inr [8004; 8005]) demo_pcap demo_nl
    demo_rescan.2 [8004; 8005] demo_rescan.1) as [(ports & Hs & Hn & _) _].
  - reflexivity.
  - repeat constructor; set_solver.
  - repeat constructor; lia.
  - vm_compute. reflexivity.
  - exists ports. split; [exact Hs|exact Hn].
Defined.

(** A sniffer of an outgoing port that ends by itself (by the rule of
    [strict_sniffer_stops_iff], or at the end of the capture) is never replaced: its entry
    keeps the closed handle, and while every entry has a handle the no-outgoing-traffic
    tick starts nothing. *)
Theorem stopped_outgoing_never_reopened {C : Type} {cache0 : DedupCache C} {laws : DedupCacheLaws C}
    (ip_String : list byte -> string) (st : recv_state C) (i : nat) (r : running) (keys : list string)
    (pcap : Z -> bool -> pcap_results) :
  rv_running st !! i = Some r -> dynamic (rn_sniffer r) = false ->
  (forall key pd, portHandleMap (rv_nl st) !! key <> Some (pd, None)) ->
  exists st', recv_noOutgoing ip_String keys pcap (sniffer_exit i false st) = Ok st'
    /\ rv_running st' = take i (rv_running st) ++ drop (S i) (rv_running st)
    /\ rv_nl st' = rv_nl st.
Proof.
  intros Hi Hd Hall. unfold recv_noOutgoing, sniffer_exit. rewrite Hi. unfold IsDynamic. rewrite Hd.
  cbn [andb rv_nl rv_shared rv_out rv_running rv_closed rv_next].
  match goal with |- context [fold_left _ keys (Ok ?st0)] => set (st1 := st0) end.
  exists st1. split; [|done].
  assert (forall key pd, portHandleMap (rv_nl st1) !! key <> Some (pd, None)) as Hall1 by done.
  clearbody st1. induction keys as [|key keys IH]; [done|]. cbn [fold_left].
  enough (reopen ip_String pcap key (Ok st1) = Ok st1) as -> by done.
  unfold reopen. rewrite bind_Ok. destruct (portHandleMap (rv_nl st1) !! key) as [[pd [h|]]|] eqn:Hk; [done| |done].
  by destruct (Hall1 key pd).
Qed.

Lemma stopped_outgoing_never_reopened_witness :
  exists st', recv_noOutgoing demo_ip_String ["out port 8010"%string] demo_pcap (sniffer_exit 0 false demo_recv) = Ok st'
    /\ rv_running st' = drop 1 demo_sniffers /\ rv_nl st' = demo_nl.
Proof.
  refine (stopped_outgoing_never_reopened demo_ip_String demo_recv 0
    (default (mkRunning demo_sniffer 0 0) (head demo_sniffers)) ["out port 8010"%string] demo_pcap _ _ _).
  - vm_compute. reflexivity.
  - vm_compute. reflexivity.
  - intros key pd Hk. apply elem_of_map_to_list in Hk. vm_compute in Hk.
    repeat (apply elem_of_cons in Hk as [Hk|Hk]; [discriminate Hk|]). by apply not_elem_of_nil in Hk.
Defined.
