(* ===== verification/Discovery.v ===== *)
(** * Port discovery ([bxgateway/internal/netutil/udp_l.go])

    [ListPotentialUDPPorts] reads frames from the interface for a second and lists the UDP
    destination ports it saw.  A read of the capture (an error or a frame that passed the
    BPF filter) together with the state of the timer after it is an event. *)

From Stdlib Require Import QArith.
From S2P Require Import Prelude Shred Udp Stats.
Open Scope Z_scope.

Definition minReqBytes : Z := 14 + 20 + 8.

(** [binary.BigEndian.Uint16(b)] *)
Definition BigEndian_Uint16 {E} (b : list byte) : outcome E Z :=
  b1 ← go_index b 1;
  b0 ← go_index b 0;
  Ok (Z.lor (bz b1) (Z.shiftl (bz b0) 8)).

(** The destination port of a frame; [None] is one of the loop's [continue]s. *)
Definition frame_port {E} (data : list byte) : outcome E (option Z) :=
  if zlen data <? minReqBytes then Ok None
  else
    ip ← go_slice data 14 (zlen data);
    b ← go_index ip 0;
    let ihl := Z.land (bz b) 15 * 4 in
    if zlen ip <? ihl + 8 then Ok None
    else
      udp ← go_slice ip ihl (zlen ip);
      p ← go_slice udp 2 4;
      dstPort ← BigEndian_Uint16 p;
      Ok (Some dstPort).

(** A read of the capture, and whether the timer has fired when the select is reached. *)
Record scan_event := mkScanEvent { read : option (list byte); fired : bool }.

(** The ports seen, without the excluded ones. *)
Definition port_list `{GoOrder} (excluded : list Z) (ports : gmap Z unit) : list Z :=
  List.filter (fun p => negb (bool_decide (p ∈ excluded))) (map fst (map_range ports)).

(** The loop; [None] while it has not returned. *)
Fixpoint scan_loop `{GoOrder} (excluded : list Z) (events : list scan_event) (ports : gmap Z unit)
    : outcome string (option (list Z)) :=
  match events with
  | [] => Ok None
  | e :: events =>
      match read e with
      | None => scan_loop excluded events ports
      | Some data =>
          r ← frame_port data;
          match r with
          | None => scan_loop excluded events ports
          | Some dstPort =>
              let ports := <[dstPort := tt]> ports in
              if fired e then Ok (Some (port_list excluded ports))
              else scan_loop excluded events ports
          end
      end
  end.

(** [ListPotentialUDPPorts]: [setup] is the error of opening the capture, of assembling
    the filter or of attaching it. *)
Definition ListPotentialUDPPorts `{GoOrder} (setup : option string) (events : list scan_event)
    (excludedPorts : list Z) : outcome string (option (list Z)) :=
  _ ← of_err setup;
  scan_loop excludedPorts events ∅.

(** The scan of another platform ([udp_d.go]). *)
Definition ListPotentialUDPPorts_darwin (excludedPorts : list Z) : string + list Z :=
  inl "ListOpenUDPPorts not implemented on this platform"%string.

(** * Properties *)

(** The layout of a captured frame: an Ethernet header, an IP header of [ihl] words and a
    UDP header with destination port [p]. *)
Definition udp_frame (eth ip_rest : list byte) (tos sp0 sp1 p0 p1 : byte) (rest : list byte) : list byte :=
  eth ++ tos :: ip_rest ++ sp0 :: sp1 :: p0 :: p1 :: rest.

Lemma go_slice_from {E A} (s : list A) lo : 0 <= lo <= zlen s -> go_slice (E:=E) s lo (zlen s) = Ok (drop (Z.to_nat lo) s).
Proof.
  intros Hlo. rewrite go_slice_sub by lia. unfold sub. f_equal. apply take_ge.
  rewrite length_drop. unfold zlen in *. lia.
Qed.

Lemma zlen_drop {A} (s : list A) n : 0 <= n <= zlen s -> zlen (drop (Z.to_nat n) s) = zlen s - n.
Proof. intros Hn. unfold zlen in *. rewrite length_drop. lia. Qed.

Lemma land15_bound b : 0 <= Z.land (bz b) 15 <= 15.
Proof.
  change 15 with (Z.ones 4). rewrite Z.land_ones by lia.
  pose proof (Z.mod_pos_bound (bz b) (2 ^ 4) ltac:(lia)). change (Z.ones 4) with 15. lia.
Qed.

(** A frame of at least 42 bytes never makes the parser panic, and a port is 16 bits. *)
Lemma frame_port_cases {E} data :
  frame_port (E:=E) data = Ok None \/ exists p, frame_port (E:=E) data = Ok (Some p) /\ 0 <= p < 65536.
Proof.
  unfold frame_port. change minReqBytes with 42. destruct (Z.ltb_spec (zlen data) 42); [by left|].
  rewrite go_slice_from, bind_Ok by lia.
  set (ip := drop (Z.to_nat 14) data).
  assert (zlen ip = zlen data - 14) as Hip by (apply zlen_drop; lia).
  destruct (go_index_lt (E:=E) ip 0) as (b & _ & ->); [lia|]. rewrite bind_Ok. cbv zeta.
  pose proof (land15_bound b) as Hb. destruct (Z.ltb_spec (zlen ip) (Z.land (bz b) 15 * 4 + 8)); [by left|].
  rewrite go_slice_from, bind_Ok by lia.
  set (udp := drop _ ip). assert (zlen udp = zlen ip - Z.land (bz b) 15 * 4) as Hudp by (apply zlen_drop; lia).
  rewrite go_slice_sub, bind_Ok by lia.
  assert (zlen (sub udp 2 (4 - 2)) = 2) as Hs by (apply length_sub; lia).
  unfold BigEndian_Uint16.
  destruct (go_index_lt (E:=E) (sub udp 2 (4 - 2)) 1) as (b1 & _ & ->); [lia|].
  destruct (go_index_lt (E:=E) (sub udp 2 (4 - 2)) 0) as (b0 & _ & ->); [lia|].
  rewrite !bind_Ok. right. eexists. split; [done|].
  rewrite (lor_shiftl_add _ _ 8) by (try apply bz_bound; lia).
  pose proof (bz_bound b0). pose proof (bz_bound b1). lia.
Qed.

(** The port of a well-formed frame. *)
Lemma frame_port_udp {E} eth tos ip_rest sp0 sp1 p0 p1 rest :
  zlen eth = 14 -> zlen ip_rest + 1 = Z.land (bz tos) 15 * 4 -> 20 <= zlen ip_rest + 1 -> 4 <= zlen rest ->
  frame_port (E:=E) (udp_frame eth ip_rest tos sp0 sp1 p0 p1 rest) = Ok (Some (bz p0 * 256 + bz p1)).
Proof.
  intros He Hihl Hmin Hrest. unfold frame_port, udp_frame. change minReqBytes with 42.
  set (ip := tos :: ip_rest ++ _).
  assert (zlen ip = 5 + zlen ip_rest + zlen rest) as Hip.
  { unfold ip, zlen. cbn [length]. rewrite length_app. cbn [length]. lia. }
  assert (zlen (eth ++ ip) = 14 + zlen ip) as Hlen by (unfold zlen in *; rewrite length_app; lia).
  rewrite Hlen. destruct (Z.ltb_spec (14 + zlen ip) 42); [lia|]. rewrite <- Hlen.
  rewrite go_slice_from, bind_Ok by lia.
  replace (Z.to_nat 14) with (length eth) by (unfold zlen in He; lia). rewrite drop_app_length.
  change (go_index ip 0) with (Ok tos : outcome E byte) || (unfold ip; rewrite (go_index_lookup _ 0 tos) by done).
  rewrite bind_Ok. cbv zeta. rewrite <- Hihl.
  destruct (Z.ltb_spec (zlen ip) (zlen ip_rest + 1 + 8)); [lia|].
  rewrite go_slice_from, bind_Ok by (unfold zlen in *; lia).
  assert (drop (Z.to_nat (zlen ip_rest + 1)) ip = sp0 :: sp1 :: p0 :: p1 :: rest) as ->.
  { unfold ip. replace (Z.to_nat (zlen ip_rest + 1)) with (S (length ip_rest)) by (unfold zlen; lia).
    cbn [drop]. apply drop_app_length. }
  rewrite go_slice_sub, bind_Ok by (unfold zlen in *; cbn [length]; lia).
  change (sub (sp0 :: sp1 :: p0 :: p1 :: rest) 2 (4 - 2)) with [p0; p1].
  unfold BigEndian_Uint16. rewrite (go_index_lookup _ 1 p1), bind_Ok, (go_index_lookup _ 0 p0), bind_Ok by done.
  rewrite bind_Ok, (lor_shiftl_add _ _ 8) by (try apply bz_bound; lia). do 2 f_equal. lia.
Qed.

(** The destination port of a captured frame, byte by byte: after the Ethernet header of 14
    bytes comes an IP header, the low half of whose first byte is its length in words, then
    the UDP header, whose third and fourth byte are the destination port, high byte first. *)
Definition destination_port (frame : list byte) (p : Z) : Prop :=
  exists tos hi lo,
    42 <= zlen frame /\ frame !! 14%nat = Some tos
    /\ let udp := 14 + 4 * (bz tos mod 16) in
       udp + 8 <= zlen frame
       /\ frame !! Z.to_nat (udp + 2) = Some hi /\ frame !! Z.to_nat (udp + 3) = Some lo
       /\ p = 256 * bz hi + bz lo.

Lemma frame_port_spec {E} data p : frame_port (E:=E) data = Ok (Some p) <-> destination_port data p.
Proof.
  unfold frame_port, destination_port. change minReqBytes with 42.
  destruct (Z.ltb_spec (zlen data) 42); [split; [done|by intros (? & ? & ? & ? & _); lia]|].
  rewrite go_slice_from, bind_Ok by lia.
  set (ip := drop (Z.to_nat 14) data).
  assert (zlen ip = zlen data - 14) as Hip by (apply zlen_drop; lia).
  destruct (go_index_lt (E:=E) ip 0) as (b & Hb0 & ->); [lia|]. rewrite bind_Ok. cbv zeta.
  assert (data !! 14%nat = Some b) as Hb by (rewrite <- Hb0; unfold ip; by rewrite lookup_drop).
  assert (Z.land (bz b) 15 * 4 = 4 * (bz b mod 16)) as ->
    by (change 15 with (Z.ones 4); rewrite Z.land_ones by lia; change (2 ^ 4) with 16; lia).
  pose proof (Z.mod_pos_bound (bz b) 16 ltac:(lia)) as Hm.
  destruct (Z.ltb_spec (zlen ip) (4 * (bz b mod 16) + 8)).
  { split; [done|]. intros (t & hi & lo & _ & Ht & Hl & _). rewrite Hb in Ht. injection Ht as <-. lia. }
  rewrite go_slice_from, bind_Ok by lia.
  set (udp := drop _ ip). assert (zlen udp = zlen ip - 4 * (bz b mod 16)) as Hudp by (apply zlen_drop; lia).
  rewrite go_slice_sub, bind_Ok by lia.
  assert (zlen (sub udp 2 (4 - 2)) = 2) as Hs by (apply length_sub; lia).
  unfold BigEndian_Uint16.
  destruct (go_index_lt (E:=E) (sub udp 2 (4 - 2)) 1) as (b1 & Hb1 & ->); [lia|].
  destruct (go_index_lt (E:=E) (sub udp 2 (4 - 2)) 0) as (b0 & Hb0' & ->); [lia|].
  assert (forall i : nat, (i < 2)%nat ->
    sub udp 2 (4 - 2) !! i = data !! Z.to_nat (14 + 4 * (bz b mod 16) + (2 + Z.of_nat i))) as Hat.
  { intros i Hi. unfold sub, udp, ip. rewrite lookup_take_lt, !lookup_drop by (cbn; lia). f_equal. lia. }
  change (Z.to_nat 1) with 1%nat in Hb1. change (Z.to_nat 0) with 0%nat in Hb0'.
  rewrite (Hat 1%nat) in Hb1 by lia. rewrite (Hat 0%nat) in Hb0' by lia.
  change (2 + Z.of_nat 1) with 3 in Hb1. change (2 + Z.of_nat 0) with 2 in Hb0'.
  rewrite !bind_Ok, (lor_shiftl_add _ _ 8) by (try apply bz_bound; lia). split.
  - intros [= <-]. exists b, b0, b1. split_and!; try done; try lia.
  - intros (t & hi & lo & _ & Ht & _ & Hhi & Hlo & ->). rewrite Hb in Ht. injection Ht as <-.
    rewrite Hb0' in Hhi. rewrite Hb1 in Hlo. injection Hhi as <-. injection Hlo as <-. do 2 f_equal. lia.
Qed.

(** The ports of the frames read. *)
Definition event_port (e : scan_event) : option Z :=
  match read e with
  | None => None
  | Some data => match frame_port (E:=string) data with Ok r => r | _ => None end
  end.

Lemma event_port_spec e p :
  event_port e = Some p <-> exists frame, read e = Some frame /\ destination_port frame p.
Proof.
  unfold event_port. destruct (read e) as [data|]; [|split; [done|by intros (? & ? & _)]].
  assert ((exists frame, Some data = Some frame /\ destination_port frame p) <-> destination_port data p) as ->
    by (split; [by intros (? & [= <-] & ?)|by exists data]).
  rewrite <- (frame_port_spec (E:=string)).
  destruct (frame_port_cases (E:=string) data) as [->|(q & -> & _)]; [done|]. split; [by intros [= ->]|by intros [= ->]].
Qed.

Section scan.
Context `{GoOrderLaws} (excluded : list Z).

Lemma scan_loop_cons e events ports :
  scan_loop excluded (e :: events) ports
  = match event_port e with
    | None => scan_loop excluded events ports
    | Some p => if fired e then Ok (Some (port_list excluded (<[p := tt]> ports)))
                else scan_loop excluded events (<[p := tt]> ports)
    end.
Proof.
  cbn [scan_loop]. unfold event_port. destruct (read e) as [data|]; [|done].
  destruct (frame_port_cases (E:=string) data) as [->|(p & -> & _)]; by rewrite bind_Ok.
Qed.

Lemma event_port_bound e p : event_port e = Some p -> 0 <= p < 65536.
Proof.
  unfold event_port. destruct (read e) as [data|]; [|done].
  destruct (frame_port_cases (E:=string) data) as [->|(q & -> & Hq)]; [done|]. by intros [= <-].
Qed.

Lemma port_list_elem ports p :
  p ∈ port_list excluded ports <-> p ∉ excluded /\ is_Some (ports !! p).
Proof.
  unfold port_list. rewrite list_elem_of_In, List.filter_In, negb_true_iff, bool_decide_eq_false.
  rewrite <- list_elem_of_In.
  assert (p ∈ map fst (map_range ports) <-> is_Some (ports !! p)) as ->; [|tauto].
  rewrite (Permutation_map fst (map_range_perm ports)). rewrite list_elem_of_fmap. split.
  - intros ([q []] & -> & Hq%elem_of_map_to_list). by eexists.
  - intros [[] Hp]. exists (p, tt). split; [done|]. by apply elem_of_map_to_list.
Qed.

Lemma port_list_NoDup ports : NoDup (port_list excluded ports).
Proof.
  unfold port_list. apply NoDup_ListNoDup, List.NoDup_filter, NoDup_ListNoDup.
  rewrite (Permutation_map fst (map_range_perm ports)). apply NoDup_fst_map_to_list.
Qed.
(** The ports known after some events. *)
Definition seen (ports : gmap Z unit) (events : list scan_event) (p : Z) : Prop :=
  is_Some (ports !! p) \/ exists e, e ∈ events /\ event_port e = Some p.

Lemma seen_cons ports e events p :
  seen ports (e :: events) p <-> event_port e = Some p \/ seen ports events p.
Proof.
  unfold seen. split.
  - intros [?|(e' & [->|?]%elem_of_cons & ?)]; eauto.
  - intros [?|[?|(e' & ? & ?)]]; [right; exists e; split; [set_solver|done]|by left|].
    right. exists e'. split; [set_solver|done].
Qed.

Lemma seen_insert ports q events p :
  seen (<[q := tt]> ports) events p <-> p = q \/ seen ports events p.
Proof. unfold seen. rewrite lookup_insert_is_Some'. naive_solver. Qed.

Lemma seen_nil ports p : seen ports [] p <-> is_Some (ports !! p).
Proof. unfold seen. split; [|by left]. by intros [?|(e & ?%not_elem_of_nil & _)]. Qed.

(** What the loop returns from a set of ports known already. *)
Definition scan_result (events : list scan_event) (ports : gmap Z unit) (r : option (list Z)) : Prop :=
  (forall l, r = Some l -> NoDup l /\ Forall (fun p => 0 <= p < 65536) l
     /\ exists pre e post, events = pre ++ e :: post /\ fired e = true /\ is_Some (event_port e)
        /\ forall p, p ∈ l <-> p ∉ excluded /\ seen ports (pre ++ [e]) p)
  /\ (r = None <-> forall e, e ∈ events -> fired e = true -> event_port e = None).

(** An event after which the loop goes on. *)
Lemma scan_result_cons e events ports ports' r :
  (fired e = true -> event_port e = None) ->
  (forall events p, seen ports' events p <-> event_port e = Some p \/ seen ports events p) ->
  scan_result events ports' r -> scan_result (e :: events) ports r.
Proof.
  intros He Hports [Hl Hn]. split.
  - intros l Hrl. destruct (Hl l Hrl) as (? & ? & pre & e1 & post & -> & ? & ? & Hp).
    split_and!; [done..|]. exists (e :: pre), e1, post. split_and!; [done..|]. intros p.
    by rewrite Hp, Hports, <- seen_cons.
  - rewrite Hn. split; intros Hall e' He' Hf.
    + apply elem_of_cons in He' as [->|?]; auto.
    + apply Hall; [set_solver|done].
Qed.

Lemma scan_loop_spec events ports :
  (forall p, is_Some (ports !! p) -> 0 <= p < 65536) ->
  exists r, scan_loop excluded events ports = Ok r /\ scan_result events ports r.
Proof.
  revert ports. induction events as [|e events IH]; intros ports Hports.
  { exists None. split; [done|]. split; [done|]. split; [|done]. by intros _ e ?%not_elem_of_nil. }
  rewrite scan_loop_cons. destruct (event_port e) as [p|] eqn:Hp.
  - assert (forall q, is_Some ((<[p := tt]> ports : gmap Z unit) !! q) -> 0 <= q < 65536) as Hports'.
    { intros q. rewrite lookup_insert_is_Some'. intros [<-|?]; [by eapply event_port_bound|auto]. }
    destruct (fired e) eqn:Hf.
    + eexists. split; [done|]. split.
      * intros l [= <-]. split_and!; [apply port_list_NoDup| |].
        -- apply List.Forall_forall. intros q [_ ?]%list_elem_of_In%port_list_elem. auto.
        -- exists [], e, events. split_and!; [done|done|by rewrite Hp|]. intros q.
           rewrite port_list_elem. cbn [app]. rewrite <- seen_nil, seen_insert, seen_cons, Hp.
           naive_solver congruence.
      * split; [done|]. intros Hnone. rewrite (Hnone e) in Hp; [done|set_solver|done].
    + destruct (IH _ Hports') as (r & Hr & Hres). exists r. split; [done|].
      eapply scan_result_cons; [by rewrite Hf| |exact Hres]. intros es q. rewrite seen_insert, Hp.
      naive_solver congruence.
  - destruct (IH _ Hports) as (r & Hr & Hres). exists r. split; [done|].
    eapply scan_result_cons; [done| |exact Hres]. intros es q. rewrite Hp. naive_solver.
Qed.
End scan.

(** ** Theorems *)

(** What a read of the capture shows: a frame with this destination port. *)
Definition shows (e : scan_event) (p : Z) : Prop :=
  exists frame, read e = Some frame /\ destination_port frame p.

(** C36: port discovery.  With an open capture the scan never panics, whatever the frames.  If
    it returns a list, the list has no duplicates, its elements are 16-bit ports, and they are
    exactly the destination ports of the frames read so far that are not excluded.  It returns
    only on a frame with a port read after the deadline: as long as there is none it goes on,
    for ever on a silent interface.  The destination port of a frame is stated byte by byte. *)
Theorem scan_ports {order : GoOrder} {laws : GoOrderLaws} (excluded : list Z) (events : list scan_event) :
  exists r, ListPotentialUDPPorts None events excluded = Ok r
    /\ (forall l, r = Some l -> NoDup l /\ Forall (fun p => 0 <= p < 65536) l
         /\ exists pre e post, events = pre ++ e :: post /\ fired e = true /\ (exists p, shows e p)
            /\ forall p, p ∈ l <-> p ∉ excluded /\ exists e', e' ∈ pre ++ [e] /\ shows e' p)
    /\ (r = None <-> forall e p, e ∈ events -> fired e = true -> ~ shows e p).
Proof.
  unfold ListPotentialUDPPorts, shows. cbn [of_err]. rewrite bind_Ok.
  destruct (scan_loop_spec excluded events ∅) as (r & Hr & Hl & Hn);
    [intros p; rewrite lookup_empty; by intros [? ?]|].
  exists r. split_and!; [done| |].
  - intros l Hrl. destruct (Hl l Hrl) as (? & ? & pre & e & post & ? & ? & [q Hq] & Hp). split_and!; [done..|].
    exists pre, e, post. split_and!; [done|done|exists q; by apply event_port_spec|]. intros p. rewrite Hp.
    unfold seen. rewrite lookup_empty. setoid_rewrite event_port_spec.
    split; [intros [? [[? ?]|?]]; [done|by split]|]. intros [? ?]. split; [done|by right].
  - rewrite Hn. setoid_rewrite <- event_port_spec. split.
    + intros Hall e p He Hf. by rewrite (Hall e He Hf).
    + intros Hall e He Hf. specialize (Hall e). destruct (event_port e) as [p|]; [|done]. by destruct (Hall p).
Qed.

(** A frame to port 8003 read after the deadline. *)
Definition demo_frame : list byte :=
  udp_frame (replicate 14 Byte.x00) (replicate 19 Byte.x00) Byte.x45 Byte.x10 Byte.x00 Byte.x1f Byte.x43
    [Byte.x00; Byte.x08; Byte.x00; Byte.x00].

Lemma scan_ports_witness :
  exists r, @ListPotentialUDPPorts simple_order None [mkScanEvent None true; mkScanEvent (Some demo_frame) true] [8001] = Ok r
    /\ r <> None.
Proof.
  destruct (@scan_ports simple_order simple_order_laws [8001]
    [mkScanEvent None true; mkScanEvent (Some demo_frame) true]) as (r & Hr & _ & Hn).
  exists r. split; [exact Hr|]. intros H.
  refine (proj1 Hn H (mkScanEvent (Some demo_frame) true) 8003 _ eq_refl _).
  - apply elem_of_cons. right. apply list_elem_of_singleton. reflexivity.
  - exists demo_frame. split; [reflexivity|]. exists Byte.x45, Byte.x1f, Byte.x43. vm_compute.
    split; [discriminate|]. split; [reflexivity|]. split; [discriminate|]. repeat split.
Defined.
