(* ===== verification/Monitor.v ===== *)
(** * Port discovery and the network listener together
      ([bxgateway/internal/netlisten/netlisten.go], [bxgateway/internal/netutil/udp_l.go])

    The listener's monitor scans the interface for ports ([Discovery]) and starts a sniffer
    for each new one ([NetListen]).  Here the scan that [monitor_tick] takes as an argument is
    the one of [Discovery]. *)

From Stdlib Require Import QArith.
From S2P Require Import Prelude Shred AlterKey Udp Stats Sniffer NetListen Discovery.
Open Scope Z_scope.

(** What the monitor gets from a scan that reads [events]; [None] while it has not returned. *)
Definition scan_result_of `{GoOrder} (setup : option string) (events : list scan_event) (excluded : list Z)
    : option (string + list Z) :=
  match ListPotentialUDPPorts setup events excluded with
  | Ok (Some l) => Some (inr l)
  | Ok None | Panic _ => None
  | Err e => Some (inl e)
  end.

(** A tick of the monitor with its scan. *)
Definition scanning_tick `{GoOrder} {C} (ip_String : list byte -> string) (setup : option string)
    (events : list scan_event) (pcap : Z -> bool -> pcap_results) (st : recv_state C)
    : option (outcome string (recv_state C)) :=
  let nl := rv_nl st in
  match scan_result_of setup events (outPorts nl ++ [inPort nl; serverPort nl]) with
  | None => None
  | Some res => Some (monitor_tick ip_String (fun _ => res) pcap st)
  end.

(** * Properties *)

(** The events up to the one on which the scan returns, and the ports of their frames. *)
Fixpoint until_return (events : list scan_event) : list scan_event :=
  match events with
  | [] => []
  | e :: events => e :: (if fired e && bool_decide (is_Some (event_port e)) then [] else until_return events)
  end.

Definition seen_ports (events : list scan_event) : list Z := omap event_port (until_return events).

(** The entry of a dynamically captured port. *)
Definition entry (nl : NetworkListener) (p : Z) : option (nat * option nat) :=
  portHandleMap nl !! portData_String (dynamic_port p).

Section monitor.
Context (ip_String : list byte -> string).

Lemma new_dynamic_ports_elem inPorts nl :
  new_dynamic_ports inPorts nl
  = map dynamic_port (List.filter (fun p => negb (bool_decide (is_Some (entry nl p)))) inPorts).
Proof.
  unfold new_dynamic_ports. fold dynamic_port. induction inPorts as [|p l IH]; [done|].
  unfold entry in *. cbn [map List.filter]. case_if; cbn [map]; by rewrite IH.
Qed.

(** With captures that can all be opened, every port of the list gets its sniffer. *)
Lemma register_dynamic_all pcap l nl :
  (forall port outgoing, pcap_works (pcap port outgoing)) -> NoDup (map portData_String l) ->
  exists sniffers nl', register_dynamic ip_String pcap l nl = (Ok sniffers, nl')
    /\ map (fun r => HandleName (rn_sniffer r)) sniffers
       = map (fun p => handleExpr ip_String (nl_ip nl) (pd_port p) (pd_outgoing p)) l
    /\ (nl_ip nl', outPorts nl', inPort nl', serverPort nl') = (nl_ip nl, outPorts nl, inPort nl, serverPort nl)
    /\ (forall key, key ∉ map portData_String l -> portHandleMap nl' !! key = portHandleMap nl !! key)
    /\ (forall p, p ∈ l -> exists pd h, portHandleMap nl' !! portData_String p = Some (pd, Some h)).
Proof.
  intros Hpc. revert nl. induction l as [|p l IH]; intros nl Hnd.
  { exists [], nl. split_and!; try done. by intros p ?%not_elem_of_nil. }
  cbn [map] in Hnd. apply list.NoDup_cons in Hnd as [Hnin Hnd]. cbn [register_dynamic].
  destruct (new_portData p nl) as [pd nl1] eqn:Hnew.
  assert (pds nl1 !! pd = Some p /\ portHandleMap nl1 = portHandleMap nl
    /\ (nl_ip nl1, outPorts nl1, inPort nl1, serverPort nl1) = (nl_ip nl, outPorts nl, inPort nl, serverPort nl))
    as (Hpd & Hphm & Hfix) by (injection Hnew as <- <-; cbn; by rewrite lookup_insert_eq).
  destruct (registerNewSniffer_works ip_String pcap pd p nl1 Hpd (Hpc _ _)) as (r & -> & _ & Hname).
  set (nl2 := registered ip_String pd p (rn_handle r) nl1).
  destruct (IH nl2 Hnd) as (sniffers & nl' & -> & Hn & Hf & Hk & He).
  change (nl_ip nl2, outPorts nl2, inPort nl2, serverPort nl2)
    with (nl_ip nl1, outPorts nl1, inPort nl1, serverPort nl1) in Hf.
  assert (nl_ip nl2 = nl_ip nl) as Hip by (change (nl_ip nl2) with (nl_ip nl1); by injection Hfix).
  assert (nl_ip nl1 = nl_ip nl) as Hip1 by (by injection Hfix).
  exists (r :: sniffers), nl'. rewrite bind_Ok. split_and!; [done| |by rewrite Hf| |].
  - cbn [map]. by rewrite Hname, Hip1, Hn, Hip.
  - intros key [Hne Hkey]%not_elem_of_cons. rewrite Hk by done. cbn. rewrite lookup_insert_ne by done.
    by rewrite Hphm.
  - intros q [->|Hq]%elem_of_cons; [|by apply He]. rewrite Hk by done.
    exists pd, (rn_handle r). apply lookup_insert_eq.
Qed.

(** On darwin the scan only fails, so that the monitor changes nothing. *)
Lemma darwin_captures_nothing {C} pcap (st : recv_state C) :
  monitor_tick ip_String ListPotentialUDPPorts_darwin pcap st = Ok st.
Proof using Type. by destruct st. Qed.

(** What a scan that returned a list has seen. *)
Lemma scan_loop_seen `{GoOrderLaws} excluded events ports l :
  scan_loop excluded events ports = Ok (Some l) ->
  NoDup l /\ forall p, p ∈ l <-> p ∉ excluded /\ (is_Some (ports !! p) \/ p ∈ seen_ports events).
Proof using Type.
  revert ports. induction events as [|e events IH]; intros ports; [done|]. rewrite scan_loop_cons.
  unfold seen_ports in *. cbn [until_return omap list_omap].
  destruct (event_port e) as [q|] eqn:Hp.
  - rewrite bool_decide_eq_true_2, andb_true_r by done. destruct (fired e).
    + intros [= <-]. split; [apply port_list_NoDup|]. intros p.
      rewrite port_list_elem, lookup_insert_is_Some'. cbn [omap list_omap]. rewrite list_elem_of_singleton. naive_solver.
    + intros Hl. destruct (IH _ Hl) as [Hnd Hel]. split; [done|]. intros p.
      rewrite Hel, lookup_insert_is_Some', elem_of_cons. naive_solver.
  - rewrite bool_decide_eq_false_2, andb_false_r by (by intros []). apply IH.
Qed.

Lemma seen_ports_bound events p : p ∈ seen_ports events -> 0 <= p < 65536.
Proof using Type.
  unfold seen_ports. rewrite list_elem_of_omap. intros (e & _ & He). by eapply event_port_bound.
Qed.

Lemma scan_result_seen `{GoOrderLaws} excluded events res :
  scan_result_of None events excluded = Some res ->
  exists l, res = inr l /\ NoDup l /\ Forall (fun p => 0 <= p < 65536) l
    /\ forall p, p ∈ l <-> p ∉ excluded /\ p ∈ seen_ports events.
Proof using Type.
  unfold scan_result_of, ListPotentialUDPPorts. cbn [of_err]. rewrite bind_Ok.
  destruct (scan_loop_spec excluded events ∅) as (r & Hr & _);
    [intros p; rewrite lookup_empty; by intros [? ?]|].
  rewrite Hr. destruct r as [l|]; [|done]. intros [= <-]. apply scan_loop_seen in Hr as [Hnd Hel].
  assert (forall p, p ∈ l <-> p ∉ excluded /\ p ∈ seen_ports events) as Hl.
  { intros p. rewrite Hel, lookup_empty. split; [intros [? [[? ?]|?]]; [done|by split]|]. intros [? ?]. auto. }
  exists l. split_and!; [done|done| |done]. apply list.Forall_forall. intros p [_ Hp]%Hl.
  by eapply seen_ports_bound.
Qed.

(** A tick whose scan has returned, with captures that can all be opened. *)
Lemma scanning_tick_spec `{GoOrderLaws} {C} events pcap (st : recv_state C) r :
  let nl := rv_nl st in
  let excluded := outPorts nl ++ [inPort nl; serverPort nl] in
  (forall port outgoing, pcap_works (pcap port outgoing)) ->
  scanning_tick ip_String None events pcap st = Some r ->
  exists st' sniffers ports, r = Ok st'
    /\ rv_running st' = sniffers ++ rv_running st
    /\ map (fun r => HandleName (rn_sniffer r)) sniffers
       = map (fun p => handleExpr ip_String (nl_ip nl) p false) ports
    /\ NoDup ports
    /\ (forall p, p ∈ ports <-> p ∈ seen_ports events /\ p ∉ excluded /\ entry nl p = None)
    /\ (nl_ip (rv_nl st'), outPorts (rv_nl st'), inPort (rv_nl st'), serverPort (rv_nl st'))
       = (nl_ip nl, outPorts nl, inPort nl, serverPort nl)
    /\ (forall p, p ∈ seen_ports events -> p ∉ excluded -> is_Some (entry (rv_nl st') p)).
Proof using Type.
  intros nl excluded Hpc. unfold scanning_tick. fold nl excluded.
  destruct (scan_result_of None events excluded) as [res|] eqn:Hs; [|done]. intros [= <-].
  apply scan_result_seen in Hs as (l & -> & Hnd & Hb & Hel).
  unfold monitor_tick, createDynamicSniffers. fold nl.
  destruct (register_dynamic_all pcap (new_dynamic_ports l nl) nl Hpc (new_dynamic_ports_NoDup l nl Hnd Hb))
    as (sniffers & nl' & -> & Hn & Hf & Hk & He).
  rewrite bind_Ok. rewrite new_dynamic_ports_elem in Hn, Hk, He.
  set (new := List.filter _ l) in *.
  assert (forall p, p ∈ new <-> p ∈ l /\ entry nl p = None) as Hnew.
  { intros p. unfold new. rewrite !list_elem_of_In, List.filter_In, negb_true_iff, bool_decide_eq_false.
    by rewrite <- eq_None_not_Some. }
  eexists _, sniffers, new. split; [done|]. cbn [rv_running rv_nl]. split_and!; [done| | | |done|].
  - rewrite Hn, map_map. apply map_ext_in. intros p [Hp _]%list_elem_of_In%Hnew.
    rewrite list.Forall_forall in Hb. cbn [dynamic_port pd_port pd_outgoing]. by rewrite wrap_small by (apply Hb, Hp).
  - unfold new. apply NoDup_ListNoDup, List.NoDup_filter. by apply NoDup_ListNoDup.
  - intros p. rewrite Hnew, Hel. tauto.
  - intros p Hp Hx. assert (p ∈ l) as Hpl by (by apply Hel). unfold entry.
    destruct (entry nl p) as [x|] eqn:Hent.
    + destruct (decide (portData_String (dynamic_port p) ∈ map portData_String (map dynamic_port new))) as [Hin|Hin].
      * apply list_elem_of_In, in_map_iff in Hin as (q & Hq & Hin). apply list_elem_of_In in Hin.
        destruct (He q Hin) as (pd & h & Hq'). rewrite <- Hq, Hq'. done.
      * rewrite Hk by done. unfold entry in Hent. by rewrite Hent.
    + assert (dynamic_port p ∈ map dynamic_port new) as Hin by (apply list_elem_of_In, in_map, list_elem_of_In, Hnew; done).
      destruct (He _ Hin) as (pd & h & ->). done.
Qed.
End monitor.

(** ** Theorems *)

(** C30: what the monitor captures.  When a scan has returned and captures can be opened, the
    tick succeeds; it starts one sniffer, on the listener's address, for exactly each port
    that was the destination of a frame read by the scan, is not one of the configured
    ports and had no entry; then every port seen, other than the configured ones, has an
    entry.  A further tick whose scan sees only such ports again changes nothing. *)
Theorem monitor_captures {order : GoOrder} {laws : GoOrderLaws} {C : Type} (ip_String : list byte -> string)
    (events : list scan_event) (pcap : Z -> bool -> pcap_results) (st : recv_state C)
    (r : outcome string (recv_state C)) :
  let nl := rv_nl st in
  let excluded := outPorts nl ++ [inPort nl; serverPort nl] in
  (forall port outgoing, pcap_works (pcap port outgoing)) ->
  scanning_tick ip_String None events pcap st = Some r ->
  exists st' sniffers ports, r = Ok st'
    /\ rv_running st' = sniffers ++ rv_running st
    /\ map (fun r => HandleName (rn_sniffer r)) sniffers
       = map (fun p => handleExpr ip_String (nl_ip nl) p false) ports
    /\ NoDup ports
    /\ (forall p, p ∈ ports <-> p ∈ seen_ports events /\ p ∉ excluded /\ entry nl p = None)
    /\ (forall p, p ∈ seen_ports events -> p ∉ excluded -> is_Some (entry (rv_nl st') p))
    /\ (forall events' r', (forall p, p ∈ seen_ports events' -> p ∈ seen_ports events) ->
         scanning_tick ip_String None events' pcap st' = Some r' ->
         exists st2, r' = Ok st2 /\ rv_running st2 = rv_running st').
Proof.
  intros nl excluded Hpc Hr.
  destruct (scanning_tick_spec ip_String events pcap st r Hpc Hr)
    as (st' & sniffers & ports & Hst & Hrun & Hn & Hnd & Hel & Hf & He).
  exists st', sniffers, ports. split_and!; [done..|]. intros events' r' Hsub Hr'.
  destruct (scanning_tick_spec ip_String events' pcap st' r' Hpc Hr')
    as (st2 & sniffers2 & ports2 & Hst2 & Hrun2 & Hn2 & _ & Hel2 & _ & _).
  exists st2. split; [done|]. rewrite Hrun2.
  assert (ports2 = []) as ->.
  { destruct ports2 as [|p ports2]; [done|]. destruct (proj1 (Hel2 p)) as (Hp & Hx & Hno); [set_solver|].
    injection Hf as Hip Hop Hin Hsp. rewrite Hop, Hin, Hsp in Hx. destruct (He p (Hsub p Hp) Hx) as [x Hx'].
    by rewrite Hno in Hx'. }
  by destruct sniffers2.
Qed.

(** A scan of a frame to port 8003, which is captured already, one to port 8005 and one to the
    server port. *)
Definition demo_frame_to (hi lo : byte) : list byte :=
  udp_frame (replicate 14 Byte.x00) (replicate 19 Byte.x00) Byte.x45 Byte.x10 Byte.x00 hi lo
    [Byte.x00; Byte.x08; Byte.x00; Byte.x00].

Definition demo_events : list scan_event :=
  [mkScanEvent (Some demo_frame) false; mkScanEvent None true;
   mkScanEvent (Some (demo_frame_to Byte.x1f Byte.x45)) false;
   mkScanEvent (Some (demo_frame_to Byte.x49 Byte.xc8)) true].

Definition demo_tick : option (outcome string (recv_state AlterKey)) :=
  @scanning_tick simple_order AlterKey demo_ip_String None demo_events demo_pcap demo_recv.

Example demo_monitor :
  match demo_tick with
  | Some (Ok st) => map (fun r => HandleName (rn_sniffer r)) (take 1 (rv_running st))
                    = ["udp and dst port 8005 and dst host 10.0.0.1"%string]
                    /\ length (rv_running st) = 5%nat
  | _ => False
  end.
Proof. vm_compute. done. Qed.

Lemma demo_tick_eq : exists r, demo_tick = Some r.
Proof.
  assert (match demo_tick with Some _ => true | None => false end = true) as Hd by (vm_compute; reflexivity).
  destruct demo_tick as [r|]; [by exists r|done].
Qed.

Lemma monitor_captures_witness :
  exists st', demo_tick = Some (Ok st') /\ exists sniffers, rv_running st' = sniffers ++ rv_running demo_recv.
Proof.
  destruct demo_tick_eq as [r Hr].
  destruct (@monitor_captures simple_order simple_order_laws AlterKey demo_ip_String demo_events demo_pcap demo_recv r
    demo_pcap_works Hr) as (st' & sniffers & ports & Hst & Hrun & _).
  exists st'. split; [rewrite Hr, Hst; reflexivity|]. exists sniffers. exact Hrun.
Defined.
