(* ===== verification/Firedancer.v ===== *)
(** * The Firedancer sniffer ([bxgateway/internal/firedancer/firedancer-sniffer.go])

    With a Firedancer validator the shreds come from a shared-memory monitor instead of
    captured packets.  The monitor is a C library ([lib/fd_shred_monitor.c]): its results are
    inputs, and [shred_info_at] is how it describes the shred it found. *)

From Stdlib Require Import QArith.
From S2P Require Import Prelude Shred AlterKey Udp Stats Sniffer NetListen.
Open Scope Z_scope.

(** [C.shred_info_t] *)
Record shred_info := mkShredInfo {
  raw_data : list byte;   (* the 1228 bytes at [raw_data] *)
  si_size : Z;
  si_slot : Z;
  si_idx : Z;
  si_variant : byte
}.

(** The result of [C.shred_monitor_get_next]. *)
Inductive monitor_result := GotShred (info : shred_info) | NoShred | MonitorError | OtherResult.

Definition FD_SHRED_MAX_SZ : Z := 1228.

(** What [shred_monitor_get_next] writes for the shred at [raw]: the fields of the packed
    struct [fd_shred_t], read as little-endian integers, and always the maximal size. *)
Definition shred_info_at (raw : list byte) : shred_info :=
  mkShredInfo raw FD_SHRED_MAX_SZ (slot_field raw) (index_field raw) (variant_byte raw).

(** The results that the library gives. *)
Definition monitored (result : monitor_result) : Prop :=
  match result with
  | GotShred info => exists raw, is_array1228 raw /\ info = shred_info_at raw
  | _ => True
  end.

Record FiredancerSniffer := mkFiredancerSniffer { fd_localAddr : NetipAddr }.

Definition FireDancerNodeName : string := "Firedancer".

(** [NewFiredancerSniffer]: [init] is the result of [C.shred_monitor_init]. *)
Definition NewFiredancerSniffer (init : Z) : outcome string FiredancerSniffer :=
  if negb (init =? 0) then Err "failed to initialize shred monitor"%string
  else Ok {| fd_localAddr := AddrFrom4 [Byte.x7f; Byte.x00; Byte.x00; Byte.x01] |}.

(** The packet and the partial shred built from [shred_info]. *)
Definition fd_packet (now : Z) (info : shred_info) : SniffPacket :=
  {| SrcAddr := ZeroAddr; SrcHandleName := ""; Payload := raw_data info; Length := si_size info;
     ReceiveTime := now |}.

Definition fd_shred (info : shred_info) (variant : ShredVariantByte) : PartialShred :=
  {| Raw := replicate (Z.to_nat UDPShredSize) Byte.x00; DataSize := 0; PVariant := variant;
     Slot := u64 (si_slot info); Index := u32 (si_idx info) |}.

(** One iteration of [Recv]; the boolean tells whether the loop goes on. *)
Definition fd_step {C} `{DedupCache C} (s : FiredancerSniffer) (now : Z) (result : monitor_result)
    (sh : shared C) (ch : channel NLShred) : bool * shared C * channel NLShred :=
  match result with
  | GotShred info =>
      match ParseShredVariant (si_variant info) with
      | Ok variant =>
          let shred := fd_shred info variant in
          let (fresh, sh) := observe (fd_localAddr s) FireDancerNodeName shred sh in
          if negb fresh then (true, sh, ch)
          else (true, sh, (try_send ch (mkNLShred (fd_packet now info) shred)).2)
      | _ => (true, sh, ch)
      end
  | NoShred => (true, sh, ch)
  | MonitorError => (false, sh, ch)
  | OtherResult => (true, sh, ch)
  end.

(** [Recv]: [running] is [C.shred_monitor_is_running], [cancelled] whether the context is
    done at the head of an iteration. *)
Fixpoint fd_Recv {C} `{DedupCache C} (s : FiredancerSniffer)
    (inputs : list (Z * bool * bool * monitor_result)) (sh : shared C) (ch : channel NLShred)
    : bool * shared C * channel NLShred :=
  match inputs with
  | [] => (true, sh, ch)
  | (now, running, cancelled, result) :: inputs =>
      if negb running || cancelled then (false, sh, ch)
      else
        match fd_step s now result sh ch with
        | (true, sh, ch) => fd_Recv s inputs sh ch
        | (false, sh, ch) => (false, sh, ch)
        end
  end.

(** * Properties *)

Lemma try_send_or_same {A} (c : channel A) x :
  (forall y, chan_buf (try_send c x).2 = chan_buf c ++ [y] <-> zlen (chan_buf c) < chan_cap c /\ y = x)
  /\ ((forall y, chan_buf (try_send c x).2 <> chan_buf c ++ [y]) -> (try_send c x).2 = c).
Proof.
  unfold try_send. destruct (Z.ltb_spec (zlen (chan_buf c)) (chan_cap c)); cbn.
  - split; [|intros H1; by destruct (H1 x)]. intros y. split; [|by intros [_ ->]].
    by intros [_ [= ->]]%app_inj_2.
  - split; [|done]. intros y. split; [|lia]. intros Hl%(f_equal length). rewrite length_app in Hl. cbn in Hl. lia.
Qed.

Lemma not_snoc {A} (l : list A) x : l <> l ++ [x].
Proof. intros Hl%(f_equal length). rewrite length_app in Hl. cbn in Hl. lia. Qed.

(** The key of the shred at [raw]. *)
Definition raw_key (raw : list byte) (variant : ShredVariantByte) : Z :=
  ShredKey (slot_field raw) (index_field raw) variant.

Lemma fd_shred_at raw variant :
  fd_shred (shred_info_at raw) variant
  = mkPartialShred (replicate 1228 Byte.x00) 0 variant (slot_field raw) (index_field raw).
Proof.
  pose proof (slot_field_bound raw). pose proof (index_field_bound raw).
  unfold fd_shred, shred_info_at. cbn [si_slot si_idx]. by rewrite !wrap_small by lia.
Qed.

(** The packet for a shred of the monitor. *)
Definition monitor_shred (now : Z) (raw : list byte) (variant : ShredVariantByte) : NLShred :=
  mkNLShred (mkSniffPacket ZeroAddr "" raw 1228 now)
    (mkPartialShred (replicate 1228 Byte.x00) 0 variant (slot_field raw) (index_field raw)).

(** The shred that a result gives, if its variant is known. *)
Definition known_shred (result : monitor_result) (raw : list byte) (variant : ShredVariantByte) : Prop :=
  result = GotShred (shred_info_at raw) /\ ParseShredVariant (variant_byte raw) = Ok variant.

Lemma known_shred_unique result raw variant raw' variant' :
  known_shred result raw variant -> known_shred result raw' variant' -> raw' = raw /\ variant' = variant.
Proof. intros [-> H] [[= <-] H']. rewrite H in H'. by injection H' as ->. Qed.

(** An iteration either meets a known shred, or changes nothing. *)
Lemma fd_step_cases {C} `{DedupCacheLaws C} s now result (sh : shared C) ch :
  monitored result ->
  ((forall raw variant, ~ known_shred result raw variant)
   /\ fd_step s now result sh ch = (match result with MonitorError => false | _ => true end, sh, ch))
  \/ exists raw variant, known_shred result raw variant
     /\ let r := fd_step s now result sh ch in
        r.1.1 = true
        /\ (forall k, cache_seen k (cache r.1.2) <-> cache_seen k (cache sh) \/ k = raw_key raw variant)
        /\ (cache_seen (raw_key raw variant) (cache sh) -> r.2 = ch)
        /\ (~ cache_seen (raw_key raw variant) (cache sh) -> r.2 = (try_send ch (monitor_shred now raw variant)).2).
Proof.
  intros Hmon. destruct result as [info| | |]; [|left; split; [by intros ? ? []|done]..].
  destruct Hmon as (raw & _ & ->). cbn [fd_step]. change (si_variant (shred_info_at raw)) with (variant_byte raw).
  destruct (ParseShredVariant (variant_byte raw)) as [variant|e|e] eqn:Hv;
    [right|left; split; [intros raw' v' [[= <-] Hv']; by rewrite Hv in Hv'|done]..].
  exists raw, variant. split; [done|]. rewrite fd_shred_at. unfold observe. cbn [Slot Index PVariant].
  fold (raw_key raw variant).
  pose proof (cache_Set_fresh (raw_key raw variant) (cache sh)) as Hf.
  pose proof (fun k => cache_Set_seen (raw_key raw variant) k (cache sh)) as Hseen.
  destruct (cache_Set (raw_key raw variant) (cache sh)) as [[] c]; cbn [fst snd negb cache] in *.
  - split_and!; [done|intros k; rewrite Hseen; tauto|by intros ?%Hf|done].
  - split_and!; [done|intros k; rewrite Hseen; tauto|done|by intros ?%Hf].
Qed.

(** C37: the Firedancer receiver.  It goes on until the monitor fails.  It forwards a packet
    exactly for a shred whose variant byte has a known high half (4 to 11), whose key is not in
    the cache, and when the channel has room: the packet is the 1228 bytes of the shred, with
    its slot, index and variant.  Otherwise the channel stays as it was, and for an unknown
    variant everything does.  The cache gets the key of every shred with a known variant; it
    is the key that the parser of the other receivers finds in the same bytes. *)
Theorem fd_forwards {C : Type} {cache0 : DedupCache C} {laws : DedupCacheLaws C}
    (s : FiredancerSniffer) (now : Z) (result : monitor_result) (sh : shared C) (ch : channel NLShred) :
  monitored result ->
  let r := fd_step s now result sh ch in
  (r.1.1 = true <-> result <> MonitorError)
  /\ (forall x, chan_buf r.2 = chan_buf ch ++ [x] <->
        exists raw variant, known_shred result raw variant /\ 4 <= Z.shiftr (bz (variant_byte raw)) 4 <= 11
          /\ ~ cache_seen (raw_key raw variant) (cache sh) /\ zlen (chan_buf ch) < chan_cap ch
          /\ x = mkNLShred (mkSniffPacket ZeroAddr "" raw 1228 now)
                   (mkPartialShred (replicate 1228 Byte.x00) 0 variant (slot_field raw) (index_field raw)))
  /\ ((forall x, chan_buf r.2 <> chan_buf ch ++ [x]) -> r.2 = ch)
  /\ (forall raw, result = GotShred (shred_info_at raw) -> ~ 4 <= Z.shiftr (bz (variant_byte raw)) 4 <= 11 ->
       r = (true, sh, ch))
  /\ (forall k, cache_seen k (cache r.1.2) <->
        cache_seen k (cache sh)
        \/ exists raw variant, known_shred result raw variant /\ k = raw_key raw variant)
  /\ (forall raw size shred, result = GotShred (shred_info_at raw) -> ParseShredPartial raw size = Ok shred ->
       cache_seen (ShredKey (Slot shred) (Index shred) (PVariant shred)) (cache r.1.2)).
Proof.
  intros Hmon. pose proof (fd_step_cases s now result sh ch Hmon) as Hc.
  assert (forall raw variant, known_shred result raw variant -> 4 <= Z.shiftr (bz (variant_byte raw)) 4 <= 11) as Hhigh.
  { intros raw variant [_ Hv]. pose proof (ParseShredVariant_accepts (variant_byte raw)) as Ha. rewrite Hv in Ha.
    symmetry in Ha. apply andb_prop in Ha as [?%Z.leb_le ?%Z.leb_le]. done. }
  assert (forall raw size shred, result = GotShred (shred_info_at raw) -> ParseShredPartial raw size = Ok shred ->
    exists variant, known_shred result raw variant
      /\ ShredKey (Slot shred) (Index shred) (PVariant shred) = raw_key raw variant) as Hparse.
  { intros raw size shred Hr Hp. assert (is_array1228 raw) as Ha by (subst result; by destruct Hmon as (? & ? & [= <-])).
    apply ParseShredPartial_Ok in Hp as (v & (Hv & _) & ->); [|done]. by exists v. }
  destruct Hc as [[Hno ->]|(raw & variant & Hk & Hgo & Hseen & Hdup & Hsend)]; cbn [fst snd].
  - split_and!; [by destruct result| |done| | |].
    + intros x. split; [by intros ?%not_snoc|by intros (? & ? & ?%Hno & _)].
    + by intros raw -> _.
    + intros k. split; [by left|by intros [?|(? & ? & ?%Hno & _)]].
    + by intros raw size shred Hr (v & ?%Hno & _)%(Hparse raw size shred Hr).
  - pose proof (known_shred_unique _ _ _ : forall raw' v', known_shred result raw variant -> known_shred result raw' v' -> _) as Hu.
    destruct (try_send_or_same ch (monitor_shred now raw variant)) as [Hs1 Hs2].
    assert (~ cache_seen (raw_key raw variant) (cache sh) \/ cache_seen (raw_key raw variant) (cache sh)) as Hd.
    { pose proof (cache_Set_fresh (raw_key raw variant) (cache sh)) as Hf.
      pose proof (cache_Set_dup_iff (raw_key raw variant) (cache sh)) as Hf'.
      destruct (cache_Set _ _) as [[] c]; cbn in *; [left; by apply Hf|right; by apply Hf']. }
    split_and!; [split; [by intros _ ->; destruct Hk|done]| | | | |].
    + intros x. destruct Hd as [Hd|Hd]; [rewrite (Hsend Hd), Hs1|rewrite (Hdup Hd)]; split.
      * intros [? ->]. exists raw, variant. split_and!; try done; by eapply Hhigh.
      * intros (raw' & v' & [-> ->]%(Hu raw' v' Hk) & _ & _ & ? & ->). done.
      * by intros ?%not_snoc.
      * by intros (raw' & v' & [-> ->]%(Hu raw' v' Hk) & _ & ? & _).
    + destruct Hd as [Hd|Hd]; [rewrite (Hsend Hd); exact Hs2|by rewrite (Hdup Hd)].
    + intros raw' Hr Hn. destruct Hk as [Hk Hv]. rewrite Hk in Hr. injection Hr as <-. destruct Hn. by apply (Hhigh _ variant).
    + intros k. rewrite Hseen. split; (intros [?|Hk']; [by left|right]); [by exists raw, variant|].
      by destruct Hk' as (raw' & v' & [-> ->]%(Hu raw' v' Hk) & ->).
    + intros raw' size shred Hr (v & [-> ->]%(Hu raw' v Hk) & ->)%(Hparse raw' size shred Hr). apply Hseen. by right.
Qed.

Lemma fd_forwards_witness :
  monitored (GotShred (shred_info_at sample_shred))
  /\ cache_seen (raw_key sample_shred sample_variant)
       (cache (fd_step (mkFiredancerSniffer ZeroAddr) 1 (GotShred (shred_info_at sample_shred))
          (mkShared NewAlterKey (newStats false)) (make_chan 10)).1.2).
Proof.
  assert (monitored (GotShred (shred_info_at sample_shred))) as Hm
    by (exists sample_shred; split; [vm_compute; reflexivity|reflexivity]).
  split; [exact Hm|].
  destruct (fd_forwards (mkFiredancerSniffer ZeroAddr) 1 (GotShred (shred_info_at sample_shred))
    (mkShared NewAlterKey (newStats false)) (make_chan 10) Hm) as (_ & _ & _ & _ & Hseen & _).
  apply Hseen. right. exists sample_shred, sample_variant. split; [|reflexivity].
  split; [reflexivity|vm_compute; reflexivity].
Defined.
