(* ===== verification/Gateway.v ===== *)
(** * The gateway ([bxgateway/internal/gateway/gateway.go])

    The gateway registers with the relay (OFR), forwards the shreds it receives from it to
    the local node and to extra endpoints, forwards the node's shreds to the relay, and
    watches the traffic from the relay: after [noTrafficThreshold] without any it registers
    again, and after a number of such registrations it panics.

    Every goroutine is modelled by the function of one iteration of its loop; the results
    of the sockets, of the registrar and of the clock are inputs.  Section [watchdog] is a
    step relation that interleaves the receive loop with the separate steps of the
    re-registration loop. *)

From Stdlib Require Import QArith.
From S2P Require Import Prelude Shred AlterKey Udp Stats Registrar Sniffer NetListen.
Open Scope Z_scope.

Definition aliveMsgInterval : Z := 10 * 1000000000.
Definition noTrafficThreshold : Z := 5 * 1000000000.
Definition defaultNoTrafficCounterLimit : Z := 3.
Definition registerRetryCount : nat := 3.
Definition registerRetryInterval : Z := 5 * 1000000000.

(** A [time.Ticker] with period [noTrafficThreshold]: stopped, or due at [next]. *)
Inductive ticker := Stopped | Running (next : Z).

(** A ticker that is stopped immediately. *)
Definition stoppedTicker : ticker := Stopped.

Record Gateway := mkGateway {
  gw_nl : option NetworkListener;
  firedancerSniffer : bool;
  serverFd : FDConn;                        (* receives traffic from the relay *)
  send2OFRFd : FDConn;
  send2NodeFd : FDConn;
  solanaTVUAddr : option Sockaddr;
  ofrUDPAddr : Addr;
  noTrafficTicker : ticker;
  noTrafficCounter : Z;                     (* int32 *)
  extraBroadcastAddrs : list Sockaddr;
  extraBroadcastFromOFROnly : bool;
  noValidator : bool;
  noTrafficCounterLimit : Z                 (* uint *)
}.

Record shredPacket := mkShredPacket { sp_payload : list byte; sp_length : Z }.

Definition zeroShredPacket : shredPacket :=
  {| sp_payload := replicate (Z.to_nat UDPShredSize) Byte.x00; sp_length := 0 |}.

Record shredData := mkShredData {
  sd_packet : shredPacket;
  sd_time : Z;
  sd_shred : PartialShred;
  sd_src : NetipAddr
}.

(** ** Updates of the mutable fields *)

Definition set_ofr (a : Addr) (g : Gateway) : Gateway :=
  mkGateway (gw_nl g) (firedancerSniffer g) (serverFd g) (send2OFRFd g) (send2NodeFd g)
    (solanaTVUAddr g) a (noTrafficTicker g) (noTrafficCounter g) (extraBroadcastAddrs g)
    (extraBroadcastFromOFROnly g) (noValidator g) (noTrafficCounterLimit g).

Definition set_watchdog (t : ticker) (c : Z) (g : Gateway) : Gateway :=
  mkGateway (gw_nl g) (firedancerSniffer g) (serverFd g) (send2OFRFd g) (send2NodeFd g)
    (solanaTVUAddr g) (ofrUDPAddr g) t c (extraBroadcastAddrs g)
    (extraBroadcastFromOFROnly g) (noValidator g) (noTrafficCounterLimit g).

(** ** Options and construction *)

Definition GwOption : Type := Gateway -> Gateway.

Definition WithoutSolanaNode : GwOption := fun g =>
  mkGateway (gw_nl g) (firedancerSniffer g) (serverFd g) (send2OFRFd g) (send2NodeFd g)
    (solanaTVUAddr g) (ofrUDPAddr g) (noTrafficTicker g) (noTrafficCounter g) (extraBroadcastAddrs g)
    (extraBroadcastFromOFROnly g) true (noTrafficCounterLimit g).

Fixpoint parse_addrs (resolve : string -> outcome udp_error UDPAddr) (addrs : list string)
    : outcome udp_error (list Sockaddr) :=
  match addrs with
  | [] => Ok []
  | addr :: addrs =>
      sockaddr ← SockAddrFromUDPString resolve addr;
      sockaddrs ← parse_addrs resolve addrs;
      Ok (sockaddr :: sockaddrs)
  end.

Definition WithBroadcastAddrs (resolve : string -> outcome udp_error UDPAddr) (addrs : list string)
    (ofrOnly : bool) : outcome udp_error GwOption :=
  sockaddrs ← parse_addrs resolve addrs;
  Ok (fun g =>
    mkGateway (gw_nl g) (firedancerSniffer g) (serverFd g) (send2OFRFd g) (send2NodeFd g)
      (solanaTVUAddr g) (ofrUDPAddr g) (noTrafficTicker g) (noTrafficCounter g) sockaddrs
      ofrOnly (noValidator g) (noTrafficCounterLimit g)).

Definition WithFiredancerSniffer (sniffer : bool) : GwOption := fun g =>
  mkGateway (gw_nl g) sniffer (serverFd g) (send2OFRFd g) (send2NodeFd g)
    (solanaTVUAddr g) (ofrUDPAddr g) (noTrafficTicker g) (noTrafficCounter g) (extraBroadcastAddrs g)
    (extraBroadcastFromOFROnly g) (noValidator g) (noTrafficCounterLimit g).

Definition WithNoTrafficCounterLimit (limit : Z) : GwOption := fun g =>
  mkGateway (gw_nl g) (firedancerSniffer g) (serverFd g) (send2OFRFd g) (send2NodeFd g)
    (solanaTVUAddr g) (ofrUDPAddr g) (noTrafficTicker g) (noTrafficCounter g) (extraBroadcastAddrs g)
    (extraBroadcastFromOFROnly g) (noValidator g) limit.

(** The system calls of one [NextFD]. *)
Record fd_syscalls := mkFdSyscalls {
  fs_socket : Z + Z;
  fs_setsockopt : option Z;
  fs_bind_ok : Z -> bool
}.

Definition next_fd (sc : fd_syscalls) (f : FDSet) : option (outcome udp_error FDConn * FDSet * list Z) :=
  NextFD (fs_socket sc) (fs_setsockopt sc) (fs_bind_ok sc) f.

(** [New]: the gateway or the error, the port allocator and the descriptors closed. *)
Definition New (sc1 sc2 : fd_syscalls) (nl : option NetworkListener) (server : FDConn) (fdset : FDSet)
    (tvu : option Sockaddr) (opts : list GwOption)
    : option (outcome udp_error Gateway * FDSet * list Z) :=
  match next_fd sc1 fdset with
  | None => None
  | Some (Err e, fdset, closed) => Some (Err e, fdset, closed)
  | Some (Panic p, fdset, closed) => Some (Panic p, fdset, closed)
  | Some (Ok snd2OFRFd, fdset, closed) =>
      match next_fd sc2 fdset with
      | None => None
      | Some (Err e, fdset, closed') => Some (Err e, fdset, closed ++ closed')
      | Some (Panic p, fdset, closed') => Some (Panic p, fdset, closed ++ closed')
      | Some (Ok snd2NodeFd, fdset, closed') =>
          let gw := mkGateway nl false server snd2OFRFd snd2NodeFd tvu zeroAddr stoppedTicker 0 [] false false
                      defaultNoTrafficCounterLimit in
          Some (Ok (fold_left (fun g o => o g) opts gw), fdset, closed ++ closed')
      end
  end.

(** ** Registration *)

Inductive gw_error :=
  | GRegister (e : register_error)
  | GResolve (e : udp_error)
  | GParse (e : udp_error).

(** [errors.Is(err, ErrInvalidConfig) || errors.Is(err, ErrUnathorized)] *)
Definition is_final_gw (e : gw_error) : bool :=
  match e with GRegister e => is_final e | _ => false end.

Section register.
Context (resolve : string -> outcome udp_error UDPAddr).

(** The part of [Register] before the call of the registrar, and the part after it. *)
Definition Register_begin (g : Gateway) : Gateway := set_ofr zeroAddr g.

Definition Register_end (rsp : outcome register_error RegisterResponse) (g : Gateway)
    : outcome gw_error Sockaddr * Gateway :=
  match rsp with
  | Err e => (Err (GRegister e), g)
  | Panic p => (Panic p, g)
  | Ok rsp =>
      match SockAddrFromUDPString resolve (UdpAddress rsp) with
      | Err e => (Err (GResolve e), g)
      | Panic p => (Panic p, g)
      | Ok sockAddr =>
          match NewAddr (Some sockAddr) with
          | Err e => (Err (GParse e), g)
          | Panic p => (Panic p, g)
          | Ok addr => (Ok sockAddr, set_ofr addr g)
          end
      end
  end.

Definition Register (rsp : outcome register_error RegisterResponse) (g : Gateway)
    : outcome gw_error Sockaddr * Gateway :=
  Register_end rsp (Register_begin g).

(** The retry loop of [Start]: [rsps i] is the registrar's answer to the [i]-th attempt.
    The result is the last one, the gateway, the attempts and the sleeps made. *)
Fixpoint Start_loop (rsps : nat -> outcome register_error RegisterResponse) (n i : nat) (g : Gateway)
    (last : outcome gw_error Sockaddr) : outcome gw_error Sockaddr * Gateway * nat * nat :=
  match n with
  | O => (last, g, O, O)
  | S n =>
      match Register (rsps i) g with
      | (Err e, g) =>
          if is_final_gw e then (Err e, g, 1%nat, O)
          else
            match Start_loop rsps n (S i) g (Err e) with
            | (r, g, attempts, sleeps) => (r, g, S attempts, S sleeps)
            end
      | (r, g) => (r, g, 1%nat, O)
      end
  end.

Inductive goroutine :=
  | GoReRegister
  | GoReceiveShredsFromOFR
  | GoBroadcastShredsToNode
  | GoSendAliveMessages
  | GoBroadcastShredsToOFR
  | GoFiredancerRecv
  | GoListenerRecv.

(** [Start]: the goroutines started, or the error. *)
Definition Start (rsps : nat -> outcome register_error RegisterResponse) (g : Gateway)
    : outcome gw_error (list goroutine) * Gateway * nat * nat :=
  match Start_loop rsps registerRetryCount 0 g (Err (GParse ErrUnknownAddressFormat)) with
  | (r, g, attempts, sleeps) =>
      (_ ← r;
       Ok ([GoReRegister; GoReceiveShredsFromOFR; GoBroadcastShredsToNode]
           ++ (if noValidator g then [GoSendAliveMessages]
               else [GoBroadcastShredsToOFR;
                     if firedancerSniffer g then GoFiredancerRecv else GoListenerRecv])),
       g, attempts, sleeps)
  end.
End register.

(** ** Traffic from the relay *)

Section traffic.
Context {C : Type} `{DedupCache C}.

(** The buffer after a failed [UnsafeReadFrom]: [recvmsg] may have filled it already. *)
Definition read_payload (r : recv_result) : list byte :=
  match r with
  | RecvErr _ => sp_payload zeroShredPacket
  | RecvMsg data _ => go_copy (sp_payload zeroShredPacket) data
  end.

(** [processShred] on what [recvmsg] gave.  It reads the relay's address twice, without the
    lock: [first] is what the first read gave, and the second one takes that of [g] (each read
    is taken to be whole). *)
Definition processShred_reads (first : Addr) (now : Z) (r : recv_result) (g : Gateway) (sh : shared C)
    (broadcastCh : channel shredData)
    : outcome udp_error (shredPacket * Gateway * shared C * channel shredData) :=
  match UnsafeReadFrom (sp_payload zeroShredPacket) r with
  | Panic p => Panic p
  | Err _ => Ok (mkShredPacket (read_payload r) 0, g, sh, broadcastCh)
  | Ok (payload, n, addr) =>
      let packet := mkShredPacket payload n in
      if IsZero first then Ok (packet, g, sh, broadcastCh)
      else if negb (bool_decide (NetAddr addr = NetAddr (ofrUDPAddr g)))
      then Ok (packet, g, sh, broadcastCh)
      else
        let g := set_watchdog (Running (now + noTrafficThreshold)) 0 g in
        match ParseShredPartial (sp_payload packet) (sp_length packet) with
        | Panic p => Panic p
        | Err _ => Ok (packet, g, sh, broadcastCh)
        | Ok shred =>
            let (fresh, sh) := observe (NetAddr addr) "OFR" shred sh in
            if negb fresh then Ok (packet, g, sh, broadcastCh)
            else Ok (packet, g, sh,
                     (try_send broadcastCh (mkShredData packet now shred (NetAddr addr))).2)
        end
  end.

(** As one step ([relay_address_reads] shows that this is no restriction). *)
Definition processShred (now : Z) (r : recv_result) (g : Gateway) (sh : shared C)
    (broadcastCh : channel shredData)
    : outcome udp_error (shredPacket * Gateway * shared C * channel shredData) :=
  processShred_reads (ofrUDPAddr g) now r g sh broadcastCh.
End traffic.

(** A call of [LogShredGateway]. *)
Record gw_sample := mkGwSample { gs_slot : Z; gs_index : Z; gs_variant : string; gs_source : string }.

(** [RecordShredGateway]: nothing without a fluentd connection. *)
Definition RecordShredGateway (fluentd : bool) (shred : PartialShred) (source : string) : list gw_sample :=
  if fluentd then [mkGwSample (Slot shred) (Index shred) (ShredVariantByte_String (PVariant shred)) source] else [].

Section broadcast.
Context (addr_String : NetipAddr -> string) (fluentd : bool).

(** The payload [p[:n]] written to each address. *)
Definition write_all {E} (fd : FDConn) (p : list byte) (n : Z) (to : list (option Sockaddr))
    : outcome E (list send) :=
  match to with
  | [] => Ok []
  | _ => data ← go_slice p 0 n; Ok (map (fun a => mkSend (Udp.fd fd) data a) to)
  end.

(** One iteration of [broadcastShredsToNode]: the writes attempted (a failed one is logged
    and the next one made), and the samples recorded. *)
Definition broadcastShredsToNode (g : Gateway) (shred : shredData)
    : outcome udp_error (list send * list gw_sample) :=
  let packet := sd_packet shred in
  node ← write_all (send2NodeFd g) (sp_payload packet) (sp_length packet)
           (if negb (noValidator g) then [solanaTVUAddr g] else []);
  extra ← write_all (send2NodeFd g) (sp_payload packet) (sp_length packet)
            (map Some (extraBroadcastAddrs g));
  Ok (node ++ extra,
      if ShouldSample (sd_shred shred)
      then RecordShredGateway fluentd (sd_shred shred) (addr_String (sd_src shred)) else []).

(** One iteration of [broadcastShredsToOFR]. *)
Definition broadcastShredsToOFR (g : Gateway) (shred : NLShred)
    : outcome udp_error (list send * list gw_sample) :=
  if IsZero (ofrUDPAddr g) then Ok ([], [])
  else
    ofr ← write_all (send2OFRFd g) (Payload (Packet shred)) (Length (Packet shred))
            [SockAddr (ofrUDPAddr g)];
    extra ← write_all (send2OFRFd g) (Payload (Packet shred)) (Length (Packet shred))
              (if negb (extraBroadcastFromOFROnly g) then map Some (extraBroadcastAddrs g) else []);
    Ok (ofr ++ extra,
        if ShouldSample (PShred shred)
        then RecordShredGateway fluentd (PShred shred) (addr_String (SrcAddr (Packet shred))) else []).

(** One iteration of [sendAliveMessages], with the address of the first read. *)
Definition sendAliveMessages_reads (first : Addr) (g : Gateway) : list send :=
  if negb (IsZero first)
  then [mkSend (Udp.fd (send2OFRFd g)) AliveMsg (SockAddr (ofrUDPAddr g))] else [].

(** As one step. *)
Definition sendAliveMessages_tick (g : Gateway) : list send := sendAliveMessages_reads (ofrUDPAddr g) g.
End broadcast.

(** One report of [printUnseenStats], on the unseen shreds of a flush: [None] when the
    goroutine has returned at once, [Some None] for "no shreds received", otherwise the
    percentage seen first from the relay.  The receiver of [Addr] may be nil. *)
Definition printUnseenStats (addr_String : NetipAddr -> string) (g : Gateway)
    (unseen : list ShredsBySrcRecord) : option (option Q) :=
  if noValidator g then None
  else
    let localAddrString := addr_String (NetworkListener_Addr (gw_nl g)) in
    let totalShreds := sum_shreds unseen in
    let totalShredsSeenFromOFR :=
      sum_shreds (List.filter (fun st => negb (bool_decide (SrcString st = localAddrString))) unseen) in
    if totalShreds =? 0 then Some None
    else Some (Some (inject_Z totalShredsSeenFromOFR / inject_Z totalShreds * 100)%Q).

(** ** Re-registration *)

(** [g.noTrafficCounter.Load()%int32(g.noTrafficCounterLimit) == 0] *)
Definition limit_reached {E} (g : Gateway) : outcome E bool :=
  if i32 (noTrafficCounterLimit g) =? 0 then Panic DivideByZero
  else Ok (Z.rem (noTrafficCounter g) (i32 (noTrafficCounterLimit g)) =? 0).

(** A tick of [reRegister] from the answer [rsp] of the relay on, which arrives at [now]. *)
Definition reRegister_finish (resolve : string -> outcome udp_error UDPAddr) (now : Z)
    (rsp : outcome register_error RegisterResponse) (g : Gateway) : outcome gw_error Gateway :=
  match Register_end resolve rsp g with
  | (Panic p, _) => Panic p
  | (Err e, g) =>
      if is_final_gw e then Panic ExplicitPanic
      else Ok (set_watchdog (Running (now + noTrafficThreshold)) (noTrafficCounter g) g)
  | (Ok _, g) =>
      let g := set_watchdog (noTrafficTicker g) (i32 (noTrafficCounter g + 1)) g in
      reached ← limit_reached g;
      if reached : bool then Panic ExplicitPanic
      else Ok (set_watchdog (Running (now + noTrafficThreshold)) (noTrafficCounter g) g)
  end.

(** The whole tick, without interference. *)
Definition reRegister_tick (resolve : string -> outcome udp_error UDPAddr) (now : Z)
    (rsp : outcome register_error RegisterResponse) (g : Gateway) : outcome gw_error Gateway :=
  reRegister_finish resolve now rsp (Register_begin g).

(** [reRegister] starts by creating its ticker. *)
Definition reRegister_init (now : Z) (g : Gateway) : Gateway :=
  set_watchdog (Running (now + noTrafficThreshold)) (noTrafficCounter g) g.

(** ** The watchdog: the receive loop and the re-registration loop interleaved *)

(** Where [reRegister] is: in its select, in the call of the registrar (the address is
    cleared), after [Register] returned (the address is set), after [Add(1)], or gone with
    a panic. *)
Inductive crash := CrashFinal | CrashNoTraffic | CrashRuntime (p : panic_reason).
Inductive phase := Waiting | Calling | AddrSet | Counted | Crashed (c : crash).

(** [w_last] and [w_late] are history variables: when traffic from the relay was last
    accepted, and whether that was outside of [Waiting]. *)
Record world (C : Type) := mkWorld {
  w_now : Z;
  w_gw : Gateway;
  w_sh : shared C;
  w_ch : channel shredData;
  w_phase : phase;
  w_last : Z;
  w_late : bool
}.
Arguments mkWorld {C} _ _ _ _ _ _ _.
Arguments w_now {C} _.
Arguments w_gw {C} _.
Arguments w_sh {C} _.
Arguments w_ch {C} _.
Arguments w_phase {C} _.
Arguments w_last {C} _.
Arguments w_late {C} _.

(** Whether a datagram counts as traffic from the relay. *)
Definition accepted (r : recv_result) (g : Gateway) : bool :=
  match UnsafeReadFrom (sp_payload zeroShredPacket) r with
  | Ok (_, _, addr) => negb (IsZero (ofrUDPAddr g)) && bool_decide (NetAddr addr = NetAddr (ofrUDPAddr g))
  | _ => false
  end.

Definition is_waiting (p : phase) : bool := match p with Waiting => true | _ => false end.
Definition is_crashed (p : phase) : bool := match p with Crashed _ => true | _ => false end.

Section watchdog.
Context {C : Type} `{DedupCache C} (resolve : string -> outcome udp_error UDPAddr).

Inductive step : world C -> world C -> Prop :=
  | step_time w t :
      is_crashed (w_phase w) = false -> w_now w <= t ->
      step w (mkWorld t (w_gw w) (w_sh w) (w_ch w) (w_phase w) (w_last w) (w_late w))
  | step_recv w r pkt g sh ch :
      is_crashed (w_phase w) = false ->
      processShred (w_now w) r (w_gw w) (w_sh w) (w_ch w) = Ok (pkt, g, sh, ch) ->
      step w (mkWorld (w_now w) g sh ch (w_phase w)
                (if accepted r (w_gw w) then w_now w else w_last w)
                (if accepted r (w_gw w) then negb (is_waiting (w_phase w)) else w_late w))
  | step_consume w sd ch :
      is_crashed (w_phase w) = false -> chan_recv (w_ch w) = Some (sd, ch) ->
      step w (mkWorld (w_now w) (w_gw w) (w_sh w) ch (w_phase w) (w_last w) (w_late w))
  | step_tick w next :
      w_phase w = Waiting -> noTrafficTicker (w_gw w) = Running next -> next <= w_now w ->
      step w (mkWorld (w_now w) (Register_begin (w_gw w)) (w_sh w) (w_ch w) Calling (w_last w) (w_late w))
  | step_failed w rsp e g :
      w_phase w = Calling -> Register_end resolve rsp (w_gw w) = (Err e, g) -> is_final_gw e = false ->
      step w (mkWorld (w_now w)
                (set_watchdog (Running (w_now w + noTrafficThreshold)) (noTrafficCounter g) g)
                (w_sh w) (w_ch w) Waiting (w_last w) (w_late w))
  | step_final w rsp e g :
      w_phase w = Calling -> Register_end resolve rsp (w_gw w) = (Err e, g) -> is_final_gw e = true ->
      step w (mkWorld (w_now w) g (w_sh w) (w_ch w) (Crashed CrashFinal) (w_last w) (w_late w))
  | step_panic w rsp p g :
      w_phase w = Calling -> Register_end resolve rsp (w_gw w) = (Panic p, g) ->
      step w (mkWorld (w_now w) g (w_sh w) (w_ch w) (Crashed (CrashRuntime p)) (w_last w) (w_late w))
  | step_registered w rsp a g :
      w_phase w = Calling -> Register_end resolve rsp (w_gw w) = (Ok a, g) ->
      step w (mkWorld (w_now w) g (w_sh w) (w_ch w) AddrSet (w_last w) (w_late w))
  | step_add w :
      w_phase w = AddrSet ->
      step w (mkWorld (w_now w)
                (set_watchdog (noTrafficTicker (w_gw w)) (i32 (noTrafficCounter (w_gw w) + 1)) (w_gw w))
                (w_sh w) (w_ch w) Counted (w_last w) (w_late w))
  | step_load w (reached : bool) :
      w_phase w = Counted -> limit_reached (E:=unit) (w_gw w) = Ok reached ->
      step w (if reached
              then mkWorld (w_now w) (w_gw w) (w_sh w) (w_ch w) (Crashed CrashNoTraffic) (w_last w) (w_late w)
              else mkWorld (w_now w)
                     (set_watchdog (Running (w_now w + noTrafficThreshold)) (noTrafficCounter (w_gw w)) (w_gw w))
                     (w_sh w) (w_ch w) Waiting (w_last w) (w_late w))
  | step_divide w p :
      w_phase w = Counted -> limit_reached (E:=unit) (w_gw w) = Panic p ->
      step w (mkWorld (w_now w) (w_gw w) (w_sh w) (w_ch w) (Crashed (CrashRuntime p)) (w_last w) (w_late w)).

(** When [Start] has started the goroutines at time [now]. *)
Definition initial (now : Z) (g : Gateway) (sh : shared C) (ch : channel shredData) : world C :=
  mkWorld now (reRegister_init now g) sh ch Waiting now false.
End watchdog.

(** * Properties *)

(** ** The receive path *)

Lemma NewAddr_panics sa : panics (NewAddr sa) = false.
Proof. by destruct sa as [[]|]. Qed.

(** The datagram as [processShred] holds it. *)
Definition received_packet (data : list byte) : shredPacket :=
  mkShredPacket (fixed_array data) (Z.min UDPShredSize (zlen data)).

Section receive.
Context {C : Type} `{DedupCacheLaws C}.

(** A datagram that does not count changes nothing; one that does restarts the watchdog,
    and what follows depends on the parser and on the cache. *)
Lemma processShred_cases now r g (sh : shared C) ch :
  (accepted r g = false /\ exists pkt, processShred now r g sh ch = Ok (pkt, g, sh, ch))
  \/ (accepted r g = true /\ exists data from addr,
       r = RecvMsg data from /\ NewAddr from = Ok addr /\
       let pkt := received_packet data in
       let g' := set_watchdog (Running (now + noTrafficThreshold)) 0 g in
       ((is_Ok (ParseShredPartial (sp_payload pkt) (sp_length pkt)) = false
         /\ processShred now r g sh ch = Ok (pkt, g', sh, ch))
        \/ exists shred, ParseShredPartial (sp_payload pkt) (sp_length pkt) = Ok shred
          /\ let o := observe (NetAddr addr) "OFR" shred sh in
             processShred now r g sh ch = Ok (pkt, g', o.2,
               if o.1 then (try_send ch (mkShredData pkt now shred (NetAddr addr))).2 else ch))).
Proof.
  unfold accepted, processShred, processShred_reads. destruct r as [errno|data from]; [left; split; [done|by eexists]|].
  change (UnsafeReadFrom (sp_payload zeroShredPacket) (RecvMsg data from)) with
    (addr ← NewAddr from; Ok (fixed_array data,
       Z.min (zlen (sp_payload zeroShredPacket)) (zlen data), addr) : outcome udp_error _).
  assert (zlen (sp_payload zeroShredPacket) = UDPShredSize) as ->
    by (unfold zlen; cbn [sp_payload zeroShredPacket]; by rewrite length_replicate).
  pose proof (NewAddr_panics from). destruct (NewAddr from) as [addr|e|e] eqn:Haddr; [|left; split; [done|by eexists]|done].
  rewrite bind_Ok. destruct (IsZero _); cbn [negb andb]; [left; split; [done|by eexists]|].
  destruct (bool_decide _); cbn [negb]; [right|left; split; [done|by eexists]].
  split; [done|]. exists data, from, addr. split_and!; [done|done|]. cbn zeta.
  change (fixed_array data) with (sp_payload (received_packet data)).
  change (Z.min UDPShredSize (zlen data)) with (sp_length (received_packet data)).
  change (mkShredPacket (sp_payload (received_packet data)) (sp_length (received_packet data)))
    with (received_packet data).
  assert (is_array1228 (sp_payload (received_packet data))) as Ha by apply fixed_array_1228.
  pose proof (ParseShredPartial_panics _ (sp_length (received_packet data)) Ha) as Hnp.
  generalize dependent (received_packet data). intros pkt Ha Hnp.
  destruct (ParseShredPartial _ _) as [shred|e|e] eqn:Hparse; [right|left; by split|done].
  exists shred. split; [done|]. by destruct (observe _ _ _ _) as [[] sh'].
Qed.

(** The bytes a forwarded packet sends are the datagram, cut to 1228 bytes. *)
Lemma received_packet_bytes {E} data :
  go_slice (E:=E) (sp_payload (received_packet data)) 0 (sp_length (received_packet data))
  = Ok (take 1228 data).
Proof.
  cbn [received_packet sp_payload sp_length].
  pose proof (fixed_array_1228 data) as Ha. unfold is_array1228 in Ha.
  rewrite go_slice_sub by (rewrite ?Ha; change UDPShredSize with 1228; unfold zlen; lia).
  unfold sub. rewrite Z.sub_0_r. change (Z.to_nat 0) with 0%nat. rewrite drop_0. f_equal.
  unfold fixed_array, go_copy. rewrite length_replicate.
  change (Z.to_nat UDPShredSize) with 1228%nat. unfold UDPShredSize, zlen.
  destruct (Nat.le_gt_cases (length data) 1228).
  - rewrite Z.min_r, Nat2Z.id by lia. rewrite (take_ge data) by lia. by rewrite take_app_length.
  - rewrite Z.min_l by lia. change (Z.to_nat 1228) with 1228%nat.
    rewrite take_app_le by (rewrite length_take; lia). by rewrite take_take, Nat.min_id.
Qed.
End receive.

Lemma write_all_eq {E} fd p n to data :
  go_slice (E:=E) p 0 n = Ok data ->
  write_all (E:=E) fd p n to = Ok (map (fun a => mkSend (Udp.fd fd) data a) to).
Proof. intros Hd. unfold write_all. destruct to; [done|]. by rewrite Hd. Qed.

(** ** Registration *)

Section registration.
Context (resolve : string -> outcome udp_error UDPAddr).

Lemma Register_end_address rsp g r g' :
  Register_end resolve rsp g = (r, g') ->
  (exists sa addr, r = Ok sa /\ NewAddr (Some sa) = Ok addr /\ g' = set_ofr addr g)
  \/ (is_Ok r = false /\ g' = g).
Proof.
  unfold Register_end. destruct rsp as [rsp|e|p]; [|intros [= <- <-]; by right..].
  destruct (SockAddrFromUDPString _ _) as [sa|e|p]; [|intros [= <- <-]; by right..].
  destruct (NewAddr _) as [addr|e|p] eqn:Hn; [|intros [= <- <-]; by right..].
  intros [= <- <-]. left. by exists sa, addr.
Qed.

Lemma Register_end_watchdog rsp g :
  noTrafficCounter (Register_end resolve rsp g).2 = noTrafficCounter g
  /\ noTrafficCounterLimit (Register_end resolve rsp g).2 = noTrafficCounterLimit g.
Proof.
  destruct (Register_end resolve rsp g) as [r g'] eqn:Hr.
  apply Register_end_address in Hr as [(sa & addr & _ & _ & ->)|[_ ->]]; done.
Qed.
End registration.

Lemma Register_result resolve rsp g1 g2 : (Register resolve rsp g1).1 = (Register resolve rsp g2).1.
Proof.
  unfold Register, Register_end. destruct rsp as [rsp|e|p]; [|done..].
  destruct (SockAddrFromUDPString _ _) as [sa|e|p]; [|done..]. by destruct (NewAddr _).
Qed.

Lemma NewAddr_IsZero sa addr : NewAddr (Some sa) = Ok addr -> IsZero addr = false.
Proof. intros Hn. apply bool_decide_eq_false_2. intros ->. by destruct sa. Qed.

(** A registration leaves the gateway registered exactly when it succeeded. *)
Lemma Register_IsZero resolve rsp g :
  IsZero (ofrUDPAddr (Register resolve rsp g).2) = negb (is_Ok (Register resolve rsp g).1).
Proof.
  destruct (Register resolve rsp g) as [r g'] eqn:Hr. unfold Register in Hr.
  apply Register_end_address in Hr as [(sa & addr & -> & Hn & ->)|[Hr ->]]; cbn.
  - by apply (NewAddr_IsZero sa).
  - by rewrite Hr.
Qed.

(** The answers after which [Start] tries again. *)
Definition retries {A} (r : outcome gw_error A) : bool :=
  match r with Err e => negb (is_final_gw e) | _ => false end.

Lemma Start_loop_S resolve rsps n i g last :
  Start_loop resolve rsps (S n) i g last
  = match Register resolve (rsps i) g with
    | (Err e, g) =>
        if is_final_gw e then (Err e, g, 1%nat, O)
        else let '(r, g, attempts, sleeps) := Start_loop resolve rsps n (S i) g (Err e) in
             (r, g, S attempts, S sleeps)
    | (r, g) => (r, g, 1%nat, O)
    end.
Proof. done. Qed.

Lemma Start_loop_spec resolve rsps n i g last r g' attempts sleeps :
  let out j := (Register resolve (rsps j) g).1 in
  Start_loop resolve rsps (S n) i g last = (r, g', attempts, sleeps) ->
  (1 <= attempts <= S n)%nat
  /\ (forall j, (i <= j < i + attempts - 1)%nat -> retries (out j) = true)
  /\ r = out (i + attempts - 1)%nat
  /\ (retries r = true -> attempts = S n)
  /\ sleeps = (if retries r then attempts else attempts - 1)%nat
  /\ IsZero (ofrUDPAddr g') = negb (is_Ok r).
Proof.
  revert i g last r g' attempts sleeps.
  induction n as [|n IH]; intros i g last r g' attempts sleeps out; rewrite Start_loop_S;
    pose proof (Register_IsZero resolve (rsps i) g) as Hz;
    destruct (Register resolve (rsps i) g) as [[a|e|p] g1] eqn:Hr; cbn [fst snd] in Hz.
  1,3,4,6: intros [= <- <- <- <-]; replace (i + 1 - 1)%nat with i by lia; unfold out; rewrite Hr; cbn;
    (split_and!; [lia|lia|intros; lia|done|done|lia|done]).
  all: destruct (is_final_gw e) eqn:He;
    [intros [= <- <- <- <-]; replace (i + 1 - 1)%nat with i by lia; unfold out; rewrite Hr; cbn [fst retries];
     rewrite He; split_and!; [lia|lia|intros; lia|done|done|done|done]|].
  - intros [= <- <- <- <-]. replace (i + 1 - 1)%nat with i by lia. unfold out. rewrite Hr. cbn [fst retries].
    rewrite He. split_and!; [lia|lia|intros; lia|done|done|done|done].
  - destruct (Start_loop resolve rsps (S n) (S i) g1 (Err e)) as [[[r0 g0] at0] sl0] eqn:Hl.
    intros [= <- <- <- <-]. apply IH in Hl as (Hat & Hpre & Hres & Hall & Hsl & Hz0).
    assert (forall j, (Register resolve (rsps j) g1).1 = out j) as Hout
      by (intros j; apply Register_result).
    split_and!; [lia|lia| | | | |done].
    + intros j Hj. destruct (decide (j = i)) as [->|].
      * unfold out. rewrite Hr. cbn. by rewrite He.
      * rewrite <- Hout. apply Hpre. lia.
    + rewrite Hres, Hout. f_equal. lia.
    + intros Hret. rewrite (Hall Hret). done.
    + rewrite Hsl. destruct (retries r0); lia.
Qed.

(** ** The watchdog *)

Section watchdog_invariant.
Context {C : Type} `{DedupCacheLaws C} (resolve : string -> outcome udp_error UDPAddr) (limit : Z).
Implicit Types w : world C.

Definition late_ticks w : Z := if w_late w then 1 else 0.

(** [ticks] periods since the last accepted traffic. *)
Definition silence w (ticks : Z) : Z := w_last w + ticks * noTrafficThreshold.

(** The counter is the number of registrations since the last accepted traffic; each of
    them waited for a full period, the first one possibly excepted when the traffic came
    during a registration. *)
Definition watchdog_inv w : Prop :=
  let c := noTrafficCounter (w_gw w) in
  noTrafficCounterLimit (w_gw w) = limit /\ w_last w <= w_now w /\
  match w_phase w with
  | Waiting => 0 <= c < limit /\ exists next, noTrafficTicker (w_gw w) = Running next
      /\ silence w (c + 1 - late_ticks w) <= next
  | Calling => 0 <= c < limit /\ silence w (c + 1 - late_ticks w) <= w_now w
      /\ IsZero (ofrUDPAddr (w_gw w)) = true
  | AddrSet => 0 <= c < limit /\ silence w (c + 1 - late_ticks w) <= w_now w
  | Counted => 0 <= c <= limit /\ (c = 0 -> w_late w = true) /\ silence w (c - late_ticks w) <= w_now w
  | Crashed CrashNoTraffic => (c = 0 /\ w_late w = true)
      \/ (c = limit /\ silence w (limit - late_ticks w) <= w_now w)
  | Crashed _ => True
  end.

Lemma processShred_effect now r g (sh : shared C) ch pkt g' sh' ch' :
  processShred now r g sh ch = Ok (pkt, g', sh', ch') ->
  g' = if accepted r g then set_watchdog (Running (now + noTrafficThreshold)) 0 g else g.
Proof.
  intros Hp. destruct (processShred_cases now r g sh ch)
    as [[-> [p E]]|(-> & data & from & addr & _ & _ & [[_ E]|(shred & _ & E)])]; rewrite E in Hp; congruence.
Qed.

Lemma accepted_registered r g : accepted r g = true -> IsZero (ofrUDPAddr g) = false.
Proof.
  unfold accepted. destruct (UnsafeReadFrom _ _) as [[[payload n] addr]| |]; [|done..].
  by intros [?%negb_true_iff _]%andb_prop.
Qed.

Lemma watchdog_inv_step w w' :
  0 < limit < 2 ^ 31 -> watchdog_inv w -> step resolve w w' -> watchdog_inv w'.
Proof.
  intros Hlim (HL & Hlast & Hph) Hs. unfold watchdog_inv, silence, late_ticks in *.
  assert (0 < noTrafficThreshold) as HT by done.
  destruct Hs as [w t Hc Ht|w r pkt g sh ch Hc Hp|w sd ch Hc _|w next Hw Hk Hn|w rsp e g Hw Hr _
    |w rsp e g Hw Hr _|w rsp p g Hw Hr|w rsp a g Hw Hr|w Hw|w reached Hw Hl|w p Hw _];
    cbn [w_now w_gw w_sh w_ch w_phase w_last w_late] in *;
    try rewrite Hw in Hph; try pose proof (Register_end_watchdog resolve rsp (w_gw w)) as [Hcnt Hlm];
    try rewrite Hr in *; cbn [snd] in *.
  - split_and!; [done|lia|]. destruct (w_phase w) as [| | | |[]]; try done; intuition lia.
  - apply processShred_effect in Hp. destruct (accepted r (w_gw w)) eqn:Ha; subst g; [|done].
    apply accepted_registered in Ha. cbn. split_and!; [done|lia|].
    destruct (w_phase w) as [| | | |[]]; cbn; [|destruct Hph as (_ & _ & Hz); congruence| | |done..].
    + split; [lia|]. eexists. split; [done|]. lia.
    + lia.
    + split_and!; [lia|lia|done|lia].
  - done.
  - destruct Hph as (? & next' & Hk' & ?). rewrite Hk in Hk'. injection Hk' as <-. cbn.
    split_and!; [done|lia|lia|lia|lia|by apply bool_decide_eq_true_2].
  - cbn. rewrite Hcnt, Hlm. split_and!; [done|lia|lia|lia|]. eexists. split; [done|]. lia.
  - rewrite Hlm. by split_and!.
  - rewrite Hlm. by split_and!.
  - rewrite Hcnt, Hlm. split_and!; [done|lia|lia|lia|lia].
  - cbn. rewrite swrap_small by lia. split_and!; [done|lia|lia|lia|lia|lia].
  - unfold limit_reached in Hl. rewrite HL, swrap_small in Hl by lia.
    destruct (Z.eqb_spec limit 0); [lia|]. injection Hl as Hl.
    destruct Hph as (Hb & Hz & Hsil). destruct reached; cbn.
    + split_and!; [done|lia|]. apply Z.eqb_eq in Hl.
      destruct (decide (noTrafficCounter (w_gw w) = limit)) as [E|]; [right; split; [done|by rewrite <- E at 1]|left].
      rewrite Z.rem_small in Hl by lia. auto.
    + apply Z.eqb_neq in Hl. assert (noTrafficCounter (w_gw w) <> 0) by (intros E; by rewrite E, Z.rem_0_l in Hl).
      assert (noTrafficCounter (w_gw w) <> limit) by (intros E; by rewrite E, Z.rem_same in Hl).
      split_and!; [done|lia|lia|lia|]. eexists. split; [done|]. lia.
  - done.
Qed.

Lemma watchdog_inv_reach w w' :
  0 < limit < 2 ^ 31 -> watchdog_inv w -> rtc (step resolve) w w' -> watchdog_inv w'.
Proof. intros Hlim Hi Hr. induction Hr; [done|]. eauto using watchdog_inv_step. Qed.

Lemma watchdog_inv_initial now g (sh : shared C) ch :
  0 < limit -> noTrafficCounter g = 0 -> noTrafficCounterLimit g = limit ->
  watchdog_inv (initial now g sh ch).
Proof.
  intros Hlim Hc Hl. unfold watchdog_inv, silence, late_ticks. cbn. rewrite Hc.
  split_and!; [done|lia|lia|lia|]. eexists. split; [done|]. lia.
Qed.
End watchdog_invariant.

(** ** A concrete gateway *)

Definition demo_resolve (s : string) : outcome udp_error UDPAddr :=
  Ok {| UIP := [Byte.x22; Byte.x01; Byte.x02; Byte.x03]; UPort := 18888 |}.

Definition demo_relay : Sockaddr := SockaddrInet4 18888 [Byte.x22; Byte.x01; Byte.x02; Byte.x03].

Definition demo_relay_addr : Addr :=
  {| SockAddr := Some demo_relay; NetAddr := AddrFrom4 [Byte.x22; Byte.x01; Byte.x02; Byte.x03] |}.

Definition demo_gateway (limit : Z) : Gateway :=
  mkGateway (Some demo_nl) false (mkFDConn 3 18888 true) (mkFDConn 4 18889 true) (mkFDConn 5 18890 true)
    (Some (SockaddrInet4 8001 [Byte.x7f; Byte.x00; Byte.x00; Byte.x01])) demo_relay_addr Stopped 0
    [SockaddrInet4 9000 [Byte.x0a; Byte.x00; Byte.x00; Byte.x09]] false false limit.

(** The relay is unavailable once. *)
Definition demo_answers (i : nat) : outcome register_error RegisterResponse :=
  match i with O => Err (ErrRegistrar "unavailable") | S _ => Ok {| UdpAddress := "relay:18888" |} end.

Definition demo_shared : shared AlterKey := mkShared NewAlterKey (newStats false).

(** The relay sends the sample shred from another port: it is forwarded once. *)
Example demo_forward :
  match processShred 7 (RecvMsg (take 1203 sample_shred) (Some (SockaddrInet4 1 [Byte.x22; Byte.x01; Byte.x02; Byte.x03])))
          (demo_gateway 3) demo_shared (make_chan 100000) with
  | Ok (_, g, sh, ch) =>
      zlen (chan_buf ch) = 1 /\ noTrafficTicker g = Running (7 + noTrafficThreshold)
      /\ match processShred 8 (RecvMsg (take 1203 sample_shred) (Some demo_relay)) g sh ch with
         | Ok (_, _, _, ch) => zlen (chan_buf ch) = 1
         | _ => False
         end
  | _ => False
  end.
Proof. vm_compute. done. Qed.

(** The ticker is due. *)
Definition demo_due : world AlterKey :=
  mkWorld noTrafficThreshold (reRegister_init 0 (demo_gateway 3)) demo_shared (make_chan 100000) Waiting 0 false.

(** A silent relay and a limit of one registration. *)
Definition demo_crash : world AlterKey :=
  let g := set_ofr demo_relay_addr (Register_begin (reRegister_init 0 (demo_gateway 1))) in
  mkWorld noTrafficThreshold (set_watchdog (noTrafficTicker g) 1 g) demo_shared (make_chan 100000)
    (Crashed CrashNoTraffic) 0 false.

Lemma demo_crash_reached :
  rtc (step demo_resolve) (initial 0 (demo_gateway 1) demo_shared (make_chan 100000)) demo_crash.
Proof.
  eapply rtc_l. { apply (step_time demo_resolve _ noTrafficThreshold); done. }
  eapply rtc_l. { apply (step_tick demo_resolve _ noTrafficThreshold); done. }
  eapply rtc_l.
  { apply (step_registered demo_resolve _ (Ok {| UdpAddress := "relay:18888" |}) demo_relay
      (set_ofr demo_relay_addr (Register_begin (reRegister_init 0 (demo_gateway 1))))); done. }
  eapply rtc_l. { by apply (step_add demo_resolve). }
  apply rtc_once.
  pose proof (step_load demo_resolve (mkWorld noTrafficThreshold (w_gw demo_crash) demo_shared
    (make_chan 100000) Counted 0 false) true eq_refl eq_refl) as Hs. exact Hs.
Qed.

(** ** Theorems *)

(** C1: what the gateway forwards from the relay.  [processShred] returns on every input,
    and adds an element to the channel of shreds for the node exactly for a datagram that
    comes from the IP address of the registered relay (whatever its port), parses, is not a
    duplicate, and finds room; that element is the datagram.  In the iteration of
    [broadcastShredsToNode] that takes it, the datagram's bytes (at most 1228) are sent to
    the node, unless there is none, and to every extra endpoint, in that order. *)
Theorem relay_to_node {C : Type} {cache0 : DedupCache C} {laws : DedupCacheLaws C}
    (addr_String : NetipAddr -> string) (fluentd : bool) (now : Z) (data : list byte)
    (from : option Sockaddr) (g : Gateway) (sh : shared C) (ch : channel shredData) :
  let pkt := received_packet data in
  exists g' sh' ch' p, processShred now (RecvMsg data from) g sh ch = Ok (p, g', sh', ch')
    /\ (forall sd, chan_buf ch' = chan_buf ch ++ [sd] <->
          exists addr shred, NewAddr from = Ok addr /\ NetAddr addr = NetAddr (ofrUDPAddr g)
            /\ IsZero (ofrUDPAddr g) = false
            /\ ParseShredPartial (sp_payload pkt) (sp_length pkt) = Ok shred
            /\ ~ cache_seen (ShredKey (Slot shred) (Index shred) (PVariant shred)) (cache sh)
            /\ zlen (chan_buf ch) < chan_cap ch
            /\ sd = mkShredData pkt now shred (NetAddr addr))
    /\ (chan_buf ch' = chan_buf ch \/ exists sd, chan_buf ch' = chan_buf ch ++ [sd])
    /\ forall sd, sd_packet sd = pkt ->
         exists samples, broadcastShredsToNode addr_String fluentd g' sd =
           Ok (map (fun a => mkSend (Udp.fd (send2NodeFd g)) (take 1228 data) a)
                 ((if noValidator g then [] else [solanaTVUAddr g]) ++ map Some (extraBroadcastAddrs g)),
               samples).
Proof.
  intros pkt. unfold pkt. clear pkt.
  assert (forall (l : list shredData) x, l <> l ++ [x]) as Happ.
  { intros l x Hl. apply (f_equal length) in Hl. rewrite length_app in Hl. cbn in Hl. lia. }
  assert (forall g' sd, sd_packet sd = received_packet data -> noValidator g' = noValidator g ->
    send2NodeFd g' = send2NodeFd g -> solanaTVUAddr g' = solanaTVUAddr g ->
    extraBroadcastAddrs g' = extraBroadcastAddrs g ->
    exists samples, broadcastShredsToNode addr_String fluentd g' sd =
      Ok (map (fun a => mkSend (Udp.fd (send2NodeFd g)) (take 1228 data) a)
        ((if noValidator g then [] else [solanaTVUAddr g]) ++ map Some (extraBroadcastAddrs g)), samples)) as Hbc.
  { intros g' sd Hsd H1 H2 H3 H4. unfold broadcastShredsToNode. rewrite Hsd, H1, H2, H3, H4.
    rewrite !(write_all_eq _ _ _ _ _ (received_packet_bytes data)), !bind_Ok.
    eexists. rewrite map_app. by destruct (noValidator g). }
  destruct (processShred_cases now (RecvMsg data from) g sh ch)
    as [[Hacc [p ->]]|(Hacc & data' & from' & addr & [= <- <-] & Haddr & Hcase)].
  - eexists _, _, _, _. split; [done|]. split_and!; [|by left|intros sd Hsd; by apply Hbc].
    intros sd. split; [by intros ?%Happ|]. intros (addr & shred & Ha & Hip & Hz & _).
    exfalso. revert Hacc. unfold accepted, UnsafeReadFrom. rewrite Ha, bind_Ok, Hz.
    by rewrite bool_decide_eq_true_2.
  - assert (NetAddr addr = NetAddr (ofrUDPAddr g) /\ IsZero (ofrUDPAddr g) = false) as [Hip Hz].
    { revert Hacc. unfold accepted, UnsafeReadFrom. rewrite Haddr, bind_Ok.
      by intros [?%negb_true_iff ?%bool_decide_eq_true_1]%andb_prop. }
    cbn zeta in Hcase. destruct Hcase as [[Hno ->]|(shred & Hs & ->)];
      eexists _, _, _, _; (split; [done|]); split_and!; try (intros sd Hsd; by apply Hbc).
    + intros sd. split; [by intros ?%Happ|]. intros (? & ? & _ & _ & _ & Hs & _). by rewrite Hs in Hno.
    + by left.
    + intros sd. unfold observe.
      pose proof (cache_Set_fresh (ShredKey (Slot shred) (Index shred) (PVariant shred)) (cache sh)) as Hf.
      destruct (cache_Set _ _) as [[] c]; cbn [fst snd] in *; split.
      * rewrite try_send_buf, try_send_room.
        destruct (Z.ltb_spec (zlen (chan_buf ch)) (chan_cap ch)); [|by intros ?%Happ].
        intros [_ [= <-]]%app_inj_2; [|done]. exists addr, shred. split_and!; [done..|tauto|done|done].
      * intros (addr' & shred' & Ha' & _ & _ & Hs' & _ & Hroom & ->).
        rewrite Hs in Hs'. injection Hs' as <-. rewrite Haddr in Ha'. injection Ha' as <-.
        rewrite try_send_buf, try_send_room. by rewrite (proj2 (Z.ltb_lt _ _) Hroom).
      * by intros ?%Happ.
      * intros (addr' & shred' & _ & _ & _ & Hs' & Hns & _). rewrite Hs in Hs'. injection Hs' as <-.
        by apply Hf in Hns.
    + destruct (observe _ _ _ _).1; [|by left]. rewrite try_send_buf. case_if; eauto.
Qed.

Lemma relay_to_node_witness :
  exists g' sh' ch' p,
    processShred 7 (RecvMsg (take 1203 sample_shred) (Some demo_relay)) (demo_gateway 3) demo_shared
      (make_chan 100000) = Ok (p, g', sh', ch').
Proof.
  destruct (relay_to_node (fun _ => ""%string) false 7 (take 1203 sample_shred) (Some demo_relay)
    (demo_gateway 3) demo_shared (make_chan 100000)) as (g' & sh' & ch' & p & H & _).
  exists g', sh', ch', p. exact H.
Defined.

(** Datagrams of others.  A failed read, a datagram of unknown address family, one from
    another IP address than the relay's, and any datagram while the gateway is not
    registered, change nothing: neither the watchdog (so that foreign traffic does not hide
    the relay's silence) nor the cache, the statistics or the channel.  A datagram from
    the relay restarts the watchdog even if it is not a shred. *)
Theorem foreign_datagrams_ignored {C : Type} {cache0 : DedupCache C}
    (now : Z) (r : recv_result) (g : Gateway) (sh : shared C) (ch : channel shredData) :
  exists pkt g' sh' ch', processShred now r g sh ch = Ok (pkt, g', sh', ch')
    /\ ((forall data from addr, r = RecvMsg data from -> NewAddr from = Ok addr ->
          IsZero (ofrUDPAddr g) = true \/ NetAddr addr <> NetAddr (ofrUDPAddr g)) ->
        g' = g /\ sh' = sh /\ ch' = ch)
    /\ (forall data from addr, r = RecvMsg data from -> NewAddr from = Ok addr ->
          IsZero (ofrUDPAddr g) = false -> NetAddr addr = NetAddr (ofrUDPAddr g) ->
        noTrafficTicker g' = Running (now + noTrafficThreshold) /\ noTrafficCounter g' = 0).
Proof.
  assert (forall data from addr, r = RecvMsg data from -> NewAddr from = Ok addr ->
    accepted r g = negb (IsZero (ofrUDPAddr g)) && bool_decide (NetAddr addr = NetAddr (ofrUDPAddr g))) as Hacc.
  { intros data from addr -> Ha. unfold accepted, UnsafeReadFrom. by rewrite Ha, bind_Ok. }
  destruct (processShred_cases now r g sh ch)
    as [[Hno [p E]]|(Hyes & data & from & addr & Hr & Ha & Hcase)].
  - exists p, g, sh, ch. split; [done|]. split; [done|]. intros data from addr Hr Ha Hz Hip.
    rewrite (Hacc _ _ _ Hr Ha), Hz, bool_decide_eq_true_2 in Hno by done. done.
  - assert (exists sh' ch', processShred now r g sh ch = Ok (received_packet data,
      set_watchdog (Running (now + noTrafficThreshold)) 0 g, sh', ch')) as (sh' & ch' & E).
    { cbn zeta in Hcase. destruct Hcase as [[_ E]|(shred & _ & E)]; rewrite E; by eexists _, _. }
    eexists _, _, _, _. split; [exact E|]. split; [|done].
    intros Hf. rewrite (Hacc _ _ _ Hr Ha), andb_true_iff, negb_true_iff, bool_decide_eq_true in Hyes.
    destruct (Hf _ _ _ Hr Ha) as [?|?]; [|tauto]. destruct Hyes. congruence.
Qed.

(** C29: the unlocked reads of the relay's address.  Registration can change the address
    between the two reads of [processShred]; whatever it is at the first read (in [g1]) and at
    the second (in [g]), the outcome is that of the whole function at one of the two moments,
    so that taking it as one step loses no behaviour.  This is not so for the alive messages:
    when the address is cleared between the two reads, a message is sent to no address, which
    no atomic iteration does. *)
Theorem relay_address_reads {C : Type} {cache0 : DedupCache C} (now : Z) (r : recv_result)
    (g1 g : Gateway) (sh : shared C) (ch : channel shredData) :
  let split := processShred_reads (ofrUDPAddr g1) now r g sh ch in
  (split = processShred now r g sh ch
   \/ exists pkt, processShred now r g1 sh ch = Ok (pkt, g1, sh, ch) /\ split = Ok (pkt, g, sh, ch))
  /\ (IsZero (ofrUDPAddr g1) = false ->
       sendAliveMessages_reads (ofrUDPAddr g1) (Register_begin g1)
       = [mkSend (Udp.fd (send2OFRFd g1)) AliveMsg None])
  /\ (forall s, IsZero (ofrUDPAddr g) = true \/ (exists sa, NewAddr (Some sa) = Ok (ofrUDPAddr g)) ->
       s ∈ sendAliveMessages_tick g -> s_to s <> None).
Proof.
  intros split. split_and!.
  - subst split. unfold processShred, processShred_reads.
    pose proof (NewAddr_panics) as Hnp. destruct r as [errno|data from]; [by left|]. cbn [UnsafeReadFrom].
    specialize (Hnp from). destruct (NewAddr from) as [addr|e|p] eqn:Ha; [|by left|done]. rewrite bind_Ok.
    destruct (IsZero (ofrUDPAddr g1)); [right; by eexists|left].
    destruct (IsZero (ofrUDPAddr g)) eqn:Hz; [|done]. apply IsZero_iff in Hz. rewrite Hz.
    rewrite bool_decide_eq_false_2; [done|]. destruct from as [[]|]; by simplify_eq/=.
  - intros Hz. unfold sendAliveMessages_reads. by rewrite Hz.
  - intros s Hg. unfold sendAliveMessages_tick, sendAliveMessages_reads.
    destruct Hg as [->|[sa Hsa]]; [by intros ?%not_elem_of_nil|].
    rewrite (NewAddr_nonzero _ _ Hsa). intros ->%list_elem_of_singleton. cbn.
    by rewrite (NewAddr_SockAddr _ _ Hsa).
Qed.

(** C31: what the gateway sends to the relay.  Nothing before it is registered; afterwards
    each shred of the node goes to the relay's socket address and, unless the extra
    endpoints are for relay traffic only, to each of them, with the bytes [p[:n]] of its
    payload.  The iteration panics exactly when the length is outside of the 1228-byte
    payload, which the network listener's parser rules out. *)
Theorem node_to_relay (addr_String : NetipAddr -> string) (fluentd : bool) (g : Gateway) (shred : NLShred) :
  is_array1228 (Payload (Packet shred)) ->
  (IsZero (ofrUDPAddr g) = true -> broadcastShredsToOFR addr_String fluentd g shred = Ok ([], []))
  /\ (IsZero (ofrUDPAddr g) = false -> 0 <= Length (Packet shred) <= 1228 ->
      exists samples, broadcastShredsToOFR addr_String fluentd g shred =
        Ok (map (fun a => mkSend (Udp.fd (send2OFRFd g)) (take (Z.to_nat (Length (Packet shred))) (Payload (Packet shred))) a)
              (SockAddr (ofrUDPAddr g) ::
               if extraBroadcastFromOFROnly g then [] else map Some (extraBroadcastAddrs g)), samples))
  /\ panics (broadcastShredsToOFR addr_String fluentd g shred)
     = negb (IsZero (ofrUDPAddr g)) && negb ((0 <=? Length (Packet shred)) && (Length (Packet shred) <=? 1228))
  /\ (forall x, ParseShredPartial (Payload (Packet shred)) (Length (Packet shred)) = Ok x ->
      0 <= Length (Packet shred) <= 1228).
Proof.
  intros Ha. unfold is_array1228 in Ha. change UDPShredSize with 1228 in Ha.
  assert (forall n, 0 <= n <= 1228 -> go_slice (E:=udp_error) (Payload (Packet shred)) 0 n
    = Ok (take (Z.to_nat n) (Payload (Packet shred)))) as Hs.
  { intros n Hn. rewrite go_slice_sub by lia. unfold sub. by rewrite Z.sub_0_r. }
  unfold broadcastShredsToOFR. split_and!.
  - by intros ->.
  - intros -> Hn. rewrite !(write_all_eq _ _ _ _ _ (Hs _ Hn)), !bind_Ok. eexists.
    by destruct (extraBroadcastFromOFROnly g).
  - destruct (IsZero _); [done|]. cbn [negb andb].
    destruct ((0 <=? Length (Packet shred)) && (Length (Packet shred) <=? 1228)) eqn:Hn; cbn [negb].
    + apply andb_prop in Hn as [?%Z.leb_le ?%Z.leb_le].
      by rewrite !(write_all_eq _ _ _ _ _ (Hs _ (conj H H0))).
    + cbn [write_all]. unfold go_slice. rewrite Ha.
      rewrite andb_false_iff, !Z.leb_gt in Hn. rewrite !Z.leb_refl.
      destruct (Z.leb_spec 0 (Length (Packet shred))); [|done].
      destruct (Z.leb_spec (Length (Packet shred)) 1228); [lia|done].
  - intros x Hx. apply ParseShredPartial_bounds in Hx; [lia|done].
Qed.

Lemma node_to_relay_witness :
  panics (broadcastShredsToOFR (fun _ => "") false (demo_gateway 3)
    (mkNLShred (mkSniffPacket ZeroAddr "" sample_shred 1229 0) (mkPartialShred [] 0 (mkShredVariantByte 0 "" 0 false false) 0 0)))
  = negb false && negb ((0 <=? 1229) && (1229 <=? 1228)).
Proof.
  refine (proj1 (proj2 (proj2 (node_to_relay (fun _ => ""%string) false (demo_gateway 3)
    (mkNLShred (mkSniffPacket ZeroAddr "" sample_shred 1229 0)
      (mkPartialShred [] 0 (mkShredVariantByte 0 "" 0 false false) 0 0)) _)))).
  vm_compute. reflexivity.
Defined.

(** Registration.  Whatever its previous state, after [Register] the gateway holds a
    relay address exactly when the call succeeded, and it is the address in the relay's
    answer; after a failure it is unregistered, so that nothing is sent or accepted. *)
Theorem Register_sets_address (resolve : string -> outcome udp_error UDPAddr)
    (rsp : outcome register_error RegisterResponse) (g g' : Gateway) (r : outcome gw_error Sockaddr) :
  Register resolve rsp g = (r, g') ->
  (forall sa, r = Ok sa -> SockAddr (ofrUDPAddr g') = Some sa /\ IsZero (ofrUDPAddr g') = false
     /\ exists m ua, rsp = Ok m /\ resolve (UdpAddress m) = Ok ua /\ SockAddrFromNetUDPAddr ua = Ok sa)
  /\ (is_Ok r = false -> ofrUDPAddr g' = zeroAddr)
  /\ (noTrafficCounter g' = noTrafficCounter g /\ noTrafficTicker g' = noTrafficTicker g).
Proof.
  intros Hr. unfold Register in Hr. pose proof Hr as Hr'.
  apply Register_end_address in Hr as [(sa & addr & -> & Hn & ->)|[Hr ->]]; [|by destruct r].
  split; [|done]. intros ? [= <-]. split_and!.
  - destruct sa; cbn in Hn; by simplify_eq.
  - cbn. by apply (NewAddr_IsZero sa).
  - revert Hr'. unfold Register_end. destruct rsp as [m|e|p]; [|done..].
    unfold SockAddrFromUDPString. destruct (resolve (UdpAddress m)) as [ua|e|p] eqn:Hres; [|done..].
    rewrite bind_Ok. destruct (SockAddrFromNetUDPAddr ua) as [sa'|e|p] eqn:Hsa; [|done..].
    destruct (NewAddr (Some sa')); [|done..]. intros [= <- _]. by exists m, ua.
Qed.

Lemma Register_sets_address_witness :
  SockAddr (ofrUDPAddr (Register demo_resolve (Ok {| UdpAddress := "relay:18888" |}) (demo_gateway 3)).2)
  = Some demo_relay.
Proof.
  refine (proj1 (proj1 (Register_sets_address demo_resolve (Ok {| UdpAddress := "relay:18888" |})
    (demo_gateway 3) (Register demo_resolve (Ok {| UdpAddress := "relay:18888" |}) (demo_gateway 3)).2
    (Ok demo_relay) _) demo_relay eq_refl)).
  reflexivity.
Defined.

(** C25: start-up.  [Start] makes one to three registration attempts, sleeping after each
    one that may be retried; it makes another only after a failure that is not final and
    reports the last attempt.  It starts the goroutines exactly on success, and then the
    gateway is registered. *)
Theorem Start_attempts (resolve : string -> outcome udp_error UDPAddr)
    (rsps : nat -> outcome register_error RegisterResponse) (g g' : Gateway)
    (r : outcome gw_error (list goroutine)) (attempts sleeps : nat) :
  let out j := (Register resolve (rsps j) g).1 in
  Start resolve rsps g = (r, g', attempts, sleeps) ->
  (1 <= attempts <= 3)%nat
  /\ (forall j, (S j < attempts)%nat -> retries (out j) = true)
  /\ (retries (out (attempts - 1)%nat) = true -> attempts = 3%nat)
  /\ sleeps = (if retries (out (attempts - 1)%nat) then attempts else attempts - 1)%nat
  /\ (is_Ok r = is_Ok (out (attempts - 1)%nat) /\ IsZero (ofrUDPAddr g') = negb (is_Ok r))
  /\ (forall e, r = Err e <-> out (attempts - 1)%nat = Err e).
Proof.
  intros out. unfold Start, registerRetryCount.
  destruct (Start_loop _ _ _ _ _ _) as [[[r0 g0] at0] sl0] eqn:Hl.
  apply Start_loop_spec in Hl as (Hat & Hpre & Hr0 & Hall & Hsl & Hz).
  intros [= <- <- <- <-]. cbn [Nat.add] in Hr0, Hpre. unfold out. clear out. rewrite <- Hr0.
  split_and!; [lia|lia| |done|done| |by destruct r0|].
  - intros j Hj. apply Hpre. lia.
  - by destruct r0.
  - intros e. destruct r0; cbn; naive_solver.
Qed.

Lemma Start_attempts_witness :
  retries (Register demo_resolve (demo_answers 0) (demo_gateway 3)).1 = true.
Proof.
  destruct (Start_attempts demo_resolve demo_answers (demo_gateway 3)
    (Start demo_resolve demo_answers (demo_gateway 3)).1.1.2
    (Start demo_resolve demo_answers (demo_gateway 3)).1.1.1 2 1) as (H1 & H2 & _).
  - reflexivity.
  - apply (H2 0%nat). lia.
Defined.

(** C8: the watchdog is patient.  With a limit of [L] registrations, whatever the
    interleaving of the receive loop with the steps of the re-registration loop, a panic for
    missing traffic means that no traffic from the relay was accepted for [L] full periods
    of 5 s - if the last accepted traffic came while the re-registration loop was waiting.
    If it came during a registration ([w_late]), either it came between [Add(1)] and
    [Load()] (the counter then reads 0), or the relay was silent for [L - 1] periods. *)
Theorem watchdog_patience {C : Type} {cache0 : DedupCache C} {laws : DedupCacheLaws C}
    (resolve : string -> outcome udp_error UDPAddr) (now : Z) (g : Gateway) (sh : shared C)
    (ch : channel shredData) (w : world C) :
  0 < noTrafficCounterLimit g < 2 ^ 31 -> noTrafficCounter g = 0 ->
  rtc (step resolve) (initial now g sh ch) w -> w_phase w = Crashed CrashNoTraffic ->
  (w_late w = false ->
     w_last w + noTrafficCounterLimit g * noTrafficThreshold <= w_now w)
  /\ (w_late w = true -> noTrafficCounter (w_gw w) = 0
      \/ w_last w + (noTrafficCounterLimit g - 1) * noTrafficThreshold <= w_now w).
Proof.
  intros Hlim Hc Hr Hph.
  destruct (watchdog_inv_reach resolve (noTrafficCounterLimit g) _ w Hlim
    (watchdog_inv_initial _ now g sh ch (proj1 Hlim) Hc eq_refl) Hr) as (_ & _ & Hi).
  rewrite Hph in Hi. unfold silence, late_ticks, noTrafficThreshold in *.
  destruct (w_late w); cbn in Hi; (split; intros ?; [|]); try done; intuition (congruence || lia).
Qed.

Lemma watchdog_patience_witness :
  w_last demo_crash + 1 * noTrafficThreshold <= w_now demo_crash.
Proof.
  refine (proj1 (watchdog_patience demo_resolve 0 (demo_gateway 1) demo_shared (make_chan 100000)
    demo_crash _ _ demo_crash_reached _) _).
  - cbn. lia.
  - reflexivity.
  - reflexivity.
  - reflexivity.
Defined.

(** How an undisturbed iteration of the re-registration loop ends, given the answer of the
    relay: the phase, and the gateway when the loop goes on.  The remainder is the one of
    Go, on [int32]. *)
Definition tick_outcome (resolve : string -> outcome udp_error UDPAddr) (now : Z)
    (rsp : outcome register_error RegisterResponse) (g : Gateway) (p : phase) (g' : Gateway) : Prop :=
  let goes_on addr counter :=
    p = Waiting
    /\ g' = mkGateway (gw_nl g) (firedancerSniffer g) (serverFd g) (send2OFRFd g) (send2NodeFd g)
              (solanaTVUAddr g) addr (Running (now + 5000000000)) counter (extraBroadcastAddrs g)
              (extraBroadcastFromOFROnly g) (noValidator g) (noTrafficCounterLimit g) in
  let registrations := i32 (noTrafficCounter g + 1) in
  let limit := i32 (noTrafficCounterLimit g) in
  match rsp with
  | Panic r => p = Crashed (CrashRuntime r)
  | Err e => if is_final e then p = Crashed CrashFinal else goes_on zeroAddr (noTrafficCounter g)
  | Ok m =>
      match resolve (UdpAddress m) with
      | Panic r => p = Crashed (CrashRuntime r)
      | Err _ => goes_on zeroAddr (noTrafficCounter g)
      | Ok a =>
          match To4 (UIP a) with
          | None => p = Crashed (CrashRuntime IndexOutOfRange)
          | Some ip =>
              if limit =? 0 then p = Crashed (CrashRuntime DivideByZero)
              else if Z.rem registrations limit =? 0 then p = Crashed CrashNoTraffic
              else goes_on (mkAddr (Some (SockaddrInet4 (UPort a) ip)) (AddrFrom4 ip)) registrations
          end
      end
  end.

(** The steps of the re-registration loop are those that change its phase. *)
Definition loop_step {C : Type} `{DedupCache C} (resolve : string -> outcome udp_error UDPAddr) (w w' : world C) : Prop :=
  step resolve w w' /\ w_phase w' <> w_phase w.

Definition ended (p : phase) : bool := is_waiting p || is_crashed p.

(** What the call of the relay leads to. *)
Lemma Register_end_eq resolve rsp g :
  Register_end resolve rsp g
  = match rsp with
    | Panic r => (Panic r, g)
    | Err e => (Err (GRegister e), g)
    | Ok m =>
        match resolve (UdpAddress m) with
        | Panic r => (Panic r, g)
        | Err e => (Err (GResolve e), g)
        | Ok a =>
            match To4 (UIP a) with
            | None => (Panic IndexOutOfRange, g)
            | Some ip => (Ok (SockaddrInet4 (UPort a) ip),
                          set_ofr (mkAddr (Some (SockaddrInet4 (UPort a) ip)) (AddrFrom4 ip)) g)
            end
        end
    end.
Proof.
  unfold Register_end, SockAddrFromUDPString. destruct rsp as [m|e|r]; [|done..].
  destruct (resolve (UdpAddress m)) as [a|e|r]; [|done..]. rewrite bind_Ok, SockAddrFromNetUDPAddr_eq.
  by destruct (To4 (UIP a)).
Qed.

Section tick.
Context {C : Type} {cache0 : DedupCache C} (resolve : string -> outcome udp_error UDPAddr).

(** From a call of the relay, to the end. *)
Lemma calling_runs (w : world C) rsp g0 :
  w_phase w = Calling -> w_gw w = Register_begin g0 ->
  exists w', rtc (loop_step resolve) w w' /\ w_now w' = w_now w /\ w_sh w' = w_sh w /\ w_ch w' = w_ch w
    /\ tick_outcome resolve (w_now w) rsp g0 (w_phase w') (w_gw w').
Proof.
  intros Hw Hg. pose proof (Register_end_eq resolve rsp (w_gw w)) as Hr.
  assert (forall w', step resolve w w' -> w_phase w' <> Calling -> rtc (loop_step resolve) w w') as Hone.
  { intros w' Hs Hp. apply rtc_once. split; [done|by rewrite Hw]. }
  assert (forall r, Register_end resolve rsp (w_gw w) = (Panic r, w_gw w) -> exists w',
    rtc (loop_step resolve) w w' /\ w_now w' = w_now w /\ w_sh w' = w_sh w /\ w_ch w' = w_ch w
    /\ w_phase w' = Crashed (CrashRuntime r)) as Hpanic.
  { intros r H. eexists. split; [eapply Hone; [by eapply step_panic|done]|]. done. }
  assert (forall e, Register_end resolve rsp (w_gw w) = (Err e, w_gw w) -> is_final_gw e = false -> exists w',
    rtc (loop_step resolve) w w' /\ w_now w' = w_now w /\ w_sh w' = w_sh w /\ w_ch w' = w_ch w
    /\ w_phase w' = Waiting
    /\ w_gw w' = set_watchdog (Running (w_now w + noTrafficThreshold)) (noTrafficCounter g0) (Register_begin g0)) as Hfail.
  { intros e H He. eexists. split; [eapply Hone; [by eapply step_failed|done]|]. cbn. by rewrite Hg. }
  unfold tick_outcome. destruct rsp as [m|e|r].
  2: { destruct (is_final e) eqn:He; [|by eapply Hfail].
    eexists. split; [eapply Hone; [by eapply step_final|done]|]. done. }
  2: by apply Hpanic.
  destruct (resolve (UdpAddress m)) as [a|e|r]; [|by eapply Hfail|by apply Hpanic].
  destruct (To4 (UIP a)) as [ip|]; [|by apply Hpanic].
  rewrite Hg in Hr. set (g1 := set_ofr _ _) in Hr. rewrite <- Hg in Hr.
  pose proof (step_registered resolve w (Ok m) _ g1 Hw Hr) as Hreg. set (w2 := mkWorld _ _ _ _ _ _ _) in Hreg.
  pose proof (step_add resolve w2 eq_refl) as Hadd. set (w3 := mkWorld _ _ _ _ Counted _ _) in Hadd.
  assert (forall w', step resolve w3 w' -> w_phase w' <> Counted -> rtc (loop_step resolve) w w') as Hlast.
  { intros w' Hs Hp. eapply rtc_l; [split; [exact Hreg|cbn; by rewrite Hw]|].
    eapply rtc_l; [split; [exact Hadd|done]|]. by apply rtc_once. }
  pose proof (step_load resolve w3) as Hload. pose proof (step_divide resolve w3) as Hdiv.
  assert (limit_reached (E:=unit) (w_gw w3)
    = if i32 (noTrafficCounterLimit g0) =? 0 then Panic DivideByZero
      else Ok (Z.rem (i32 (noTrafficCounter g0 + 1)) (i32 (noTrafficCounterLimit g0)) =? 0)) as Hl by done.
  destruct (i32 (noTrafficCounterLimit g0) =? 0).
  - eexists. split; [eapply Hlast; [by apply Hdiv|done]|]. done.
  - specialize (Hload _ eq_refl Hl). destruct (Z.rem _ _ =? 0);
      (eexists; split; [eapply Hlast; [exact Hload|done]|]); by split_and!.
Qed.

(** The iteration of [w] with the answer [rsp], on its way. *)
Definition under_way (now : Z) (g0 : Gateway) (v : world C) : Prop :=
  w_now v = now
  /\ match w_phase v with
     | Calling => w_gw v = Register_begin g0
     | AddrSet => exists rsp a, Register_end resolve rsp (Register_begin g0) = (Ok a, w_gw v)
     | Counted => exists rsp a g1, Register_end resolve rsp (Register_begin g0) = (Ok a, g1)
         /\ w_gw v = set_watchdog (noTrafficTicker g1) (i32 (noTrafficCounter g1 + 1)) g1
     | p => (exists rsp, tick_outcome resolve now rsp g0 p (w_gw v))
         /\ (p = Waiting -> noTrafficTicker (w_gw v) = Running (now + noTrafficThreshold))
     end.

Lemma under_way_step now g0 v v' : under_way now g0 v -> loop_step resolve v v' -> under_way now g0 v'.
Proof.
  intros [Hn Hv] [Hs Hp].
  inversion Hs as [w t|w r pkt g sh ch|w sd ch|w next Hw Hk Hle|w rsp e g Hw Hr He|w rsp e g Hw Hr He|w rsp p g Hw Hr
    |w rsp a g Hw Hr|w Hw|w reached Hw Hl|w p Hw Hl]; subst; cbn [w_now w_phase w_gw] in *; try done;
    rewrite Hw in Hv; (split; [by try destruct reached|]).
  - destruct Hv as [_ Hv]. rewrite Hv in Hk by done. injection Hk as <-. unfold noTrafficThreshold in Hle. lia.
  - split; [|done]. exists rsp. rewrite Hv, Register_end_eq in Hr. unfold tick_outcome.
    destruct rsp as [m|e'|r]; [|injection Hr as <- <-; cbn in He; by rewrite He|done].
    destruct (resolve (UdpAddress m)) as [a|e'|r]; [by destruct (To4 (UIP a))|by injection Hr as <- <-|done].
  - split; [|done]. exists rsp. rewrite Hv, Register_end_eq in Hr. unfold tick_outcome.
    destruct rsp as [m|e'|r]; [|injection Hr as <- <-; cbn in He; by rewrite He|done].
    destruct (resolve (UdpAddress m)) as [a|e'|r]; [by destruct (To4 (UIP a))|by injection Hr as <- <-|done].
  - split; [|done]. exists rsp. rewrite Hv, Register_end_eq in Hr. unfold tick_outcome.
    destruct rsp as [m|e'|r]; [|done|by injection Hr as <- <-].
    destruct (resolve (UdpAddress m)) as [a|e'|r]; [|done|by injection Hr as <- <-].
    destruct (To4 (UIP a)); [done|]. by injection Hr as <- <-.
  - exists rsp, a. by rewrite <- Hv.
  - destruct Hv as (rsp & a & Hr). by exists rsp, a, (w_gw v).
  - destruct Hv as (rsp & a & g1 & Hr & Hg). rewrite Register_end_eq in Hr.
    destruct rsp as [m|e'|r]; [|done..]. destruct (resolve (UdpAddress m)) as [ua|e'|r] eqn:Hm; [|done..].
    destruct (To4 (UIP ua)) as [ip|] eqn:Hip; [|done]. injection Hr as <- <-. rewrite Hg in Hl |- *.
    unfold limit_reached in Hl. cbn [noTrafficCounterLimit noTrafficCounter set_watchdog set_ofr Register_begin] in Hl.
    assert (forall p g, tick_outcome resolve (w_now v) (Ok m) g0 p g -> exists rsp, tick_outcome resolve (w_now v) rsp g0 p g)
      as Hex by eauto.
    destruct (i32 (noTrafficCounterLimit g0) =? 0) eqn:Hz; [done|]. injection Hl as Hreached.
    destruct reached; cbn [w_phase w_gw]; (split; [apply Hex|done]); unfold tick_outcome;
      rewrite Hm, Hip, Hz, Hreached; done.
  - destruct Hv as (rsp & a & g1 & Hr & Hg). rewrite Register_end_eq in Hr.
    destruct rsp as [m|e'|r]; [|done..]. destruct (resolve (UdpAddress m)) as [ua|e'|r] eqn:Hm; [|done..].
    destruct (To4 (UIP ua)) as [ip|] eqn:Hip; [|done]. injection Hr as <- <-. rewrite Hg in Hl.
    unfold limit_reached in Hl. cbn [noTrafficCounterLimit noTrafficCounter set_watchdog set_ofr Register_begin] in Hl.
    destruct (i32 (noTrafficCounterLimit g0) =? 0) eqn:Hz; [|done]. injection Hl as <-.
    split; [|done]. exists (Ok m). unfold tick_outcome. by rewrite Hm, Hip, Hz.
Qed.

Lemma under_way_run now g0 v v' : under_way now g0 v -> rtc (loop_step resolve) v v' -> under_way now g0 v'.
Proof. intros Hv Hr. induction Hr as [|v1 v2 v3 Hs _ IH]; [done|]. by eapply IH, under_way_step. Qed.

(** The step out of the select. *)
Lemma loop_step_due (w v : world C) :
  w_phase w = Waiting -> loop_step resolve w v ->
  w_phase v = Calling /\ w_gw v = Register_begin (w_gw w) /\ w_now v = w_now w /\ w_sh v = w_sh w /\ w_ch v = w_ch w.
Proof. intros Hw [Hs Hp]. inversion Hs; subst; cbn in *; congruence || done. Qed.
End tick.

(** C28: an iteration of the re-registration loop that the receive loop does not disturb.
    When the ticker is due, then for every answer of the relay the steps of the loop lead,
    at the same time and with nothing else changed, to what [tick_outcome] says: a panic for
    a final refusal, for an address that is not IPv4, for a limit that is 0 as an [int32] and
    for a number of registrations that is a multiple of the limit; back to the select with
    the address cleared and the counter as it was after any other failure; or back with the
    new address and the counter one higher.  Where it goes on, the ticker is due five seconds
    later.  Every run of these steps that ends does so for some answer, and the function
    [reRegister_tick] computes the same. *)
Theorem reRegister_tick_steps {C : Type} {cache0 : DedupCache C}
    (resolve : string -> outcome udp_error UDPAddr) (w : world C) (next : Z) :
  w_phase w = Waiting -> noTrafficTicker (w_gw w) = Running next -> next <= w_now w ->
  (forall rsp, exists w', tc (loop_step resolve) w w'
     /\ w_now w' = w_now w /\ w_sh w' = w_sh w /\ w_ch w' = w_ch w
     /\ tick_outcome resolve (w_now w) rsp (w_gw w) (w_phase w') (w_gw w'))
  /\ (forall w', tc (loop_step resolve) w w' -> ended (w_phase w') = true ->
       exists rsp, tick_outcome resolve (w_now w) rsp (w_gw w) (w_phase w') (w_gw w'))
  /\ (forall rsp g', reRegister_tick resolve (w_now w) rsp (w_gw w) = Ok g' <->
       tick_outcome resolve (w_now w) rsp (w_gw w) Waiting g').
Proof.
  intros Hw Hk Hn. split_and!.
  - intros rsp. pose proof (step_tick resolve w next Hw Hk Hn) as Htick. set (w1 := mkWorld _ _ _ _ _ _ _) in Htick.
    destruct (calling_runs resolve w1 rsp (w_gw w) eq_refl eq_refl) as (w' & Hr & Hrest).
    exists w'. split; [|exact Hrest]. eapply tc_rtc_r; [|exact Hr]. apply tc_once. split; [done|by rewrite Hw].
  - intros w' Hr Hend. destruct Hr as [w0 v Hs|w0 v w' Hs Hr]; apply (loop_step_due resolve w0 _ Hw) in Hs as (Hp & Hg & Ht & _).
    { by rewrite Hp in Hend. }
    assert (under_way resolve (w_now w0) (w_gw w0) v) as Hv by (split; [done|by rewrite Hp]).
    apply tc_rtc in Hr. destruct (under_way_run resolve _ _ _ _ Hv Hr) as [_ Hv'].
    destruct (w_phase w'); try done; by destruct Hv'.
  - intros rsp g'. unfold reRegister_tick, reRegister_finish, tick_outcome. rewrite Register_end_eq.
    destruct rsp as [m|e|r]; [|cbn [is_final_gw]; destruct (is_final e)|].
    2,3,4: split; [try done; by intros [= <-]|try done; by intros [_ ->]].
    destruct (resolve (UdpAddress m)) as [a|e|r]; [|split; [by intros [= <-]|by intros [_ ->]]|done].
    destruct (To4 (UIP a)) as [ip|]; [|done]. unfold limit_reached.
    cbn [noTrafficCounterLimit noTrafficCounter set_watchdog set_ofr Register_begin].
    destruct (i32 (noTrafficCounterLimit (w_gw w)) =? 0); [done|]. rewrite bind_Ok.
    destruct (Z.rem _ _ =? 0); [done|]. split; [by intros [= <-]|by intros [_ ->]].
Qed.

Lemma reRegister_tick_steps_witness :
  exists w', tc (loop_step demo_resolve) demo_due w'
    /\ tick_outcome demo_resolve noTrafficThreshold (demo_answers 1) (w_gw demo_due) (w_phase w') (w_gw w').
Proof.
  destruct (reRegister_tick_steps demo_resolve demo_due noTrafficThreshold) as (Hrun & _).
  - reflexivity.
  - reflexivity.
  - cbn. lia.
  - destruct (Hrun (demo_answers 1)) as (w' & Hr & _ & _ & _ & Ho). exists w'. split; [exact Hr|exact Ho].
Defined.

(** C32: the watchdog race.  For every limit there is an execution in which the gateway
    panics for missing traffic at the very moment it accepts traffic from the relay: the
    receive loop resets the counter between [Add(1)] and [Load()], which then reads 0, a
    multiple of the limit. *)
Theorem watchdog_race {C : Type} {cache0 : DedupCache C} {laws : DedupCacheLaws C}
    (resolve : string -> outcome udp_error UDPAddr) (now : Z) (g : Gateway) (sh : shared C)
    (ch : channel shredData) (answer : string) (port : Z) (ip : list byte) :
  0 < noTrafficCounterLimit g < 2 ^ 31 ->
  SockAddrFromUDPString resolve answer = Ok (SockaddrInet4 port ip) ->
  exists w, rtc (step resolve) (initial now g sh ch) w
    /\ w_phase w = Crashed CrashNoTraffic /\ w_last w = w_now w.
Proof.
  intros Hlim Hres. set (t := now + noTrafficThreshold).
  set (sa := SockaddrInet4 port ip). set (addr := mkAddr (Some sa) (AddrFrom4 ip)).
  set (g1 := Register_begin (reRegister_init now g)). set (g2 := set_ofr addr g1).
  set (g3 := set_watchdog (noTrafficTicker g2) (i32 (noTrafficCounter g2 + 1)) g2).
  assert (accepted (RecvMsg [] (Some sa)) g3 = true) as Hacc.
  { unfold accepted, UnsafeReadFrom. cbn [NewAddr sa]. rewrite bind_Ok.
    change (ofrUDPAddr g3) with addr. rewrite (NewAddr_IsZero sa addr) by done.
    by rewrite bool_decide_eq_true_2. }
  destruct (processShred_cases t (RecvMsg [] (Some sa)) g3 sh ch) as [[? _]|(_ & d & f & a & _ & _ & Hcase)];
    [congruence|].
  assert (exists pkt sh' ch', processShred t (RecvMsg [] (Some sa)) g3 sh ch
    = Ok (pkt, set_watchdog (Running (t + noTrafficThreshold)) 0 g3, sh', ch')) as (pkt & sh' & ch' & Hp).
  { cbn zeta in Hcase. destruct Hcase as [[_ E]|(shred & _ & E)]; rewrite E; by eexists _, _, _. }
  set (g4 := set_watchdog (Running (t + noTrafficThreshold)) 0 g3) in Hp.
  exists (mkWorld t g4 sh' ch' (Crashed CrashNoTraffic) t true). split; [|done].
  eapply rtc_l. { apply (step_time resolve _ t); [done|]. subst t. cbn. unfold noTrafficThreshold. lia. }
  eapply rtc_l. { apply (step_tick resolve _ t); [done|done|done]. }
  eapply rtc_l.
  { apply (step_registered resolve _ (Ok {| UdpAddress := answer |}) sa g2); [done|].
    cbn [w_gw Register_end UdpAddress]. rewrite Hres. done. }
  eapply rtc_l. { by apply (step_add resolve). }
  eapply rtc_l. { by apply (step_recv resolve _ (RecvMsg [] (Some sa)) pkt g4 sh' ch'). }
  cbn [w_now w_gw w_sh w_ch w_phase w_last w_late]. change (set_watchdog _ _ _) with g3. rewrite Hacc.
  apply rtc_once. apply (step_load resolve (mkWorld t g4 sh' ch' Counted t true) true); [done|].
  cbn [w_gw]. unfold limit_reached. change (noTrafficCounterLimit g4) with (noTrafficCounterLimit g).
  change (noTrafficCounter g4) with 0. rewrite swrap_small by lia.
  destruct (Z.eqb_spec (noTrafficCounterLimit g) 0); [lia|]. by rewrite Z.rem_0_l.
Qed.

Lemma watchdog_race_witness :
  exists w, rtc (step demo_resolve) (initial 0 (demo_gateway 3) demo_shared (make_chan 100000)) w
    /\ w_phase w = Crashed CrashNoTraffic /\ w_last w = w_now w.
Proof.
  refine (watchdog_race demo_resolve 0 (demo_gateway 3) demo_shared (make_chan 100000)
    "relay:18888" 18888 [Byte.x22; Byte.x01; Byte.x02; Byte.x03] _ _).
  - cbn. lia.
  - reflexivity.
Defined.

(** The report of first-seen shreds with a Firedancer node.  Without a network listener
    the local address is the zero address, which no recorded source has (the shreds of the
    local node are recorded under 127.0.0.1): whatever was received from whom, the report
    is that 100% of the shreds were seen first from the relay. *)
Theorem firedancer_report (addr_String : NetipAddr -> string) (g : Gateway)
    (unseen : list ShredsBySrcRecord) :
  gw_nl g = None -> noValidator g = false -> sum_shreds unseen <> 0 ->
  Forall (fun st => SrcString st <> addr_String ZeroAddr) unseen ->
  exists q, printUnseenStats addr_String g unseen = Some (Some q) /\ (q == 100)%Q.
Proof.
  intros Hnl Hv Hsum Hsrc. unfold printUnseenStats. rewrite Hnl, Hv. cbn [NetworkListener_Addr].
  assert (List.filter (fun st => negb (bool_decide (SrcString st = addr_String ZeroAddr))) unseen = unseen) as ->.
  { clear Hsum. induction Hsrc as [|st l Hst _ IH]; [done|]. cbn [List.filter].
    by rewrite bool_decide_eq_false_2, IH by done. }
  destruct (Z.eqb_spec (sum_shreds unseen) 0); [done|]. eexists. split; [done|].
  field. intros Hq. apply Hsum. unfold Qeq in Hq. cbn in Hq. lia.
Qed.

Lemma firedancer_report_witness :
  exists q, printUnseenStats (fun a => match a with ZeroAddr => "invalid IP" | _ => "127.0.0.1" end)
    (mkGateway None true (mkFDConn 3 18888 true) (mkFDConn 4 18889 true) (mkFDConn 5 18890 true)
       None demo_relay_addr Stopped 0 [] false false 3) [sample_record "127.0.0.1" 5] = Some (Some q)
    /\ (q == 100)%Q.
Proof.
  refine (firedancer_report _ _ [sample_record "127.0.0.1" 5] _ _ _ _).
  - reflexivity.
  - reflexivity.
  - vm_compute. discriminate.
  - repeat constructor. discriminate.
Defined.
