(* ===== verification/Loops.v ===== *)
(** * The endless loops: iterations in sequence, their counters, and how they end

    [Gateway], [NetListen] and [Firedancer] have one iteration of each loop; here are the
    loops around them: the receive loop of the gateway and the one of the network listener
    with the counter of their health lines, the monitor of open ports, the counters of the
    Firedancer receiver, and the loop of alive messages.  Where a loop selects between several
    channels, its inputs say which one was ready. *)

From S2P Require Import Prelude Shred AlterKey Udp Stats Sniffer NetListen Firedancer Gateway.
Open Scope Z_scope.

(** ** The health counter *)

(** [if i == 1e5 { log; i = 0 }] and the [i++] of the loop; [hit] tells whether the iteration
    comes to the test. *)
Definition healthPeriod : Z := 100000.

Definition health_tick (hit : bool) (i : Z) : bool * Z :=
  if hit && (i =? healthPeriod) then (true, i64 (0 + 1)) else (false, i64 (i + 1)).

(** ** The receive loop of the gateway *)

Section loops.
Context {C : Type} `{DedupCache C}.

(** [ol_health] has, for each health line, the number of shreds that were queued. *)
Record ofr_loop := mkOfrLoop {
  ol_i : Z;
  ol_gw : Gateway;
  ol_sh : shared C;
  ol_ch : channel shredData;
  ol_health : list Z
}.

Definition ofr_iteration (now : Z) (r : recv_result) (l : ofr_loop) : outcome udp_error ofr_loop :=
  match processShred now r (ol_gw l) (ol_sh l) (ol_ch l) with
  | Ok (_, g, sh, ch) =>
      let (log, i) := health_tick true (ol_i l) in
      Ok (mkOfrLoop i g sh ch (if log then ol_health l ++ [zlen (chan_buf ch)] else ol_health l))
  | Err e => Err e
  | Panic p => Panic p
  end.

(** The inputs are whether the context is done at the head of the iteration, the time and what
    the socket gives.  The boolean of the result tells whether the loop still runs. *)
Fixpoint receiveShredsFromOFR (inputs : list (bool * Z * recv_result)) (l : ofr_loop)
    : outcome udp_error (bool * ofr_loop) :=
  match inputs with
  | [] => Ok (true, l)
  | (done, now, r) :: inputs =>
      if done : bool then Ok (false, l)
      else l ← ofr_iteration now r l; receiveShredsFromOFR inputs l
  end.

(** ** The loop of the network listener *)

Context (ip_String : list byte -> string).

(** What the select of [Recv] takes: a packet of the sniffers, the zero value of their closed
    channel, the ticker, or the end of the context. *)
Inductive recv_select :=
  | SelPacket (now : Z) (sp : SniffPacket)
  | SelClosed (now : Z)
  | SelNoOutgoing (keys : list string) (pcap : Z -> bool -> pcap_results)
  | SelDone.

(** [Recv] waits for the sniffers when the context is done, and then closes its channel. *)
Inductive recv_phase := Looping | Draining | Returned.

Record recv_loop := mkRecvLoop {
  rl_state : recv_state C;
  rl_i : Z;
  rl_health : list Z;
  rl_phase : recv_phase
}.

(** Whether the packet comes to the test of the health counter. *)
Definition parses (sp : SniffPacket) (st : recv_state C) : bool :=
  bool_decide (is_Some (listenPorts (rv_nl st) !! SrcHandleName sp))
  && is_Ok (ParseShredPartial (Payload sp) (Length sp)).

Definition recv_iteration (sel : recv_select) (l : recv_loop) : outcome string recv_loop :=
  let st := rl_state l in
  let packet now sp :=
    st' ← recv_packet now sp st;
    let (log, i) := health_tick (parses sp st) (rl_i l) in
    Ok (mkRecvLoop st' i (if log then rl_health l ++ [zlen (chan_buf (rv_out st))] else rl_health l) Looping) in
  match rl_phase l with
  | Looping =>
      match sel with
      | SelPacket now sp => packet now sp
      | SelClosed now => packet now zeroSniffPacket
      | SelNoOutgoing keys pcap =>
          st' ← recv_noOutgoing ip_String keys pcap st;
          Ok (mkRecvLoop st' (health_tick false (rl_i l)).2 (rl_health l) Looping)
      | SelDone => Ok (mkRecvLoop st (rl_i l) (rl_health l) Draining)
      end
  | _ => Ok l
  end.

Fixpoint Recv_loop (sels : list recv_select) (l : recv_loop) : outcome string recv_loop :=
  match sels with
  | [] => Ok l
  | sel :: sels => l ← recv_iteration sel l; Recv_loop sels l
  end.

(** [wg.Wait()] returns when no sniffer runs; then [close(ch)] and the return. *)
Definition Recv_wait (l : recv_loop) : recv_loop :=
  match rl_phase l, rv_running (rl_state l) with
  | Draining, [] => mkRecvLoop (rl_state l) (rl_i l) (rl_health l) Returned
  | _, _ => l
  end.

(** ** The monitor of open ports *)

Definition openPortsCheckInterval : Z := 6 * 3600 * 1000000000.

(** [None] is the end of the context, [Some] a tick. *)
Fixpoint startMonitoringOpenPorts
    (inputs : list (option ((list Z -> string + list Z) * (Z -> bool -> pcap_results)))) (st : recv_state C)
    : outcome string (bool * recv_state C) :=
  match inputs with
  | [] => Ok (true, st)
  | None :: _ => Ok (false, st)
  | Some (scan, pcap) :: inputs =>
      st ← monitor_tick ip_String scan pcap st; startMonitoringOpenPorts inputs st
  end.
End loops.
Arguments ofr_loop C : clear implicits.
Arguments recv_loop C : clear implicits.

(** ** The counters of the Firedancer receiver *)

Definition second : Z := 1000000000.

Record fd_log := mkFdLog {
  totalShreds : Z;
  lastStatsTime : Z;
  lastSecondCount : Z;
  fl_lines : list (Z * Z)      (* "+%d shreds/sec | Total: %d" *)
}.

(** On a shred, at [now]. *)
Definition fd_count (now : Z) (c : fd_log) : fd_log :=
  let n := i64 (lastSecondCount c + 1) in
  if second <=? now - lastStatsTime c then
    let t := i64 (totalShreds c + n) in mkFdLog t now 0 (fl_lines c ++ [(n, t)])
  else mkFdLog (totalShreds c) (lastStatsTime c) n (fl_lines c).

Definition fd_count_result (now : Z) (r : monitor_result) (c : fd_log) : fd_log :=
  match r with GotShred _ => fd_count now c | _ => c end.

(** ** Alive messages *)

(** One write at once and one after every tick, with what the two reads give. *)
Definition sendAliveMessages (iterations : list (Addr * Gateway)) : list send :=
  concat (map (fun x => sendAliveMessages_reads x.1 x.2) iterations).

(** * Properties *)

(** ** The health counter *)

(** After [n] iterations that all come to the test, the counter and the lines: every
    iteration is in one full period or in the current one. *)
Definition health_inv (n i k : Z) : Prop := n = healthPeriod * k + i /\ 0 <= i <= healthPeriod /\ (i = 0 -> n = 0).

Lemma i64_small z : - 2 ^ 63 <= z < 2 ^ 63 -> i64 z = z.
Proof. intros Hz. by apply swrap_small. Qed.

Lemma health_tick_hit n i k :
  health_inv n i k -> 0 <= n ->
  let (log, i') := health_tick true i in health_inv (n + 1) i' (if log then k + 1 else k).
Proof.
  unfold health_inv, health_tick, healthPeriod. intros (Hn & Hi & H0) Hpos. cbn [andb].
  destruct (Z.eqb_spec i 100000) as [->|Hne]; rewrite i64_small by lia; split_and!; lia.
Qed.

Lemma health_inv_lines n i k : health_inv n i k -> 0 < n -> k = (n - 1) / healthPeriod /\ 1 <= i.
Proof.
  unfold health_inv, healthPeriod. intros (Hn & Hi & H0) Hpos.
  assert (1 <= i) by (destruct (Z.eq_dec i 0); [rewrite H0 in Hpos|]; lia).
  split; [|done]. apply (Z.div_unique _ _ _ (i - 1)); lia.
Qed.

(** A counter past its period never comes back to it before it overflows. *)
Lemma health_tick_past hit i :
  healthPeriod < i < 2 ^ 63 - 1 -> health_tick hit i = (false, i + 1).
Proof.
  unfold health_tick, healthPeriod. intros Hi. rewrite (proj2 (Z.eqb_neq _ _)), andb_false_r by lia.
  by rewrite i64_small by lia.
Qed.

Lemma health_tick_miss i : - 2 ^ 63 <= i < 2 ^ 63 - 1 -> health_tick false i = (false, i + 1).
Proof. intros Hi. unfold health_tick. cbn [andb]. by rewrite i64_small by lia. Qed.

Section loop_lemmas.
Context {C : Type} `{DedupCacheLaws C}.

Lemma ofr_iteration_health now r (l : ofr_loop C) n :
  health_inv n (ol_i l) (zlen (ol_health l)) -> 0 <= n ->
  exists l', ofr_iteration now r l = Ok l' /\ health_inv (n + 1) (ol_i l') (zlen (ol_health l')).
Proof.
  intros Hinv Hn. pose proof (health_tick_hit _ _ _ Hinv Hn) as Ht. unfold ofr_iteration.
  assert (exists pkt g sh ch, processShred now r (ol_gw l) (ol_sh l) (ol_ch l) = Ok (pkt, g, sh, ch)) as (pkt & g & sh & ch & ->).
  { destruct (processShred_cases now r (ol_gw l) (ol_sh l) (ol_ch l))
      as [[_ [p E]]|(_ & data & from & addr & _ & _ & [[_ E]|(shred & _ & E)])]; eauto. }
  destruct (health_tick true (ol_i l)) as [log i]. eexists. split; [done|]. cbn [ol_i ol_health].
  destruct log; [|done]. unfold zlen in *. rewrite length_app. cbn [length]. by rewrite Nat2Z.inj_add.
Qed.

Lemma receive_health inputs (l : ofr_loop C) n :
  Forall (fun x => x.1.1 = false) inputs -> health_inv n (ol_i l) (zlen (ol_health l)) -> 0 <= n ->
  exists l', receiveShredsFromOFR inputs l = Ok (true, l')
    /\ health_inv (n + zlen inputs) (ol_i l') (zlen (ol_health l')).
Proof.
  revert l n. induction inputs as [|[[done now] r] inputs IH]; intros l n Hf Hinv Hn.
  { exists l. unfold zlen at 1. cbn. by rewrite Z.add_0_r. }
  apply list.Forall_cons in Hf as [Hd Hf]. cbn [fst] in Hd. subst done. cbn [receiveShredsFromOFR].
  destruct (ofr_iteration_health now r l n Hinv Hn) as (l1 & -> & Hinv1). rewrite bind_Ok.
  destruct (IH l1 (n + 1) Hf Hinv1 ltac:(lia)) as (l2 & -> & Hinv2). exists l2. split; [done|].
  replace (n + zlen ((false, now, r) :: inputs)) with (n + 1 + zlen inputs); [done|].
  unfold zlen. cbn [length]. lia.
Qed.

(** ** The listener *)

Context (ip_String : list byte -> string).

(** Handle names are not empty, so the zero value of a closed channel finds no port. *)
Lemma zero_packet_unknown (nl : NetworkListener) : nl_ok ip_String nl -> listenPorts nl !! SrcHandleName zeroSniffPacket = None.
Proof.
  intros Hok. cbn. destruct (listenPorts nl !! "") as [pd|] eqn:Hl; [exfalso|done].
  destruct (nl_listen _ _ Hok _ _ Hl) as (p & ctx & _ & _ & Hn). unfold handleExpr in Hn. by destruct (pd_outgoing p).
Qed.

Lemma recv_packet_unknown now sp (st : recv_state C) :
  listenPorts (rv_nl st) !! SrcHandleName sp = None -> recv_packet now sp st = Ok st /\ parses sp st = false.
Proof.
  intros Hl. unfold recv_packet, parses. rewrite Hl. split; [done|].
  by rewrite bool_decide_eq_false_2 by (by intros [? ?]).
Qed.

(** An iteration that a looping receiver survives: at most one health line more. *)
Lemma recv_iteration_past sel (l l' : recv_loop C) :
  rl_phase l = Looping -> healthPeriod < rl_i l < 2 ^ 63 - 1 -> recv_iteration ip_String sel l = Ok l' ->
  rl_health l' = rl_health l
  /\ (rl_phase l' = Looping /\ rl_i l' = rl_i l + 1 \/ rl_phase l' <> Looping).
Proof.
  intros Hp Hi. unfold recv_iteration. rewrite Hp. destruct sel as [now sp|now|keys pcap|].
  - intros (st & _ & Hl)%bind_Ok_inv. rewrite health_tick_past in Hl by done. injection Hl as <-. split; [done|by left].
  - intros (st & _ & Hl)%bind_Ok_inv. rewrite health_tick_past in Hl by done. injection Hl as <-. split; [done|by left].
  - intros (st & _ & Hl)%bind_Ok_inv. rewrite health_tick_past in Hl by done. injection Hl as <-. split; [done|by left].
  - intros [= <-]. split; [done|by right].
Qed.

Lemma Recv_loop_idle sels (l : recv_loop C) : rl_phase l <> Looping -> Recv_loop ip_String sels l = Ok l.
Proof.
  intros Hp. induction sels as [|sel sels IH]; [done|]. cbn [Recv_loop]. unfold recv_iteration.
  by destruct (rl_phase l); rewrite ?bind_Ok.
Qed.

Lemma Recv_loop_past sels (l l' : recv_loop C) :
  rl_phase l = Looping -> healthPeriod < rl_i l -> rl_i l + zlen sels < 2 ^ 63 ->
  Recv_loop ip_String sels l = Ok l' -> rl_health l' = rl_health l.
Proof.
  revert l. induction sels as [|sel sels IH]; intros l Hp Hi Hlen; cbn [Recv_loop]; [by intros [= <-]|].
  unfold zlen in *. cbn [length] in Hlen. intros (l1 & Hs & Hr)%bind_Ok_inv.
  apply recv_iteration_past in Hs as [<- [[Hp1 Hi1]|Hp1]]; [| |done|lia].
  - apply IH; [done|lia|lia|done].
  - rewrite Recv_loop_idle in Hr by done. by injection Hr as <-.
Qed.

(** Packets that all come to the test. *)
Lemma Recv_loop_health sps (l l' : recv_loop C) n :
  rl_phase l = Looping -> health_inv n (rl_i l) (zlen (rl_health l)) -> 0 <= n ->
  Recv_loop ip_String (map (fun x => SelPacket x.1 x.2) sps) l = Ok l' ->
  (forall pre x post st, sps = pre ++ x :: post ->
     Recv_loop ip_String (map (fun x => SelPacket x.1 x.2) pre) l = Ok st -> parses x.2 (rl_state st) = true) ->
  health_inv (n + zlen sps) (rl_i l') (zlen (rl_health l')).
Proof.
  revert l n. induction sps as [|x sps IH]; intros l n Hp Hinv Hn; cbn [map Recv_loop].
  { intros [= <-] _. unfold zlen at 1. cbn. by rewrite Z.add_0_r. }
  intros (l1 & Hs & Hr)%bind_Ok_inv Hpar. pose proof (Hpar [] x sps l eq_refl eq_refl) as Hx.
  pose proof (health_tick_hit _ _ _ Hinv Hn) as Ht.
  assert (rl_phase l1 = Looping /\ health_inv (n + 1) (rl_i l1) (zlen (rl_health l1))) as [Hp1 Hinv1].
  { unfold recv_iteration in Hs. rewrite Hp, Hx in Hs. apply bind_Ok_inv in Hs as (st & _ & Hl).
    destruct (health_tick true (rl_i l)) as [log i]. injection Hl as <-. cbn [rl_phase rl_i rl_health].
    split; [done|]. destruct log; [|done]. unfold zlen in *. rewrite length_app. cbn [length].
    by rewrite Nat2Z.inj_add. }
  replace (n + zlen (x :: sps)) with (n + 1 + zlen sps) by (unfold zlen; cbn [length]; lia).
  apply (IH l1); [done|done|lia|done|]. intros pre y post st -> Hst.
  apply (Hpar (x :: pre) y post st eq_refl). cbn [map Recv_loop]. by rewrite Hs, bind_Ok.
Qed.
End loop_lemmas.

(** ** The end of all sniffers *)

Section gone.
Context {C : Type} `{DedupCacheLaws C} (ip_String : list byte -> string).

Lemma sniffer_exit_0 (st : recv_state C) r l :
  rv_running st = r :: l ->
  rv_running (sniffer_exit 0 false st) = l /\ (l = [] -> rv_closed (sniffer_exit 0 false st) = true).
Proof.
  intros Hr. unfold sniffer_exit. rewrite Hr. cbn. rewrite drop_0. split; [done|]. intros ->. by rewrite orb_true_r.
Qed.

Lemma all_exit r l (st : recv_state C) :
  nl_ok ip_String (rv_nl st) -> rv_running st = r :: l ->
  exists st', recv_run ip_String (replicate (length (r :: l)) (EvExit 0 false)) st = Ok st'
    /\ nl_ok ip_String (rv_nl st') /\ rv_running st' = [] /\ rv_closed st' = true.
Proof.
  revert r st. induction l as [|r' l IH]; intros r st Hok Hr; cbn [length replicate];
    rewrite recv_run_cons; cbn [recv_step]; rewrite bind_Ok;
    pose proof (sniffer_exit_nl_ok ip_String 0 false st Hok) as Hok1;
    destruct (sniffer_exit_0 st _ _ Hr) as [Hr1 Hc1].
  - eexists. split; [reflexivity|]. split_and!; [done..|by apply Hc1].
  - by apply (IH r').
Qed.

(** A port that a scan finds late. *)
Lemma monitor_adds scan pcap port (st : recv_state C) :
  scan (outPorts (rv_nl st) ++ [inPort (rv_nl st); serverPort (rv_nl st)]) = inr [port] ->
  (forall port outgoing, pcap_works (pcap port outgoing)) ->
  portHandleMap (rv_nl st) !! portData_String (dynamic_port port) = None ->
  exists r st', monitor_tick ip_String scan pcap st = Ok st'
    /\ rv_running st' = r :: rv_running st /\ rv_closed st' = rv_closed st.
Proof.
  intros Hscan Hpcap Hnew. unfold monitor_tick, createDynamicSniffers. rewrite Hscan.
  assert (new_dynamic_ports [port] (rv_nl st) = [dynamic_port port]) as ->.
  { unfold new_dynamic_ports. cbn [map List.filter]. fold (dynamic_port port).
    by rewrite bool_decide_eq_false_2 by (rewrite Hnew; by intros [? ?]). }
  cbn [register_dynamic]. destruct (new_portData (dynamic_port port) (rv_nl st)) as [pd nl1] eqn:Hn.
  assert (pds nl1 !! pd = Some (dynamic_port port)) as Hpd by (injection Hn as <- <-; apply lookup_insert_eq).
  destruct (registerNewSniffer_works ip_String pcap pd (dynamic_port port) nl1 Hpd (Hpcap _ _)) as (r & -> & _).
  rewrite bind_Ok. exists r. eexists. split; [reflexivity|]. by cbn.
Qed.
End gone.

(** ** The counters of the Firedancer receiver *)

Definition is_got (r : monitor_result) : bool := match r with GotShred _ => true | _ => false end.
Definition got_shreds (inputs : list (Z * monitor_result)) : Z := zlen (List.filter (fun x => is_got x.2) inputs).
Definition sum_differences (c : fd_log) : Z := fold_right Z.add 0 (map fst (fl_lines c)).

Definition fd_inv (n : Z) (c : fd_log) : Prop :=
  totalShreds c + lastSecondCount c = n /\ 0 <= totalShreds c /\ 0 <= lastSecondCount c
  /\ totalShreds c = sum_differences c
  /\ (fl_lines c = [] \/ snd (List.last (fl_lines c) (0, 0)) = totalShreds c).

Lemma fd_count_inv now c n : fd_inv n c -> n < 2 ^ 62 -> fd_inv (n + 1) (fd_count now c).
Proof.
  unfold fd_inv. intros (Hn & Ht & Hc & Hs & Hl) Hlen. unfold fd_count.
  rewrite (i64_small (lastSecondCount c + 1)) by lia. case_if; cbn [totalShreds lastSecondCount fl_lines].
  - rewrite i64_small by lia. split_and!; [lia..| |right; by rewrite List.last_last].
    unfold sum_differences in *. cbn [fl_lines]. rewrite map_app, fold_right_app. cbn. rewrite Hs. clear.
    induction (map fst (fl_lines c)) as [|z l IH]; cbn in *; lia.
  - split_and!; [lia..|done|done].
Qed.

Lemma fd_results_inv inputs c n :
  fd_inv n c -> n + got_shreds inputs < 2 ^ 62 ->
  fd_inv (n + got_shreds inputs) (fold_left (fun c x => fd_count_result x.1 x.2 c) inputs c).
Proof.
  revert c n. induction inputs as [|[now r] inputs IH]; intros c n Hinv; unfold got_shreds, zlen in *.
  { intros _. cbn. by rewrite Z.add_0_r. }
  cbn [List.filter snd fold_left fst]. destruct r as [info| | |]; cbn [is_got fd_count_result length]; try by apply IH.
  intros Hlen. replace (n + Z.of_nat (S (length (List.filter (fun x => is_got x.2) inputs))))
    with (n + 1 + Z.of_nat (length (List.filter (fun x => is_got x.2) inputs))) by lia.
  apply IH; [apply fd_count_inv; [done|lia]|lia].
Qed.

(** ** Theorems *)

(** The receive loop reports its health once per 100000 iterations: after [n] of them, with
    the context alive, there are [(n - 1) / 100000] lines, whatever was received, and the
    loop still runs; it ends at the first iteration that finds the context done, with what
    the earlier ones did. *)
Theorem receive_loop_health {C : Type} {cache0 : DedupCache C} {laws : DedupCacheLaws C}
    (g : Gateway) (sh : shared C) (ch : channel shredData) (inputs : list (bool * Z * recv_result)) :
  Forall (fun x => x.1.1 = false) inputs -> inputs <> [] ->
  exists l, receiveShredsFromOFR inputs (mkOfrLoop 0 g sh ch []) = Ok (true, l)
    /\ zlen (ol_health l) = (zlen inputs - 1) / 100000
    /\ forall now r rest, receiveShredsFromOFR (inputs ++ (true, now, r) :: rest) (mkOfrLoop 0 g sh ch []) = Ok (false, l).
Proof.
  intros Hf Hne. assert (health_inv 0 0 0) as Hinv by done.
  destruct (receive_health inputs (mkOfrLoop 0 g sh ch []) 0 Hf Hinv ltac:(done)) as (l & Hr & Hl).
  exists l. split; [done|]. split.
  - apply health_inv_lines in Hl as [-> _]; [by rewrite Z.add_0_l|]. unfold zlen. destruct inputs; [done|]. cbn [length]. lia.
  - intros now r rest. revert Hr. clear -Hf. generalize (mkOfrLoop 0 g sh ch [] : ofr_loop C) as l0.
    induction inputs as [|[[d t] r'] inputs IH]; intros l0; cbn [app receiveShredsFromOFR]; [by intros [= <-]|].
    apply list.Forall_cons in Hf as [Hd Hf]. cbn [fst] in Hd. subst d.
    destruct (ofr_iteration _ _ _); [|done..]. rewrite !bind_Ok. by apply IH.
Qed.

(** C20: the health line of the listener can be lost for good.  When an iteration finds the
    counter at 100000 but does not come to its test - the packet is from a closed port or does
    not parse, the channel is closed, or the ticker fired - no later iteration ever logs a
    health line, in fewer than 2^62 of them.  When all iterations come to the test, there is
    one for every 100000. *)
Theorem recv_health {C : Type} {cache0 : DedupCache C} {laws : DedupCacheLaws C}
    (ip_String : list byte -> string) (l l1 l2 : recv_loop C) (sel : recv_select) (sels : list recv_select) :
  nl_ok ip_String (rv_nl (rl_state l)) -> rl_phase l = Looping ->
  recv_iteration ip_String sel l = Ok l1 -> Recv_loop ip_String sels l1 = Ok l2 ->
  (rl_i l = 100000 -> match sel with SelPacket _ sp => parses sp (rl_state l) = false | _ => True end ->
   zlen sels < 2 ^ 62 -> rl_health l2 = rl_health l)
  /\ (rl_i l = 0 -> rl_health l = [] ->
      forall sps l3, sps <> [] -> Recv_loop ip_String (map (fun x => SelPacket x.1 x.2) sps) l = Ok l3 ->
      (forall pre x post st, sps = pre ++ x :: post ->
         Recv_loop ip_String (map (fun x => SelPacket x.1 x.2) pre) l = Ok st -> parses x.2 (rl_state st) = true) ->
      zlen (rl_health l3) = (zlen sps - 1) / 100000).
Proof.
  intros Hok Hp Hs Hr. split.
  - intros Hi Hsel Hlen.
    assert (rl_health l1 = rl_health l /\ (rl_phase l1 = Looping /\ rl_i l1 = 100001 \/ rl_phase l1 <> Looping)) as [<- Hl1].
    { unfold recv_iteration in Hs. rewrite Hp, Hi in Hs. destruct sel as [now sp|now|keys pcap|].
      - rewrite Hsel in Hs. apply bind_Ok_inv in Hs as (st & _ & [= <-]). split; [done|by left].
      - destruct (recv_packet_unknown now zeroSniffPacket (rl_state l) (zero_packet_unknown ip_String _ Hok)) as [_ Hpar].
        rewrite Hpar in Hs. apply bind_Ok_inv in Hs as (st & _ & [= <-]). split; [done|by left].
      - apply bind_Ok_inv in Hs as (st & _ & [= <-]). split; [done|by left].
      - injection Hs as <-. split; [done|by right]. }
    destruct Hl1 as [[Hp1 Hi1]|Hp1].
    + eapply Recv_loop_past; [done| | |exact Hr]; rewrite Hi1; unfold healthPeriod; lia.
    + rewrite Recv_loop_idle in Hr by done. by injection Hr as <-.
  - intros Hi Hh sps l3 Hne Hr3 Hpar.
    assert (health_inv 0 (rl_i l) (zlen (rl_health l))) as Hinv by (by rewrite Hi, Hh).
    pose proof (Recv_loop_health ip_String sps l l3 0 Hp Hinv ltac:(done) Hr3 Hpar) as Hl.
    apply health_inv_lines in Hl as [-> _]; [by rewrite Z.add_0_l|]. unfold zlen. destruct sps; [done|]. cbn [length]. lia.
Qed.

(** C19: when all sniffers have returned.  The receiver then spins: the closed channel gives the
    zero value at every iteration, which changes nothing but the counter.  And when a scan
    later finds a port that can be captured, its sniffer panics on its first packet, for the
    channel stays closed. *)
Theorem all_sniffers_gone {C : Type} {cache0 : DedupCache C} {laws : DedupCacheLaws C}
    (ip_String : list byte -> string) (st : recv_state C) :
  nl_ok ip_String (rv_nl st) -> rv_running st <> [] ->
  exists st', recv_run ip_String (replicate (length (rv_running st)) (EvExit 0 false)) st = Ok st'
    /\ (forall nows i health, exists j,
          Recv_loop ip_String (map SelClosed nows) (mkRecvLoop st' i health Looping)
          = Ok (mkRecvLoop st' j health Looping))
    /\ (forall scan pcap port rest,
          scan (outPorts (rv_nl st') ++ [inPort (rv_nl st'); serverPort (rv_nl st')]) = inr [port] ->
          (forall port outgoing, pcap_works (pcap port outgoing)) ->
          portHandleMap (rv_nl st') !! portData_String (dynamic_port port) = None ->
          exists st2, startMonitoringOpenPorts ip_String [Some (scan, pcap)] st' = Ok (true, st2)
            /\ recv_run ip_String (EvSend :: rest) st2 = Panic ExplicitPanic).
Proof.
  intros Hok Hne. destruct (rv_running st) as [|r l] eqn:Hr; [done|].
  destruct (all_exit ip_String r l st Hok Hr) as (st' & Hrun & Hok' & Hr' & Hc').
  exists st'. split; [done|]. split.
  - destruct (recv_packet_unknown 0 zeroSniffPacket st' (zero_packet_unknown ip_String _ Hok')) as [_ Hpar].
    induction nows as [|now nows IH]; intros i health; [by exists i|]. cbn [map Recv_loop].
    unfold recv_iteration at 1. cbn [rl_phase rl_state rl_i rl_health].
    destruct (recv_packet_unknown now zeroSniffPacket st' (zero_packet_unknown ip_String _ Hok')) as [-> _].
    rewrite Hpar, !bind_Ok. apply IH.
  - intros scan pcap port rest Hscan Hpcap Hnew.
    destruct (monitor_adds ip_String scan pcap port st' Hscan Hpcap Hnew) as (r2 & st2 & Hm & Hr2 & Hc2).
    exists st2. cbn [startMonitoringOpenPorts]. rewrite Hm, bind_Ok. split; [done|].
    rewrite recv_run_cons. cbn [recv_step]. unfold sniffer_send. by rewrite Hr2, Hc2, Hc'.
Qed.

(** The counters of the Firedancer receiver, over any sequence of results with their times:
    every shred is in the difference of one line or not yet reported, and a line gives the
    sum of the differences so far.  The last ones are not reported until another shred comes. *)
Theorem fd_counts (start : Z) (inputs : list (Z * monitor_result)) :
  let c := fold_left (fun c x => fd_count_result x.1 x.2 c) inputs (mkFdLog 0 start 0 []) in
  got_shreds inputs < 2 ^ 62 ->
  sum_differences c + lastSecondCount c = got_shreds inputs
  /\ totalShreds c = sum_differences c
  /\ (fl_lines c = [] \/ snd (List.last (fl_lines c) (0, 0)) = totalShreds c).
Proof.
  intros c Hlen. destruct (fd_results_inv inputs (mkFdLog 0 start 0 []) 0) as (Hn & _ & _ & Hs & Hl);
    [by split_and!; [..|by left]|lia|].
  fold c in Hn, Hs, Hl. split_and!; [lia|done|done].
Qed.

(** ** Concrete loops *)

Definition demo_loop : recv_loop AlterKey := mkRecvLoop demo_recv 100000 [] Looping.

Lemma is_Ok_inv {E A} (m : outcome E A) : is_Ok m = true -> exists a, m = Ok a.
Proof. destruct m as [a| |]; [by exists a|done..]. Qed.

Lemma recv_health_witness :
  exists l1 l2, recv_iteration demo_ip_String (SelClosed 1) demo_loop = Ok l1
    /\ Recv_loop demo_ip_String [SelPacket 2 demo_good_packet; SelPacket 3 demo_good_packet] l1 = Ok l2
    /\ rl_health l2 = [].
Proof.
  destruct (is_Ok_inv (recv_iteration demo_ip_String (SelClosed 1) demo_loop)) as [l1 H1]; [vm_compute; reflexivity|].
  assert (is_Ok (l1 ← recv_iteration demo_ip_String (SelClosed 1) demo_loop;
    Recv_loop demo_ip_String [SelPacket 2 demo_good_packet; SelPacket 3 demo_good_packet] l1) = true) as H2
    by (vm_compute; reflexivity).
  rewrite H1, bind_Ok in H2. apply is_Ok_inv in H2 as [l2 H2].
  exists l1, l2. split; [exact H1|]. split; [exact H2|].
  assert (nl_ok demo_ip_String (rv_nl (rl_state demo_loop))) as Hok by exact demo_nl_ok.
  destruct (recv_health demo_ip_String demo_loop l1 l2 (SelClosed 1) _ Hok eq_refl H1 H2) as [Hlost _].
  exact (Hlost eq_refl I eq_refl).
Defined.

Definition demo_exits : list recv_event := replicate (length (rv_running demo_recv)) (EvExit 0 false).

(** The port of a program that starts later. *)
Definition demo_late_scan (excluded : list Z) : string + list Z := inr [9999].

Definition demo_port_is_new : bool :=
  match recv_run demo_ip_String demo_exits demo_recv with
  | Ok st => bool_decide (portHandleMap (rv_nl st) !! portData_String (dynamic_port 9999) = None)
  | _ => false
  end.

Lemma all_sniffers_gone_witness :
  exists st' st2, recv_run demo_ip_String demo_exits demo_recv = Ok st'
    /\ startMonitoringOpenPorts demo_ip_String [Some (demo_late_scan, demo_pcap)] st' = Ok (true, st2)
    /\ recv_run demo_ip_String [EvSend] st2 = Panic ExplicitPanic.
Proof.
  assert (is_nil (rv_running demo_recv) = false) as Hne by (vm_compute; reflexivity).
  assert (nl_ok demo_ip_String (rv_nl demo_recv)) as Hok by exact demo_nl_ok.
  assert (rv_running demo_recv <> []) as Hne' by (intros Hr; rewrite Hr in Hne; discriminate Hne).
  destruct (all_sniffers_gone demo_ip_String demo_recv Hok Hne') as (st' & Hrun & _ & Hlate).
  assert (demo_port_is_new = true) as Hnew by (vm_compute; reflexivity).
  unfold demo_port_is_new, demo_exits in Hnew. rewrite Hrun in Hnew. apply bool_decide_eq_true in Hnew.
  destruct (Hlate demo_late_scan demo_pcap 9999 [] eq_refl demo_pcap_works Hnew) as (st2 & Hm & Hp).
  exists st', st2. split; [exact Hrun|]. split; [exact Hm|exact Hp].
Defined.

Lemma receive_loop_health_witness :
  exists l, receiveShredsFromOFR [(false, 1, RecvErr 11)] (mkOfrLoop 0 (demo_gateway 3) demo_shared (make_chan 100000) [])
            = Ok (true, l)
    /\ zlen (ol_health l) = (1 - 1) / 100000.
Proof.
  destruct (receive_loop_health (demo_gateway 3) demo_shared (make_chan 100000) [(false, 1, RecvErr 11)])
    as (l & Hr & Hl & _); [by repeat constructor|discriminate|].
  exists l. split; [exact Hr|exact Hl].
Defined.

Lemma fd_counts_witness :
  let c := fold_left (fun c x => fd_count_result x.1 x.2 c)
    [(1, NoShred); (second, GotShred (mkShredInfo [] 0 0 0 Byte.x00)); (2 * second, NoShred)] (mkFdLog 0 0 0 []) in
  sum_differences c + lastSecondCount c = 1.
Proof.
  refine (proj1 (fd_counts 0 [(1, NoShred); (second, GotShred (mkShredInfo [] 0 0 0 Byte.x00)); (2 * second, NoShred)] _)).
  reflexivity.
Defined.
