(* ===== verification/CommandLine.v ===== *)
(** * The command line ([bxgateway/cmd/gateway/main.go])

    The flags and their defaults, the configuration built from them, and [run]: the checks
    of the configuration, the construction of every part in the order of the code, and the
    start of the gateway.  [urfave/cli] is an input ([cli_context]), and so is the outside:
    the environment, name resolution, the capture library, system calls, the relay. *)

From S2P Require Import Prelude Strconv Shred Udp Stats Json Config Fluentd Redact Logger Registrar NetListen Firedancer Gateway.
Open Scope Z_scope.

(** ** Flags *)

Inductive flag_value :=
  | FString (s : string)
  | FInt (z : Z)
  | FBool (b : bool)
  | FStringSlice
  | FUint (z : Z).

Record flag := mkFlag {
  fl_name : string;
  fl_aliases : list string;
  fl_value : flag_value;
  fl_required : bool;
  fl_hidden : bool
}.

Definition visible_flag (name : string) (v : flag_value) : flag := mkFlag name [] v false false.
Definition hidden_flag (name : string) (v : flag_value) : flag := mkFlag name [] v false true.

Definition logLevelFlag : string := "log-level".
Definition logFileLevelFlag : string := "log-file-level".
Definition logMaxSizeFlag : string := "log-max-size".
Definition logMaxBackupsFlag : string := "log-max-backups".
Definition logMaxAgeFlag : string := "log-max-age".
Definition logFluentdFlag : string := "log-fluentd".
Definition logFluentHostFlag : string := "log-fluentd-host".
Definition solanaTVUBroadcastPortFlag : string := "tvu-broadcast-port".
Definition solanaTVUPortFlag : string := "tvu-port".
Definition sniffInterfaceFlag : string := "network-interface".
Definition ofrHostFlag : string := "ofr-host".
Definition ofrPortFlag : string := "ofr-port".
Definition ofrGRPCPortFlag : string := "ofr-grpc-port".
Definition udpServerPortFlag : string := "port".
Definition authHeaderFlag : string := "auth-header".
Definition broadcastAddressesFlag : string := "broadcast-addresses".
Definition broadcastFromOfrOnlyFlag : string := "broadcast-from-ofr-only".
Definition noValidatorFlag : string := "no-validator".
Definition stakedNodeFlag : string := "staked-node".
Definition dynamicPortRangeFlag : string := "dynamic-port-range".
Definition firedancerModeFlag : string := "firedancer".
Definition stakedNodesFlag : string := "staked-nodes".
Definition directForwardingFlag : string := "direct-forwarding".
Definition noTrafficCounterLimitFlag : string := "no-traffic-counter-limit".

(** [cli.App.Flags] *)
Definition app_flags : list flag := [
  visible_flag logLevelFlag (FString "info");
  visible_flag logFileLevelFlag (FString "debug");
  visible_flag logMaxSizeFlag (FInt 100);
  visible_flag logMaxBackupsFlag (FInt 10);
  visible_flag logMaxAgeFlag (FInt 10);
  hidden_flag logFluentdFlag (FBool false);
  hidden_flag logFluentHostFlag (FString "127.0.0.1");
  visible_flag solanaTVUBroadcastPortFlag (FInt 0);
  visible_flag solanaTVUPortFlag (FInt 8001);
  visible_flag sniffInterfaceFlag (FString "");
  mkFlag ofrHostFlag ["bdn-host"] (FString "") true false;
  mkFlag ofrPortFlag ["bdn-port"] (FInt 8888) false false;
  mkFlag ofrGRPCPortFlag ["bdn-grpc-port"] (FInt 5005) false false;
  visible_flag udpServerPortFlag (FInt 18888);
  mkFlag authHeaderFlag [] (FString "") true false;
  visible_flag broadcastAddressesFlag FStringSlice;
  mkFlag broadcastFromOfrOnlyFlag ["broadcast-from-bdn-only"] (FBool false) false false;
  visible_flag noValidatorFlag (FBool false);
  visible_flag stakedNodeFlag (FBool true);
  visible_flag dynamicPortRangeFlag (FString "18889-19888");
  visible_flag firedancerModeFlag (FBool false);
  hidden_flag stakedNodesFlag (FBool false);
  hidden_flag directForwardingFlag (FBool false);
  hidden_flag noTrafficCounterLimitFlag (FUint 60)]%string.

(** [cli.Context]: the value of a flag by name; a slice may be nil. *)
Record cli_context := mkCli {
  c_String : string -> string;
  c_Int : string -> Z;
  c_Bool : string -> bool;
  c_StringSlice : string -> option (list string);
  c_Uint : string -> Z
}.

(** The configuration that [Action] passes to [run]. *)
Definition config_of (c : cli_context) : GatewayConfig := {|
  Config.RuntimeEnnvironment := mkEnv "" 0 "";
  Config.LogLevel := c_String c logLevelFlag;
  Config.LogFileLevel := c_String c logFileLevelFlag;
  Config.LogMaxSize := c_Int c logMaxSizeFlag;
  Config.LogMaxBackups := c_Int c logMaxBackupsFlag;
  Config.LogMaxAge := c_Int c logMaxAgeFlag;
  Config.SolanaTVUBroadcastPort := c_Int c solanaTVUBroadcastPortFlag;
  Config.SolanaTVUPort := c_Int c solanaTVUPortFlag;
  Config.SniffInterface := c_String c sniffInterfaceFlag;
  Config.OfrHost := c_String c ofrHostFlag;
  Config.OfrGRPCPort := c_Int c ofrGRPCPortFlag;
  Config.UdpServerPort := c_Int c udpServerPortFlag;
  Config.AuthHeader := c_String c authHeaderFlag;
  Config.ExtraBroadcastAddrs :=
    match c_StringSlice c broadcastAddressesFlag with Some l => Some (mkStrings l []) | None => None end;
  Config.ExtraBroadcastFromOFROnly := c_Bool c broadcastFromOfrOnlyFlag;
  Config.NoValidator := c_Bool c noValidatorFlag;
  Config.StakedNode := c_Bool c stakedNodeFlag;
  Config.DynamicPortRangeString := c_String c dynamicPortRangeFlag;
  Config.LogFluentd := c_Bool c logFluentdFlag;
  Config.LogFluentdHost := c_String c logFluentHostFlag;
  Config.FiredancerMode := c_Bool c firedancerModeFlag;
  Config.StakedNodes := c_Bool c stakedNodesFlag;
  Config.DirectForwarding := false;
  Config.NoTrafficCounterLimit := c_Uint c noTrafficCounterLimitFlag;
  Config.SubmissionOnlyDeprecated := false
|}.

(** ** [run] *)

Inductive run_error :=
  | FatalInterface                       (* log.Fatalln: the process exits *)
  | ErrMinPort (e : num_error)
  | ErrMaxPort (e : num_error)
  | ErrNegativePort
  | ErrMaxBelowMin
  | FatalLogger (e : log_error)            (* log.Fatal or log.Fatalln: the process exits *)
  | ErrResolveTVU (e : udp_error)
  | ErrConvertTVU (e : udp_error)
  | ErrListener (e : string)
  | ErrGrpc (e : string)
  | ErrServer (e : udp_error)
  | ErrBroadcastAddrs (e : udp_error)
  | ErrFiredancer (e : string)
  | ErrGateway (e : udp_error)
  | ErrStart (e : gw_error).

Definition parse_port_range (s : string) : outcome run_error (Z * Z) :=
  let ports := Split "-" (bytes_of s) in
  p0 ← go_index ports 0;
  lo ← map_err ErrMinPort (Atoi p0);
  p1 ← go_index ports 1;
  hi ← map_err ErrMaxPort (Atoi p1);
  _ ← fail_if ((lo <? 0) || (hi <? 0)) ErrNegativePort;
  _ ← fail_if (hi <? lo) ErrMaxBelowMin;
  Ok (lo, hi).

Definition TVUBroadcastOffset : Z := 11.

(** The outgoing ports to capture. *)
Definition out_ports (cfg : GatewayConfig) : list Z :=
  if Config.StakedNode cfg then
    if Config.SolanaTVUBroadcastPort cfg =? 0 then
      map (fun i => i64 (Config.SolanaTVUPort cfg + TVUBroadcastOffset + Z.of_nat i)) (seq 0 10)
    else [Config.SolanaTVUBroadcastPort cfg]
  else [].

Definition appName : string := "solana-gateway".
Definition defaultVersion : string := "v0.18.5h".
Definition localhost : string := "127.0.0.1".
Definition gatewayVersionEnv : string := "SG_VERSION".

(** [fmt.Sprintf("%s:%d", host, port)] *)
Definition host_port (host : string) (port : Z) : string :=
  (host +:+ ":" +:+ string_of (format_int64 port))%string.

(** What the outside answers. *)
Record outside := mkOutside {
  os_Getenv : string -> string;
  os_Args : list string;                                  (* without the program's name *)
  log_ParseLevel : string -> string + Z;
  log_InfoLevel : Z;
  log_Init : InitConfig -> option FluentDConfig -> string -> option string;
  resolve : string -> outcome udp_error UDPAddr;          (* net.ResolveUDPAddr *)
  fluent_New : string -> Z -> option string;              (* the host and the port *)
  uuid_New : string;
  ip_String : list byte -> string;
  interface : string + (string + list iface_addr);
  scan : list Z -> string + list Z;
  pcap : Z -> bool -> pcap_results;
  grpc_NewClient : string -> option string;               (* the target *)
  server_socket : Z + Z;
  server_setsockopt : option Z;
  server_bind : option Z;
  fd_calls1 : fd_syscalls;
  fd_calls2 : fd_syscalls;
  monitor_init : Z;
  relay : nat -> RegisterRequest -> outcome grpc_error RegisterResponse
}.

Definition version_of (o : outside) : string :=
  let version := os_Getenv o gatewayVersionEnv in
  if bool_decide (version = "") then defaultVersion else version.

(** The service's logger; its methods' arguments are of any type. *)
Definition run_logger (o : outside) (cfg : GatewayConfig) : outcome log_error (Logger string) :=
  logger_New (log_ParseLevel o) (log_InfoLevel o) (log_Init o)
    {| lc_AppName := appName; lc_Level := Config.LogLevel cfg; lc_FileLevel := Config.LogFileLevel cfg;
       lc_MaxSize := Config.LogMaxSize cfg; lc_MaxBackups := Config.LogMaxBackups cfg;
       lc_MaxAge := Config.LogMaxAge cfg; lc_Port := Config.UdpServerPort cfg; lc_Version := version_of o;
       lc_Fluentd := false; lc_FluentHost := "" |}.

(** The client of fluentD; when it fails, [run] goes on with a nil one. *)
Definition run_fluentd (o : outside) (cfg : GatewayConfig) : outcome string FluentD :=
  NewFluentD (fluent_New o (Config.LogFluentdHost cfg) 24224) (uuid_New o).

(** [cfg.RuntimeEnnvironment = ...] with the redacted arguments. *)
Definition with_env (o : outside) (port : Z) (cfg : GatewayConfig) : GatewayConfig :=
  let env := mkEnv (version_of o) port (string_of (redact (joined (map bytes_of (os_Args o))))) in
  Config.mkGateway env (Config.LogLevel cfg) (Config.LogFileLevel cfg) (Config.LogMaxSize cfg)
    (Config.LogMaxBackups cfg) (Config.LogMaxAge cfg) (Config.SolanaTVUBroadcastPort cfg)
    (Config.SolanaTVUPort cfg) (Config.SniffInterface cfg) (Config.OfrHost cfg) (Config.OfrGRPCPort cfg)
    (Config.UdpServerPort cfg) (Config.AuthHeader cfg) (Config.ExtraBroadcastAddrs cfg)
    (Config.ExtraBroadcastFromOFROnly cfg) (Config.NoValidator cfg) (Config.StakedNode cfg)
    (Config.DynamicPortRangeString cfg) (Config.LogFluentd cfg) (Config.LogFluentdHost cfg)
    (Config.FiredancerMode cfg) (Config.StakedNodes cfg) (Config.DirectForwarding cfg)
    (Config.NoTrafficCounterLimit cfg) (Config.SubmissionOnlyDeprecated cfg).

(** The elements of [cfg.ExtraBroadcastAddrs]. *)
Definition broadcast_addrs (cfg : GatewayConfig) : list string :=
  match Config.ExtraBroadcastAddrs cfg with Some l => elems l | None => [] end.

(** [gwopts], in the order in which they are appended. *)
Definition gateway_options (o : outside) (cfg : GatewayConfig) : outcome run_error (list GwOption) :=
  bcast ← (if negb (zlen (broadcast_addrs cfg) =? 0) then
             opt ← map_err ErrBroadcastAddrs
                     (WithBroadcastAddrs (resolve o) (broadcast_addrs cfg) (Config.ExtraBroadcastFromOFROnly cfg));
             Ok [opt]
           else Ok []);
  fd ← (if Config.FiredancerMode cfg then
          _ ← map_err ErrFiredancer (NewFiredancerSniffer (monitor_init o));
          Ok [WithFiredancerSniffer true]
        else Ok []);
  Ok ((if Config.NoValidator cfg then [WithoutSolanaNode] else [])
      ++ bcast ++ fd
      ++ (if 0 <? Config.NoTrafficCounterLimit cfg
          then [WithNoTrafficCounterLimit (Config.NoTrafficCounterLimit cfg)] else [])).

(** The network listener, only when running with a validator. *)
Definition listener (o : outside) (cfg : GatewayConfig)
    : outcome run_error (option (list running * NetworkListener)) :=
  if negb (Config.NoValidator cfg) && negb (Config.FiredancerMode cfg) then
    nl ← map_err ErrListener
           (NewNetworkListener (ip_String o) (interface o) (scan o) (pcap o) (Config.StakedNodes cfg)
              (Config.SolanaTVUPort cfg) (out_ports cfg) (Config.UdpServerPort cfg));
    Ok (Some nl)
  else Ok None.

(** What [run] has built before it creates the gateway. *)
Record prepared := mkPrepared {
  pr_range : Z * Z;
  pr_tvu : Sockaddr;
  pr_stats : Stats;
  pr_listener : option (list running * NetworkListener);
  pr_server : FDConn;
  pr_cfg : GatewayConfig;                (* the registrar's configuration *)
  pr_opts : list GwOption
}.

Definition prepare (o : outside) (cfg : GatewayConfig) : outcome run_error prepared :=
  _ ← fail_if (negb (Config.NoValidator cfg) && bool_decide (Config.SniffInterface cfg = ""%string)) FatalInterface;
  range ← parse_port_range (Config.DynamicPortRangeString cfg);
  _ ← map_err FatalLogger (run_logger o cfg);
  udpAddr ← map_err ErrResolveTVU (resolve o (host_port localhost (Config.SolanaTVUPort cfg)));
  tvu ← map_err ErrConvertTVU (SockAddrFromNetUDPAddr udpAddr);
  let stats := newStats (Config.LogFluentd cfg && is_Ok (run_fluentd o cfg)) in
  nl ← listener o cfg;
  _ ← map_err ErrGrpc (of_err (grpc_NewClient o (host_port (Config.OfrHost cfg) (Config.OfrGRPCPort cfg))));
  server ← map_err ErrServer
             (Server (server_socket o) (server_setsockopt o) (server_bind o) (Config.UdpServerPort cfg)).1;
  let cfg := with_env o (Port server) cfg in
  opts ← gateway_options o cfg;
  Ok (mkPrepared range tvu stats nl server cfg opts).

(** What the registrar answers to the [i]-th call. *)
Definition answers (o : outside) (cfg : GatewayConfig) (i : nat) : outcome register_error RegisterResponse :=
  Register_call (NewOFRRegistrar (relay o) cfg) i.

Record started := mkStarted {
  st_prepared : prepared;
  st_fdset : FDSet;
  st_gateway : Gateway.Gateway;
  st_goroutines : list goroutine;
  st_attempts : nat
}.

(** [run], up to the wait for a signal; [None] would be an endless scan for a port. *)
Definition run (o : outside) (cfg : GatewayConfig) : option (outcome run_error started) :=
  match prepare o cfg with
  | Err e => Some (Err e)
  | Panic p => Some (Panic p)
  | Ok pr =>
      match New (fd_calls1 o) (fd_calls2 o) (snd <$> pr_listener pr) (pr_server pr)
              (NewFDSet (pr_range pr).1 (pr_range pr).2) (Some (pr_tvu pr)) (pr_opts pr) with
      | None => None
      | Some (Err e, _, _) => Some (Err (ErrGateway e))
      | Some (Panic p, _, _) => Some (Panic p)
      | Some (Ok gw, fdset, _) =>
          match Start (resolve o) (answers o (pr_cfg pr)) gw with
          | (r, gw, attempts, _) =>
              Some (gs ← map_err ErrStart r; Ok (mkStarted pr fdset gw gs attempts))
          end
      end
  end.

(** ** [main] *)

Inductive main_error := ErrCli (e : string) | ErrRun (e : run_error).

(** [parsed] is what the library makes of the arguments: an error, or the context for [Action]. *)
Definition main (o : outside) (parsed : string + cli_context) : option (outcome main_error started) :=
  match parsed with
  | inl e => Some (Err (ErrCli e))
  | inr c => map_err ErrRun <$> run o (config_of c)
  end.

(** * Properties *)

(** ** The port range *)

Lemma Atoi_nonneg s z : "-"%byte ∉ s -> Atoi s = Ok z -> 0 <= z.
Proof.
  intros Hs. unfold ParseInt.
  destruct s as [|c s]; [done|]. apply not_elem_of_cons in Hs as [Hc _].
  assert (exists s', (match c :: s with "+"%byte :: s' => (false, s') | "-"%byte :: s' => (true, s')
            | _ => (false, c :: s) end) = (false, s')) as [s' ->] by (destruct c; (congruence || by eexists)).
  intros (un & Hun%ParseUint_range & H)%bind_Ok_inv. cbn [negb andb] in H.
  case_if; [done|]. injection H as <-. lia.
Qed.

Lemma parse_port_range_absent s :
  "-"%byte ∉ bytes_of s ->
  parse_port_range s = _ ← map_err ErrMinPort (Atoi (bytes_of s)); Panic IndexOutOfRange.
Proof. intros Hs. unfold parse_port_range. rewrite Split_absent by done. reflexivity. Qed.

(** With a dash the range is decided by the parts around the first one. *)
Lemma parse_port_range_dash s a t b ws :
  bytes_of s = a ++ "-"%byte :: t -> "-"%byte ∉ a -> Split "-" t = b :: ws ->
  parse_port_range s
  = lo ← map_err ErrMinPort (Atoi a);
    hi ← map_err ErrMaxPort (Atoi b);
    _ ← fail_if ((lo <? 0) || (hi <? 0)) ErrNegativePort;
    _ ← fail_if (hi <? lo) ErrMaxBelowMin;
    Ok (lo, hi).
Proof.
  intros Hs Ha Ht. unfold parse_port_range. rewrite Hs, Split_app, Ht by done. cbn [mbind outcome_bind].
  rewrite (go_index_lookup (a :: b :: ws) 0 a), (go_index_lookup (a :: b :: ws) 1 b) by done. reflexivity.
Qed.

(** The first part of a split contains no separator. *)
Lemma Split_first sep s b ws : Split sep s = b :: ws -> sep ∉ b.
Proof. destruct (Split_cases sep s) as [[H ->]|(a & t & _ & H & ->)]; by intros [= <- _]. Qed.

Lemma parse_port_range_cases s :
  ("-"%byte ∉ bytes_of s
   /\ parse_port_range s = _ ← map_err ErrMinPort (Atoi (bytes_of s)); Panic IndexOutOfRange)
  \/ exists a t b, bytes_of s = a ++ "-"%byte :: t /\ "-"%byte ∉ a /\ head (Split "-" t) = Some b /\ "-"%byte ∉ b
     /\ parse_port_range s
        = lo ← map_err ErrMinPort (Atoi a);
          hi ← map_err ErrMaxPort (Atoi b);
          _ ← fail_if (hi <? lo) ErrMaxBelowMin;
          Ok (lo, hi).
Proof.
  destruct (Split_cases "-"%byte (bytes_of s)) as [[Hs _]|(a & t & Hs & Ha & _)]; [left|right].
  { split; [done|by apply parse_port_range_absent]. }
  destruct (Split "-" t) as [|b ws] eqn:Ht; [by apply Split_nonempty in Ht|].
  pose proof (Split_first _ _ _ _ Ht) as Hb.
  exists a, t, b. split_and!; [done|done|by rewrite Ht|done|].
  rewrite (parse_port_range_dash s a t b ws) by done.
  destruct (Atoi a) as [lo| |] eqn:Hlo; [|done..]. cbn [map_err mbind outcome_bind].
  destruct (Atoi b) as [hi| |] eqn:Hhi; [|done..]. cbn [map_err mbind outcome_bind].
  apply Atoi_nonneg in Hlo, Hhi; [|done..].
  rewrite (proj2 (Z.ltb_ge lo 0)), (proj2 (Z.ltb_ge hi 0)) by done. reflexivity.
Qed.

Lemma parse_port_range_Ok s lo hi :
  parse_port_range s = Ok (lo, hi) -> 0 <= lo <= hi /\ hi < 2 ^ 63.
Proof.
  intros H. destruct (parse_port_range_cases s) as [[_ E]|(a & t & b & _ & Ha & _ & Hb & E)];
    rewrite E in H.
  { by destruct (Atoi (bytes_of s)). }
  destruct (Atoi a) as [lo'| |] eqn:Hlo; [|done..]. destruct (Atoi b) as [hi'| |] eqn:Hhi; [|done..].
  cbn [map_err mbind outcome_bind] in H. destruct (Z.ltb_spec hi' lo'); [done|].
  injection H as -> ->. pose proof (Atoi_nonneg _ _ Ha Hlo). pose proof (ParseInt_range _ _ Hhi). lia.
Qed.

(** The digits of a port contain no dash. *)
Lemma digits_no_dash z : 0 <= z -> "-"%byte ∉ format_uint64 z.
Proof.
  intros Hz Hin. pose proof (format_uint64_digits z Hz) as Hd.
  rewrite list.Forall_forall in Hd. by specialize (Hd _ Hin).
Qed.

(** ** Panics *)

Lemma parse_addrs_panics rv l :
  resolver_returns rv -> panics (parse_addrs rv l) = true -> exists s, s ∈ l /\ not_ipv4 rv s.
Proof.
  intros Hrv. induction l as [|s l IH]; [done|]. cbn [parse_addrs].
  intros [Hp|(a & _ & [Hp|(l' & _ & Hp)]%bind_panics_inv)]%bind_panics_inv; [| |done].
  - exists s. split; [apply elem_of_cons; by left|by apply SockAddrFromUDPString_panics].
  - destruct (IH Hp) as (s' & Hs' & ?). exists s'. split; [apply elem_of_cons; by right|done].
Qed.

Lemma inetAddr_no_panic i : panics (inetAddr i) = false.
Proof.
  unfold inetAddr. apply bind_not_panics; [apply of_sum_panics|intros itf _].
  apply bind_not_panics; [apply of_sum_panics|intros l _].
  induction l as [|[ip|] l IH]; [done| |exact IH].
  cbn. case_if; [|done]. by destruct (To4 ip).
Qed.

Lemma inetAddr_To4 i ip : inetAddr i = Ok ip -> To4 ip <> None.
Proof.
  unfold inetAddr. intros (l1 & _ & (l & _ & H)%bind_Ok_inv)%bind_Ok_inv. revert H.
  induction l as [|[ip'|] l IH]; [done| |exact IH]. cbn. case_if; [|done].
  destruct (To4 ip') as [ip4|] eqn:E; [|done]. intros [= <-]. apply To4_length in E.
  unfold To4. by rewrite E.
Qed.

Lemma NewNetworkListener_no_panic ipS itf sc pc staked inP outPs serverP :
  panics (NewNetworkListener ipS itf sc pc staked inP outPs serverP) = false.
Proof.
  unfold NewNetworkListener. apply bind_not_panics; [apply inetAddr_no_panic|].
  intros ip Hip%inetAddr_To4. destruct (To4 ip) as [v4|]; [|done].
  match goal with |- context [registerSniffers _ _ _ ?nl0] =>
    pose proof (registerSniffers_ok ipS sc pc nl0 (empty_nl_ok _ _ _ _ _ _ _)) as [_ Hp];
    destruct (registerSniffers _ _ _ nl0) as [r nl1] end.
  by destruct r.
Qed.

Lemma listener_no_panic o cfg : panics (listener o cfg) = false.
Proof.
  unfold listener. case_if; [|done]. apply bind_not_panics; [|done].
  rewrite map_err_panics. apply NewNetworkListener_no_panic.
Qed.

Lemma gateway_options_panics o cfg :
  resolver_returns (resolve o) -> panics (gateway_options o cfg) = true ->
  exists s, s ∈ broadcast_addrs cfg /\ not_ipv4 (resolve o) s.
Proof.
  intros Hrv. unfold gateway_options.
  intros [Hp|(l & _ & [Hp|(l' & _ & Hp)]%bind_panics_inv)]%bind_panics_inv; [| |done].
  - revert Hp. case_if; [|done]. intros [Hp|(? & _ & Hp)]%bind_panics_inv; [|done].
    rewrite map_err_panics in Hp. unfold WithBroadcastAddrs in Hp.
    apply bind_panics_inv in Hp as [Hp|(? & _ & Hp)]; [by apply parse_addrs_panics|done].
  - revert Hp. case_if; [|done]. intros [Hp|(? & _ & Hp)]%bind_panics_inv; [|done].
    rewrite map_err_panics in Hp. unfold NewFiredancerSniffer in Hp. by case_if.
Qed.

(** The address of the local node, as [run] resolves it. *)
Definition tvu_host (cfg : GatewayConfig) : string := host_port localhost (Config.SolanaTVUPort cfg).

Lemma prepare_panics o cfg :
  resolver_returns (resolve o) -> panics (prepare o cfg) = true ->
  panics (parse_port_range (Config.DynamicPortRangeString cfg)) = true
  \/ exists s, (s = tvu_host cfg \/ s ∈ broadcast_addrs cfg) /\ not_ipv4 (resolve o) s.
Proof.
  intros Hrv. unfold prepare.
  intros [Hp|(_ & _ & [Hp|(range & _ & [Hp|(_ & _ & [Hp|(ua & Hua & [Hp|(tvu & _ & [Hp|(nl & _ & [Hp|(_ & _ &
    [Hp|(server & _ & [Hp|(opts & _ & Hp)]%bind_panics_inv)]%bind_panics_inv)]%bind_panics_inv)]%bind_panics_inv)]
    %bind_panics_inv)]%bind_panics_inv)]%bind_panics_inv)]%bind_panics_inv)]%bind_panics_inv;
    rewrite ?map_err_panics in Hp.
  - by rewrite fail_if_panics in Hp.
  - by left.
  - unfold run_logger in Hp. by rewrite logger_New_no_panic in Hp.
  - by rewrite Hrv in Hp.
  - right. exists (tvu_host cfg). split; [by left|]. exists ua. split; [by apply map_err_Ok_inv in Hua|].
    by apply SockAddrFromNetUDPAddr_panics.
  - by rewrite listener_no_panic in Hp.
  - by rewrite of_err_panics in Hp.
  - unfold Server in Hp. destruct (server_socket o); [done|]. destruct (server_setsockopt o); [done|].
    by destruct (server_bind o).
  - right. destruct (gateway_options_panics o _ Hrv Hp) as (s & Hs & ?). exists s. split; [by right|done].
  - done.
Qed.

Lemma prepare_range o cfg pr :
  prepare o cfg = Ok pr -> parse_port_range (Config.DynamicPortRangeString cfg) = Ok (pr_range pr).
Proof. unfold prepare. intros H. invert_outcome. by subst pr. Qed.

Lemma prepared_fdset_ok o cfg pr :
  prepare o cfg = Ok pr -> fs_ok (NewFDSet (pr_range pr).1 (pr_range pr).2).
Proof.
  intros H%prepare_range. destruct (pr_range pr) as [lo hi].
  apply parse_port_range_Ok in H. unfold fs_ok. cbn. lia.
Qed.

(** The two sockets of the gateway get ports of the range. *)
Lemma New_total sc1 sc2 nl server fs tvu opts :
  fs_ok fs ->
  exists r fs' closed, New sc1 sc2 nl server fs tvu opts = Some (r, fs', closed)
    /\ match r with
       | Ok g => exists c1 c2, fs_min fs <= Port c1 <= fs_max fs /\ fs_min fs <= Port c2 <= fs_max fs
           /\ g = fold_left (fun g o => o g) opts
                    (mkGateway nl false server c1 c2 tvu zeroAddr Stopped 0 [] false false
                       defaultNoTrafficCounterLimit)
       | Err _ => True
       | Panic _ => False
       end.
Proof.
  intros Hfs. unfold New, next_fd.
  destruct (NextFD_total (fs_socket sc1) (fs_setsockopt sc1) (fs_bind_ok sc1) fs Hfs)
    as (r1 & fs1 & cl1 & -> & Hfs1 & Hmin & Hmax & Hr1).
  destruct r1 as [c1|e|p]; [|by eexists _, _, _|done].
  destruct (NextFD_total (fs_socket sc2) (fs_setsockopt sc2) (fs_bind_ok sc2) fs1 Hfs1)
    as (r2 & fs2 & cl2 & -> & _ & _ & _ & Hr2).
  destruct r2 as [c2|e|p]; [|by eexists _, _, _|done].
  eexists _, _, _. split; [done|]. exists c1, c2. rewrite <- Hmin, <- Hmax. split_and!; (done || lia).
Qed.

Lemma Register_panics rv rsp g :
  resolver_returns rv -> panics rsp = false -> panics (Register rv rsp g).1 = true ->
  exists m, rsp = Ok m /\ not_ipv4 rv (UdpAddress m).
Proof.
  intros Hrv Hrsp. unfold Register, Register_end. destruct rsp as [m|e|p]; [|done|done].
  pose proof (SockAddrFromUDPString_panics rv (UdpAddress m) Hrv) as Hp.
  destruct (SockAddrFromUDPString rv (UdpAddress m)) as [sa|e|p]; [|done|].
  - pose proof (NewAddr_panics (Some sa)). by destruct (NewAddr (Some sa)).
  - intros _. exists m. split; [done|by apply Hp].
Qed.

Lemma Start_panics rv rsps g :
  resolver_returns rv -> (forall i, panics (rsps i) = false) -> panics (Start rv rsps g).1.1.1 = true ->
  exists i m, rsps i = Ok m /\ not_ipv4 rv (UdpAddress m).
Proof.
  intros Hrv Hrsps. unfold Start, registerRetryCount.
  destruct (Start_loop _ _ _ _ _ _) as [[[r g'] at'] sl] eqn:E.
  apply Start_loop_spec in E as (_ & _ & -> & _). cbn [fst].
  intros [Hp|(? & _ & Hp)]%bind_panics_inv; [|done]. eexists. by apply (Register_panics rv _ g).
Qed.

Lemma answers_no_panic o cfg i :
  (forall req, panics (relay o i req) = false) -> panics (answers o cfg i) = false.
Proof.
  intros Hrel. unfold answers, NewOFRRegistrar. cbn [Register_call ofrRegistrar_is_Registrar reg_client reg_cfg].
  unfold ofrRegistrar_Register. cbn [Config.Marshal map_err mbind outcome_bind].
  rewrite map_err_panics. apply Hrel.
Qed.

(** ** What the started gateway is *)

(** Which receiver [Start] starts. *)
Definition started_goroutines (noVal fd : bool) : list goroutine :=
  [GoReRegister; GoReceiveShredsFromOFR; GoBroadcastShredsToNode]
  ++ (if noVal then [GoSendAliveMessages]
      else [GoBroadcastShredsToOFR; if fd then GoFiredancerRecv else GoListenerRecv]).

Lemma listener_goroutine noVal fd :
  GoListenerRecv ∈ started_goroutines noVal fd <-> noVal = false /\ fd = false.
Proof.
  unfold started_goroutines.
  destruct noVal, fd; cbn [app]; rewrite !elem_of_cons, elem_of_nil; intuition discriminate.
Qed.

Lemma firedancer_goroutine noVal fd :
  GoFiredancerRecv ∈ started_goroutines noVal fd <-> noVal = false /\ fd = true.
Proof.
  unfold started_goroutines.
  destruct noVal, fd; cbn [app]; rewrite !elem_of_cons, elem_of_nil; intuition discriminate.
Qed.

Lemma Register_frame rv rsp g :
  (Register rv rsp g).2 = set_ofr (ofrUDPAddr (Register rv rsp g).2) g.
Proof.
  unfold Register, Register_end, Register_begin. destruct rsp as [m|e|p]; [|done|done].
  destruct (SockAddrFromUDPString rv (UdpAddress m)); [|done|done].
  by destruct (NewAddr _).
Qed.

Lemma Start_loop_frame rv rsps n i g last :
  (0 < n)%nat -> (Start_loop rv rsps n i g last).1.1.2
                 = set_ofr (ofrUDPAddr (Start_loop rv rsps n i g last).1.1.2) g.
Proof.
  revert i g last. induction n as [|n IH]; intros i g last Hn; [lia|]. rewrite Start_loop_S.
  pose proof (Register_frame rv (rsps i) g) as Hf.
  destruct (Register rv (rsps i) g) as [[a|e|p] g1]; cbn [snd] in Hf; try done.
  case_if; [done|]. destruct n as [|n]; [done|].
  specialize (IH (S i) g1 (Err e) ltac:(lia)).
  destruct (Start_loop rv rsps (S n) (S i) g1 (Err e)) as [[[r g'] at'] sl]. cbn [fst snd] in *.
  rewrite IH, Hf. reflexivity.
Qed.

Lemma Start_frame rv rsps g r g' attempts sleeps :
  Start rv rsps g = (r, g', attempts, sleeps) ->
  g' = set_ofr (ofrUDPAddr g') g
  /\ (is_Ok r = true -> IsZero (ofrUDPAddr g') = false
        /\ r = Ok (started_goroutines (noValidator g) (firedancerSniffer g))).
Proof.
  unfold Start, registerRetryCount.
  pose proof (Start_loop_frame rv rsps 3 0 g (Err (GParse ErrUnknownAddressFormat)) ltac:(lia)) as Hf.
  destruct (Start_loop rv rsps 3 0 g _) as [[[r0 g0] at0] sl0] eqn:E. cbn [fst snd] in Hf.
  apply Start_loop_spec in E as (_ & _ & _ & _ & _ & Hz).
  intros [= <- <- <- <-]. split; [done|]. intros Hok. destruct r0; [|done|done].
  split; [done|]. rewrite Hf. reflexivity.
Qed.

(** The sockets and addresses of the extra endpoints. *)
Definition endpoints (rv : string -> outcome udp_error UDPAddr) (l : list string) (l' : list Sockaddr) : Prop :=
  Forall2 (fun s a => SockAddrFromUDPString rv s = Ok a) l l'.

Lemma parse_addrs_endpoints rv l l' : parse_addrs rv l = Ok l' -> endpoints rv l l'.
Proof.
  revert l'. induction l as [|s l IH]; intros l'; cbn [parse_addrs]; [intros [= <-]; constructor|].
  intros (a & Ha & (l1 & Hl & H)%bind_Ok_inv)%bind_Ok_inv. injection H as <-.
  constructor; [done|]. by apply IH.
Qed.

(** The gateway that the options make of a fresh one. *)
Lemma options_apply o cfg opts g :
  gateway_options o cfg = Ok opts ->
  exists extra, endpoints (resolve o) (broadcast_addrs cfg) extra
    /\ (extraBroadcastAddrs g = [] -> noValidator g = false -> firedancerSniffer g = false ->
        extraBroadcastFromOFROnly g = false ->
        fold_left (fun g opt => opt g) opts g
        = mkGateway (gw_nl g) (Config.FiredancerMode cfg) (serverFd g) (send2OFRFd g) (send2NodeFd g)
            (solanaTVUAddr g) (ofrUDPAddr g) (noTrafficTicker g) (noTrafficCounter g) extra
            (negb (zlen (broadcast_addrs cfg) =? 0) && Config.ExtraBroadcastFromOFROnly cfg)
            (Config.NoValidator cfg)
            (if 0 <? Config.NoTrafficCounterLimit cfg then Config.NoTrafficCounterLimit cfg
             else noTrafficCounterLimit g)).
Proof.
  unfold gateway_options. intros (bc & Hbc & (fdo & Hfd & H)%bind_Ok_inv)%bind_Ok_inv. injection H as <-.
  assert (exists extra, endpoints (resolve o) (broadcast_addrs cfg) extra
    /\ bc = (if zlen (broadcast_addrs cfg) =? 0 then []
            else [fun g => mkGateway (gw_nl g) (firedancerSniffer g) (serverFd g) (send2OFRFd g) (send2NodeFd g)
                    (solanaTVUAddr g) (ofrUDPAddr g) (noTrafficTicker g) (noTrafficCounter g) extra
                    (Config.ExtraBroadcastFromOFROnly cfg) (noValidator g) (noTrafficCounterLimit g)])
    /\ (zlen (broadcast_addrs cfg) = 0 -> extra = [])) as (extra & Hend & -> & Hnil).
  { destruct (Z.eqb_spec (zlen (broadcast_addrs cfg)) 0) as [Hz|Hz]; cbn [negb] in Hbc.
    - injection Hbc as <-. exists []. split_and!; [|done|done].
      destruct (broadcast_addrs cfg); [constructor|unfold zlen in Hz; cbn in Hz; lia].
    - destruct (WithBroadcastAddrs _ _ _) as [opt| |] eqn:E; [|done|done]. injection Hbc as <-.
      unfold WithBroadcastAddrs in E. apply bind_Ok_inv in E as (extra & He & [= <-]).
      exists extra. split_and!; [by apply parse_addrs_endpoints|done|done]. }
  assert (fdo = if Config.FiredancerMode cfg then [WithFiredancerSniffer true] else []) as ->.
  { destruct (Config.FiredancerMode cfg); [|by injection Hfd as <-].
    destruct (NewFiredancerSniffer _); [|done|done]. by injection Hfd as <-. }
  exists extra. split; [done|]. intros He Hv Hf Ho. rewrite !fold_left_app.
  destruct g. cbn in He, Hv, Hf, Ho. subst.
  destruct (Config.NoValidator cfg), (zlen (broadcast_addrs cfg) =? 0) eqn:Hz, (Config.FiredancerMode cfg),
    (0 <? Config.NoTrafficCounterLimit cfg); cbn; try reflexivity;
    apply Z.eqb_eq in Hz; by rewrite Hnil.
Qed.

Lemma prepare_parts o cfg pr :
  prepare o cfg = Ok pr ->
  (pr_listener pr <> None <-> Config.NoValidator cfg = false /\ Config.FiredancerMode cfg = false)
  /\ Port (pr_server pr) = Config.UdpServerPort cfg
  /\ gateway_options o cfg = Ok (pr_opts pr).
Proof.
  unfold prepare, listener, Server.
  intros (_ & _ & (range & _ & (_ & _ & (ua & _ & (tvu & _ & (nl & Hnl & (_ & _ & (server & Hs &
    (opts & Ho & H)%bind_Ok_inv)%bind_Ok_inv)%bind_Ok_inv)%bind_Ok_inv)%bind_Ok_inv)%bind_Ok_inv)%bind_Ok_inv)
    %bind_Ok_inv)%bind_Ok_inv.
  injection H as <-. cbn [pr_listener pr_server pr_opts]. split_and!; [| |exact Ho].
  - destruct (Config.NoValidator cfg), (Config.FiredancerMode cfg); cbn in Hnl;
      [injection Hnl as <-; naive_solver..|]. destruct (NewNetworkListener _ _ _ _ _ _ _ _); [|done..].
    injection Hnl as <-. done.
  - destruct (server_socket o); [done|]. destruct (server_setsockopt o); [done|].
    destruct (server_bind o); [done|]. by injection Hs as <-.
Qed.

Lemma prepare_listener o cfg pr sniffers nl :
  prepare o cfg = Ok pr -> pr_listener pr = Some (sniffers, nl) ->
  NewNetworkListener (ip_String o) (interface o) (scan o) (pcap o) (Config.StakedNodes cfg)
    (Config.SolanaTVUPort cfg) (out_ports cfg) (Config.UdpServerPort cfg) = Ok (sniffers, nl).
Proof.
  unfold prepare. intros H Hl. invert_outcome. subst pr. cbn [pr_listener] in Hl. subst.
  match goal with H : listener o cfg = Ok _ |- _ => unfold listener in H; case_if; [|done] end.
  match goal with H : context [map_err ErrListener ?m] |- _ => by destruct m; [injection H as ->|done..] end.
Qed.

(** A started gateway, from its parts. *)
Lemma run_parts o cfg st :
  run o cfg = Some (Ok st) ->
  let pr := st_prepared st in
  prepare o cfg = Ok pr
  /\ exists c1 c2 extra addr,
       (pr_range pr).1 <= Port c1 <= (pr_range pr).2 /\ (pr_range pr).1 <= Port c2 <= (pr_range pr).2
       /\ endpoints (resolve o) (broadcast_addrs cfg) extra /\ IsZero addr = false
       /\ st_gateway st
          = mkGateway (snd <$> pr_listener pr) (Config.FiredancerMode cfg) (pr_server pr) c1 c2 (Some (pr_tvu pr))
              addr Stopped 0 extra
              (negb (zlen (broadcast_addrs cfg) =? 0) && Config.ExtraBroadcastFromOFROnly cfg)
              (Config.NoValidator cfg)
              (if 0 <? Config.NoTrafficCounterLimit cfg then Config.NoTrafficCounterLimit cfg else 3)
       /\ st_goroutines st = started_goroutines (Config.NoValidator cfg) (Config.FiredancerMode cfg).
Proof.
  intros Hrun. unfold run in Hrun.
  destruct (prepare o cfg) as [pr| |] eqn:Hp; [|done..].
  destruct (New_total (fd_calls1 o) (fd_calls2 o) (snd <$> pr_listener pr) (pr_server pr)
    (NewFDSet (pr_range pr).1 (pr_range pr).2) (Some (pr_tvu pr)) (pr_opts pr) (prepared_fdset_ok _ _ _ Hp))
    as (r & fs' & closed & Hnew & Hr).
  rewrite Hnew in Hrun. destruct r as [g0| |]; [|done..]. destruct Hr as (c1 & c2 & Hc1 & Hc2 & ->).
  destruct (Start _ _ _) as [[[r g'] at'] sl] eqn:Hs. destruct r as [gs| |]; [|done..].
  injection Hrun as <-. apply Start_frame in Hs as [Hg' Hok]. destruct (Hok eq_refl) as [Hz Hgs].
  injection Hgs as ->. destruct (prepare_parts o cfg pr Hp) as (_ & _ & Hopts).
  destruct (options_apply o cfg (pr_opts pr) (mkGateway (snd <$> pr_listener pr) false (pr_server pr) c1 c2
    (Some (pr_tvu pr)) zeroAddr Stopped 0 [] false false defaultNoTrafficCounterLimit) Hopts)
    as (extra & Hend & Happ).
  rewrite Happ in * by done. cbn [st_prepared st_gateway st_goroutines]. split; [done|].
  exists c1, c2, extra, (ofrUDPAddr g'). do 4 (split; [assumption|]). split; [exact Hg'|reflexivity].
Qed.

(** ** The header and the arguments *)

Definition with_header (h : string) (cfg : GatewayConfig) : GatewayConfig :=
  Config.mkGateway (Config.RuntimeEnnvironment cfg) (Config.LogLevel cfg) (Config.LogFileLevel cfg)
    (Config.LogMaxSize cfg) (Config.LogMaxBackups cfg) (Config.LogMaxAge cfg)
    (Config.SolanaTVUBroadcastPort cfg) (Config.SolanaTVUPort cfg) (Config.SniffInterface cfg)
    (Config.OfrHost cfg) (Config.OfrGRPCPort cfg) (Config.UdpServerPort cfg) h
    (Config.ExtraBroadcastAddrs cfg) (Config.ExtraBroadcastFromOFROnly cfg) (Config.NoValidator cfg)
    (Config.StakedNode cfg) (Config.DynamicPortRangeString cfg) (Config.LogFluentd cfg)
    (Config.LogFluentdHost cfg) (Config.FiredancerMode cfg) (Config.StakedNodes cfg)
    (Config.DirectForwarding cfg) (Config.NoTrafficCounterLimit cfg) (Config.SubmissionOnlyDeprecated cfg).

Definition with_args (args : list (list byte)) (o : outside) : outside :=
  mkOutside (os_Getenv o) (map string_of args) (log_ParseLevel o) (log_InfoLevel o) (log_Init o) (resolve o) (fluent_New o) (uuid_New o)
    (ip_String o)
    (interface o) (scan o) (pcap o) (grpc_NewClient o) (server_socket o) (server_setsockopt o)
    (server_bind o) (fd_calls1 o) (fd_calls2 o) (monitor_init o) (relay o).

(** A computation that both sides start with. *)
Ltac same_step :=
  match goal with
  | |- (?m ≫= _) = ((?m ≫= _) ≫= _) => destruct m; cbn [mbind outcome_bind]; [|done|done]
  end.

(** The arguments and the header have no part in the preparation but in the configuration
    of the registrar. *)
Lemma prepare_with args h o cfg :
  prepare (with_args args o) (with_header h cfg)
  = pr ← prepare o cfg;
    Ok (mkPrepared (pr_range pr) (pr_tvu pr) (pr_stats pr) (pr_listener pr) (pr_server pr)
          (with_header h (with_env (with_args args o) (Port (pr_server pr)) cfg)) (pr_opts pr)).
Proof.
  unfold prepare.
  change (Config.NoValidator (with_header h cfg)) with (Config.NoValidator cfg).
  change (Config.SniffInterface (with_header h cfg)) with (Config.SniffInterface cfg).
  change (Config.DynamicPortRangeString (with_header h cfg)) with (Config.DynamicPortRangeString cfg).
  change (Config.SolanaTVUPort (with_header h cfg)) with (Config.SolanaTVUPort cfg).
  change (listener (with_args args o) (with_header h cfg)) with (listener o cfg).
  change (run_logger (with_args args o) (with_header h cfg)) with (run_logger o cfg).
  change (resolve (with_args args o)) with (resolve o).
  change (Config.LogFluentd (with_header h cfg)) with (Config.LogFluentd cfg).
  change (run_fluentd (with_args args o) (with_header h cfg)) with (run_fluentd o cfg).
  change (grpc_NewClient (with_args args o)) with (grpc_NewClient o).
  change (Config.OfrHost (with_header h cfg)) with (Config.OfrHost cfg).
  change (Config.OfrGRPCPort (with_header h cfg)) with (Config.OfrGRPCPort cfg).
  change (Server (server_socket (with_args args o)) (server_setsockopt (with_args args o))
    (server_bind (with_args args o)) (Config.UdpServerPort (with_header h cfg)))
    with (Server (server_socket o) (server_setsockopt o) (server_bind o) (Config.UdpServerPort cfg)).
  do 8 same_step.
  match goal with server : FDConn |- _ =>
    change (gateway_options (with_args args o) (with_env (with_args args o) (Port server) (with_header h cfg)))
      with (gateway_options o (with_env o (Port server) cfg)) end.
  by same_step.
Qed.

Lemma bytes_of_string_of s : bytes_of (string_of s) = s.
Proof. apply String.list_byte_of_string_of_list_byte. Qed.

Lemma map_bytes_of_string_of ws : map bytes_of (map string_of ws) = ws.
Proof. rewrite map_map. rewrite <- (map_id ws) at 2. apply map_ext, bytes_of_string_of. Qed.

(** What [with_env] records of a command line with one header. *)
Lemma with_env_hides o port cfg ws1 ws2 dashes name tok one_word :
  flag_dashes dashes -> is_name name -> Forall (fun c => is_blank c = false) tok ->
  Forall (fun w => has_name w = false) ws1 -> Forall (fun w => has_name w = false) ws2 ->
  Config.RuntimeEnnvironment
    (with_env (with_args (ws1 ++ header_words dashes name tok one_word ++ ws2) o) port cfg)
  = mkEnv (version_of o) port (string_of (joined (ws1 ++ redacted :: ws2))).
Proof.
  intros Hd [Hn Hl] Ht H1 H2. unfold with_env. cbn [Config.RuntimeEnnvironment with_args os_Args].
  rewrite map_bytes_of_string_of.
  destruct (header_words_joined ws1 dashes name tok one_word ws2) as (sep & Hsep & ->).
  rewrite redact_one by (done || by apply words_before_clean || by apply words_after_clean).
  by rewrite joined_split.
Qed.

Lemma gateway_json_env o1 o2 h1 h2 port cfg :
  Config.RuntimeEnnvironment (with_env o1 port cfg) = Config.RuntimeEnnvironment (with_env o2 port cfg) ->
  gateway_json (with_header h1 (with_env o1 port cfg)) = gateway_json (with_header h2 (with_env o2 port cfg)).
Proof. unfold gateway_json, with_header, with_env. cbn. by intros ->. Qed.

(** ** Theorems *)

(** C17: when [run] can panic.  With name resolution and a relay whose calls return, [run] gets
    past the search for ports and either starts the gateway, reports an error, or panics for
    one of these reasons: the port range contains no dash and is a number, as in "18889"
    ([ports[1]] is out of range); or an address resolves to none of IPv4 - that of the local
    node, an extra endpoint of the command line, or one in an answer of the relay. *)
Theorem run_returns (o : outside) (cfg : GatewayConfig) :
  resolver_returns (resolve o) -> (forall i req, panics (relay o i req) = false) ->
  exists r, run o cfg = Some r
    /\ (panics r = true ->
        ("-"%byte ∉ bytes_of (Config.DynamicPortRangeString cfg)
         /\ is_Ok (Atoi (bytes_of (Config.DynamicPortRangeString cfg))) = true)
        \/ exists s, not_ipv4 (resolve o) s
             /\ (s = tvu_host cfg \/ s ∈ broadcast_addrs cfg
                 \/ exists pr i m, prepare o cfg = Ok pr /\ answers o (pr_cfg pr) i = Ok m /\ s = UdpAddress m)).
Proof.
  intros Hrv Hrel. unfold run.
  destruct (prepare o cfg) as [pr|e|p] eqn:Hp; [|by eexists|].
  - destruct (New_total (fd_calls1 o) (fd_calls2 o) (snd <$> pr_listener pr) (pr_server pr)
      (NewFDSet (pr_range pr).1 (pr_range pr).2) (Some (pr_tvu pr)) (pr_opts pr) (prepared_fdset_ok _ _ _ Hp))
      as (r & fs' & closed & -> & Hr).
    destruct r as [g|e|p]; [|by eexists|done].
    pose proof (Start_panics (resolve o) (answers o (pr_cfg pr)) g Hrv
      (fun i => answers_no_panic o (pr_cfg pr) i (Hrel i))) as Hs.
    destruct (Start _ _ _) as [[[r g'] at'] sl]. cbn [fst] in Hs. eexists. split; [done|].
    destruct r as [gs|e|p]; [done..|]. intros _. destruct (Hs eq_refl) as (i & m & Hi & Hm). right.
    exists (UdpAddress m). split; [done|]. right. right. by exists pr, i, m.
  - eexists. split; [done|]. intros _. apply (f_equal panics) in Hp.
    apply (prepare_panics o cfg Hrv) in Hp as [Hpp|(s & Hs & Hn)].
    + left. destruct (parse_port_range_cases (Config.DynamicPortRangeString cfg))
        as [[Hd E]|(a & t & b & _ & _ & _ & _ & E)]; rewrite E in Hpp.
      * split; [done|]. pose proof (ParseInt_no_panic (bytes_of (Config.DynamicPortRangeString cfg))).
        by destruct (Atoi (bytes_of (Config.DynamicPortRangeString cfg))).
      * pose proof (ParseInt_no_panic a). pose proof (ParseInt_no_panic b).
        destruct (Atoi a), (Atoi b); try done. cbn in Hpp. unfold fail_if in Hpp. by case_if.
    + right. exists s. split; [done|]. naive_solver.
Qed.

(** C38: the port range.  It is accepted exactly when the text has a first part without a
    dash and a second part up to the next dash that are numbers in order; what follows a
    second dash is ignored.  The bounds are then in [0, 2^63), and every pair of such bounds
    can be written as a range.  The check for negative values never fails, since a sign is a
    dash. *)
Theorem port_range_spec (s : string) :
  (forall lo hi, parse_port_range s = Ok (lo, hi) <->
     exists a t b, bytes_of s = a ++ "-"%byte :: t /\ "-"%byte ∉ a /\ head (Split "-" t) = Some b
       /\ Atoi a = Ok lo /\ Atoi b = Ok hi /\ lo <= hi)
  /\ (forall lo hi, parse_port_range s = Ok (lo, hi) -> 0 <= lo <= hi /\ hi < 2 ^ 63)
  /\ parse_port_range s <> Err ErrNegativePort
  /\ (forall lo hi, 0 <= lo <= hi /\ hi < 2 ^ 63 ->
       parse_port_range (string_of (format_int64 lo ++ "-"%byte :: format_int64 hi)) = Ok (lo, hi)).
Proof.
  split_and!.
  - intros lo hi. split.
    + intros H. destruct (parse_port_range_cases s) as [[_ E]|(a & t & b & Hs & Ha & Hb & _ & E)]; rewrite E in H.
      { by destruct (Atoi (bytes_of s)). }
      exists a, t, b. destruct (Atoi a) as [lo'| |]; [|done..]. destruct (Atoi b) as [hi'| |]; [|done..].
      cbn [map_err mbind outcome_bind] in H. destruct (Z.ltb_spec hi' lo'); [done|].
      injection H as -> ->. done.
    + intros (a & t & b & Hs & Ha & Hb & Hlo & Hhi & Hle).
      destruct (Split "-" t) as [|b' ws] eqn:Ht; [done|]. injection Hb as ->.
      rewrite (parse_port_range_dash s a t b ws), Hlo, Hhi by done. cbn [map_err mbind outcome_bind].
      pose proof (Atoi_nonneg _ _ Ha Hlo).
      rewrite (proj2 (Z.ltb_ge lo 0)), (proj2 (Z.ltb_ge hi 0)), (proj2 (Z.ltb_ge hi lo)) by lia. reflexivity.
  - apply parse_port_range_Ok.
  - destruct (parse_port_range_cases s) as [[_ ->]|(a & t & b & _ & _ & _ & _ & ->)].
    + by destruct (Atoi _).
    + destruct (Atoi a), (Atoi b); try done. cbn. unfold fail_if. by case_if.
  - intros lo hi [Hlo Hhi].
    rewrite (parse_port_range_dash _ (format_int64 lo) (format_int64 hi) (format_int64 hi) []).
    + rewrite !ParseInt_format by lia. cbn [map_err mbind outcome_bind].
      rewrite (proj2 (Z.ltb_ge lo 0)), (proj2 (Z.ltb_ge hi 0)), (proj2 (Z.ltb_ge hi lo)) by lia. reflexivity.
    + apply bytes_of_string_of.
    + unfold format_int64. rewrite (proj2 (Z.ltb_ge _ _)) by lia. apply digits_no_dash. lia.
    + apply Split_absent. unfold format_int64. rewrite (proj2 (Z.ltb_ge _ _)) by lia. apply digits_no_dash. lia.
Qed.

(** C16: the relay never sees the header in the configuration.  Take a command line that gives
    the header in one word or two, free of white space, and no other word with the name of
    the flag.  Had it given another header, in either form, the preparation would succeed as
    well, and the configuration written for the relay would be the same bytes. *)
Theorem request_hides_header (o : outside) (cfg : GatewayConfig) (ws1 ws2 : list (list byte))
    (dashes name tok1 tok2 : list byte) (form1 form2 : bool) (h1 h2 : string) (pr1 : prepared) :
  flag_dashes dashes -> is_name name ->
  Forall (fun c => is_blank c = false) tok1 -> Forall (fun c => is_blank c = false) tok2 ->
  Forall (fun w => has_name w = false) ws1 -> Forall (fun w => has_name w = false) ws2 ->
  prepare (with_args (ws1 ++ header_words dashes name tok1 form1 ++ ws2) o) (with_header h1 cfg) = Ok pr1 ->
  exists pr2,
    prepare (with_args (ws1 ++ header_words dashes name tok2 form2 ++ ws2) o) (with_header h2 cfg) = Ok pr2
    /\ Config.AuthHeader (pr_cfg pr2) = h2
    /\ Config.Marshal (pr_cfg pr2) = Config.Marshal (pr_cfg pr1)
    /\ Config.Arguments (Config.RuntimeEnnvironment (pr_cfg pr2))
       = string_of (joined (ws1 ++ redacted :: ws2)).
Proof.
  intros Hd Hn Ht1 Ht2 H1 H2. rewrite !prepare_with.
  destruct (prepare o cfg) as [pr| |]; [|done..]. cbn [mbind outcome_bind]. intros [= <-].
  eexists. split; [done|]. cbn [pr_cfg]. split_and!; [done| |].
  - unfold Config.Marshal. f_equal. f_equal. apply gateway_json_env. by rewrite !with_env_hides.
  - cbn [with_header Config.RuntimeEnnvironment].
    by rewrite (with_env_hides o _ cfg ws1 ws2 dashes name tok2 form2).
Qed.

(** C15: what a started gateway is.  When [run] succeeds, the gateway has: the mode flags, the
    server port and the local node's address of the configuration; its two sending sockets on
    ports of the configured range; the resolved extra endpoints (restricted to the relay's
    traffic only if there are any); a network listener exactly in listener mode, so that the
    receiving goroutine never runs without its listener; the configured limit, or 3 for 0;
    and the registered address of the relay. *)
Theorem run_wiring (o : outside) (cfg : GatewayConfig) (st : started) :
  run o cfg = Some (Ok st) ->
  let g := st_gateway st in
  let lo := (pr_range (st_prepared st)).1 in
  let hi := (pr_range (st_prepared st)).2 in
  parse_port_range (Config.DynamicPortRangeString cfg) = Ok (lo, hi)
  /\ noValidator g = Config.NoValidator cfg /\ firedancerSniffer g = Config.FiredancerMode cfg
  /\ (gw_nl g <> None <-> Config.NoValidator cfg = false /\ Config.FiredancerMode cfg = false)
  /\ (GoListenerRecv ∈ st_goroutines st <-> gw_nl g <> None)
  /\ (GoFiredancerRecv ∈ st_goroutines st -> firedancerSniffer g = true)
  /\ Port (serverFd g) = Config.UdpServerPort cfg
  /\ solanaTVUAddr g = Some (pr_tvu (st_prepared st))
  /\ lo <= Port (send2OFRFd g) <= hi /\ lo <= Port (send2NodeFd g) <= hi
  /\ endpoints (resolve o) (broadcast_addrs cfg) (extraBroadcastAddrs g)
  /\ extraBroadcastFromOFROnly g = negb (zlen (broadcast_addrs cfg) =? 0) && Config.ExtraBroadcastFromOFROnly cfg
  /\ noTrafficCounterLimit g = (if 0 <? Config.NoTrafficCounterLimit cfg then Config.NoTrafficCounterLimit cfg else 3)
  /\ IsZero (ofrUDPAddr g) = false.
Proof.
  intros (Hp & c1 & c2 & extra & addr & Hc1 & Hc2 & Hend & Hz & Hg & Hgs)%run_parts g lo hi.
  destruct (prepare_parts o cfg _ Hp) as (Hnl & Hport & _). apply prepare_range in Hp as Hrange.
  subst g lo hi. rewrite Hg, Hgs.
  cbn [noValidator firedancerSniffer gw_nl serverFd solanaTVUAddr send2OFRFd send2NodeFd
    extraBroadcastAddrs extraBroadcastFromOFROnly noTrafficCounterLimit ofrUDPAddr].
  assert ((snd <$> pr_listener (st_prepared st)) <> None <-> Config.NoValidator cfg = false /\ Config.FiredancerMode cfg = false)
    as Hnl' by (rewrite <- Hnl; by destruct (pr_listener _)).
  split_and!; try done; try apply Hc1; try apply Hc2.
  - by destruct (pr_range (st_prepared st)).
  - by rewrite listener_goroutine, Hnl'.
  - rewrite firedancer_goroutine. naive_solver.
Qed.

(** The flags that have no default of their own: the two required ones and the interface. *)
Definition no_default (f : flag) : bool :=
  fl_required f || String.eqb (fl_name f) sniffInterfaceFlag.

(** The library gives a flag that is not on the command line its declared value. *)
Definition declared_default (c : cli_context) (f : flag) : Prop :=
  match fl_value f with
  | FString s => c_String c (fl_name f) = s
  | FInt z => c_Int c (fl_name f) = z
  | FBool b => c_Bool c (fl_name f) = b
  | FStringSlice => c_StringSlice c (fl_name f) = None
  | FUint z => c_Uint c (fl_name f) = z
  end.

Definition flag_named (name : string) : option flag :=
  List.find (fun f => String.eqb (fl_name f) name) app_flags.

Lemma flag_named_In name f : flag_named name = Some f -> In f app_flags.
Proof. intros H. by apply List.find_some in H as [? _]. Qed.

(** A goal [c_String c name = default], from the defaults [Hd]. *)
Ltac flag_default Hd :=
  match goal with
  | |- _ _ ?name = _ =>
      let f := eval vm_compute in (flag_named name) in
      match f with Some ?f => exact (Hd f (flag_named_In name f eq_refl) eq_refl) end
  end.

(** The defaults are usable.  When only the required flags and the interface are given,
    the configuration has the values below, its port range is accepted as 18889-19888, the
    ports captured for outgoing shreds are 8012 to 8021, and neither these nor the server
    port nor the node's port lie in the dynamic range. *)
Theorem default_configuration (c : cli_context) :
  Forall (declared_default c) (List.filter (fun f => negb (no_default f)) app_flags) ->
  let cfg := config_of c in
  cfg = Config.mkGateway (mkEnv "" 0 "") "info" "debug" 100 10 10 0 8001
          (c_String c sniffInterfaceFlag) (c_String c ofrHostFlag) 5005 18888 (c_String c authHeaderFlag)
          None false false true "18889-19888" false "127.0.0.1" false false false 60 false
  /\ parse_port_range (Config.DynamicPortRangeString cfg) = Ok (18889, 19888)
  /\ out_ports cfg = seqZ 8012 10
  /\ Forall (fun p => p < 18889 \/ 19888 < p)
       (Config.UdpServerPort cfg :: Config.SolanaTVUPort cfg :: out_ports cfg).
Proof.
  intros Hall cfg.
  assert (cfg = Config.mkGateway (mkEnv "" 0 "") "info" "debug" 100 10 10 0 8001
    (c_String c sniffInterfaceFlag) (c_String c ofrHostFlag) 5005 18888 (c_String c authHeaderFlag)
    None false false true "18889-19888" false "127.0.0.1" false false false 60 false) as ->.
  { unfold cfg, config_of.
    assert (forall f, In f app_flags -> no_default f = false -> declared_default c f) as Hd.
    { intros f Hin Hno. rewrite List.Forall_forall in Hall. apply Hall, List.filter_In. by rewrite Hno. }
    assert (c_StringSlice c broadcastAddressesFlag = None) as -> by flag_default Hd.
    f_equal; first [reflexivity|flag_default Hd]. }
  split_and!; [done|reflexivity|reflexivity|]. cbn [Config.UdpServerPort Config.SolanaTVUPort].
  replace (out_ports _) with (seqZ 8012 10) by reflexivity. cbn. repeat constructor; lia.
Qed.

(** ** A concrete command line *)

(** A context as the library builds it: the given values, and the defaults for the rest. *)
Definition demo_cli (given : list (string * flag_value)) : cli_context :=
  let value name :=
    match List.find (fun kv => String.eqb kv.1 name) given with
    | Some (_, v) => Some v
    | None => fl_value <$> flag_named name
    end in
  {| c_String name := match value name with Some (FString s) => s | _ => "" end;
     c_Int name := match value name with Some (FInt z) => z | _ => 0 end;
     c_Bool name := match value name with Some (FBool b) => b | _ => false end;
     c_StringSlice name := None;
     c_Uint name := match value name with Some (FUint z) => z | _ => 0 end |}%string.

Definition demo_given : list (string * flag_value) :=
  [("ofr-host", FString "relay"); ("auth-header", FString "c2VjcmV0"); ("network-interface", FString "eth0")]%string.

Definition demo_defaults : list flag :=
  Eval vm_compute in List.filter (fun f => negb (no_default f)) app_flags.

Lemma default_configuration_witness :
  parse_port_range (Config.DynamicPortRangeString (config_of (demo_cli demo_given))) = Ok (18889, 19888).
Proof.
  refine (proj1 (proj2 (default_configuration (demo_cli demo_given) _))).
  change (List.filter _ app_flags) with demo_defaults.
  repeat (apply List.Forall_cons; [reflexivity|]). apply List.Forall_nil.
Defined.

Definition demo_words1 : list (list byte) := map bytes_of ["--ofr-host"; "relay"; "--network-interface=eth0"]%string.

Definition demo_outside : outside :=
  mkOutside (fun _ => "") []
    (fun s => if bool_decide (s = "info") then inr 4 else if bool_decide (s = "debug") then inr 5 else inl "not a level")
    4 (fun _ _ _ => None) demo_resolve (fun _ _ => None) "uuid" demo_ip_String demo_iface demo_scan demo_pcap
    (fun _ => None) (inr 3) None None
    (mkFdSyscalls (inr 4) None (fun _ => true)) (mkFdSyscalls (inr 5) None (fun _ => true)) 0
    (fun i _ => match i with
                | O => Err (GrpcOther "unavailable")
                | S _ => Ok {| UdpAddress := "relay:18888" |}
                end).

Definition demo_run_config : GatewayConfig := config_of (demo_cli demo_given).

(** The command line [--ofr-host relay --network-interface=eth0 --auth-header <tok>]. *)
Definition demo_args (tok : string) : outside :=
  with_args (demo_words1 ++ header_words (bytes_of "--") (bytes_of "auth-header") (bytes_of tok) false ++ []) demo_outside.

Definition demo_started : bool :=
  match run (demo_args "c2VjcmV0") demo_run_config with Some (Ok _) => true | _ => false end.

(** The second attempt to register succeeds; the sending sockets get the first two ports. *)
Example demo_run :
  match run (demo_args "c2VjcmV0") demo_run_config with
  | Some (Ok st) =>
      st_attempts st = 2%nat /\ Port (send2OFRFd (st_gateway st)) = 18889
      /\ Port (send2NodeFd (st_gateway st)) = 18890
      /\ Config.Arguments (Config.RuntimeEnnvironment (pr_cfg (st_prepared st)))
         = "--ofr-host relay --network-interface=eth0 -auth-header=REDACTED"%string
  | _ => False
  end.
Proof. vm_compute. done. Qed.

Lemma demo_resolves : resolver_returns demo_resolve.
Proof. by intros s. Qed.

Lemma run_returns_witness : exists r, run (demo_args "c2VjcmV0") demo_run_config = Some r.
Proof.
  destruct (run_returns (demo_args "c2VjcmV0") demo_run_config demo_resolves) as (r & Hr & _).
  - intros [|i] req; reflexivity.
  - exists r. exact Hr.
Defined.

Lemma demo_started_eq : exists st, run (demo_args "c2VjcmV0") demo_run_config = Some (Ok st).
Proof.
  assert (demo_started = true) as H by (vm_compute; reflexivity). unfold demo_started in H.
  destruct (run (demo_args "c2VjcmV0") demo_run_config) as [[st|e|p]|]; [by exists st|done..].
Qed.

Lemma run_wiring_witness :
  exists st, run (demo_args "c2VjcmV0") demo_run_config = Some (Ok st) /\ Port (serverFd (st_gateway st)) = 18888.
Proof.
  destruct demo_started_eq as [st Hst].
  destruct (run_wiring (demo_args "c2VjcmV0") demo_run_config st Hst) as (_ & _ & _ & _ & _ & _ & Hp & _).
  exists st. split; [exact Hst|exact Hp].
Defined.

Lemma demo_prepared_eq :
  exists pr, prepare (demo_args "c2VjcmV0") (with_header "c2VjcmV0" demo_run_config) = Ok pr.
Proof.
  assert (is_Ok (prepare (demo_args "c2VjcmV0") (with_header "c2VjcmV0" demo_run_config)) = true) as H
    by (vm_compute; reflexivity).
  destruct (prepare (demo_args "c2VjcmV0") (with_header "c2VjcmV0" demo_run_config)) as [pr|e|p]; [by exists pr|done..].
Qed.

Lemma request_hides_header_witness :
  exists pr1 pr2, prepare (demo_args "c2VjcmV0") (with_header "c2VjcmV0" demo_run_config) = Ok pr1
    /\ prepare (demo_args "b3RoZXI") (with_header "b3RoZXI" demo_run_config) = Ok pr2
    /\ Config.Marshal (pr_cfg pr2) = Config.Marshal (pr_cfg pr1).
Proof.
  destruct demo_prepared_eq as [pr1 H1].
  destruct (request_hides_header demo_outside demo_run_config demo_words1 [] (bytes_of "--")
    (bytes_of "auth-header") (bytes_of "c2VjcmV0") (bytes_of "b3RoZXI") false false "c2VjcmV0" "b3RoZXI" pr1)
    as (pr2 & H2 & _ & Hm & _); try exact H1.
  - by right.
  - by split.
  - by repeat constructor.
  - by repeat constructor.
  - by repeat constructor.
  - by constructor.
  - exists pr1, pr2. split; [exact H1|]. split; [exact H2|exact Hm].
Defined.
