(* ===== verification/System.v ===== *)
(** * The gateway, its receivers and its senders together

    The receive loop of the gateway, the network listener and the Firedancer receiver share
    one deduplication cache, whose cleanup runs on its own; they fill two channels, which the
    two broadcast loops empty; the re-registration loop changes the relay's address.  A
    [system] is their states, and what has been written.  Its events are iterations of the
    loops - of the re-registration loop two halves - in any order, also in orders that the
    timers rule out, so that what is proved of all of them holds of those that occur.  What an
    event forwards are the new elements of the two channels.  The alive messages are sent from
    the socket of the relay's stream, but are kept apart from it. *)

From Stdlib Require Import QArith.
From S2P Require Import Prelude Shred AlterKey Udp Stats Registrar Sniffer NetListen Firedancer Gateway.
Open Scope Z_scope.

(** The shared objects are those of [sy_recv].  The last three fields are what the two
    broadcast loops and the alive loop have written so far. *)
Record system := mkSystem {
  sy_gw : Gateway;
  sy_recv : recv_state AlterKey;
  sy_node : channel shredData;     (* shreds for the node; [rv_out sy_recv] are for the relay *)
  sy_to_node : list send;
  sy_to_relay : list send;
  sy_alive : list send
}.

Definition sy_shared (s : system) : shared AlterKey := rv_shared (sy_recv s).
Definition sy_relay (s : system) : channel NLShred := rv_out (sy_recv s).

Definition with_shared (sh : shared AlterKey) (out : channel NLShred) (st : recv_state AlterKey)
    : recv_state AlterKey :=
  mkRecv (rv_nl st) sh out (rv_running st) (rv_closed st) (rv_next st).

Definition set_gw (g : Gateway) (s : system) : system :=
  mkSystem g (sy_recv s) (sy_node s) (sy_to_node s) (sy_to_relay s) (sy_alive s).
Definition set_recv (st : recv_state AlterKey) (s : system) : system :=
  mkSystem (sy_gw s) st (sy_node s) (sy_to_node s) (sy_to_relay s) (sy_alive s).

(** [SyUnregister] and [SyRegister] are the two halves of a tick of the re-registration loop:
    the address is cleared, and the answer arrives; [SyReRegister] is the start of that loop.
    [SyAlive] is an iteration of the alive loop, whose first read of the address gave [first]. *)
Inductive sys_event :=
  | SyOfr (now : Z) (r : recv_result)
  | SyListener (e : recv_event)
  | SyFiredancer (fs : FiredancerSniffer) (now : Z) (r : monitor_result)
  | SyCleanup
  | SyBroadcastNode
  | SyBroadcastOFR
  | SyUnregister
  | SyRegister (now : Z) (rsp : outcome register_error RegisterResponse)
  | SyReRegister (now : Z)
  | SyAlive (first : Addr).

Section system.
Context (ip_String : list byte -> string) (addr_String : NetipAddr -> string)
  (resolve : string -> outcome udp_error UDPAddr).

Definition no_text {E A} (m : outcome E A) : outcome string A := map_err (fun _ => ""%string) m.

Definition sys_step (e : sys_event) (s : system) : outcome string system :=
  match e with
  | SyOfr now r =>
      match processShred now r (sy_gw s) (sy_shared s) (sy_node s) with
      | Ok (_, g, sh, ch) =>
          Ok (mkSystem g (with_shared sh (sy_relay s) (sy_recv s)) ch (sy_to_node s)
                (sy_to_relay s) (sy_alive s))
      | Err _ => Err ""%string
      | Panic p => Panic p
      end
  | SyListener e => st ← recv_step ip_String e (sy_recv s); Ok (set_recv st s)
  | SyFiredancer fs now r =>
      match fd_step fs now r (sy_shared s) (sy_relay s) with
      | (_, sh, out) => Ok (set_recv (with_shared sh out (sy_recv s)) s)
      end
  | SyCleanup =>
      let sh := mkShared (cache_cleanup (cache (sy_shared s))) (stats (sy_shared s)) in
      Ok (set_recv (with_shared sh (sy_relay s) (sy_recv s)) s)
  | SyBroadcastNode =>
      match chan_recv (sy_node s) with
      | None => Ok s
      | Some (sd, ch) =>
          r ← no_text (broadcastShredsToNode addr_String (fluentD (stats (sy_shared s))) (sy_gw s) sd);
          Ok (mkSystem (sy_gw s) (sy_recv s) ch (sy_to_node s ++ r.1) (sy_to_relay s) (sy_alive s))
      end
  | SyBroadcastOFR =>
      match chan_recv (sy_relay s) with
      | None => Ok s
      | Some (x, ch) =>
          r ← no_text (broadcastShredsToOFR addr_String (fluentD (stats (sy_shared s))) (sy_gw s) x);
          Ok (mkSystem (sy_gw s) (with_shared (sy_shared s) ch (sy_recv s)) (sy_node s) (sy_to_node s)
                (sy_to_relay s ++ r.1) (sy_alive s))
      end
  | SyUnregister => Ok (set_gw (Register_begin (sy_gw s)) s)
  | SyRegister now rsp => g ← no_text (reRegister_finish resolve now rsp (sy_gw s)); Ok (set_gw g s)
  | SyReRegister now => Ok (set_gw (reRegister_init now (sy_gw s)) s)
  | SyAlive first =>
      Ok (mkSystem (sy_gw s) (sy_recv s) (sy_node s) (sy_to_node s) (sy_to_relay s)
            (sy_alive s ++ sendAliveMessages_reads first (sy_gw s)))
  end.

Fixpoint sys_run (es : list sys_event) (s : system) : outcome string system :=
  match es with
  | [] => Ok s
  | e :: es => s ← sys_step e s; sys_run es s
  end.

(** The elements added to a channel. *)
Definition added {A} (c c' : channel A) : list A := drop (length (chan_buf c)) (chan_buf c').

Definition key_of (shred : PartialShred) : Z := ShredKey (Slot shred) (Index shred) (PVariant shred).

(** The keys a step forwards, in either direction. *)
Definition forwarded (s s' : system) : list Z :=
  map (fun sd => key_of (sd_shred sd)) (added (sy_node s) (sy_node s'))
  ++ map (fun x => key_of (PShred x)) (added (sy_relay s) (sy_relay s')).

Definition is_sys_cleanup (e : sys_event) : bool := match e with SyCleanup => true | _ => false end.

Definition sys_cleanups (es : list sys_event) : nat := length (List.filter is_sys_cleanup es).

(** * Properties *)

Lemma added_same {A} (c : channel A) : added c c = [].
Proof. apply drop_all. Qed.

Lemma chan_recv_Some {A} (c c' : channel A) x :
  chan_recv c = Some (x, c') -> chan_buf c = x :: chan_buf c' /\ chan_cap c' = chan_cap c.
Proof. unfold chan_recv. destruct (chan_buf c); [done|]. by intros [= <- <-]. Qed.

Lemma chan_recv_None {A} (c : channel A) : chan_recv c = None -> chan_buf c = [].
Proof. unfold chan_recv. by destruct (chan_buf c). Qed.

Lemma added_recv {A} (c c' : channel A) x : chan_recv c = Some (x, c') -> added c c' = [].
Proof. intros [Hb _]%chan_recv_Some. unfold added. rewrite Hb. apply drop_ge. cbn. lia. Qed.

Lemma added_send {A} (c : channel A) x : added c (try_send c x).2 = if (try_send c x).1 then [x] else [].
Proof.
  unfold added. rewrite try_send_buf. destruct (try_send c x).1; [by rewrite drop_app_length|apply drop_all].
Qed.

(** What a step does to the cache, and that it forwards at most the key it inserted. *)
Definition cache_effect (e : sys_event) (c c' : AlterKey) (keys : list Z) : Prop :=
  exists ops, c' = exec_ops ops c
    /\ cleanups ops = (if is_sys_cleanup e then 1 else 0)%nat
    /\ forall k, k ∈ keys -> ops = [OSet k] /\ (AlterKey_Set k c).1 = true.

Lemma cache_effect_none e c : is_sys_cleanup e = false -> cache_effect e c c [].
Proof. intros He. exists []. rewrite He. split_and!; [done|done|]. by intros k ?%not_elem_of_nil. Qed.

(** The shared part of the three receive paths. *)
Lemma observe_effect e src who shred (sh : shared AlterKey) keys :
  is_sys_cleanup e = false ->
  (forall k, k ∈ keys -> k = key_of shred /\ (observe src who shred sh).1 = true) ->
  cache_effect e (cache sh) (cache (observe src who shred sh).2) keys.
Proof.
  intros He Hk. exists [OSet (key_of shred)]. rewrite He.
  assert ((observe src who shred sh).1 = (AlterKey_Set (key_of shred) (cache sh)).1
    /\ cache (observe src who shred sh).2 = (AlterKey_Set (key_of shred) (cache sh)).2) as [H1 H2].
  { unfold observe, key_of. cbn. by destruct (AlterKey_Set _ _) as [[] c]. }
  split_and!.
  - rewrite H2, exec_ops_cons. cbn. by destruct (AlterKey_Set _ _).
  - done.
  - intros k Hin. destruct (Hk k Hin) as [-> Ho]. by rewrite <- H1.
Qed.

Lemma reopen_all_panic {C} pcap (keys : list string) p :
  fold_left (fun o key => reopen ip_String pcap key o) keys (Panic p : outcome string (recv_state C)) = Panic p.
Proof. induction keys as [|key keys IH]; [done|]. cbn [fold_left]. exact IH. Qed.

(** The steps of the listener that do not handle a packet. *)
Lemma reopen_all_keeps {C} pcap (keys : list string) (st st' : recv_state C) :
  fold_left (fun o key => reopen ip_String pcap key o) keys (Ok st) = Ok st' ->
  rv_shared st' = rv_shared st /\ rv_out st' = rv_out st.
Proof.
  revert st. induction keys as [|key keys IH]; intros st; cbn [fold_left]; [by intros [= <-]|].
  assert (reopen ip_String pcap key (Ok st) = Ok st
    \/ (exists st1, reopen ip_String pcap key (Ok st) = Ok st1 /\ rv_shared st1 = rv_shared st /\ rv_out st1 = rv_out st)
    \/ exists p, reopen ip_String pcap key (Ok st) = Panic p) as Hc.
  { unfold reopen. rewrite bind_Ok. destruct (portHandleMap _ !! key) as [[pd [h|]]|]; [by left| |by left].
    destruct (registerNewSniffer _ _ _ _) as [[r|e|p] nl]; [right; left; by eexists..|right; right; by eexists]. }
  destruct Hc as [->|[(st1 & -> & <- & <-)|[p ->]]]; [apply IH|apply IH|].
  by rewrite reopen_all_panic.
Qed.

Lemma recv_step_effect e (st st' : recv_state AlterKey) :
  recv_step ip_String e st = Ok st' ->
  (rv_shared st' = rv_shared st /\ rv_out st' = rv_out st)
  \/ exists now src shred sp, e = EvPacket now sp /\ ParseShredPartial (Payload sp) (Length sp) = Ok shred
     /\ rv_shared st' = (observe src "Turbine" shred (rv_shared st)).2
     /\ rv_out st' = if (observe src "Turbine" shred (rv_shared st)).1
                     then (try_send (rv_out st) (mkNLShred sp shred)).2 else rv_out st.
Proof.
  destruct e as [|now sp|keys pcap|i reopened|scan pcap]; cbn [recv_step].
  - unfold sniffer_send. destruct (rv_running st); [|case_if]; intros [= <-]; by left.
  - unfold recv_packet. destruct (listenPorts _ !! _) as [pd|]; [|intros [= <-]; by left].
    destruct (pds _ !! pd) as [p|]; [|done].
    destruct (ParseShredPartial _ _) as [shred|e|e] eqn:Hps; [|destruct (pd_outgoing p); [destruct (pd_cancel p)|];
      by (intros [= <-]; left)|done].
    intros Hr. right. exists now, (localAddr (rv_nl st)), shred, sp. do 2 (split; [done|]).
    destruct (observe _ _ _ _) as [[] sh]; cbn [negb] in Hr; injection Hr as <-; done.
  - unfold recv_noOutgoing. intros Hf%reopen_all_keeps. by left.
  - intros [= <-]. left. unfold sniffer_exit. by destruct (rv_running st !! i).
  - unfold monitor_tick. destruct (createDynamicSniffers _ _ _ _) as [[l|e|e] nl]; [|done..].
    intros [= <-]. by left.
Qed.

Lemma elem_of_added {A} (f : A -> Z) c x (b : bool) k :
  k ∈ map f (added c (if b then (try_send c x).2 else c)) -> k = f x /\ b = true.
Proof.
  destruct b; [|rewrite added_same; by intros ?%not_elem_of_nil].
  rewrite added_send. case_if; cbn; [|by intros ?%not_elem_of_nil]. by intros ->%list_elem_of_singleton.
Qed.

Lemma sys_step_effect e s s' :
  sys_step e s = Ok s' -> cache_effect e (cache (sy_shared s)) (cache (sy_shared s')) (forwarded s s').
Proof.
  unfold forwarded, sy_shared, sy_relay. destruct e as [now r|e|fs now r| | | | |now rsp|now|first]; cbn [sys_step].
  - destruct (processShred _ _ _ _ _) as [[[[pkt g] sh] ch]| |] eqn:Hp; [|done..].
    intros [= <-]. cbn. rewrite added_same, app_nil_r.
    destruct (processShred_cases now r (sy_gw s) (sy_shared s) (sy_node s))
      as [[_ [p E]]|(_ & data & from & addr & _ & _ & [[_ E]|(shred & _ & E)])]; rewrite E in Hp; injection Hp as <- <- <- <-.
    + rewrite added_same. by apply cache_effect_none.
    + rewrite added_same. by apply cache_effect_none.
    + apply observe_effect; [done|]. intros k Hk. by apply elem_of_added in Hk.
  - destruct (recv_step ip_String e (sy_recv s)) as [st| |] eqn:Hr; [|done..]. intros [= <-]. cbn.
    rewrite added_same. cbn [map app].
    apply recv_step_effect in Hr as [[-> ->]|(now & src & shred & sp & -> & _ & -> & ->)].
    + rewrite added_same. by apply cache_effect_none.
    + apply observe_effect; [done|]. intros k Hk. by apply elem_of_added in Hk.
  - destruct (fd_step _ _ _ _ _) as [[b sh] out] eqn:Hf. intros [= <-]. cbn. rewrite added_same. cbn [map app].
    unfold fd_step in Hf.
    destruct r as [info| | |]; try (injection Hf as _ <- <-; rewrite added_same; by apply cache_effect_none).
    destruct (ParseShredVariant _) as [v| |];
      try (injection Hf as _ <- <-; rewrite added_same; by apply cache_effect_none).
    pose proof (observe_effect (SyFiredancer fs now (GotShred info)) (fd_localAddr fs) FireDancerNodeName
      (fd_shred info v) (sy_shared s) (map (fun x => key_of (PShred x)) (added (rv_out (sy_recv s)) out)) eq_refl) as He.
    destruct (observe _ _ _ _) as [[] sh1]; cbn [negb fst snd] in *; injection Hf as _ <- <-; apply He;
      intros k Hk; [|by rewrite added_same in Hk; apply not_elem_of_nil in Hk].
    by apply (elem_of_added _ _ _ true) in Hk.
  - intros [= <-]. cbn. rewrite !added_same. exists [OCleanup]. split_and!; [done|done|].
    by intros k ?%not_elem_of_nil.
  - destruct (chan_recv (sy_node s)) as [[sd ch]|] eqn:Hr.
    + intros (r & _ & [= <-])%bind_Ok_inv. cbn. rewrite (added_recv _ _ _ Hr), added_same. by apply cache_effect_none.
    + intros [= <-]. rewrite !added_same. by apply cache_effect_none.
  - destruct (chan_recv (sy_relay s)) as [[x ch]|] eqn:Hr; unfold sy_relay in Hr.
    + intros (r & _ & [= <-])%bind_Ok_inv. cbn. rewrite (added_recv _ _ _ Hr), added_same. by apply cache_effect_none.
    + intros [= <-]. rewrite !added_same. by apply cache_effect_none.
  - intros [= <-]. cbn. rewrite !added_same. by apply cache_effect_none.
  - intros (g & _ & [= <-])%bind_Ok_inv. cbn. rewrite !added_same. by apply cache_effect_none.
  - intros [= <-]. cbn. rewrite !added_same. by apply cache_effect_none.
  - intros [= <-]. cbn. rewrite !added_same. by apply cache_effect_none.
Qed.

Lemma sys_run_effect es s s' :
  sys_run es s = Ok s' ->
  exists ops, cache (sy_shared s') = exec_ops ops (cache (sy_shared s)) /\ cleanups ops = sys_cleanups es.
Proof.
  revert s. induction es as [|e es IH]; intros s; cbn [sys_run]; [intros [= <-]; by exists []|].
  intros (s1 & Hs & Hr)%bind_Ok_inv. apply sys_step_effect in Hs as (ops1 & Hc1 & Hn1 & _).
  destruct (IH _ Hr) as (ops2 & Hc2 & Hn2). exists (ops1 ++ ops2).
  rewrite exec_ops_app, <- Hc1, cleanups_app, Hn1, Hn2. split; [done|].
  unfold sys_cleanups. cbn. by destruct (is_sys_cleanup e).
Qed.

Lemma sys_run_app es1 es2 s :
  sys_run (es1 ++ es2) s = (s1 ← sys_run es1 s; sys_run es2 s1).
Proof.
  revert s. induction es1 as [|e es1 IH]; intros s; [done|]. cbn [app sys_run].
  destruct (sys_step e s) as [s1| |]; [apply IH|done..].
Qed.
(** ** The two streams *)

(** What an execution produces, step by step. *)
Fixpoint along {A} (f : sys_event -> system -> list A) (es : list sys_event) (s : system) : list A :=
  match es with
  | [] => []
  | e :: es => f e s ++ match sys_step e s with Ok s => along f es s | _ => [] end
  end.

(** The shred that an iteration of the receive loop hands to the channel, if any: what it
    puts into an empty one. *)
Definition node_offers (e : sys_event) (s : system) : list shredData :=
  match e with
  | SyOfr now r =>
      match processShred now r (sy_gw s) (sy_shared s) (make_chan 1) with
      | Ok (_, _, _, ch) => chan_buf ch
      | _ => []
      end
  | _ => []
  end.

Definition node_room (s : system) : bool := zlen (chan_buf (sy_node s)) <? chan_cap (sy_node s).
Definition node_queued (e : sys_event) (s : system) : list shredData := if node_room s then node_offers e s else [].

(** The shreds that the broadcast loops take, the second with the relay's address. *)
Definition node_taken (e : sys_event) (s : system) : list shredData :=
  match e with
  | SyBroadcastNode => match chan_recv (sy_node s) with Some (sd, _) => [sd] | None => [] end
  | _ => []
  end.

Definition relay_queued (e : sys_event) (s : system) : list NLShred :=
  match sys_step e s with Ok s' => added (sy_relay s) (sy_relay s') | _ => [] end.

Definition relay_taken (e : sys_event) (s : system) : list (Addr * NLShred) :=
  match e with
  | SyBroadcastOFR => match chan_recv (sy_relay s) with Some (x, _) => [(ofrUDPAddr (sy_gw s), x)] | None => [] end
  | _ => []
  end.

(** The datagrams for a shred. *)
Definition node_sends (g : Gateway) (sd : shredData) : list send :=
  map (mkSend (Udp.fd (send2NodeFd g)) (take (Z.to_nat (sp_length (sd_packet sd))) (sp_payload (sd_packet sd))))
    ((if noValidator g then [] else [solanaTVUAddr g]) ++ map Some (extraBroadcastAddrs g)).

Definition relay_sends (g : Gateway) (ax : Addr * NLShred) : list send :=
  if IsZero ax.1 then []
  else map (mkSend (Udp.fd (send2OFRFd g)) (take (Z.to_nat (Length (Packet ax.2))) (Payload (Packet ax.2))))
         (SockAddr ax.1 :: (if extraBroadcastFromOFROnly g then [] else map Some (extraBroadcastAddrs g))).

(** What the datagrams depend on; nothing changes it after [New]. *)
Definition outputs (g : Gateway) :=
  (send2NodeFd g, send2OFRFd g, noValidator g, solanaTVUAddr g, extraBroadcastAddrs g, extraBroadcastFromOFROnly g).

Lemma outputs_sends g g' :
  outputs g = outputs g' ->
  (forall sd, node_sends g sd = node_sends g' sd) /\ (forall ax, relay_sends g ax = relay_sends g' ax).
Proof. unfold outputs, node_sends, relay_sends. intros [= -> -> -> -> -> ->]. done. Qed.

Definition packet_fits (sd : shredData) : Prop :=
  0 <= sp_length (sd_packet sd) <= zlen (sp_payload (sd_packet sd)).

Lemma go_slice_0_inv {E A} (l l' : list A) n : go_slice (E:=E) l 0 n = Ok l' -> l' = take (Z.to_nat n) l.
Proof. unfold go_slice. rewrite Z.sub_0_r. case_if; [|done]. by intros [= <-]. Qed.

Lemma write_all_inv {E} fd p n to l :
  write_all (E:=E) fd p n to = Ok l -> l = map (mkSend (Udp.fd fd) (take (Z.to_nat n) p)) to.
Proof.
  unfold write_all. destruct to as [|a to]; [by intros [= <-]|].
  intros (d & ->%go_slice_0_inv & [= <-])%bind_Ok_inv. done.
Qed.

Lemma broadcast_node_inv fl g sd r :
  broadcastShredsToNode addr_String fl g sd = Ok r -> r.1 = node_sends g sd.
Proof.
  unfold broadcastShredsToNode, node_sends.
  intros (l1 & ->%write_all_inv & (l2 & ->%write_all_inv & [= <-])%bind_Ok_inv)%bind_Ok_inv.
  cbn [fst]. rewrite map_app. by destruct (noValidator g).
Qed.

Lemma broadcast_node_fits fl g sd :
  packet_fits sd -> exists smp, broadcastShredsToNode addr_String fl g sd = Ok (node_sends g sd, smp).
Proof.
  intros Hf. unfold packet_fits in Hf.
  assert (is_Ok (broadcastShredsToNode addr_String fl g sd) = true) as Hok.
  { assert (forall to, exists l, write_all (E:=udp_error) (send2NodeFd g) (sp_payload (sd_packet sd))
      (sp_length (sd_packet sd)) to = Ok l) as Hw.
    { intros to. eexists. apply write_all_eq. unfold go_slice.
      rewrite (proj2 (Z.leb_le _ _)), (proj2 (Z.leb_le _ _)), (proj2 (Z.leb_le _ _)) by lia. reflexivity. }
    unfold broadcastShredsToNode. destruct (Hw (if negb (noValidator g) then [solanaTVUAddr g] else [])) as [l1 ->].
    rewrite bind_Ok. destruct (Hw (map Some (extraBroadcastAddrs g))) as [l2 ->]. done. }
  destruct (broadcastShredsToNode _ _ _ _) as [[l smp]|e|e] eqn:Hb; [|done..].
  apply broadcast_node_inv in Hb. cbn in Hb. subst l. by exists smp.
Qed.

Lemma broadcast_relay_inv fl g x r :
  broadcastShredsToOFR addr_String fl g x = Ok r -> r.1 = relay_sends g (ofrUDPAddr g, x).
Proof.
  unfold broadcastShredsToOFR, relay_sends. cbn [fst snd]. destruct (IsZero _); [by intros [= <-]|].
  intros (l1 & ->%write_all_inv & (l2 & ->%write_all_inv & [= <-])%bind_Ok_inv)%bind_Ok_inv.
  cbn [fst map app]. by destruct (extraBroadcastFromOFROnly g).
Qed.

Lemma no_text_Ok {E A} (m : outcome E A) a : no_text m = Ok a -> m = Ok a.
Proof. destruct m; cbn; by intros [= ->]. Qed.

Lemma reRegister_finish_outputs now rsp g g' :
  reRegister_finish resolve now rsp g = Ok g' -> outputs g' = outputs g.
Proof.
  unfold reRegister_finish.
  destruct (Register_end resolve rsp g) as [r g1] eqn:Hr.
  assert (outputs g1 = outputs g) as <-.
  { apply Register_end_address in Hr as [(sa & addr & _ & _ & ->)|[_ ->]]; done. }
  destruct r as [a|e|p]; [| |done].
  - intros (b & _ & Hb)%bind_Ok_inv. destruct b; [done|]. by injection Hb as <-.
  - case_if; [done|]. by intros [= <-].
Qed.

(** The channel after an iteration of the receive loop. *)
Lemma processShred_queue now r (s : system) pkt g sh ch :
  processShred now r (sy_gw s) (sy_shared s) (sy_node s) = Ok (pkt, g, sh, ch) ->
  outputs g = outputs (sy_gw s) /\ chan_cap ch = chan_cap (sy_node s)
  /\ chan_buf ch = chan_buf (sy_node s) ++ node_queued (SyOfr now r) s
  /\ Forall packet_fits (node_offers (SyOfr now r) s).
Proof.
  intros Hp. unfold node_queued, node_offers, node_room.
  destruct (processShred_cases now r (sy_gw s) (sy_shared s) (sy_node s))
    as [[Ha [p E]]|(Ha & data & from & addr & -> & Hn & Hc)].
  - rewrite E in Hp. injection Hp as <- <- <- <-.
    destruct (processShred_cases now r (sy_gw s) (sy_shared s) (make_chan 1)) as [[_ [p' ->]]|[Ha' _]];
      [|by rewrite Ha in Ha'].
    cbn. split_and!; [done|done| |constructor]. case_if; by rewrite app_nil_r.
  - destruct (processShred_cases now (RecvMsg data from) (sy_gw s) (sy_shared s) (make_chan 1))
      as [[Ha' _]|(_ & data' & from' & addr' & [= <- <-] & Hn' & Hc')]; [by rewrite Ha in Ha'|].
    rewrite Hn in Hn'. injection Hn' as <-. cbn zeta in Hc, Hc'.
    destruct Hc as [[Hno E]|(shred & Hs & E)]; rewrite E in Hp; injection Hp as <- <- <- <-.
    + destruct Hc' as [[_ ->]|(shred & Hs & _)]; [|by rewrite Hs in Hno].
      cbn. split_and!; [done|done| |constructor]. case_if; by rewrite app_nil_r.
    + destruct Hc' as [[Hno _]|(shred' & Hs' & ->)]; [by rewrite Hs in Hno|].
      rewrite Hs in Hs'. injection Hs' as <-. split; [done|].
      destruct (observe (NetAddr addr) "OFR" shred (sy_shared s)).1; cbn -[zlen].
      * rewrite try_send_cap, try_send_buf, try_send_room. split_and!; [done|by case_if; rewrite ?app_nil_r|].
        constructor; [|constructor]. unfold packet_fits. cbn [sd_packet sp_length sp_payload received_packet].
        rewrite fixed_array_1228. unfold zlen, UDPShredSize. lia.
      * split_and!; [done|by case_if; rewrite app_nil_r|constructor].
Qed.
Lemma node_step e s s' :
  sys_step e s = Ok s' ->
  outputs (sy_gw s') = outputs (sy_gw s)
  /\ Forall packet_fits (node_queued e s)
  /\ chan_buf (sy_node s) ++ node_queued e s = node_taken e s ++ chan_buf (sy_node s')
  /\ sy_to_node s' = sy_to_node s ++ concat (map (node_sends (sy_gw s)) (node_taken e s)).
Proof.
  assert (forall s1 e1, node_offers e1 s = [] -> node_taken e1 s = [] -> outputs (sy_gw s1) = outputs (sy_gw s) ->
    sy_node s1 = sy_node s -> sy_to_node s1 = sy_to_node s ->
    outputs (sy_gw s1) = outputs (sy_gw s) /\ Forall packet_fits (node_queued e1 s)
    /\ chan_buf (sy_node s) ++ node_queued e1 s = node_taken e1 s ++ chan_buf (sy_node s1)
    /\ sy_to_node s1 = sy_to_node s ++ concat (map (node_sends (sy_gw s)) (node_taken e1 s))) as Hidle.
  { intros s1 e1 Ho Ht Hg Hn Hw. unfold node_queued. rewrite Ho, Ht, Hn, Hw, Hg. cbn. case_if; by rewrite !app_nil_r. }
  destruct e as [now r|e|fs now r| | | | |now rsp|now|first]; cbn [sys_step].
  - destruct (processShred _ _ _ _ _) as [[[[pkt g] sh] ch]| |] eqn:Hp; [|done..]. intros [= <-].
    apply processShred_queue in Hp as (Hg & _ & Hb & Hf). cbn [sy_gw sy_node sy_to_node node_taken map concat].
    rewrite Hb, app_nil_r. split_and!; [done| |done|done]. unfold node_queued. by case_if.
  - intros (st & _ & [= <-])%bind_Ok_inv. by apply Hidle.
  - destruct (fd_step _ _ _ _ _) as [[b sh] out]. intros [= <-]. by apply Hidle.
  - intros [= <-]. by apply Hidle.
  - destruct (chan_recv (sy_node s)) as [[sd ch]|] eqn:Hr.
    + intros (r & ->%no_text_Ok%broadcast_node_inv & [= <-])%bind_Ok_inv. cbn [sy_gw sy_node sy_to_node].
      apply chan_recv_Some in Hr as Hb. destruct Hb as [Hb _]. unfold node_queued, node_taken. rewrite Hr, Hb.
      cbn. case_if; rewrite !app_nil_r; done.
    + intros [= <-]. apply Hidle; try done. cbn. by rewrite Hr.
  - destruct (chan_recv (sy_relay s)) as [[x ch]|].
    + intros (r & _ & [= <-])%bind_Ok_inv. by apply Hidle.
    + intros [= <-]. by apply Hidle.
  - intros [= <-]. by apply Hidle.
  - intros (g & Hg%no_text_Ok%reRegister_finish_outputs & [= <-])%bind_Ok_inv. by apply Hidle.
  - intros [= <-]. by apply Hidle.
  - intros [= <-]. by apply Hidle.
Qed.

Lemma node_run es s s' :
  sys_run es s = Ok s' ->
  outputs (sy_gw s') = outputs (sy_gw s)
  /\ Forall packet_fits (along node_queued es s)
  /\ chan_buf (sy_node s) ++ along node_queued es s = along node_taken es s ++ chan_buf (sy_node s')
  /\ sy_to_node s' = sy_to_node s ++ concat (map (node_sends (sy_gw s)) (along node_taken es s)).
Proof.
  revert s. induction es as [|e es IH]; intros s; cbn [sys_run along].
  { intros [= <-]. cbn. rewrite !app_nil_r. split_and!; (done || constructor). }
  intros (s1 & Hs & Hr)%bind_Ok_inv. rewrite Hs.
  apply node_step in Hs as (Hg1 & Hf1 & Hb1 & Hw1). apply IH in Hr as (Hg & Hf & Hb & Hw).
  split_and!; [by rewrite Hg|by apply list.Forall_app| |].
  - by rewrite app_assoc, Hb1, <- !app_assoc, Hb.
  - rewrite Hw, Hw1, <- app_assoc, map_app, concat_app. do 3 f_equal.
    apply map_ext. by apply outputs_sends.
Qed.

(** Without further traffic the broadcast loop empties its channel. *)
Lemma node_drain s :
  Forall packet_fits (chan_buf (sy_node s)) ->
  exists s', sys_run (replicate (length (chan_buf (sy_node s))) SyBroadcastNode) s = Ok s'
    /\ chan_buf (sy_node s') = []
    /\ sy_to_node s' = sy_to_node s ++ concat (map (node_sends (sy_gw s)) (chan_buf (sy_node s))).
Proof.
  remember (chan_buf (sy_node s)) as l eqn:Hl. revert s Hl.
  induction l as [|sd l IH]; intros s Hl Hf; cbn [length replicate sys_run].
  { exists s. cbn. by rewrite app_nil_r. }
  apply list.Forall_cons in Hf as [Hsd Hf]. cbn [sys_step].
  assert (chan_recv (sy_node s) = Some (sd, Chan (chan_cap (sy_node s)) l)) as -> by (unfold chan_recv; by rewrite <- Hl).
  destruct (broadcast_node_fits (fluentD (stats (sy_shared s))) (sy_gw s) sd Hsd) as [smp ->].
  cbn [no_text map_err]. rewrite !bind_Ok.
  destruct (IH (mkSystem (sy_gw s) (sy_recv s) (Chan (chan_cap (sy_node s)) l)
    (sy_to_node s ++ node_sends (sy_gw s) sd) (sy_to_relay s) (sy_alive s)) eq_refl Hf) as (s' & Hr & He & Hw).
  exists s'. split_and!; [exact Hr|exact He|]. rewrite Hw. cbn. by rewrite <- app_assoc.
Qed.

(** Shreds that found the channel full. *)
Definition node_lost (e : sys_event) (s : system) : list shredData := if node_room s then [] else node_offers e s.

Lemma node_losses es s :
  (length (along node_offers es s) = length (along node_queued es s) + length (along node_lost es s))%nat
  /\ sublist (along node_queued es s) (along node_offers es s)
  /\ (along node_lost es s = [] -> along node_queued es s = along node_offers es s).
Proof.
  revert s. induction es as [|e es IH]; intros s; cbn [along]; [by split_and!|].
  assert (forall s1 : outcome string system,
    let f g := match s1 with Ok s => along g es s | _ => [] end : list shredData in
    (length (f node_offers) = length (f node_queued) + length (f node_lost))%nat
    /\ sublist (f node_queued) (f node_offers) /\ (f node_lost = [] -> f node_queued = f node_offers)) as Hrest.
  { intros [s1| |]; [apply IH|by split_and!..]. }
  specialize (Hrest (sys_step e s)). cbn zeta in Hrest. destruct Hrest as (Hl & Hs & He).
  rewrite !length_app, Hl.
  change (node_queued e s) with (if node_room s then node_offers e s else []).
  change (node_lost e s) with (if node_room s then [] else node_offers e s). destruct (node_room s).
  - split_and!; [cbn; lia|by apply sublist_app|]. cbn [app]. intros Hn. by rewrite He.
  - split_and!; [cbn; lia|by apply sublist_inserts_l|]. intros [Hn Hn']%app_nil. by rewrite He, Hn.
Qed.

(** ** The stream to the relay *)

Definition grows {A} (c c' : channel A) : Prop := c' = c \/ exists x, c' = (try_send c x).2.

Lemma added_grows {A} (c c' : channel A) : grows c c' -> chan_buf c' = chan_buf c ++ added c c'.
Proof.
  intros [->|[x ->]]; [by rewrite added_same, app_nil_r|]. rewrite added_send, try_send_buf.
  case_if; [done|by rewrite app_nil_r].
Qed.

Lemma fd_step_grows fs now r (sh : shared AlterKey) out : grows out (fd_step fs now r sh out).2.
Proof.
  unfold fd_step. destruct r as [info| | |]; try by left.
  destruct (ParseShredVariant _) as [v| |]; try by left.
  destruct (observe _ _ _ _) as [[] sh1]; cbn [negb snd]; [right; by eexists|by left].
Qed.

Lemma relay_step e s s' :
  sys_step e s = Ok s' ->
  chan_buf (sy_relay s) ++ relay_queued e s = map snd (relay_taken e s) ++ chan_buf (sy_relay s')
  /\ sy_to_relay s' = sy_to_relay s ++ concat (map (relay_sends (sy_gw s)) (relay_taken e s)).
Proof.
  intros Hs. unfold relay_queued. rewrite Hs. revert Hs.
  assert (forall s1, grows (sy_relay s) (sy_relay s1) -> sy_to_relay s1 = sy_to_relay s ->
    chan_buf (sy_relay s) ++ added (sy_relay s) (sy_relay s1) = [] ++ chan_buf (sy_relay s1)
    /\ sy_to_relay s1 = sy_to_relay s ++ []) as Hidle.
  { intros s1 Hg Hw. by rewrite (added_grows _ _ Hg), Hw, app_nil_r. }
  destruct e as [now r|e|fs now r| | | | |now rsp|now|first]; cbn [sys_step].
  - destruct (processShred _ _ _ _ _) as [[[[pkt g] sh] ch]| |] eqn:Hp; [|done..]. intros [= <-].
    apply Hidle; [by left|done].
  - intros (st & Hr & [= <-])%bind_Ok_inv. apply Hidle; [|done]. unfold sy_relay. cbn [sy_recv set_recv].
    apply recv_step_effect in Hr as [[_ ->]|(now & src & shred & sp & _ & _ & _ & ->)]; [by left|].
    case_if; [right; by eexists|by left].
  - pose proof (fd_step_grows fs now r (sy_shared s) (sy_relay s)) as Hg.
    destruct (fd_step _ _ _ _ _) as [[b sh] out]. intros [= <-]. by apply Hidle.
  - intros [= <-]. apply Hidle; [by left|done].
  - destruct (chan_recv (sy_node s)) as [[sd ch]|].
    + intros (r & _ & [= <-])%bind_Ok_inv. apply Hidle; [by left|done].
    + intros [= <-]. apply Hidle; [by left|done].
  - destruct (chan_recv (sy_relay s)) as [[x ch]|] eqn:Hr.
    + intros (r & ->%no_text_Ok%broadcast_relay_inv & [= <-])%bind_Ok_inv.
      unfold relay_taken. rewrite Hr. cbn [sy_to_relay]. change (sy_relay (mkSystem _ _ _ _ _ _)) with ch.
      rewrite (added_recv _ _ _ Hr). apply chan_recv_Some in Hr as [-> _]. cbn. by rewrite !app_nil_r.
    + intros [= <-]. cbn [relay_taken]. rewrite Hr. apply Hidle; [by left|done].
  - intros [= <-]. apply Hidle; [by left|done].
  - intros (g & _ & [= <-])%bind_Ok_inv. apply Hidle; [by left|done].
  - intros [= <-]. apply Hidle; [by left|done].
  - intros [= <-]. apply Hidle; [by left|done].
Qed.

Lemma relay_run es s s' :
  sys_run es s = Ok s' ->
  chan_buf (sy_relay s) ++ along relay_queued es s = map snd (along relay_taken es s) ++ chan_buf (sy_relay s')
  /\ sy_to_relay s' = sy_to_relay s ++ concat (map (relay_sends (sy_gw s)) (along relay_taken es s)).
Proof.
  revert s. induction es as [|e es IH]; intros s; cbn [sys_run along].
  { intros [= <-]. cbn. by rewrite !app_nil_r. }
  intros (s1 & Hs & Hr)%bind_Ok_inv. rewrite Hs.
  apply node_step in Hs as Hn. destruct Hn as (Hg1 & _).
  apply relay_step in Hs as (Hb1 & Hw1). apply IH in Hr as (Hb & Hw). split.
  - by rewrite app_assoc, Hb1, <- !app_assoc, Hb, map_app, <- app_assoc.
  - rewrite Hw, Hw1, <- app_assoc, map_app, concat_app. do 3 f_equal.
    apply map_ext. by apply outputs_sends.
Qed.
(** A taken shred of a registered gateway is within its buffer, or its slice has panicked. *)
Definition relay_fits (ax : Addr * NLShred) : Prop :=
  IsZero ax.1 = true \/ 0 <= Length (Packet ax.2) <= zlen (Payload (Packet ax.2)).

Lemma relay_step_fits e s s' : sys_step e s = Ok s' -> Forall relay_fits (relay_taken e s).
Proof.
  destruct e; try (intros; constructor). cbn [sys_step relay_taken].
  destruct (chan_recv (sy_relay s)) as [[x ch]|]; [|constructor].
  intros (r & Hr%no_text_Ok & _)%bind_Ok_inv. constructor; [|constructor]. unfold relay_fits. cbn [fst snd].
  revert Hr. unfold broadcastShredsToOFR. destruct (IsZero _); [by left|]. right. revert Hr.
  intros (l & Hw & _)%bind_Ok_inv. cbn in Hw. apply bind_Ok_inv in Hw as (d & Hd & _).
  unfold go_slice in Hd. destruct ((0 <=? 0) && _ && _) eqn:Hc; [lia|done].
Qed.

Lemma relay_run_fits es s s' : sys_run es s = Ok s' -> Forall relay_fits (along relay_taken es s).
Proof.
  revert s. induction es as [|e es IH]; intros s; cbn [sys_run along]; [constructor|].
  intros (s1 & Hs & Hr)%bind_Ok_inv. rewrite Hs. apply list.Forall_app.
  split; [by eapply relay_step_fits|by eapply IH].
Qed.
End system.

(** ** Theorems *)

(** C2: no shred is forwarded twice, nor echoed.  Take any execution of the whole gateway
    from an empty cache: iterations of the receive loop, of the network listener, of the
    Firedancer receiver and of the broadcast loops, cache cleanups and registrations, in any
    order.  If two of its steps
    forward shreds with the same key - to the node or to the relay, the first one and the
    second one in the same or in opposite directions - then the cache was cleaned up at
    least twice in between. *)
Theorem no_duplicate_forward (ip_String : list byte -> string) (addr_String : NetipAddr -> string)
    (resolve : string -> outcome udp_error UDPAddr) (s0 s1 s2 s3 s4 : system)
    (es1 es2 : list sys_event) (e e' : sys_event) (k : Z) :
  cache (sy_shared s0) = NewAlterKey ->
  sys_run ip_String addr_String resolve es1 s0 = Ok s1 -> sys_step ip_String addr_String resolve e s1 = Ok s2 ->
  sys_run ip_String addr_String resolve es2 s2 = Ok s3 -> sys_step ip_String addr_String resolve e' s3 = Ok s4 ->
  k ∈ forwarded s1 s2 -> k ∈ forwarded s3 s4 ->
  (2 <= sys_cleanups es2)%nat.
Proof.
  intros H0 (ops1 & Hc1 & _)%sys_run_effect (ops & Hc2 & _ & Hk)%sys_step_effect
    (ops2 & Hc3 & Hn)%sys_run_effect (ops' & _ & _ & Hk')%sys_step_effect Hf Hf'.
  destruct (Hk k Hf) as [-> Hset]. destruct (Hk' k Hf') as [_ Hset'].
  destruct (Nat.lt_ge_cases (sys_cleanups es2) 2) as [Hlt|]; [exfalso|done].
  rewrite H0 in Hc1. destruct (reachable_rel ops1) as [ep Hrel]. rewrite <- Hc1 in Hrel.
  rewrite exec_ops_cons in Hc2. cbn in Hc2.
  assert (cache (sy_shared s2) = (AlterKey_Set k (cache (sy_shared s1))).2) as Hc2'.
  { rewrite Hc2. by destruct (AlterKey_Set _ _). }
  rewrite Hc3, Hc2' in Hset'. rewrite (Set_refused _ ep k ops2) in Hset'; [done..|lia].
Qed.

(** C5: the stream to the node.  Over any execution from empty channels, in any order of the
    loops, what has been written for the node is, shred by shred and in order, the exact
    datagrams of an initial part of the shreds that the receive loop queued; the others are
    in the channel, and as many further iterations of the broadcast loop write them all, with
    no panic.  The queued shreds are those the receive loop offered, in their order, less
    the ones offered to a full channel: with none of these, nothing is lost. *)
Theorem node_stream (ip_String : list byte -> string) (addr_String : NetipAddr -> string)
    (resolve : string -> outcome udp_error UDPAddr) (es : list sys_event) (s0 s : system) :
  chan_buf (sy_node s0) = [] -> sy_to_node s0 = [] ->
  sys_run ip_String addr_String resolve es s0 = Ok s ->
  let total f := along ip_String addr_String resolve f es s0 : list shredData in
  let written l := concat (map (node_sends (sy_gw s0)) l) in
  total node_queued = total node_taken ++ chan_buf (sy_node s)
  /\ sy_to_node s = written (total node_taken)
  /\ (exists s', sys_run ip_String addr_String resolve (replicate (length (chan_buf (sy_node s))) SyBroadcastNode) s
                 = Ok s'
        /\ chan_buf (sy_node s') = [] /\ sy_to_node s' = written (total node_queued))
  /\ sublist (total node_queued) (total node_offers)
  /\ (length (total node_offers) = length (total node_queued) + length (total node_lost))%nat
  /\ (total node_lost = [] -> sy_to_node s = written (take (length (total node_taken)) (total node_offers))).
Proof.
  intros Hb0 Hw0 Hr total written. apply node_run in Hr as (Hg & Hf & Hb & Hw).
  rewrite Hb0 in Hb. rewrite Hw0 in Hw. cbn [app] in Hb, Hw.
  destruct (node_losses ip_String addr_String resolve es s0) as (Hlen & Hsub & Hall).
  split_and!; [done|done| |done|done|].
  - assert (Forall packet_fits (chan_buf (sy_node s))) as Hfs.
    { rewrite Hb in Hf. by apply list.Forall_app in Hf as [_ Hf]. }
    destruct (node_drain ip_String addr_String resolve s Hfs) as (s' & Hr' & He & Hw').
    exists s'. split_and!; [done|done|]. rewrite Hw', Hw. unfold total, written.
    rewrite Hb, map_app, concat_app. do 2 f_equal. apply map_ext. by apply outputs_sends.
  - intros Hno. unfold total, written in *. by rewrite <- (Hall Hno), Hb, take_app_length.
Qed.

(** C6: the stream to the relay.  Over any execution from empty channels, with registrations
    in between, what has been written to the relay and the endpoints is, in order, the
    datagrams of an initial part of the shreds that the listener and the Firedancer receiver
    queued, the others being in the channel.  Each was sent to the address that was
    registered when it was taken; one taken while there was none is dropped.  None of the
    sent ones is longer than its buffer. *)
Theorem relay_stream (ip_String : list byte -> string) (addr_String : NetipAddr -> string)
    (resolve : string -> outcome udp_error UDPAddr) (es : list sys_event) (s0 s : system) :
  chan_buf (sy_relay s0) = [] -> sy_to_relay s0 = [] ->
  sys_run ip_String addr_String resolve es s0 = Ok s ->
  let queued := along ip_String addr_String resolve (relay_queued ip_String addr_String resolve) es s0 in
  let taken := along ip_String addr_String resolve relay_taken es s0 in
  queued = map snd taken ++ chan_buf (sy_relay s)
  /\ sy_to_relay s = concat (map (relay_sends (sy_gw s0)) taken)
  /\ (forall x, x ∈ sy_to_relay s ->
        exists ax, ax ∈ taken /\ IsZero ax.1 = false /\ zlen (s_data x) = Length (Packet ax.2)).
Proof.
  intros Hb0 Hw0 Hr queued taken. apply relay_run_fits in Hr as Hf. apply relay_run in Hr as (Hb & Hw).
  rewrite Hb0 in Hb. rewrite Hw0 in Hw. cbn [app] in Hb, Hw. split_and!; [done|done|].
  intros x Hx. rewrite Hw in Hx. apply list_elem_of_In, in_concat in Hx as (l & Hl & Hx).
  apply in_map_iff in Hl as (ax & <- & Hax). exists ax. apply list_elem_of_In in Hax.
  split; [done|]. rewrite list.Forall_forall in Hf. specialize (Hf ax Hax).
  unfold relay_sends in Hx. destruct (IsZero ax.1) eqn:Hz; [done|]. split; [done|].
  destruct Hf as [Hf|Hf]; [by rewrite Hz in Hf|].
  apply in_map_iff in Hx as (a & <- & _). cbn [s_data]. unfold zlen in *. rewrite length_take. lia.
Qed.

(** ** A concrete system *)

Definition demo_addr_String (a : NetipAddr) : string := "addr".

Definition demo_system : system := mkSystem (demo_gateway 3) demo_recv (make_chan 100000) [] [] [].

Definition demo_after (es : list sys_event) : system :=
  match sys_run demo_ip_String demo_addr_String demo_resolve es demo_system with Ok s => s | _ => demo_system end.

(** The relay's copy of the sample shred, the node's copy, and two cleanups around it. *)
Definition demo_ofr : sys_event := SyOfr 1 (RecvMsg (take 1203 sample_shred) (Some demo_relay)).
Definition demo_turbine : sys_event := SyListener (EvPacket 2 demo_good_packet).
Definition demo_between : list sys_event := [SyCleanup; demo_turbine; SyCleanup].

Definition demo_key : Z := hd 0 (forwarded demo_system (demo_after [demo_ofr])).

Example demo_forwards :
  forwarded demo_system (demo_after [demo_ofr]) = [demo_key]
  /\ forwarded (demo_after [demo_ofr]) (demo_after [demo_ofr; demo_turbine]) = []
  /\ forwarded (demo_after (demo_ofr :: demo_between)) (demo_after (demo_ofr :: demo_between ++ [demo_turbine])) = [demo_key].
Proof. vm_compute. done. Qed.

Lemma demo_continues es1 es2 :
  is_Ok (sys_run demo_ip_String demo_addr_String demo_resolve (es1 ++ es2) demo_system) = true ->
  sys_run demo_ip_String demo_addr_String demo_resolve es2 (demo_after es1) = Ok (demo_after (es1 ++ es2)).
Proof.
  unfold demo_after. rewrite sys_run_app.
  destruct (sys_run _ _ _ es1 _) as [s| |]; [|done..]. rewrite bind_Ok.
  by destruct (sys_run _ _ _ es2 _).
Qed.

Lemma demo_step es e :
  is_Ok (sys_run demo_ip_String demo_addr_String demo_resolve (es ++ [e]) demo_system) = true ->
  sys_step demo_ip_String demo_addr_String demo_resolve e (demo_after es) = Ok (demo_after (es ++ [e])).
Proof.
  intros Hok%demo_continues. cbn in Hok. apply bind_Ok_inv in Hok as (s & Hs & [= <-]). exact Hs.
Qed.

Lemma no_duplicate_forward_witness : (2 <= sys_cleanups demo_between)%nat.
Proof.
  apply (no_duplicate_forward demo_ip_String demo_addr_String demo_resolve demo_system demo_system (demo_after [demo_ofr])
    (demo_after (demo_ofr :: demo_between)) (demo_after (demo_ofr :: demo_between ++ [demo_turbine]))
    [] demo_between demo_ofr demo_turbine demo_key).
  - reflexivity.
  - reflexivity.
  - refine (demo_step [] demo_ofr _). vm_compute. reflexivity.
  - refine (demo_continues [demo_ofr] demo_between _). vm_compute. reflexivity.
  - refine (demo_step (demo_ofr :: demo_between) demo_turbine _). vm_compute. reflexivity.
  - rewrite (proj1 demo_forwards). apply list_elem_of_singleton. reflexivity.
  - rewrite (proj2 (proj2 demo_forwards)). apply list_elem_of_singleton. reflexivity.
Defined.

(** Two shreds from the relay, one of them again, and one write for the node. *)
Definition demo_other : list byte := take 73 sample_shred ++ Byte.x2a :: drop 74 sample_shred.
Definition demo_other_ofr : sys_event := SyOfr 2 (RecvMsg (take 1203 demo_other) (Some demo_relay)).
Definition demo_stream : list sys_event := [demo_ofr; demo_other_ofr; demo_ofr; SyBroadcastNode; demo_turbine].

Example demo_streams :
  let total f := along demo_ip_String demo_addr_String demo_resolve f demo_stream demo_system : list shredData in
  length (total node_offers) = 2%nat /\ length (total node_taken) = 1%nat
  /\ map s_data (sy_to_node (demo_after demo_stream)) = [take 1203 sample_shred; take 1203 sample_shred].
Proof. vm_compute. done. Qed.

Lemma demo_stream_run :
  sys_run demo_ip_String demo_addr_String demo_resolve demo_stream demo_system = Ok (demo_after demo_stream).
Proof. refine (demo_continues [] demo_stream _). vm_compute. reflexivity. Qed.

Lemma node_stream_witness :
  exists s', sys_run demo_ip_String demo_addr_String demo_resolve
    (replicate (length (chan_buf (sy_node (demo_after demo_stream)))) SyBroadcastNode) (demo_after demo_stream) = Ok s'
    /\ chan_buf (sy_node s') = [].
Proof.
  destruct (node_stream demo_ip_String demo_addr_String demo_resolve demo_stream demo_system (demo_after demo_stream)
    eq_refl eq_refl demo_stream_run) as (_ & _ & (s' & Hr & He & _) & _).
  exists s'. split; [exact Hr|exact He].
Defined.

(** A shred of the node, taken while the gateway is registered. *)
Definition demo_relay_stream : list sys_event := [demo_turbine; SyBroadcastOFR; SyUnregister].

Example demo_relay_streams :
  map s_to (sy_to_relay (demo_after demo_relay_stream))
  = Some demo_relay :: map Some (extraBroadcastAddrs (demo_gateway 3)).
Proof. vm_compute. done. Qed.

Lemma relay_stream_witness :
  sy_to_relay (demo_after demo_relay_stream)
  = concat (map (relay_sends (demo_gateway 3))
      (along demo_ip_String demo_addr_String demo_resolve relay_taken demo_relay_stream demo_system)).
Proof.
  refine (proj1 (proj2 (relay_stream demo_ip_String demo_addr_String demo_resolve demo_relay_stream demo_system
    (demo_after demo_relay_stream) eq_refl eq_refl _))).
  refine (demo_continues [] demo_relay_stream _). vm_compute. reflexivity.
Defined.
