(* ===== verification/Program.v ===== *)
(** * The program: every execution of what [run] starts

    [run] builds a gateway and starts its goroutines; [initial_system] is the [system] they
    start from, and [enabled] tells which events their kinds allow.  The theorems are about
    all executions from there: what the program sends, from which input and where to; when it
    can panic; and that a fresh shred of the relay reaches the validator. *)

From S2P Require Import Prelude Shred AlterKey Udp Stats Json Config Registrar Sniffer NetListen Firedancer Gateway CommandLine System.
Open Scope Z_scope.

(** The capacity of the two channels of [Start]. *)
Definition startChanBuf : Z := 100000.

(** Stands for the listener when there is none; nothing uses it then. *)
Definition no_listener : NetworkListener := mkNL ZeroAddr [] false 0 [] 0 ∅ 0 ∅ ∅ ∅.

Definition initial_system (now : Z) (st : started) : system :=
  let pr := st_prepared st in
  let l := default ([], no_listener) (pr_listener pr) in
  mkSystem (st_gateway st)
    (Recv_init now l.1 l.2 (mkShared NewAlterKey (pr_stats pr)) (make_chan startChanBuf))
    (make_chan startChanBuf) [] [] [].

(** The goroutine an event belongs to; the cleanup has the one that [NewAlterKey] starts. *)
Definition goroutine_of (e : sys_event) : option goroutine :=
  match e with
  | SyOfr _ _ => Some GoReceiveShredsFromOFR
  | SyListener _ => Some GoListenerRecv
  | SyFiredancer _ _ _ => Some GoFiredancerRecv
  | SyCleanup => None
  | SyBroadcastNode => Some GoBroadcastShredsToNode
  | SyBroadcastOFR => Some GoBroadcastShredsToOFR
  | SyUnregister | SyRegister _ _ | SyReRegister _ => Some GoReRegister
  | SyAlive _ => Some GoSendAliveMessages
  end.

#[export] Instance goroutine_eq_dec : EqDecision goroutine.
Proof. solve_decision. Defined.

Definition enabled (st : started) (e : sys_event) : bool :=
  match goroutine_of e with Some g => bool_decide (g ∈ st_goroutines st) | None => true end.

(** * Where things come from *)

(** An address that an answer of the relay gives. *)
Definition answered (resolve : string -> outcome udp_error UDPAddr) (rsp : outcome register_error RegisterResponse)
    (a : Addr) : Prop :=
  exists m sa, rsp = Ok m /\ SockAddrFromUDPString resolve (UdpAddress m) = Ok sa /\ NewAddr (Some sa) = Ok a.


Section origins.
Context (ip_String : list byte -> string) (addr_String : NetipAddr -> string)
  (resolve : string -> outcome udp_error UDPAddr).
Local Abbreviation along := (System.along ip_String addr_String resolve).
Local Abbreviation sys_step := (System.sys_step ip_String addr_String resolve).
Local Abbreviation sys_run := (System.sys_run ip_String addr_String resolve).
Local Abbreviation relay_queued := (System.relay_queued ip_String addr_String resolve).





(** The relay's address comes from an answer. *)
Lemma Register_end_answered rsp g r g' :
  Register_end resolve rsp g = (r, g') ->
  (g' = g /\ is_Ok r = false) \/ (is_Ok r = true /\ answered resolve rsp (ofrUDPAddr g')).
Proof.
  unfold Register_end, answered. destruct rsp as [m|e|p]; [|intros [= <- <-]; by left..].
  destruct (SockAddrFromUDPString _ _) as [sa|e|p] eqn:Hsa; [|intros [= <- <-]; by left..].
  destruct (NewAddr _) as [a|e|p] eqn:Ha; [|intros [= <- <-]; by left..].
  intros [= <- <-]. right. split; [done|]. by exists m, sa.
Qed.





End origins.

Lemma Start_loop_answered rv rsps n i g last r g' attempts sleeps :
  is_Ok last = false -> Start_loop rv rsps n i g last = (r, g', attempts, sleeps) -> is_Ok r = true ->
  exists j, answered rv (rsps j) (ofrUDPAddr g').
Proof.
  revert i g last attempts sleeps. induction n as [|n IH]; intros i g last attempts sleeps Hl.
  { cbn. intros [= <- <- <- <-]. by rewrite Hl. }
  rewrite Start_loop_S. destruct (Register rv (rsps i) g) as [[a|e|p] g1] eqn:Hr; unfold Register in Hr.
  - intros [= <- <- <- <-] _. apply Register_end_answered in Hr as [[_ ?]|[_ Ha]]; [done|exists i; exact Ha].
  - case_if; [by intros [= <- <- <- <-]|].
    destruct (Start_loop _ _ n _ _ _) as [[[r1 g2] at1] sl1] eqn:E. intros [= <- <- <- <-]. by refine (IH (S i) g1 (Err e) _ _ eq_refl E).
  - by intros [= <- <- <- <-].
Qed.


Lemma started_address o cfg st :
  run o cfg = Some (Ok st) ->
  exists i, answered (resolve o) (answers o (pr_cfg (st_prepared st)) i) (ofrUDPAddr (st_gateway st)).
Proof.
  unfold run. destruct (prepare o cfg) as [pr| |]; [|done..].
  destruct (New _ _ _ _ _ _ _) as [[[[gw| |] fs] closed]|]; [|done..].
  unfold Start. destruct (Start_loop _ _ _ _ _ _) as [[[r g'] at'] sl] eqn:E.
  intros [= H]. apply bind_Ok_inv in H as (gs & Hgs & [= <-]). apply map_err_Ok_inv in Hgs.
  cbn [st_prepared st_gateway]. refine (Start_loop_answered _ _ _ _ _ _ _ _ _ _ _ E _); [done|]. by destruct r.
Qed.









Lemma received_packet_taken data :
  take (Z.to_nat (sp_length (received_packet data))) (sp_payload (received_packet data)) = take 1228 data.
Proof.
  pose proof (received_packet_bytes (E:=string) data) as H. by apply go_slice_0_inv in H.
Qed.

(** Everything written in an execution from empty channels, and where it comes from. *)
Section writes.
Context (ip_String : list byte -> string) (addr_String : NetipAddr -> string)
  (resolve : string -> outcome udp_error UDPAddr) (es : list sys_event) (s0 s : system).
Hypothesis Hrun : sys_run ip_String addr_String resolve es s0 = Ok s.


End writes.

(** ** Panics *)





Section panics.
Context (ip_String : list byte -> string) (addr_String : NetipAddr -> string)
  (resolve : string -> outcome udp_error UDPAddr).
Local Abbreviation along := (System.along ip_String addr_String resolve).
Local Abbreviation sys_step := (System.sys_step ip_String addr_String resolve).
Local Abbreviation sys_run := (System.sys_run ip_String addr_String resolve).
Local Abbreviation relay_queued := (System.relay_queued ip_String addr_String resolve).






End panics.


(** An accepted, fresh shred is offered to the channel, and remembered. *)
Lemma sys_step_offers ip_String addr_String resolve t data from (s : system) shred :
  accepted (RecvMsg data from) (sy_gw s) = true ->
  ParseShredPartial (fixed_array data) (Z.min UDPShredSize (zlen data)) = Ok shred ->
  (AlterKey_Set (key_of shred) (cache (sy_shared s))).1 = true ->
  exists sd s', sys_step ip_String addr_String resolve (SyOfr t (RecvMsg data from)) s = Ok s'
    /\ sd_packet sd = received_packet data
    /\ sy_node s' = (try_send (sy_node s) sd).2 /\ sy_to_node s' = sy_to_node s
    /\ outputs (sy_gw s') = outputs (sy_gw s)
    /\ (AlterKey_Set (key_of shred) (cache (sy_shared s'))).1 = false.
Proof.
  intros Ha Hp Hset. cbn [sys_step].
  destruct (processShred_cases t (RecvMsg data from) (sy_gw s) (sy_shared s) (sy_node s))
    as [[Ha' _]|(_ & data' & from' & addr & [= <- <-] & _ & Hc)]; [by rewrite Ha in Ha'|].
  cbn zeta in Hc. cbn [received_packet sp_payload sp_length] in Hc. rewrite Hp in Hc.
  destruct Hc as [[? _]|(shred' & [= <-] & ->)]; [done|].
  assert ((observe (NetAddr addr) "OFR" shred (sy_shared s)).1 = true
    /\ cache (observe (NetAddr addr) "OFR" shred (sy_shared s)).2
       = (AlterKey_Set (key_of shred) (cache (sy_shared s))).2) as [-> Hcache].
  { revert Hset. unfold observe, key_of. cbn. by destruct (AlterKey_Set _ _) as [[] c]. }
  exists (mkShredData (received_packet data) t shred (NetAddr addr)). eexists. split; [reflexivity|].
  split_and!; try done. cbn. rewrite Hcache.
  exact (proj2 (cache_Set_dup_iff (C:=AlterKey) _ _) (cache_Set_seen_self (C:=AlterKey) _ _)).
Qed.

(** ** The registration *)

Lemma prepare_cfg o cfg pr :
  prepare o cfg = Ok pr -> pr_cfg pr = with_env o (Config.UdpServerPort cfg) cfg.
Proof.
  intros H. pose proof (proj1 (proj2 (prepare_parts o cfg pr H))) as Hport. revert H Hport.
  unfold prepare. intros H. invert_outcome. subst pr. cbn [pr_cfg pr_server]. by intros ->.
Qed.

Lemma with_env_ok o cfg : gateway_ok cfg -> gateway_ok (with_env o (Config.UdpServerPort cfg) cfg).
Proof. by intros []. Qed.

(** ** Theorems *)



(** C4: a shred of the relay reaches the validator, if the channel has room.  In any state that
    the goroutines of a started gateway reach, let a datagram come from the registered relay,
    with a shred whose key is not in the cache.  If the channel has room (it holds at most
    100000 shreds), the receive loop queues it, and as many iterations of the broadcast loop as
    there are queued shreds write all of them, in order, the new one last: its bytes go to the
    TVU address, if there is a validator, and then to every configured endpoint, and nothing
    panics.  If the channel is full the shred is lost: nothing is queued or written, and as its
    key is in the cache now, it is a duplicate when it comes again. *)
Theorem program_delivers (o : outside) (cfg : GatewayConfig) (st : started)
    (addr_String : NetipAddr -> string) (now t : Z) (es : list sys_event) (s : system)
    (data : list byte) (from : option Sockaddr) (shred : PartialShred) :
  run o cfg = Some (Ok st) ->
  sys_run (ip_String o) addr_String (resolve o) es (initial_system now st) = Ok s ->
  accepted (RecvMsg data from) (sy_gw s) = true ->
  ParseShredPartial (fixed_array data) (Z.min UDPShredSize (zlen data)) = Ok shred ->
  (AlterKey_Set (key_of shred) (cache (sy_shared s))).1 = true ->
  exists c extra,
    endpoints (resolve o) (broadcast_addrs cfg) extra
    /\ (node_room s = true ->
         exists s',
           sys_run (ip_String o) addr_String (resolve o)
             (SyOfr t (RecvMsg data from) :: replicate (S (length (chan_buf (sy_node s)))) SyBroadcastNode) s = Ok s'
           /\ sy_to_node s' = sy_to_node s ++ concat (map (node_sends (st_gateway st)) (chan_buf (sy_node s)))
                ++ map (mkSend (Udp.fd c) (take 1228 data))
                     ((if Config.NoValidator cfg then [] else [Some (pr_tvu (st_prepared st))]) ++ map Some extra)
           /\ chan_buf (sy_node s') = [])
    /\ (node_room s = false ->
         exists s',
           sys_step (ip_String o) addr_String (resolve o) (SyOfr t (RecvMsg data from)) s = Ok s'
           /\ sy_node s' = sy_node s /\ sy_to_node s' = sy_to_node s
           /\ (AlterKey_Set (key_of shred) (cache (sy_shared s'))).1 = false).
Proof.
  intros Hrun Hr Ha Hp Hset.
  destruct (sys_step_offers (ip_String o) addr_String (resolve o) t data from s shred Ha Hp Hset)
    as (sd & s1 & Hs & Hpk & Hn & Hw & Ho & Hdup).
  destruct (node_run _ _ _ _ _ _ Hr) as (Hg & Hf & Hbn & _).
  cbn [initial_system sy_node sy_gw make_chan chan_buf app] in Hbn, Hg.
  apply run_parts in Hrun as (_ & c1 & c2 & extra & addr & _ & _ & Hend & _ & Hst & _).
  exists c2, extra. split; [done|]. unfold node_room. split; intros Hroom.
  - assert (chan_buf (sy_node s1) = chan_buf (sy_node s) ++ [sd]) as Hb
      by (by rewrite Hn, try_send_buf, try_send_room, Hroom).
    assert (Forall packet_fits (chan_buf (sy_node s1))) as Hfs.
    { rewrite Hb. apply list.Forall_app. split.
      - rewrite Hbn in Hf. by apply list.Forall_app in Hf as [_ Hf].
      - constructor; [|constructor]. unfold packet_fits. rewrite Hpk. cbn [sp_length sp_payload received_packet].
        rewrite fixed_array_1228. unfold zlen, UDPShredSize. lia. }
    destruct (node_drain (ip_String o) addr_String (resolve o) s1 Hfs) as (s2 & Hr2 & He & Hw2).
    exists s2. split; [|split; [|done]].
    + cbn [System.sys_run]. rewrite Hs, bind_Ok. rewrite Hb, length_app, Nat.add_comm in Hr2. exact Hr2.
    + assert (outputs (sy_gw s1) = outputs (st_gateway st)) as Ho' by congruence.
      rewrite Hw2, Hw, Hb, map_app, concat_app, (map_ext _ _ (proj1 (outputs_sends _ _ Ho'))). do 2 f_equal.
      cbn [map concat]. rewrite app_nil_r, (proj1 (outputs_sends _ _ Ho') sd), Hst. unfold node_sends.
      rewrite Hpk, received_packet_taken. reflexivity.
  - exists s1. split_and!; [done| |done|done]. rewrite Hn. unfold try_send. by rewrite Hroom.
Qed.

(** C18: the registration, end to end.  The address of the relay that a started gateway holds
    is the one that some answer of the relay resolves to; the request it answers carries the
    authorization header of the command line, and the relay, reading the configuration in it,
    gets the one of the command line with the version, the port of the server and the redacted
    arguments, but not the header. *)
Theorem program_registers (o : outside) (cfg : GatewayConfig) (st : started) :
  run o cfg = Some (Ok st) -> gateway_ok cfg ->
  exists i req rsp sa,
    relay o i req = Ok rsp
    /\ SockAddrFromUDPString (resolve o) (UdpAddress rsp) = Ok sa
    /\ NewAddr (Some sa) = Ok (ofrUDPAddr (st_gateway st))
    /\ Registrar.AuthHeader req = Config.AuthHeader cfg
    /\ forall g0, Config.Unmarshal (GatewayConfiguration req) g0
                  = (None, received (with_env o (Config.UdpServerPort cfg) cfg) g0).
Proof.
  intros Hrun Hok. pose proof (started_address o cfg st Hrun) as (i & m & sa & Ha & Hsa & Haddr).
  apply run_parts in Hrun as [Hp _]. rewrite (prepare_cfg o cfg _ Hp) in Ha.
  unfold answers, NewOFRRegistrar, ofrRegistrar_Register in Ha.
  cbn [Register_call ofrRegistrar_is_Registrar reg_client reg_cfg] in Ha. unfold ofrRegistrar_Register in Ha.
  assert (forall c, map_err ErrMarshal (Config.Marshal c) = Ok (write (gateway_json c))) as Hm by done.
  rewrite Hm, bind_Ok in Ha. apply map_err_Ok_inv in Ha.
  eexists i, _, m, sa. split; [exact Ha|]. split_and!; [done|done|done|].
  intros g0. cbn [GatewayConfiguration]. refine (Unmarshal_write _ g0 _). by apply with_env_ok.
Qed.

(** ** A concrete execution *)


(** What holds of the system that the demo command line starts, after the events. *)
Definition demo_program (es : list sys_event) (check : system -> bool) : bool :=
  match run (demo_args "c2VjcmV0") demo_run_config with
  | Some (Ok st) =>
      forallb (enabled st) es
      && match sys_run demo_ip_String demo_addr_String demo_resolve es (initial_system 0 st) with
         | Ok s => check s
         | _ => false
         end
  | _ => false
  end.

Lemma demo_program_run es check :
  demo_program es check = true ->
  exists st s, run (demo_args "c2VjcmV0") demo_run_config = Some (Ok st)
    /\ Forall (fun e => enabled st e = true) es
    /\ sys_run demo_ip_String demo_addr_String demo_resolve es (initial_system 0 st) = Ok s
    /\ check s = true.
Proof.
  unfold demo_program. destruct (run _ _) as [[st| |]|]; [|done..].
  intros [He Hs]%andb_prop. destruct (sys_run _ _ _ _ _) as [s| |] eqn:Hr; [|done..].
  exists st, s. split_and!; [done| |done|done].
  apply List.Forall_forall. by apply forallb_forall.
Qed.





(** A state in which the relay's shred is welcome. *)
Definition demo_data : list byte := take 1203 demo_other.

Definition demo_waiting (s : system) : bool :=
  match ParseShredPartial (fixed_array demo_data) (Z.min UDPShredSize (zlen demo_data)) with
  | Ok shred =>
      accepted (RecvMsg demo_data (Some demo_relay)) (sy_gw s)
      && (AlterKey_Set (key_of shred) (cache (sy_shared s))).1 && node_room s
  | _ => false
  end.

Lemma program_delivers_witness :
  exists s s', sys_run demo_ip_String demo_addr_String demo_resolve
      (SyOfr 9 (RecvMsg demo_data (Some demo_relay)) :: replicate (S (length (chan_buf (sy_node s)))) SyBroadcastNode) s
    = Ok s'
    /\ chan_buf (sy_node s') = [].
Proof.
  destruct (demo_program_run [SyReRegister 0; demo_ofr] demo_waiting) as (st & s & Hrun & _ & Hr & Hs);
    [vm_compute; reflexivity|].
  unfold demo_waiting in Hs. destruct (ParseShredPartial _ _) as [shred| |] eqn:Hp; [|discriminate Hs..].
  apply andb_prop in Hs as [[Ha Hset]%andb_prop Hroom].
  destruct (program_delivers (demo_args "c2VjcmV0") demo_run_config st demo_addr_String 0 9 [SyReRegister 0; demo_ofr] s
    demo_data (Some demo_relay) shred Hrun Hr Ha Hp Hset) as (c & extra & _ & Hin & _).
  destruct (Hin Hroom) as (s' & Hr' & _ & He). exists s, s'. split; [exact Hr'|exact He].
Defined.

Lemma demo_run_config_ok : gateway_ok demo_run_config.
Proof. split; vm_compute; split; first [done|reflexivity|discriminate]. Qed.

Lemma program_registers_witness :
  exists st i req rsp, run (demo_args "c2VjcmV0") demo_run_config = Some (Ok st)
    /\ relay (demo_args "c2VjcmV0") i req = Ok rsp /\ Registrar.AuthHeader req = "c2VjcmV0"%string.
Proof.
  destruct demo_started_eq as [st Hst].
  destruct (program_registers (demo_args "c2VjcmV0") demo_run_config st Hst demo_run_config_ok)
    as (i & req & rsp & sa & Hr & _ & _ & Hh & _).
  exists st, i, req, rsp. split; [exact Hst|]. split; [exact Hr|exact Hh].
Defined.
