(* ===== verification/StatsRun.v ===== *)
(** * The statistics of the running program ([pkg/ofr/stats.go], beside everything else)

    [System] has the loops that record shreds; here the goroutines of [NewStats] run beside
    them: the two that drain the channels of the recorders, the one of the first-shred
    recorder, and the flush, whose steps are separate: it empties the recorder of all shreds,
    then the one of the unseen shreds and reports, then it cleans the first-shred recorder.
    A receive iteration is one step, although it records in two channels: they are drained by
    separate goroutines, so that only a full channel could tell the difference. *)

From Stdlib Require Import QArith.
From S2P Require Import Prelude Shred AlterKey Udp Stats Config Registrar Sniffer NetListen Firedancer Gateway CommandLine System Program.
Open Scope Z_scope.

(** ** The steps *)

(** Where the flush goroutine is in its iteration, with what it holds. *)
Inductive flush_phase := AtTicker | HasTotal (totalShreds : ShredsBySource) | Reported.

Record full := mkFull {
  fu_sys : system;
  fu_phase : flush_phase;
  fu_reports : list flush_effects
}.

(** [FFlushTotal], [FFlushUnseen] and [FClean] are the steps of the flush in their order, a
    step of a goroutine that is elsewhere changes nothing; [reader] is as in [flush_tick]. *)
Inductive full_event :=
  | FSys (e : sys_event)
  | FTotalRun
  | FUnseenRun
  | FFirstRun (now : Z)
  | FFlushTotal
  | FFlushUnseen (reader : bool)
  | FClean (now : Z).

Definition sy_stats (s : system) : Stats := stats (sy_shared s).

Definition set_stats (st : Stats) (s : system) : system :=
  set_recv (with_shared (mkShared (cache (sy_shared s)) st) (sy_relay s) (sy_recv s)) s.

Definition with_recorders (tr ur : shredsBySrcRecorder) (fr : firstShredRecorder) (st : Stats) : Stats :=
  {| totalShredsRecorder := tr; unseenShredsRecorder := ur; firstRecorder := fr;
     fluentD := fluentD st; regions := regions st |}.

Definition set_total (tr : shredsBySrcRecorder) (st : Stats) : Stats :=
  with_recorders tr (unseenShredsRecorder st) (firstRecorder st) st.
Definition set_unseen (ur : shredsBySrcRecorder) (st : Stats) : Stats :=
  with_recorders (totalShredsRecorder st) ur (firstRecorder st) st.
Definition set_first (fr : firstShredRecorder) (st : Stats) : Stats :=
  with_recorders (totalShredsRecorder st) (unseenShredsRecorder st) fr st.

Definition upd_stats (f : Stats -> Stats) (s : full) : full :=
  mkFull (set_stats (f (sy_stats (fu_sys s))) (fu_sys s)) (fu_phase s) (fu_reports s).

(** What a flush of these two lists sends, logs and posts. *)
Definition flush_report_of `{GoOrder} (str_less : string -> string -> bool) (reader : bool) (st : Stats)
    (total unseen : ShredsBySource) : flush_effects :=
  {| fl_total := total; fl_unseen := unseen;
     fl_sent := if reader then Some unseen else None;
     fl_log := logStats str_less st total unseen;
     fl_fluent := if fluentD st then concat (map (fun ts => fluent_match ts unseen) total) else [] |}.

Section steps.
Context `{GoOrder} (str_less : string -> string -> bool) (ip_String : list byte -> string)
  (addr_String : NetipAddr -> string) (resolve : string -> outcome udp_error UDPAddr).

Definition full_step (e : full_event) (s : full) : outcome string full :=
  match e with
  | FSys e =>
      sys ← sys_step ip_String addr_String resolve e (fu_sys s);
      Ok (mkFull sys (fu_phase s) (fu_reports s))
  | FTotalRun => Ok (upd_stats (fun st => set_total (recorder_run addr_String (totalShredsRecorder st)) st) s)
  | FUnseenRun => Ok (upd_stats (fun st => set_unseen (recorder_run addr_String (unseenShredsRecorder st)) st) s)
  | FFirstRun now => Ok (upd_stats (fun st => set_first (first_run now (firstRecorder st)) st) s)
  | FFlushTotal =>
      match fu_phase s with
      | AtTicker =>
          let (total, r) := recorder_flush (totalShredsRecorder (sy_stats (fu_sys s))) in
          Ok (mkFull (fu_sys (upd_stats (set_total r) s)) (HasTotal total) (fu_reports s))
      | _ => Ok s
      end
  | FFlushUnseen reader =>
      match fu_phase s with
      | HasTotal total =>
          let st := sy_stats (fu_sys s) in
          let (unseen, r) := recorder_flush (unseenShredsRecorder st) in
          Ok (mkFull (fu_sys (upd_stats (set_unseen r) s)) Reported
                (fu_reports s ++ [flush_report_of str_less reader st total unseen]))
      | _ => Ok s
      end
  | FClean now =>
      match fu_phase s with
      | Reported =>
          Ok (mkFull (fu_sys (upd_stats (fun st => set_first (first_clean now (firstRecorder st)) st) s))
                AtTicker (fu_reports s))
      | _ => Ok s
      end
  end.

Fixpoint full_run (es : list full_event) (s : full) : outcome string full :=
  match es with
  | [] => Ok s
  | e :: es => s ← full_step e s; full_run es s
  end.

(** What an execution produces, step by step. *)
Fixpoint full_along {A} (f : full_event -> full -> list A) (es : list full_event) (s : full) : list A :=
  match es with
  | [] => []
  | e :: es => f e s ++ match full_step e s with Ok s => full_along f es s | _ => [] end
  end.

Definition full_start (now : Z) (st : started) : full := mkFull (initial_system now st) AtTicker [].

(** ** What is recorded *)

(** The shred that an event brings, with its source and the kind of the source: a datagram
    of the relay, a captured packet of a known port, or a shred of the Firedancer monitor,
    that the parser accepts. *)
Definition arrived (e : sys_event) (s : system) : option (NetipAddr * string * PartialShred) :=
  match e with
  | SyOfr _ (RecvMsg data from) =>
      if accepted (RecvMsg data from) (sy_gw s) then
        match NewAddr from, ParseShredPartial (fixed_array data) (Z.min UDPShredSize (zlen data)) with
        | Ok addr, Ok shred => Some (NetAddr addr, "OFR"%string, shred)
        | _, _ => None
        end
      else None
  | SyListener (EvPacket _ sp) =>
      match listenPorts (rv_nl (sy_recv s)) !! SrcHandleName sp, ParseShredPartial (Payload sp) (Length sp) with
      | Some _, Ok shred => Some (localAddr (rv_nl (sy_recv s)), "Turbine"%string, shred)
      | _, _ => None
      end
  | SyFiredancer fs _ (GotShred info) =>
      match ParseShredVariant (si_variant info) with
      | Ok variant => Some (fd_localAddr fs, FireDancerNodeName, fd_shred info variant)
      | _ => None
      end
  | _ => None
  end.

Definition info_of (x : NetipAddr * string * PartialShred) : NodeInfo := mkNodeInfo x.1.1 x.1.2 "".

(** All shreds, and those the cache did not know. *)
Definition total_infos (e : full_event) (s : full) : list NodeInfo :=
  match e with
  | FSys e => match arrived e (fu_sys s) with Some x => [info_of x] | None => [] end
  | _ => []
  end.

Definition is_fresh (shred : PartialShred) (s : system) : bool :=
  (AlterKey_Set (key_of shred) (cache (sy_shared s))).1.

Definition unseen_infos (e : full_event) (s : full) : list NodeInfo :=
  match e with
  | FSys e => match arrived e (fu_sys s) with
              | Some x => if is_fresh x.2 (fu_sys s) then [info_of x] else []
              | None => []
              end
  | _ => []
  end.

Definition total_rec (s : full) : shredsBySrcRecorder := totalShredsRecorder (sy_stats (fu_sys s)).
Definition unseen_rec (s : full) : shredsBySrcRecorder := unseenShredsRecorder (sy_stats (fu_sys s)).

Definition rec_room (r : shredsBySrcRecorder) : bool := zlen (chan_buf (rec_ch r)) <? chan_cap (rec_ch r).

(** Those that the recorder's channel takes, and those it drops. *)
Definition total_taken (e : full_event) (s : full) : list NodeInfo := if rec_room (total_rec s) then total_infos e s else [].
Definition total_lost (e : full_event) (s : full) : list NodeInfo := if rec_room (total_rec s) then [] else total_infos e s.
Definition unseen_taken (e : full_event) (s : full) : list NodeInfo := if rec_room (unseen_rec s) then unseen_infos e s else [].
Definition unseen_lost (e : full_event) (s : full) : list NodeInfo := if rec_room (unseen_rec s) then [] else unseen_infos e s.

(** What has left the recorders: reported, or in the hands of the flush. *)
Definition pending (s : full) : list ShredsBySrcRecord := match fu_phase s with HasTotal t => t | _ => [] end.
Definition total_reported (s : full) : list ShredsBySrcRecord := concat (map fl_total (fu_reports s)).
Definition unseen_reported (s : full) : list ShredsBySrcRecord := concat (map fl_unseen (fu_reports s)).

(** What is still in a recorder. *)
Definition in_recorder (a : NetipAddr) (r : shredsBySrcRecorder) : Z :=
  info_count a (chan_buf (rec_ch r)) + map_count a (rec_mp r).

(** The goroutines of the recorders catch up, and the flush makes a round. *)
Definition catch_up (now : Z) (s : full) : list full_event :=
  [FFlushUnseen false; FClean now]
  ++ replicate (length (chan_buf (rec_ch (total_rec s)))) FTotalRun
  ++ replicate (length (chan_buf (rec_ch (unseen_rec s)))) FUnseenRun
  ++ [FFlushTotal; FFlushUnseen false; FClean now].

(** * Properties *)

Lemma full_run_app es1 es2 s : full_run (es1 ++ es2) s = (s1 ← full_run es1 s; full_run es2 s1).
Proof.
  revert s. induction es1 as [|e es1 IH]; intros s; [done|]. cbn [app full_run].
  destruct (full_step e s) as [s1| |]; [apply IH|done..].
Qed.

Lemma full_along_app {A} (f : full_event -> full -> list A) es1 es2 s s1 :
  full_run es1 s = Ok s1 -> full_along f (es1 ++ es2) s = full_along f es1 s ++ full_along f es2 s1.
Proof.
  revert s. induction es1 as [|e es1 IH]; intros s; cbn [app full_run full_along]; [by intros [= ->]|].
  intros (s2 & -> & Hr)%bind_Ok_inv. by rewrite (IH _ Hr), app_assoc.
Qed.

Lemma full_along_nil {A} (f : full_event -> full -> list A) es s :
  (forall e s, e ∈ es -> f e s = []) -> full_along f es s = [].
Proof.
  revert s. induction es as [|e es IH]; intros s Hf; [done|]. cbn [full_along].
  rewrite Hf by (apply elem_of_cons; by left). destruct (full_step e s) as [s1| |]; [|done..].
  apply IH. intros. apply Hf, elem_of_cons. by right.
Qed.

(** The recorders that one receive iteration leaves. *)
Lemma observe_recorders src who shred (sh : shared AlterKey) :
  totalShredsRecorder (stats (observe src who shred sh).2)
  = recorder_record (mkNodeInfo src who "") (totalShredsRecorder (stats sh))
  /\ unseenShredsRecorder (stats (observe src who shred sh).2)
     = if (AlterKey_Set (key_of shred) (cache sh)).1
       then recorder_record (mkNodeInfo src who "") (unseenShredsRecorder (stats sh))
       else unseenShredsRecorder (stats sh).
Proof. unfold observe, key_of. cbn. by destruct (AlterKey_Set _ _) as [[] c]. Qed.

Lemma sys_step_stats e s s' :
  sys_step ip_String addr_String resolve e s = Ok s' ->
  sy_stats s' = match arrived e s with
                | Some x => stats (observe x.1.1 x.1.2 x.2 (sy_shared s)).2
                | None => sy_stats s
                end.
Proof using Type.
  unfold sy_stats. destruct e as [now r|e|fs now r| | | | |now rsp|now|first]; cbn [sys_step].
  - destruct (processShred _ _ _ _ _) as [[[[pkt g] sh] ch]| |] eqn:Hp; [|done..]. intros [= <-].
    destruct (processShred_cases now r (sy_gw s) (sy_shared s) (sy_node s))
      as [[Ha [p E]]|(Ha & data & from & addr & -> & Hn & Hc)].
    + rewrite E in Hp. injection Hp as _ _ <- _. cbn [arrived]. destruct r; [done|]. by rewrite Ha.
    + cbn [arrived]. rewrite Ha, Hn. cbn [sp_payload sp_length received_packet] in Hc.
      destruct Hc as [[Hno E]|(shred & Hs & E)]; rewrite E in Hp; injection Hp as _ _ <- _.
      * by destruct (ParseShredPartial _ _).
      * by rewrite Hs.
  - intros (st & Hr & [= <-])%bind_Ok_inv. cbn [arrived].
    destruct e as [|now sp|keys pcap|i reopened|scan pcap];
      try (apply recv_step_effect in Hr as [[Hsh _]|(? & ? & ? & ? & [=] & _)]; unfold sy_shared; cbn; by rewrite Hsh).
    cbn [recv_step] in Hr. unfold recv_packet in Hr.
    destruct (listenPorts _ !! _) as [pd|]; [|by injection Hr as <-].
    destruct (pds _ !! pd) as [p|]; [|done].
    destruct (ParseShredPartial _ _) as [shred|er|er]; [|destruct (pd_outgoing p); [destruct (pd_cancel p)|];
      first [discriminate Hr|by injection Hr as <-]|done].
    unfold sy_shared in *. cbn [fst snd].
    destruct (observe _ _ _ _) as [[] sh]; cbn [negb] in Hr; by injection Hr as <-.
  - destruct (fd_step _ _ _ _ _) as [[b sh] out] eqn:Hf. intros [= <-]. cbn [arrived]. unfold fd_step in Hf.
    destruct r as [info| | |]; try by injection Hf as _ <- _.
    destruct (ParseShredVariant _) as [v| |]; try by injection Hf as _ <- _.
    cbn [fst snd]. destruct (observe _ _ _ _) as [[] sh1]; cbn [negb] in Hf; by injection Hf as _ <- _.
  - by intros [= <-].
  - destruct (chan_recv _) as [[sd ch]|]; [intros (r & _ & [= <-])%bind_Ok_inv|intros [= <-]]; done.
  - destruct (chan_recv _) as [[y ch]|]; [intros (r & _ & [= <-])%bind_Ok_inv|intros [= <-]]; done.
  - by intros [= <-].
  - by intros (g & _ & [= <-])%bind_Ok_inv.
  - by intros [= <-].
  - by intros [= <-].
Qed.

(** ** Each recorder, seen on its own *)

(** A recorder's trace stands still or makes one step. *)
Definition rec_moves (x y : shredsBySrcRecorder * list NodeInfo * list ShredsBySrcRecord) : Prop :=
  y = x \/ exists e, y = rec_step addr_String e x.

Lemma rec_stays r acc acc' fl fl' : acc' = acc -> fl' = fl -> rec_moves (r, acc, fl) (r, acc', fl').
Proof. intros -> ->. by left. Qed.

Lemma rec_moves_record n r acc fl :
  rec_moves (r, acc, fl) (recorder_record n r, acc ++ (if rec_room r then [n] else []), fl).
Proof.
  right. exists (RRecord n). cbn. unfold rec_room. rewrite <- (try_send_room _ n).
  destruct (try_send (rec_ch r) n).1; by rewrite ?app_nil_r.
Qed.

Lemma reported_snoc (f : flush_effects -> ShredsBySource) l eff :
  concat (map f (l ++ [eff])) = concat (map f l) ++ f eff.
Proof. by rewrite map_app, concat_app; cbn; rewrite app_nil_r. Qed.

Lemma total_moves e s s' acc :
  full_step e s = Ok s' ->
  rec_moves (total_rec s, acc, total_reported s ++ pending s)
    (total_rec s', acc ++ total_taken e s, total_reported s' ++ pending s').
Proof using Type.
  unfold total_taken, total_rec, total_reported, pending.
  assert (forall b : bool, acc ++ (if b then [] else []) = acc) as Hnil by (intros []; apply app_nil_r).
  destruct e as [e| | |now| |reader|now]; cbn [full_step total_infos].
  - intros (sys & Hs & [= <-])%bind_Ok_inv. cbn [fu_sys fu_reports fu_phase].
    rewrite (sys_step_stats _ _ _ Hs). destruct (arrived e (fu_sys s)) as [x|].
    + rewrite (proj1 (observe_recorders _ _ _ _)). apply rec_moves_record.
    + by apply rec_stays.
  - intros [= <-]. rewrite Hnil. right. by exists RRun.
  - intros [= <-]. by apply rec_stays.
  - intros [= <-]. by apply rec_stays.
  - rewrite Hnil. destruct (fu_phase s) eqn:Hph; try (intros [= <-]; rewrite Hph; by apply rec_stays).
    destruct (recorder_flush _) as [total r] eqn:Hf. intros [= <-]. right. exists RFlush.
    cbn -[recorder_flush]. rewrite app_nil_r. change (stats (sy_shared (fu_sys s))) with (sy_stats (fu_sys s)).
    by rewrite Hf.
  - rewrite Hnil. destruct (fu_phase s) eqn:Hph; try (intros [= <-]; rewrite Hph; by apply rec_stays).
    destruct (recorder_flush _) as [unseen r]. intros [= <-]. cbn [fu_reports fu_phase].
    rewrite reported_snoc. apply rec_stays; [done|]. by rewrite app_nil_r.
  - rewrite Hnil. destruct (fu_phase s) eqn:Hph; intros [= <-]; rewrite ?Hph; by apply rec_stays.
Qed.

Lemma unseen_moves e s s' acc :
  full_step e s = Ok s' ->
  rec_moves (unseen_rec s, acc, unseen_reported s) (unseen_rec s', acc ++ unseen_taken e s, unseen_reported s').
Proof using Type.
  unfold unseen_taken, unseen_rec, unseen_reported.
  assert (forall b : bool, acc ++ (if b then [] else []) = acc) as Hnil by (intros []; apply app_nil_r).
  destruct e as [e| | |now| |reader|now]; cbn [full_step unseen_infos].
  - intros (sys & Hs & [= <-])%bind_Ok_inv. cbn [fu_sys fu_reports].
    rewrite (sys_step_stats _ _ _ Hs). destruct (arrived e (fu_sys s)) as [x|]; [|by apply rec_stays].
    rewrite (proj2 (observe_recorders _ _ _ _)). unfold is_fresh.
    destruct (AlterKey_Set _ _).1; [apply rec_moves_record|by apply rec_stays].
  - intros [= <-]. by apply rec_stays.
  - intros [= <-]. rewrite Hnil. right. by exists RRun.
  - intros [= <-]. by apply rec_stays.
  - rewrite Hnil. destruct (fu_phase s); intros [= <-]; by apply rec_stays.
  - rewrite Hnil. destruct (fu_phase s); try (intros [= <-]; by apply rec_stays).
    destruct (recorder_flush _) as [unseen r] eqn:Hf. intros [= <-]. right. exists RFlush.
    cbn -[recorder_flush]. rewrite reported_snoc. change (stats (sy_shared (fu_sys s))) with (sy_stats (fu_sys s)).
    by rewrite Hf.
  - rewrite Hnil. destruct (fu_phase s); intros [= <-]; by apply rec_stays.
Qed.

(** ** The flush *)

(** Undisturbed, the steps of the flush amount to the tick of [Stats]. *)
Lemma flush_steps_tick now reader s :
  fu_phase s = AtTicker ->
  full_run [FFlushTotal; FFlushUnseen reader; FClean now] s
  = Ok (mkFull (set_stats (flush_tick str_less now reader (sy_stats (fu_sys s))).2 (fu_sys s)) AtTicker
          (fu_reports s ++ [(flush_tick str_less now reader (sy_stats (fu_sys s))).1])).
Proof. intros Hph. cbn [full_run full_step]. by rewrite Hph. Qed.

(** The flush comes back to its ticker, from wherever it is. *)
Lemma flush_completes now s :
  exists s', full_run [FFlushUnseen false; FClean now] s = Ok s' /\ fu_phase s' = AtTicker
    /\ rec_ch (total_rec s') = rec_ch (total_rec s) /\ rec_ch (unseen_rec s') = rec_ch (unseen_rec s).
Proof.
  cbn [full_run full_step]. destruct (fu_phase s) as [|total|] eqn:Hph; cbn; rewrite ?Hph; by eexists.
Qed.

Lemma total_drains n s :
  length (chan_buf (rec_ch (total_rec s))) = n ->
  exists s', full_run (replicate n FTotalRun) s = Ok s' /\ chan_buf (rec_ch (total_rec s')) = []
    /\ unseen_rec s' = unseen_rec s /\ fu_phase s' = fu_phase s.
Proof.
  revert s. induction n as [|n IH]; intros s Hn.
  - exists s. by split_and!; [|apply nil_length_inv| |].
  - cbn [replicate full_run full_step]. rewrite bind_Ok.
    destruct (IH (upd_stats (fun st => set_total (recorder_run addr_String (totalShredsRecorder st)) st) s))
      as (s' & Hr & Hb & Hu & Hp); [|by exists s'].
    unfold total_rec, upd_stats. cbn. unfold recorder_run, chan_recv.
    change (stats (sy_shared (fu_sys s))) with (sy_stats (fu_sys s)). fold (total_rec s).
    destruct (chan_buf (rec_ch (total_rec s))); [done|]. cbn in *. lia.
Qed.

Lemma unseen_drains n s :
  length (chan_buf (rec_ch (unseen_rec s))) = n ->
  exists s', full_run (replicate n FUnseenRun) s = Ok s' /\ chan_buf (rec_ch (unseen_rec s')) = []
    /\ total_rec s' = total_rec s /\ fu_phase s' = fu_phase s.
Proof.
  revert s. induction n as [|n IH]; intros s Hn.
  - exists s. by split_and!; [|apply nil_length_inv| |].
  - cbn [replicate full_run full_step]. rewrite bind_Ok.
    destruct (IH (upd_stats (fun st => set_unseen (recorder_run addr_String (unseenShredsRecorder st)) st) s))
      as (s' & Hr & Hb & Hu & Hp); [|by exists s'].
    unfold unseen_rec, upd_stats. cbn. unfold recorder_run, chan_recv.
    change (stats (sy_shared (fu_sys s))) with (sy_stats (fu_sys s)). fold (unseen_rec s).
    destruct (chan_buf (rec_ch (unseen_rec s))); [done|]. cbn in *. lia.
Qed.

(** After a round that starts with drained channels, nothing is left anywhere. *)
Lemma caught_up now s :
  exists s', full_run (catch_up now s) s = Ok s' /\ pending s' = []
    /\ forall a, in_recorder a (total_rec s') = 0 /\ in_recorder a (unseen_rec s') = 0.
Proof.
  unfold catch_up. destruct (flush_completes now s) as (s1 & H1 & P1 & T1 & U1).
  rewrite full_run_app, H1, bind_Ok, full_run_app, <- T1.
  destruct (total_drains _ s1 eq_refl) as (s2 & H2 & B2 & U2 & P2).
  rewrite H2, bind_Ok, full_run_app, <- U1, <- U2.
  destruct (unseen_drains _ s2 eq_refl) as (s3 & H3 & B3 & T3 & P3).
  rewrite H3, bind_Ok, flush_steps_tick by congruence.
  eexists. split; [done|]. split; [done|]. intros a.
  unfold in_recorder, total_rec, unseen_rec in *. cbn. unfold map_count. rewrite lookup_empty.
  change (stats (sy_shared (fu_sys s3))) with (sy_stats (fu_sys s3)). by rewrite T3, B2, B3.
Qed.

Lemma catch_up_records now s e s1 :
  e ∈ catch_up now s -> total_infos e s1 = [] /\ unseen_infos e s1 = [].
Proof.
  unfold catch_up. rewrite !elem_of_app, !elem_of_cons, !elem_of_replicate, !elem_of_nil.
  by intros [[->|[->|[]]]|[[-> _]|[[-> _]|[->|[->|[->|[]]]]]]].
Qed.

(** ** Executions *)

Context {order_laws : GoOrderLaws}.

Lemma rec_moves_inv x y : rec_inv addr_String x -> rec_moves x y -> rec_inv addr_String y.
Proof using order_laws. intros Hx [->|[e ->]]; [done|by apply rec_step_inv]. Qed.

Lemma total_run es s s' acc :
  full_run es s = Ok s' -> rec_inv addr_String (total_rec s, acc, total_reported s ++ pending s) ->
  rec_inv addr_String (total_rec s', acc ++ full_along total_taken es s, total_reported s' ++ pending s').
Proof using order_laws.
  revert s acc. induction es as [|e es IH]; intros s acc; cbn [full_run full_along].
  { intros [= ->]. by rewrite app_nil_r. }
  intros (s1 & Hs & Hr)%bind_Ok_inv Hi. rewrite Hs, app_assoc. apply IH; [done|].
  eapply rec_moves_inv; [exact Hi|by apply total_moves].
Qed.

Lemma unseen_run es s s' acc :
  full_run es s = Ok s' -> rec_inv addr_String (unseen_rec s, acc, unseen_reported s) ->
  rec_inv addr_String (unseen_rec s', acc ++ full_along unseen_taken es s, unseen_reported s').
Proof using order_laws.
  revert s acc. induction es as [|e es IH]; intros s acc; cbn [full_run full_along].
  { intros [= ->]. by rewrite app_nil_r. }
  intros (s1 & Hs & Hr)%bind_Ok_inv Hi. rewrite Hs, app_assoc. apply IH; [done|].
  eapply rec_moves_inv; [exact Hi|by apply unseen_moves].
Qed.

(** What arrives is taken or lost. *)
Lemma taken_or_lost (infos : full_event -> full -> list NodeInfo) (room : full -> bool) es s a :
  info_count a (full_along infos es s)
  = info_count a (full_along (fun e s => if room s then infos e s else []) es s)
    + info_count a (full_along (fun e s => if room s then [] else infos e s) es s).
Proof.
  revert s. induction es as [|e es IH]; intros s; [done|]. cbn [full_along]. rewrite !info_count_app.
  assert (info_count a (@nil NodeInfo) = 0) as H0 by done.
  destruct (full_step e s) as [s1| |]; [rewrite IH|rewrite H0..]; destruct (room s); rewrite H0; lia.
Qed.

Lemma unseen_at_most es s a :
  info_count a (full_along unseen_infos es s) <= info_count a (full_along total_infos es s).
Proof.
  revert s. induction es as [|e es IH]; intros s; [done|]. cbn [full_along]. rewrite !info_count_app.
  assert (info_count a (unseen_infos e s) <= info_count a (total_infos e s)).
  { destruct e as [e| | | | | |]; cbn [unseen_infos total_infos]; try done. destruct (arrived e _) as [x|]; [|done].
    case_if; [done|]. unfold info_count, zlen. cbn [List.filter length]. lia. }
  destruct (full_step e s) as [s1| |]; [pose proof (IH s1); lia|..]; change (info_count a (@nil NodeInfo)) with 0; lia.
Qed.
End steps.

Lemma started_stats o cfg st : run o cfg = Some (Ok st) -> exists fl, pr_stats (st_prepared st) = newStats fl.
Proof.
  intros (Hp & _)%run_parts. unfold prepare in Hp. invert_outcome.
  match goal with H : mkPrepared _ _ _ _ _ _ _ = _ |- _ => rewrite <- H end. by eexists.
Qed.

Lemma rec_inv_new addr_String : rec_inv addr_String (newShredsBySrcRecorder, [], []).
Proof. exact (rec_run_inv (order := simple_order) (order_laws := simple_order_laws) addr_String []). Qed.

Lemma in_recorder_nonneg addr_String a r acc fl : rec_inv addr_String (r, acc, fl) -> 0 <= in_recorder a r.
Proof.
  intros (Hmp & _ & _). unfold in_recorder, map_count, info_count, zlen.
  destruct (rec_mp r !! a) as [v|] eqn:Hv; [|lia]. apply Hmp in Hv as (_ & _ & ?). lia.
Qed.

(** * Theorems *)

(** C27: the statistics of the whole program.  Over every execution of a started gateway, with
    the goroutines of the statistics and the separate steps of the flush interleaved in any
    way with the receive and send loops, and for every source: each shred that arrived from it
    (a datagram of the registered relay, a captured packet of a known port, a shred of the
    Firedancer monitor, if the parser accepts it) is in exactly one place - in a report, with
    the flush, in the recorder, or lost at a full channel - and so is each that the cache did
    not know.  No source is ever credited with more first-seen shreds than arrived from it.
    When the recording goroutines catch up and the flush makes a round, the reports account
    for everything that was not lost. *)
Theorem program_statistics `{GoOrderLaws} (str_less : string -> string -> bool) (o : outside)
    (cfg : GatewayConfig) (st : started) (addr_String : NetipAddr -> string) (now t : Z)
    (es : list full_event) (f : full) :
  run o cfg = Some (Ok st) ->
  full_run str_less (ip_String o) addr_String (resolve o) es (full_start now st) = Ok f ->
  let count infos a :=
    info_count a (full_along str_less (ip_String o) addr_String (resolve o) infos es (full_start now st)) in
  (forall a, count total_infos a = count total_lost a + in_recorder a (total_rec f)
                                   + flushed_count a (pending f) + flushed_count a (total_reported f))
  /\ (forall a, count unseen_infos a = count unseen_lost a + in_recorder a (unseen_rec f)
                                       + flushed_count a (unseen_reported f))
  /\ (forall a, flushed_count a (unseen_reported f) <= count total_infos a)
  /\ exists f', full_run str_less (ip_String o) addr_String (resolve o) (catch_up t f) f = Ok f'
       /\ forall a, flushed_count a (total_reported f') = count total_infos a - count total_lost a
                    /\ flushed_count a (unseen_reported f') = count unseen_infos a - count unseen_lost a.
Proof.
  intros [fl Hst]%started_stats Hr count.
  assert (total_rec (full_start now st) = newShredsBySrcRecorder
    /\ unseen_rec (full_start now st) = newShredsBySrcRecorder) as [Ht Hu]
    by (unfold total_rec, unseen_rec, sy_stats; cbn; by rewrite Hst).
  pose proof (total_run _ _ _ _ es _ f [] Hr) as It. pose proof (unseen_run _ _ _ _ es _ f [] Hr) as Iu.
  rewrite Ht in It. rewrite Hu in Iu. specialize (It (rec_inv_new _)). specialize (Iu (rec_inv_new _)).
  destruct (caught_up str_less (ip_String o) addr_String (resolve o) t f) as (f' & Hf' & Hp & Hz).
  pose proof (total_run _ _ _ _ _ _ _ _ Hf' It) as It'. pose proof (unseen_run _ _ _ _ _ _ _ _ Hf' Iu) as Iu'.
  rewrite (full_along_nil _ _ _ _ total_taken (catch_up t f)), app_nil_r in It' by
    (intros e s1 [E _]%(catch_up_records t f e s1); unfold total_taken; rewrite E; by case_if).
  rewrite (full_along_nil _ _ _ _ unseen_taken (catch_up t f)), app_nil_r in Iu' by
    (intros e s1 [_ E]%(catch_up_records t f e s1); unfold unseen_taken; rewrite E; by case_if).
  cbn [app] in *.
  assert (forall a, count total_infos a = count total_taken a + count total_lost a) as Ct
    by (intros a; apply (taken_or_lost _ _ _ _ total_infos (fun s => rec_room (total_rec s)))).
  assert (forall a, count unseen_infos a = count unseen_taken a + count unseen_lost a) as Cu
    by (intros a; apply (taken_or_lost _ _ _ _ unseen_infos (fun s => rec_room (unseen_rec s)))).
  pose proof (fun a => in_recorder_nonneg _ a _ _ _ Iu) as Hnn. unfold in_recorder in *.
  destruct It as (_ & _ & It), Iu as (_ & _ & Iu), It' as (_ & _ & It'), Iu' as (_ & _ & Iu').
  setoid_rewrite flushed_count_app in It. rewrite Hp, app_nil_r in It'. split_and!.
  - intros a. specialize (It a). specialize (Ct a). unfold count in *. lia.
  - intros a. specialize (Iu a). specialize (Cu a). unfold count in *. lia.
  - intros a. specialize (Iu a). specialize (Cu a). specialize (Hnn a).
    pose proof (unseen_at_most str_less (ip_String o) addr_String (resolve o) es (full_start now st) a).
    assert (0 <= count unseen_lost a) by (unfold count, info_count, zlen; lia). unfold count in *. lia.
  - exists f'. split; [done|]. intros a. destruct (Hz a) as [Z1 Z2].
    specialize (It' a). specialize (Iu' a). specialize (Ct a). specialize (Cu a). unfold count in *. lia.
Qed.

(** ** The demo gateway with its statistics *)

Definition demo_less (x y : string) : bool := false.

(** Two shreds of the relay, one of them twice, and one of the validator; the flush empties
    the first recorder between the two shreds of the relay. *)
Definition demo_torn : list full_event :=
  [FSys demo_ofr; FTotalRun; FFlushTotal; FSys demo_other_ofr; FUnseenRun; FUnseenRun; FFlushUnseen true].

Definition demo_stats_events : list full_event :=
  demo_torn ++ [FClean 9; FSys demo_ofr; FSys (SyListener (EvPacket 2 demo_good_packet)); FTotalRun].

(** What holds of the full program that the demo command line starts, after the events. *)
Definition demo_full (es : list full_event) (check : full -> bool) : bool :=
  match run (demo_args "c2VjcmV0") demo_run_config with
  | Some (Ok st) =>
      match full_run (H := simple_order) demo_less demo_ip_String demo_addr_String demo_resolve es (full_start 0 st) with
      | Ok f => check f
      | _ => false
      end
  | _ => false
  end.

Lemma demo_full_run es check :
  demo_full es check = true ->
  exists st f, run (demo_args "c2VjcmV0") demo_run_config = Some (Ok st)
    /\ full_run (H := simple_order) demo_less demo_ip_String demo_addr_String demo_resolve es (full_start 0 st) = Ok f
    /\ check f = true.
Proof.
  unfold demo_full. destruct (run _ _) as [[st| |]|]; [|done..].
  destruct (full_run _ _ _ _ _ _) as [f| |] eqn:Hr; [|done..]. intros Hc. by exists st, f.
Qed.

(** The numbers of the first report: of all shreds, of the unseen ones; and how many shreds
    the recorder of all shreds still has. *)
Definition demo_report (f : full) : list (Z * Z) * Z :=
  (map (fun eff => (sum_shreds (fl_total eff), sum_shreds (fl_unseen eff))) (fu_reports f),
   zlen (chan_buf (rec_ch (total_rec f)))).

Example demo_stats : demo_full demo_stats_events (fun f => bool_decide (demo_report f = ([(1, 2)], 2))) = true.
Proof. vm_compute. reflexivity. Qed.

Definition is_torn (f : full) : bool :=
  match fu_reports f with
  | [eff] => match fl_log eff with
             | [row] => bool_decide (totalShreds row = 1) && bool_decide (firstSeenShreds row = 2)
                        && Qeq_bool (kpi row) 2
             | _ => false
             end
  | _ => false
  end.

(** A report is not a snapshot: the recorders are emptied one after the other, and drained by
    separate goroutines.  A started gateway can report a source with one shred, two of which
    were seen first, and a ratio of 2. *)
Theorem flush_torn :
  exists st f eff row,
    run (demo_args "c2VjcmV0") demo_run_config = Some (Ok st)
    /\ full_run (H := simple_order) demo_less demo_ip_String demo_addr_String demo_resolve demo_torn (full_start 0 st)
       = Ok f
    /\ fu_reports f = [eff] /\ fl_log eff = [row]
    /\ totalShreds row = 1 /\ firstSeenShreds row = 2 /\ (kpi row == 2)%Q.
Proof.
  destruct (demo_full_run demo_torn is_torn) as (st & f & Hrun & Hr & Hc); [vm_compute; reflexivity|].
  unfold is_torn in Hc. destruct (fu_reports f) as [|eff [|]] eqn:He; [done| |done].
  destruct (fl_log eff) as [|row [|]] eqn:Hl; [done| |done].
  apply andb_prop in Hc as [[H1 H2]%andb_prop H3]. exists st, f, eff, row.
  apply bool_decide_eq_true in H1, H2. apply Qeq_bool_eq in H3. by split_and!.
Qed.

Lemma program_statistics_witness :
  @GoOrderLaws simple_order /\
  exists st f f',
    run (demo_args "c2VjcmV0") demo_run_config = Some (Ok st) /\ demo_report f = ([(1, 2)], 2)
    /\ full_run (H := simple_order) demo_less demo_ip_String demo_addr_String demo_resolve (catch_up 10 f) f = Ok f'
    /\ forall a, flushed_count a (unseen_reported f) <=
         info_count a (full_along (H := simple_order) demo_less demo_ip_String demo_addr_String demo_resolve
                         total_infos demo_stats_events (full_start 0 st)).
Proof.
  split; [exact simple_order_laws|].
  destruct (demo_full_run demo_stats_events (fun f => bool_decide (demo_report f = ([(1, 2)], 2))))
    as (st & f & Hrun & Hr & Hc); [vm_compute; reflexivity|].
  destruct (@program_statistics simple_order simple_order_laws demo_less (demo_args "c2VjcmV0") demo_run_config st
    demo_addr_String 0 10 demo_stats_events f Hrun Hr) as (_ & _ & Hle & f' & Hf' & _).
  exists st, f, f'. split; [exact Hrun|]. split; [exact (bool_decide_eq_true_1 _ Hc)|]. split; [exact Hf'|exact Hle].
Defined.
